(* ===== verification/_CoqProject ===== *)
-Q . S2P
Prelude.v
Interfaces.v
FlatHashMap.v
Pool.v
MatchingEngine.v
MatchSpec.v
EngineRep.v
EngineRefine.v
Exchange.v
Feed.v
Strategy.v
Bytes.v
Serialize.v
Spsc.v
Ownership.v
Arena.v
Socket.v
Http.v
RestClient.v
Reactor.v
Gateway.v
Mapping.v
Messages.v
Server.v
Shutdown.v
OrderPath.v
Shim.v
Echo.v
Parser.v
Payload.v
HotPath.v
Pipeline.v
Benches.v
Workloads.v
CrossThread.v
Options.v
Double.v
Baselines.v
Clock.v
Stats.v
Schedule.v
Text.v
Tuning.v
Mains.v
PacedMain.v
