(* ===== verification/Prelude.v ===== *)
(** * Verification of the Kalshi trading engine and exchange simulator

    The repository has three parts: the libraries of a low-latency trading client
    ([src/src/]: containers, market data feed, strategy, serialisation, HTTP client), an
    exchange simulator ([src/sim/]: matching engine, HTTP server on an event loop), and
    programs around them ([src/bench/]: the hot path measured in four arrangements;
    [src/experiments/]: echo servers).  A delta of the feed goes from the JSON parser
    through the lock-free queue to a consumer that updates the market's book, evaluates
    the signal, reconciles the open orders and serialises the actions; an order sent over
    HTTP goes through the client, the server's event loop and handlers into the matching
    engine of its market.

    ** Files and sources

    - [Prelude.v]: machine integers at their width with the wrap-around written out, the
      scope [cpp_scope], lemmas on lists, finite maps and modular arithmetic, the hint
      database.  [Interfaces.v]: what the hash map and the pool promise to their clients,
      as type classes of operations and laws ([IndexOps]/[IndexLaws],
      [PoolOps]/[PoolLaws]).
    - Containers ([src/src/core/]): [FlatHashMap.v] (Robin Hood table), [Pool.v] (intrusive
      free list), [Arena.v] (bump allocator), [Spsc.v] (single-producer single-consumer
      ring).  The first two discharge the classes of [Interfaces.v].
    - Matching engine ([src/sim/domain/matching_engine.*]): [MatchingEngine.v] is the
      pointer program (orders are blocks of the pool's memory linked in lists, levels are
      arrays, a state and error monad); [MatchSpec.v] is the abstract price-time-priority
      book; [EngineRep.v] the representation invariant; [EngineRefine.v] the refinement,
      proved against the interfaces; [Exchange.v] the exchange with the real containers.
    - Feed and strategy ([src/src/feed/], [src/src/strategy/]): [Feed.v], [Parser.v],
      [Strategy.v]; [Serialize.v] for [src/src/net/serialize.cpp].
    - HTTP ([src/src/net/rest_client.*], [src/sim/http/], [src/sim/reactor.*],
      [src/sim/main.cpp]): [Bytes.v] (the part of [std::string] that is used), [Socket.v]
      (system calls as scripts of outcomes, the table of open descriptors), [Http.v],
      [RestClient.v], [Reactor.v], [Gateway.v] (registry and handlers), [Server.v]
      (callbacks, set-up, [main]), [Shutdown.v] (constructor and destructor of the reactor,
      the descriptors at the end); [Shim.v] for [src/sim/compat/epoll_shim.h].
      [Messages.v] has the JSON texts that pass between client and server and what
      simdjson promises about them, and [OrderPath.v] composes serialiser, client, server,
      handler and engine for one order.
    - Memory: [Mapping.v] has the constructors and destructors of the three containers,
      of the engine and of the registry, over the mapped pages of the process;
      [Ownership.v] the ring with elements that own a resource, with the pushes and pops
      that treat them differently.
    - Programs: [HotPath.v] (dispatch, one tick of a market, histogram), [Payload.v] (the
      synthetic payloads), [Pipeline.v] (the producer, consumer and main threads common
      to three benchmarks, as a transition system over schedules), [Benches.v] (the four
      hot-path benchmarks), [Options.v] (the command line of the paced one), [Schedule.v]
      (its arrival times), [Stats.v] (percentiles, histogram, throughput), [Tuning.v]
      ([src/src/system/tuning.cpp], the counting [operator new]), [Mains.v] and
      [PacedMain.v] (the four [main] functions up to the bytes they print and dump),
      [Workloads.v] (the bodies of the microbenchmarks, over the interfaces),
      [Baselines.v] (what they are compared with: [malloc], [std::list], [std::queue]),
      [CrossThread.v] (the two-thread queue benchmarks, over a class of channels),
      [Echo.v] ([src/experiments/]).
    - Floating point and text: [Double.v] (binary64 on the standard library's SpecFloat,
      with the value of each operation as an integer multiple of [2 ^ -1074], rounded to
      even), [Clock.v] ([src/src/core/clock.h]), [Text.v] ([printf] as far as it is used,
      read from the format strings of the source, and binary dumps).

    ** How code is modelled

    State is a record with the fields of the class, an operation is a function on it.
    [option] marks undefined behaviour, [abort] or a loop out of fuel; [outcome] adds
    exceptions and waiting.  Unsigned integers are integers reduced modulo [2 ^ w] at each
    operation; signed overflow is undefined.  Pointers are integers and memory is a finite
    map.  The two threads of the ring are a step relation with one step per access to
    shared memory in which an acquire load may return any value not older than the last
    one seen; the threads of the benchmarks take whole queue operations as steps, which
    the theorems on the ring justify.  simdjson ([Json] with [JsonLaws], [DeltaJson]) and
    kqueue ([Kqueue]) are parameters with their documented behaviour as hypotheses, and
    have instances that satisfy them; [mmap] grants any pages that are free, or fails.

    ** What the theorems show

    - The engine refines the abstract exchange for every sequence of requests with
      quantities up to 2,097,151 and cancelled ids below [2 ^ 64 - 1] ([request_ok]), and so
      has conservation of quantity, price and time priority, limit prices, an uncrossed
      book, exact best prices, and exact rejection and cancellation ([Exchange.v]).
    - The hash map refines finite maps (sentinel key and insertions into a full table
      apart), the pool never hands a block out twice, the arena's regions are disjoint as
      long as sizes do not wrap, the ring is a FIFO under every interleaving, free of races
      and wait-free.
    - The book is the sum of its deltas; the parser accepts exactly the valid messages;
      reconciliation converges in one round, and an exchange that carries out its actions
      holds exactly the orders the manager records; the wire format can be read back.
    - Requests and responses survive any fragmentation, a request is served exactly once
      (its response cut off where a write fails), and no input drives the simulator into
      undefined behaviour; its descriptors neither leak nor are closed twice while it runs,
      and its destructors leave open only connections that never sent a byte; the shim keeps
      the interest list of epoll for descriptors that are read from, and passes on the
      errors of kqueue.
    - An order posted by a client is executed once on its market and the client reads the
      result of the abstract exchange, however the bytes are cut; what the client's own
      serialiser writes is refused, since the two ends spell the sides differently.
    - The pages of the registry's engines are apart from each other, none leaks, and the
      destructors unmap exactly what was mapped; the ring loses no resource of its elements
      as long as they are moved out of it.
    - The benchmarks: under every schedule the two-thread programs compute what one thread
      computes, no step is undefined, no thread measures before both have warmed up,
      and every fair schedule ends.  The times a run reads are functions of its schedule
      ([Pipeline.finish_times], [ready_times], [release_times]); the latencies are exactly
      the finishing times minus the times at which messages were made ready or, in the paced
      benchmark, minus the scheduled arrivals.  From [main] on the four programs end, the
      arrival times never go back, the percentiles are samples within one of the exact rank,
      and the table, the histogram and the dump read back as those of the latencies.  The
      map workloads do the same on the flat map and on [std::unordered_map], and what one
      thread sends through the ring or the locked queue the other gets, in order.
    - Where the code does less than it means to, a theorem or lemma shows the behaviour
      (descriptor reuse within a batch, a refused insertion that loses a key, the sentinel
      key in the map and in [cancel], 32-bit level totals, arena sizes that wrap and
      alignments above a page, negative levels, an unguarded [stoi], descriptors closed
      twice on failed set-up, write-only registrations of the shim, holes in an echo, a rate
      that is not a number, orders the exchange cannot read, elements lost to an
      emplacement).

    ** Fuel and bounds

    Probing loops of the hash map have one step per slot and the invariant shows that they
    end before; the header loop of [parse_request] has one more than the length of the
    buffer; the level scan of the engine is structural in the price, and its matching loop
    has one step per order of the level; the bucket loop has 64 steps; the
    readers of [Messages.v] have one per byte.  Each is proved to be enough.  [42000000]
    messages in [Benches.v] is how many payloads, of at most 50 contracts each, keep every
    level within 32 bits; the programs send 1010000.  A schedule of [7 * n + 4] rounds, in
    each of which every thread runs, is enough for [n] messages.
    Decimal rendering has room for 400 digits, more than any double needs.

    ** Not modelled

    Name resolution, the delete operators of the benchmarks, the diagnostics of the
    experiments, exhaustion of the heap, signals (a write to a connection that the peer has
    reset is an error; the [SIGPIPE] that goes with it is not modelled), and the choice of
    outcomes by the kernel, which is universally quantified.  Each helper that the
    benchmarks repeat (the counting [operator new], the generator, the percentiles) is
    modelled once.  [std::log], [std::atof], [malloc] and the thread library are parameters;
    the readings of the clocks are arguments.  The microbenchmark framework with its timing
    is not part of the sources.  The files for authentication, WebSockets, accounts,
    scenarios, logging and rate limiting are empty or declarations only. *)

From stdpp Require Import gmap list strings numbers.
Open Scope Z_scope.

(** ** Machine integers

    Unsigned integers of width [w] are integers in [0, 2^w); C++ arithmetic on
    them wraps. *)
Definition wrap (w x : Z) : Z := x mod 2 ^ w.

Declare Scope cpp_scope.
Delimit Scope cpp_scope with cpp.
Abbreviation u8 := (wrap 8).
Abbreviation u32 := (wrap 32).
Abbreviation u64 := (wrap 64).
Notation "x +64 y" := (wrap 64 (x + y)) (at level 50, left associativity) : cpp_scope.
Notation "x -64 y" := (wrap 64 (x - y)) (at level 50, left associativity) : cpp_scope.
Notation "x *64 y" := (wrap 64 (x * y)) (at level 40, left associativity) : cpp_scope.
Notation "x +32 y" := (wrap 32 (x + y)) (at level 50, left associativity) : cpp_scope.
Notation "x -32 y" := (wrap 32 (x - y)) (at level 50, left associativity) : cpp_scope.
Notation "x +8 y" := (wrap 8 (x + y)) (at level 50, left associativity) : cpp_scope.
Notation "x -8 y" := (wrap 8 (x - y)) (at level 50, left associativity) : cpp_scope.

(** [fits w x]: the value is representable in an unsigned integer of width [w];
    [fits_i w x]: in a signed one. *)
Definition fits (w x : Z) : Prop := 0 <= x < 2 ^ w.
Definition fits_i (w x : Z) : Prop := - 2 ^ (w - 1) <= x < 2 ^ (w - 1).

Global Instance fits_dec w x : Decision (fits w x).
Proof. unfold fits. apply _. Defined.
Global Instance fits_i_dec w x : Decision (fits_i w x).
Proof. unfold fits_i. apply _. Defined.

(** ** Automation *)
Create HintDb kalshi discriminated.
Create Rewrite HintDb kalshi_len.

(** Split every boolean integer comparison of the goal and the context. *)
Ltac zsplit_step :=
  match goal with
  | |- context [ (?a =? ?b) ] => destruct (Z.eqb_spec a b)
  | |- context [ (?a <=? ?b) ] => destruct (Z.leb_spec a b)
  | |- context [ (?a <? ?b) ] => destruct (Z.ltb_spec a b)
  | H : context [ (?a =? ?b) ] |- _ => destruct (Z.eqb_spec a b)
  | H : context [ (?a <=? ?b) ] |- _ => destruct (Z.leb_spec a b)
  | H : context [ (?a <? ?b) ] |- _ => destruct (Z.ltb_spec a b)
  end.
Ltac zsplit := repeat (zsplit_step; simpl in *; try congruence; try lia).

(** Destruct the option bound by a monadic [≫=] hypothesis. *)
Ltac bind_inv H :=
  repeat (apply bind_Some in H as (? & ? & H)); simplify_eq/=.

Lemma wrap_small w x : fits w x -> wrap w x = x.
Proof. unfold fits, wrap. intros. by apply Z.mod_small. Qed.

Lemma wrap_fits w x : 0 <= w -> fits w (wrap w x).
Proof.
  unfold fits, wrap. intros. apply Z.mod_pos_bound.
  apply Z.pow_pos_nonneg; lia.
Qed.

Lemma wrap_nonneg w x : 0 <= w -> 0 <= wrap w x.
Proof. intros. by apply wrap_fits. Qed.

(** ** Bit operations keep the width *)
Lemma lxor_fits a b : fits 64 a -> fits 64 b -> fits 64 (Z.lxor a b).
Proof.
  unfold fits. intros Ha Hb. assert (0 <= Z.lxor a b) as H0 by (apply Z.lxor_nonneg; lia). split; [done|].
  destruct (decide (Z.lxor a b = 0)) as [->|Hne]; [lia|]. apply Z.log2_lt_pow2; [lia|].
  pose proof (Z.log2_lxor a b ltac:(lia) ltac:(lia)).
  assert (forall x, 0 <= x < 2 ^ 64 -> Z.log2 x < 64) as Hl.
  { intros x Hx. destruct (decide (x = 0)) as [->|]; [simpl; lia|]. apply Z.log2_lt_pow2; lia. }
  pose proof (Hl a Ha). pose proof (Hl b Hb). lia.
Qed.

Lemma shiftr_fits x k : 0 <= k -> fits 64 x -> fits 64 (Z.shiftr x k).
Proof.
  unfold fits. intros Hk Hx. rewrite Z.shiftr_div_pow2 by lia. pose proof (Z.pow_pos_nonneg 2 k ltac:(lia) Hk).
  split; [apply Z.div_pos; lia|]. apply Z.div_lt_upper_bound; nia.
Qed.

(** ** Power-of-two masks: [x & (2^k - 1)] is [x mod 2^k]. *)
Lemma land_mask k x : 0 <= k -> Z.land x (2 ^ k - 1) = x mod 2 ^ k.
Proof.
  intros. rewrite <- Z.land_ones by done. f_equal.
  rewrite Z.ones_equiv. lia.
Qed.

Lemma mod_wrap k w x : 0 <= k <= w -> (wrap w x) mod 2 ^ k = x mod 2 ^ k.
Proof.
  intros. unfold wrap. apply Z.mod_mod_divide.
  exists (2 ^ (w - k)). rewrite <- Z.pow_add_r by lia. f_equal. lia.
Qed.

(** Masking after a wrapping operation is plain modular arithmetic, because a
    power of two of at most [w] bits divides [2^w]. *)
Lemma land_mask_wrap k w x :
  0 <= k <= w -> Z.land (wrap w x) (2 ^ k - 1) = x mod 2 ^ k.
Proof. intros. rewrite land_mask by lia. by apply mod_wrap. Qed.

(** The [static_assert]s on the capacity of [FlatHashMap] and [SPSCQueue]. *)
Definition capacity_asserts (cap : Z) : bool := (Z.land cap (wrap 64 (cap - 1)) =? 0) && (0 <? cap).

(** They admit the powers of two, which is how the capacities are given below. *)
Lemma capacity_asserts_spec cap : fits 64 cap ->
  capacity_asserts cap = true <-> exists k, 0 <= k <= 63 /\ cap = 2 ^ k.
Proof.
  intros Hf. unfold capacity_asserts. rewrite andb_true_iff, Z.eqb_eq, Z.ltb_lt. unfold fits in Hf. split.
  - intros [Hl Hp]. rewrite wrap_small in Hl by (unfold fits; lia). exists (Z.log2 cap).
    pose proof (Z.log2_spec cap Hp) as Hb. pose proof (Z.log2_nonneg cap).
    assert (Z.log2 cap < 64) by (apply Z.log2_lt_pow2; lia). split; [lia|].
    destruct (decide (cap = 2 ^ Z.log2 cap)) as [|Hne]; [done|]. exfalso.
    assert (Z.log2 (cap - 1) = Z.log2 cap) as Hlog by (apply Z.log2_unique; lia).
    assert (Z.testbit (Z.land cap (cap - 1)) (Z.log2 cap) = true) as Ht.
    { rewrite Z.land_spec, Z.bit_log2 by done. rewrite <- Hlog. apply Z.bit_log2. lia. }
    rewrite Hl in Ht. by rewrite Z.bits_0 in Ht.
  - intros (k & Hk & ->). assert (0 < 2 ^ k) by (apply Z.pow_pos_nonneg; lia). split; [|done].
    rewrite wrap_small by (unfold fits; lia). rewrite land_mask by lia. apply Z.mod_same. lia.
Qed.

(** ** Circular distances *)
Section circular.
  Context (C : Z) (HC : 0 < C).

Lemma mod_succ_cases a :
  (a + 1) mod C = if decide (a mod C = C - 1) then 0 else a mod C + 1.
Proof.
  pose proof (Z.mod_pos_bound a C HC).
  rewrite <- Zplus_mod_idemp_l. case_decide as E.
  - rewrite E. replace (C - 1 + 1) with C by lia. by rewrite Z.mod_same by lia.
  - apply Z.mod_small. lia.
Qed.

Lemma mod_sub_add a b : (b + (a - b) mod C) mod C = a mod C.
Proof. rewrite Zplus_mod_idemp_r. f_equal. lia. Qed.

Lemma mod_sub_inj a b c :
  0 <= a < C -> 0 <= b < C -> (a - c) mod C = (b - c) mod C -> a = b.
Proof.
  intros Ha Hb E. rewrite <- (Z.mod_small a C), <- (Z.mod_small b C) by done.
  rewrite <- (mod_sub_add a c), <- (mod_sub_add b c). by rewrite E.
Qed.
End circular.

(** ** List facts shared by the components *)
Section lists.
  Context {A : Type}.
  Implicit Types l : list A.

Lemma filter_Forall_id (P : A -> Prop) `{!forall x, Decision (P x)} l :
  Forall P l -> filter P l = l.
Proof.
  induction 1 as [|x l Hx _ IH]; [done|]. by rewrite filter_cons_True, IH.
Qed.

Lemma elem_of_lookup_total `{!Inhabited A} l i :
  (i < length l)%nat -> l !!! i ∈ l.
Proof.
  intros Hi. apply list_elem_of_lookup_2 with i. by apply list_lookup_lookup_total_lt.
Qed.
End lists.

Global Hint Rewrite @length_insert @length_app @length_replicate : kalshi_len.
