(* ===== verification/Interfaces.v ===== *)
(** * Interfaces between components

    The matching engine reaches its two data structures only through the
    operations below.  [IndexOps]/[IndexLaws] is what [FlatHashMap] promises to
    its clients and [PoolOps]/[PoolLaws] is what [Pool] promises; the engine's
    theorems are proved against these classes, and [FlatHashMap.v] and [Pool.v]
    provide the instances. *)
From stdpp Require Import gmap list numbers.
From S2P Require Import Prelude.
Open Scope Z_scope.

(** ** A bounded index from 64-bit keys to values

    Every operation returns [None] when the implementation's loop does not
    terminate; the laws exclude it. *)
Class IndexOps (T V : Type) := {
  idx_make : T;
  idx_insert : T -> Z -> V -> option (bool * T);
  idx_find : T -> Z -> option (option V);
  idx_erase : T -> Z -> option (bool * T);
}.

Class IndexLaws (T V : Type) `{!IndexOps T V} := {
  (** how many keys fit, and which keys may be stored *)
  idx_capacity : Z;
  idx_key_ok : Z -> Prop;
  idx_view : T -> gmap Z V;
  idx_inv : T -> Prop;
  idx_make_ok : idx_inv idx_make /\ idx_view idx_make = ∅;
  idx_insert_ok t k v :
    idx_inv t -> idx_key_ok k ->
    is_Some (idx_view t !! k) \/ Z.of_nat (size (idx_view t)) < idx_capacity ->
    exists t', idx_insert t k v = Some (true, t') /\ idx_inv t' /\
      idx_view t' = <[k := v]> (idx_view t);
  idx_find_ok t k :
    idx_inv t -> idx_key_ok k -> idx_find t k = Some (idx_view t !! k);
  idx_erase_ok t k :
    idx_inv t -> idx_key_ok k ->
    exists t', idx_erase t k = Some (bool_decide (is_Some (idx_view t !! k)), t') /\
      idx_inv t' /\ idx_view t' = delete k (idx_view t);
}.

(** An index that has room for [n] entries under any key below [2^64 - 1]. *)
Class IndexRoom (T V : Type) `{!IndexOps T V} `{!IndexLaws T V} (n : Z) := {
  room_key k : 0 <= k < 2 ^ 64 - 1 -> idx_key_ok k;
  room_capacity : n <= idx_capacity;
}.

(** ** An intrusive pool of blocks

    The pool shares the memory [gmap Z T] of its blocks with its client: a free
    block's first word is the pool's link.  [Overlay] is that reinterpretation
    of the first word of a [T]. *)
Class Overlay (T : Type) := {
  link_get : T -> Z;
  link_set : Z -> T -> T;
  link_get_set p x : link_get (link_set p x) = p;
}.

(** [None] is an access outside the mapped memory. *)
Class PoolOps (P T : Type) := {
  pool_allocate : gmap Z T -> P -> option (Z * P);
  pool_deallocate : gmap Z T -> P -> Z -> option (gmap Z T * P);
}.

Class PoolLaws (P T : Type) `{!PoolOps P T} := {
  (** [pool_free m p fl]: the free blocks, the next one to allocate first *)
  pool_free : gmap Z T -> P -> list Z -> Prop;
  pool_free_ok m p fl a : pool_free m p fl -> a ∈ fl -> a ≠ 0 /\ is_Some (m !! a);
  pool_allocate_nil m p : pool_free m p [] -> pool_allocate m p = Some (0, p);
  pool_allocate_cons m p a fl :
    pool_free m p (a :: fl) ->
    exists p', pool_allocate m p = Some (a, p') /\ pool_free m p' fl;
  pool_deallocate_ok m p fl a :
    pool_free m p fl -> a ≠ 0 -> a ∉ fl -> is_Some (m !! a) ->
    exists m' p', pool_deallocate m p a = Some (m', p') /\ pool_free m' p' (a :: fl) /\
      is_Some (m' !! a) /\ forall b, b ≠ a -> m' !! b = m !! b;
  (** writes to blocks that are not free do not disturb the pool *)
  pool_free_frame m m' p fl :
    pool_free m p fl -> (forall a, a ∈ fl -> m' !! a = m !! a) -> pool_free m' p fl;
}.
