(* ===== verification/FlatHashMap.v ===== *)
(** * [src/core/flat_hash_map.h]: the Robin Hood hash map

    [FlatHashMap<Key, Value, Capacity>] at [Key = uint64_t], the key type of
    every instance in the repository.  The slot array is a list of [Slot]s, a
    position in it is the integer the code computes, and the three probing
    loops are fixpoints with fuel that return [None] when the fuel runs out.
    The file proves that with the invariant [wf] the loops return, and that
    the map behaves as a finite map from keys to values. *)
From stdpp Require Import gmap list numbers.
From S2P Require Import Prelude Interfaces.
Open Scope Z_scope.
Open Scope cpp_scope.

Module Fhm.

(** ** The data *)
Record Slot (V : Type) := mkSlot { key : Z; value : V }.
Arguments mkSlot {V} _ _.
Arguments key {V} _.
Arguments value {V} _.

Global Instance Slot_inhabited {V} `{!Inhabited V} : Inhabited (Slot V) :=
  populate (mkSlot 0 inhabitant).

Record FlatHashMap (V : Type) := mkMap { slots_ : list (Slot V); size_ : Z }.
Arguments mkMap {V} _ _.
Arguments slots_ {V} _.
Arguments size_ {V} _.

(** The sentinel [static_cast<Key>(-1)]. *)
Definition EMPTY : Z := 2 ^ 64 - 1.

(** The splitmix64 finaliser. *)
Definition hash_ (key : Z) : Z :=
  let x := u64 key in
  let x := Z.lxor x (Z.shiftr x 30) in
  let x := x *64 0xbf58476d1ce4e5b9 in
  let x := Z.lxor x (Z.shiftr x 27) in
  let x := x *64 0x94d049bb133111eb in
  Z.lxor x (Z.shiftr x 31).

Section operations.
  Context {V : Type} `{!Inhabited V}.
  (** [Capacity = 2^cap_log]: the [static_assert]s demand a power of two. *)
  Context (cap_log : Z).

Definition Capacity : Z := 2 ^ cap_log.
Definition mask_ : Z := Capacity - 1.

Definition home (key : Z) : Z := Z.land (hash_ key) mask_.

Definition probe_distance_ (key pos : Z) : Z := Z.land (pos -64 hash_ key) mask_.

(** [(pos + 1) & mask_] *)
Definition next_pos (pos : Z) : Z := Z.land (pos +64 1) mask_.

Definition slot_at (s : list (Slot V)) (pos : Z) : Slot V := s !!! Z.to_nat pos.
Definition key_at (s : list (Slot V)) (pos : Z) : Z := key (slot_at s pos).
Definition set_slot (s : list (Slot V)) (pos : Z) (x : Slot V) : list (Slot V) :=
  <[Z.to_nat pos := x]> s.

(** The constructor: zeroed memory from [mmap], then every key set to [EMPTY].
    [inhabitant] is the value whose bytes are all zero; an instantiation says which. *)
Definition make : FlatHashMap V :=
  mkMap (replicate (Z.to_nat Capacity) (mkSlot EMPTY inhabitant)) 0.

(** The loop of [insert]: the result is the returned flag, the slots, and
    whether the final store filled an empty slot. *)
Fixpoint insert_loop (fuel : nat) (s : list (Slot V)) (k : Z) (v : V)
    (pos ctr dist : Z) : option (bool * list (Slot V) * bool) :=
  match fuel with
  | O => None
  | S fuel =>
    if negb (key_at s pos =? EMPTY) && negb (key_at s pos =? k) then
      let ctr := ctr +64 1 in
      if ctr =? Capacity then Some (false, s, false)
      else
        let resident_dist := probe_distance_ (key_at s pos) pos in
        if resident_dist <? dist then
          insert_loop fuel (set_slot s pos (mkSlot k v))
            (key_at s pos) (value (slot_at s pos))
            (next_pos pos) ctr (resident_dist +64 1)
        else insert_loop fuel s k v (next_pos pos) ctr (dist +64 1)
    else
      let inserting_new := key_at s pos =? EMPTY in
      Some (true, set_slot s pos (mkSlot k v), inserting_new)
  end.

Definition insert (m : FlatHashMap V) (key : Z) (v : V) : option (bool * FlatHashMap V) :=
  '(ok, s, inserting_new) ←
     insert_loop (Z.to_nat Capacity) (slots_ m) key v (home key) 0 0;
  Some (ok, mkMap s (if (inserting_new : bool) then size_ m +64 1 else size_ m)).

(** The search loop shared by [find] and [erase]; [Some None] is [nullptr]. *)
Fixpoint find_loop (fuel : nat) (s : list (Slot V)) (key pos ctr : Z)
    : option (option Z) :=
  match fuel with
  | O => None
  | S fuel =>
    if negb (key_at s pos =? key) then
      if (key_at s pos =? EMPTY) || (ctr =? Capacity) then Some None
      else find_loop fuel s key (next_pos pos) (ctr +64 1)
    else Some (Some pos)
  end.

(** [find] returns the position of the slot whose value the pointer designates. *)
Definition find (m : FlatHashMap V) (key : Z) : option (option Z) :=
  find_loop (S (Z.to_nat Capacity)) (slots_ m) key (home key) 0.

(** The value behind the pointer [find] returned. *)
Definition deref (m : FlatHashMap V) (pos : Z) : V := value (slot_at (slots_ m) pos).

(** [find] and the load through the pointer it returned, as every caller does. *)
Definition find_value (m : FlatHashMap V) (key : Z) : option (option V) :=
  slot ← find m key;
  Some (match slot with Some pos => Some (deref m pos) | None => None end).

(** The backshift loop of [erase]. *)
Fixpoint backshift_loop (fuel : nat) (s : list (Slot V)) (pos next : Z)
    : option (list (Slot V)) :=
  match fuel with
  | O => None
  | S fuel =>
    if negb (key_at s next =? EMPTY) then
      if probe_distance_ (key_at s next) next =? 0 then Some s
      else
        let s := set_slot s pos (slot_at s next) in
        let s := set_slot s next (mkSlot EMPTY (value (slot_at s next))) in
        backshift_loop fuel s next (next_pos next)
    else Some s
  end.

Definition erase (m : FlatHashMap V) (key : Z) : option (bool * FlatHashMap V) :=
  found ← find_loop (S (Z.to_nat Capacity)) (slots_ m) key (home key) 0;
  match found with
  | None => Some (false, m)
  | Some pos =>
    let s := set_slot (slots_ m) pos (mkSlot EMPTY (value (slot_at (slots_ m) pos))) in
    s ← backshift_loop (Z.to_nat Capacity) s pos (next_pos pos);
    Some (true, mkMap s (size_ m -64 1))
  end.

Definition size (m : FlatHashMap V) : Z := size_ m.
Definition empty (m : FlatHashMap V) : bool := size_ m =? 0.
Definition capacity : Z := Capacity.

(** ** The abstraction: the finite map a slot array stands for *)
Definition entries (s : list (Slot V)) : list (Z * V) :=
  (fun x => (key x, value x)) <$> filter (fun x => key x ≠ EMPTY) s.
Definition to_map (s : list (Slot V)) : gmap Z V := list_to_map (entries s).
Definition view (m : FlatHashMap V) : gmap Z V := to_map (slots_ m).

(** ** The Robin Hood invariant

    A slot array is seen through its probe distances: [dist_at s p] is [None]
    for an empty slot and otherwise the distance of the resident from its
    home. *)
Definition dist_at (s : list (Slot V)) (p : Z) : option Z :=
  if key_at s p =? EMPTY then None else Some (probe_distance_ (key_at s p) p).

Definition in_range (p : Z) : Prop := 0 <= p < Capacity.

(** Distances grow by at most one from a slot to the next, and a resident away
    from its home is preceded by a resident. *)
Definition robin_hood (D : Z -> option Z) : Prop :=
  forall p d, in_range p -> D (next_pos p) = Some d -> 0 < d ->
    exists e, D p = Some e /\ d <= e + 1.

(** Some slot is empty or holds a resident at its home: what makes the
    backshift of [erase] stop. *)
Definition anchored (D : Z -> option Z) : Prop :=
  exists q, in_range q /\ (D q = None \/ D q = Some 0).

Definition unique_keys (s : list (Slot V)) : Prop :=
  forall p q, in_range p -> in_range q -> key_at s p ≠ EMPTY ->
    key_at s p = key_at s q -> p = q.

Record wf_slots (s : list (Slot V)) : Prop := {
  wf_length : length s = Z.to_nat Capacity;
  wf_unique : unique_keys s;
  wf_robin_hood : robin_hood (dist_at s);
}.

Record wf (m : FlatHashMap V) : Prop := {
  wf_slots_ : wf_slots (slots_ m);
  wf_anchored : anchored (dist_at (slots_ m));
  wf_size : size_ m = Z.of_nat (base.size (view m));
}.

End operations.
Arguments view {V} _.

(** ** Positions and distances *)
Section proofs.
  Context {V : Type} `{!Inhabited V}.
  Context (cap_log : Z) (Hcap : 0 <= cap_log <= 63).

  Abbreviation Capacity := (Capacity cap_log).
  Abbreviation home := (home cap_log).
  Abbreviation next_pos := (next_pos cap_log).
  Abbreviation probe_distance_ := (probe_distance_ cap_log).
  Abbreviation in_range := (in_range cap_log).
  Abbreviation dist_at := (dist_at cap_log).
  Abbreviation robin_hood := (robin_hood cap_log).
  Abbreviation anchored := (anchored cap_log).
  Abbreviation unique_keys := (unique_keys cap_log).
  Abbreviation wf_slots := (wf_slots cap_log).
  Abbreviation wf := (wf cap_log).
  Implicit Types s : list (Slot V).
  Implicit Types D : Z -> option Z.

Lemma Capacity_pos : 0 < Capacity.
Proof. apply Z.pow_pos_nonneg; lia. Qed.

Lemma Capacity_lt : Capacity < 2 ^ 64.
Proof. apply Z.pow_lt_mono_r; lia. Qed.

Local Hint Resolve Capacity_pos : core.

Lemma home_mod k : home k = hash_ k mod Capacity.
Proof. apply land_mask; lia. Qed.

Lemma home_in_range k : in_range (home k).
Proof. unfold in_range. rewrite home_mod. by apply Z.mod_pos_bound. Qed.

Lemma next_pos_mod p : next_pos p = (p + 1) mod Capacity.
Proof. apply land_mask_wrap; lia. Qed.

Lemma next_pos_in_range p : in_range (next_pos p).
Proof. unfold in_range. rewrite next_pos_mod. by apply Z.mod_pos_bound. Qed.

Lemma probe_distance_mod k p : probe_distance_ k p = (p - home k) mod Capacity.
Proof.
  unfold Fhm.probe_distance_, mask_, Fhm.Capacity. rewrite land_mask_wrap by lia.
  rewrite home_mod. unfold Fhm.Capacity. by rewrite Zminus_mod_idemp_r.
Qed.

Lemma probe_distance_range k p : 0 <= probe_distance_ k p < Capacity.
Proof. rewrite probe_distance_mod. by apply Z.mod_pos_bound. Qed.

Lemma probe_distance_home k : probe_distance_ k (home k) = 0.
Proof. rewrite probe_distance_mod, Z.sub_diag. apply Z.mod_0_l. pose proof Capacity_pos; lia. Qed.

Lemma probe_distance_next k p :
  probe_distance_ k p < Capacity - 1 ->
  probe_distance_ k (next_pos p) = probe_distance_ k p + 1.
Proof.
  rewrite !probe_distance_mod, next_pos_mod. intros H.
  rewrite Zminus_mod_idemp_l. replace (p + 1 - home k) with (p - home k + 1) by lia.
  rewrite mod_succ_cases by done. case_decide; lia.
Qed.

Lemma probe_distance_prev k p :
  0 < probe_distance_ k (next_pos p) ->
  probe_distance_ k p = probe_distance_ k (next_pos p) - 1.
Proof.
  rewrite !probe_distance_mod, next_pos_mod.
  rewrite Zminus_mod_idemp_l. replace (p + 1 - home k) with (p - home k + 1) by lia.
  rewrite mod_succ_cases by done. case_decide; lia.
Qed.

Lemma probe_distance_zero k p :
  in_range p -> probe_distance_ k p = 0 -> p = home k.
Proof.
  intros Hp H. rewrite <- (probe_distance_home k), !probe_distance_mod in H.
  apply mod_sub_inj in H; [done..|apply home_in_range].
Qed.

Lemma next_pos_inj p q : in_range p -> in_range q -> next_pos p = next_pos q -> p = q.
Proof.
  rewrite !next_pos_mod. intros Hp Hq H.
  apply (mod_sub_inj Capacity p q (-1)); [done..|].
  replace (p - -1) with (p + 1) by lia. by replace (q - -1) with (q + 1) by lia.
Qed.

Lemma next_pos_self p : in_range p -> next_pos p = p -> Capacity = 1.
Proof.
  rewrite next_pos_mod. intros Hp. rewrite mod_succ_cases by done.
  rewrite Z.mod_small by done. case_decide; unfold Fhm.in_range in *; lia.
Qed.

(** The gap from [p] forward to [q] shrinks by one at each step. *)
Definition gap (p q : Z) : Z := (q - p) mod Capacity.

Lemma gap_range p q : 0 <= gap p q < Capacity.
Proof. by apply Z.mod_pos_bound. Qed.

Lemma gap_zero p q : in_range p -> in_range q -> gap p q = 0 -> p = q.
Proof.
  unfold gap. intros Hp Hq H. symmetry.
  apply (mod_sub_inj Capacity q p p); [done..|].
  by rewrite H, Z.sub_diag, Z.mod_0_l by (pose proof Capacity_pos; lia).
Qed.

Lemma gap_next p q : gap p q ≠ 0 -> gap (next_pos p) q = gap p q - 1.
Proof.
  unfold gap. rewrite next_pos_mod, Zminus_mod_idemp_r. intros H.
  pose proof (Z.mod_pos_bound (q - p) Capacity Capacity_pos).
  rewrite <- (Z.mod_small ((q - p) mod Capacity - 1) Capacity) by lia.
  rewrite Zminus_mod_idemp_l. f_equal. lia.
Qed.

(** ** Lookups after a slot update *)
Lemma slot_at_set s p q x :
  length s = Z.to_nat Capacity -> in_range p -> in_range q ->
  slot_at (set_slot s p x) q = if decide (q = p) then x else slot_at s q.
Proof.
  intros Hl Hp Hq. unfold slot_at, set_slot, Fhm.in_range in *. case_decide; subst.
  - apply list_lookup_total_insert_eq. lia.
  - apply list_lookup_total_insert_ne. lia.
Qed.

Lemma key_at_set s p q x :
  length s = Z.to_nat Capacity -> in_range p -> in_range q ->
  key_at (set_slot s p x) q = if decide (q = p) then key x else key_at s q.
Proof. intros. unfold key_at. rewrite slot_at_set by done. by case_decide. Qed.

Lemma dist_at_set s p q x :
  length s = Z.to_nat Capacity -> in_range p -> in_range q ->
  dist_at (set_slot s p x) q =
    if decide (q = p)
    then (if key x =? EMPTY then None else Some (probe_distance_ (key x) p))
    else dist_at s q.
Proof.
  intros. unfold Fhm.dist_at. rewrite key_at_set by done. case_decide; by subst.
Qed.

Lemma length_set_slot s p x : length (set_slot s p x) = length s.
Proof. apply length_insert. Qed.

Lemma dist_at_Some s p d :
  dist_at s p = Some d -> key_at s p ≠ EMPTY /\ d = probe_distance_ (key_at s p) p.
Proof. unfold Fhm.dist_at. intros. zsplit; naive_solver. Qed.

Lemma dist_at_None s p : dist_at s p = None <-> key_at s p = EMPTY.
Proof. unfold Fhm.dist_at. zsplit; naive_solver. Qed.

Lemma dist_at_occupied s p :
  key_at s p ≠ EMPTY -> dist_at s p = Some (probe_distance_ (key_at s p) p).
Proof. unfold Fhm.dist_at. intros. zsplit. Qed.

(** ** The map a slot array stands for *)
Lemma elem_of_entries s k v :
  (k, v) ∈ entries s <-> k ≠ EMPTY /\ mkSlot k v ∈ s.
Proof.
  unfold entries. rewrite list_elem_of_fmap. split.
  - intros ([k' v'] & [= -> ->] & [H ?]%list_elem_of_filter). done.
  - intros [Hk Hin]. exists (mkSlot k v). split; [done|].
    by apply list_elem_of_filter.
Qed.

Lemma elem_of_slots s x :
  length s = Z.to_nat Capacity ->
  x ∈ s <-> exists p, in_range p /\ slot_at s p = x.
Proof.
  intros Hl. unfold Fhm.in_range, slot_at. split.
  - intros [i Hi]%list_elem_of_lookup. exists (Z.of_nat i).
    pose proof (lookup_lt_Some _ _ _ Hi). split; [lia|].
    rewrite Nat2Z.id. by apply list_lookup_total_correct.
  - intros (p & Hp & <-). apply elem_of_lookup_total. lia.
Qed.

Lemma entries_NoDup_list s :
  (forall i j x y, s !! i = Some x -> s !! j = Some y ->
     key x ≠ EMPTY -> key x = key y -> i = j) ->
  NoDup (entries s).*1.
Proof.
  induction s as [|x s IH]; intros Hu; [apply NoDup_nil_2|].
  assert (NoDup (entries s).*1) as HND.
  { apply IH. intros i j y z Hi Hj Hy Hyz. apply (Hu (S i) (S j) y z) in Hi; naive_solver. }
  unfold entries. rewrite filter_cons. case_decide as Hx; [|done].
  simpl. apply NoDup_cons_2; [|done].
  rewrite list_elem_of_fmap. intros ([k v] & Hk & [? Hin]%elem_of_entries). simpl in Hk.
  apply list_elem_of_lookup in Hin as [j Hj].
  by pose proof (Hu 0%nat (S j) x _ eq_refl Hj Hx Hk).
Qed.

Lemma entries_NoDup s :
  length s = Z.to_nat Capacity -> unique_keys s -> NoDup (entries s).*1.
Proof.
  intros Hl Hu. apply entries_NoDup_list. intros i j x y Hi Hj Hx Hxy.
  assert (Z.of_nat i = Z.of_nat j) as ?; [|lia].
  pose proof (lookup_lt_Some _ _ _ Hi). pose proof (lookup_lt_Some _ _ _ Hj).
  apply Hu; unfold Fhm.in_range, key_at, slot_at; rewrite ?Nat2Z.id;
    rewrite ?(list_lookup_total_correct _ _ _ Hi), ?(list_lookup_total_correct _ _ _ Hj);
    done || lia.
Qed.

Lemma lookup_to_map s k v :
  length s = Z.to_nat Capacity -> unique_keys s ->
  to_map s !! k = Some v <->
    k ≠ EMPTY /\ exists p, in_range p /\ slot_at s p = mkSlot k v.
Proof.
  intros Hl Hu. unfold to_map.
  rewrite <- elem_of_list_to_map by (by apply entries_NoDup).
  by rewrite elem_of_entries, elem_of_slots.
Qed.

Lemma lookup_to_map_None s k :
  length s = Z.to_nat Capacity -> unique_keys s -> k ≠ EMPTY ->
  to_map s !! k = None <-> forall p, in_range p -> key_at s p ≠ k.
Proof.
  intros Hl Hu Hk. rewrite eq_None_not_Some. split.
  - intros Hn p Hp <-. apply Hn. exists (value (slot_at s p)).
    apply lookup_to_map; [done..|]. split; [done|]. exists p. split; [done|].
    unfold key_at. by destruct (slot_at s p).
  - intros Hn [v (_ & p & Hp & Hs)%lookup_to_map]; [|done..].
    apply (Hn p Hp). unfold key_at. by rewrite Hs.
Qed.

Lemma to_map_EMPTY s : to_map s !! EMPTY = None.
Proof.
  unfold to_map. apply not_elem_of_list_to_map. rewrite list_elem_of_fmap.
  intros ([k v] & Hk & [? _]%elem_of_entries). simpl in Hk. congruence.
Qed.

(** Storing a fresh key keeps keys unique, and replaces the old resident. *)
Lemma unique_keys_set s p x :
  length s = Z.to_nat Capacity -> unique_keys s -> in_range p ->
  (key x = EMPTY \/ forall q, in_range q -> q ≠ p -> key_at s q ≠ key x) ->
  unique_keys (set_slot s p x).
Proof.
  intros Hl Hu Hp Hx q r Hq Hr. rewrite !key_at_set by done.
  intros Hne Heq. repeat case_decide; subst; try done.
  - destruct Hx as [?|Hx]; [done|]. by destruct (Hx r Hr).
  - destruct Hx as [Hx|Hx]; [congruence|]. by destruct (Hx q Hq).
  - by apply Hu.
Qed.

Lemma to_map_set s p x :
  length s = Z.to_nat Capacity -> unique_keys s -> in_range p ->
  (key x = EMPTY \/ forall q, in_range q -> q ≠ p -> key_at s q ≠ key x) ->
  to_map (set_slot s p x) =
    (if key x =? EMPTY then id else <[key x := value x]>)
      (delete (key_at s p) (to_map s)).
Proof.
  intros Hl Hu Hp Hx. pose proof (unique_keys_set s p x Hl Hu Hp Hx) as Hu'.
  apply map_eq. intros k. apply option_eq. intros v.
  rewrite lookup_to_map by (by rewrite ?length_set_slot).
  assert (to_map s !! k = Some v <-> _) as Hs by (by apply lookup_to_map).
  assert ((exists q, in_range q /\ slot_at (set_slot s p x) q = mkSlot k v) <->
    x = mkSlot k v \/ (exists q, in_range q /\ q ≠ p /\ slot_at s q = mkSlot k v)) as ->.
  { split.
    - intros (q & Hq & Hsq). rewrite slot_at_set in Hsq by done. case_decide; naive_solver.
    - intros [->|(q & Hq & Hne & Hsq)].
      + exists p. split; [done|]. rewrite slot_at_set by done. by case_decide.
      + exists q. split; [done|]. rewrite slot_at_set by done. by case_decide. }
  assert (delete (key_at s p) (to_map s) !! k = Some v <->
    k ≠ EMPTY /\ exists q, in_range q /\ q ≠ p /\ slot_at s q = mkSlot k v) as Hd.
  { rewrite lookup_delete_Some, Hs. split.
    - intros (Hne & Hk & q & Hq & Hsq). split; [done|]. exists q. split_and!; [done| |done].
      intros ->. apply Hne. unfold key_at. by rewrite Hsq.
    - intros (Hk & q & Hq & Hqp & Hsq). split; [|naive_solver].
      intros Hkp. apply Hqp, Hu; unfold key_at in *; rewrite ?Hsq; simpl; congruence. }
  destruct x as [kx vx]. simpl in *.
  destruct (Z.eqb_spec kx EMPTY) as [->|Hkx]; simpl.
  - rewrite Hd. naive_solver.
  - rewrite lookup_insert_Some, Hd. split.
    + intros (Hk & [[= -> ->]|(q & Hq & Hqp & Hsq)]); [naive_solver|].
      right. split; [|naive_solver]. intros ->.
      destruct Hx as [?|Hx]; [done|]. apply (Hx q Hq Hqp). unfold key_at. by rewrite Hsq.
    + intros [[<- <-]|[Hne ?]]; naive_solver.
Qed.

(** The size of the map counts the occupied slots: an array with fewer keys
    than slots has an empty slot. *)
Lemma to_map_size_le s :
  length s = Z.to_nat Capacity -> unique_keys s ->
  (base.size (to_map s) <= length s)%nat.
Proof.
  intros Hl Hu. unfold to_map. rewrite map_size_list_to_map by (by apply entries_NoDup).
  unfold entries. rewrite length_fmap. apply length_filter.
Qed.

Lemma exists_empty_slot s :
  length s = Z.to_nat Capacity -> unique_keys s ->
  (base.size (to_map s) < length s)%nat ->
  exists q, in_range q /\ key_at s q = EMPTY.
Proof.
  intros Hl Hu. unfold to_map. rewrite map_size_list_to_map by (by apply entries_NoDup).
  unfold entries. rewrite length_fmap. intros Hlt.
  destruct (decide (Forall (fun x => key x ≠ EMPTY) s)) as [Hall|Hex].
  { rewrite filter_Forall_id in Hlt by done. lia. }
  apply not_Forall_Exists, list.Exists_exists in Hex as (x & Hin & Hx); [|apply _].
  apply elem_of_slots in Hin as (q & Hq & <-); [|done].
  exists q. split; [done|]. by apply dec_stable.
Qed.

(** ** Robin Hood arrays of distances *)
Definition upd D (p : Z) (x : option Z) : Z -> option Z :=
  fun q => if decide (q = p) then x else D q.

(** A distance that may stand at [p]: its predecessor supports it. *)
Definition supported D (p d : Z) : Prop :=
  d = 0 \/ exists q e, in_range q /\ next_pos q = p /\ D q = Some e /\ d <= e + 1.

Lemma robin_hood_ext D D' :
  (forall p, in_range p -> D p = D' p) -> robin_hood D -> robin_hood D'.
Proof.
  intros HD HR p d Hp. rewrite <- !HD by (done || apply next_pos_in_range). by apply HR.
Qed.

Lemma anchored_ext D D' :
  (forall p, in_range p -> D p = D' p) -> anchored D -> anchored D'.
Proof. intros HD (q & Hq & H). exists q. rewrite <- HD by done. done. Qed.

(** Raising the distance at a slot, up to what its predecessor supports. *)
Lemma robin_hood_raise D p d :
  in_range p -> robin_hood D -> supported D p d ->
  (forall e, D p = Some e -> e <= d) ->
  (D p = None -> forall e, D (next_pos p) = Some e -> e <= 0) ->
  robin_hood (upd D p (Some d)).
Proof.
  intros Hp HR Hs Hle Hnone q e Hq. unfold upd.
  destruct (decide (next_pos q = p)) as [Hn|Hn]; intros He Hpos.
  - injection He as [= <-]. destruct Hs as [->|(q' & e' & Hq' & Hn' & He' & Hd)]; [lia|].
    assert (q = q') as -> by (apply next_pos_inj; congruence).
    case_decide; [|eauto]. eexists; split; [done|]. lia.
  - case_decide as Hqp; subst.
    + destruct (D p) as [e'|] eqn:Hd'.
      * destruct (HR p e) as (e'' & He'' & ?); [done..|].
        eexists; split; [done|]. specialize (Hle e' eq_refl). assert (e'' = e') by congruence. lia.
      * specialize (Hnone eq_refl e He). lia.
    + by apply HR.
Qed.

(** Below an empty slot nothing is displaced. *)
Lemma robin_hood_after_empty D p d :
  in_range p -> robin_hood D -> D p = None -> D (next_pos p) = Some d -> d <= 0.
Proof.
  intros Hp HR Hn Hd. destruct (decide (0 < d)); [|lia].
  destruct (HR p d) as (e & He & _); congruence.
Qed.

(** Lowering the distance at [p] to exactly what its successor needs. *)
Lemma robin_hood_lower D p d d' :
  in_range p -> robin_hood D -> D p = Some d -> d' <= d ->
  (forall e, D (next_pos p) = Some e -> next_pos p ≠ p -> e <= d' + 1) ->
  robin_hood (upd D p (Some d')).
Proof.
  intros Hp HR Hd Hle Hn q e Hq. unfold upd. destruct (decide (next_pos q = p)) as [Hqn|Hqn].
  - intros [= <-] Hpos. destruct (HR q d) as (e & He & Hde); [done|congruence|lia|].
    case_decide; subst; [eexists; split; [done|lia]|]. eexists; split; [done|lia].
  - intros He Hpos. case_decide; subst; [|by apply HR].
    eexists; split; [done|]. by apply Hn.
Qed.

(** Emptying a slot whose successor is empty or at home. *)
Lemma robin_hood_clear D p :
  in_range p -> robin_hood D ->
  (next_pos p = p \/ D (next_pos p) = None \/ D (next_pos p) = Some 0) ->
  robin_hood (upd D p None).
Proof.
  intros Hp HR Hn q e Hq. unfold upd. case_decide; [done|].
  intros He Hpos. case_decide; subst; [|by apply HR].
  destruct Hn as [?|[?|?]]; [done|congruence|]. assert (e = 0) by congruence. lia.
Qed.

(** On the way from its home to its slot a key meets only residents at least as
    far from their homes. *)
Lemma probe_chain s p n :
  wf_slots s -> in_range p -> key_at s p ≠ EMPTY ->
  forall q, in_range q -> gap q p = Z.of_nat n ->
  Z.of_nat n <= probe_distance_ (key_at s p) p ->
  exists e, dist_at s q = Some e /\ probe_distance_ (key_at s p) p - Z.of_nat n <= e.
Proof.
  intros [Hl Hu HR] Hp Hk. induction n as [|n IH]; intros q Hq Hg Hn.
  - apply gap_zero in Hg as ->; [|done..]. rewrite dist_at_occupied by done. eexists; split; [done|lia].
  - assert (gap (next_pos q) p = Z.of_nat n) as Hg' by (rewrite gap_next; lia).
    destruct (IH (next_pos q)) as (e & He & Hle); [apply next_pos_in_range|done|lia|].
    destruct (HR q e) as (e' & He' & ?); [done..|lia|].
    exists e'. split; [done|lia].
Qed.

(** The gap from the home of a key to its slot is its probe distance. *)
Lemma gap_home k p : gap (home k) p = probe_distance_ k p.
Proof. unfold gap. by rewrite probe_distance_mod. Qed.

(** ** [find] *)
Lemma find_loop_hit s k p n :
  wf_slots s -> k ≠ EMPTY -> in_range p -> key_at s p = k ->
  forall q ctr fuel, in_range q -> gap q p = Z.of_nat n -> 0 <= ctr ->
  Z.of_nat n <= probe_distance_ k p -> ctr + Z.of_nat n < Capacity -> (n < fuel)%nat ->
  find_loop cap_log fuel s k q ctr = Some (Some p).
Proof.
  intros Hwf Hk Hp Hkp. pose proof Capacity_lt.
  induction n as [|n IH]; intros q ctr [|fuel] Hq Hg Hc Hd Hcn Hf; try lia; simpl.
  - apply gap_zero in Hg as ->; [|done..]. rewrite Hkp, Z.eqb_refl. done.
  - destruct (Z.eqb_spec (key_at s q) k) as [Hqk|Hqk]; simpl.
    { assert (q = p) as -> by (apply (wf_unique _ _ Hwf); congruence).
      unfold gap in Hg. rewrite Z.sub_diag, Z.mod_0_l in Hg; pose proof Capacity_pos; lia. }
    destruct (probe_chain s p (S n) Hwf Hp) with (q := q) as (e & He & _); [congruence|done..|by rewrite Hkp|].
    apply dist_at_Some in He as [He _].
    rewrite (proj2 (Z.eqb_neq _ _)) by done. rewrite (proj2 (Z.eqb_neq _ _)) by lia. simpl.
    apply IH; [apply next_pos_in_range|rewrite gap_next; lia|apply wrap_nonneg; lia|lia| |lia].
    rewrite wrap_small by (unfold fits; lia). lia.
Qed.

Lemma find_loop_miss s k fuel :
  k ≠ EMPTY -> (forall p, in_range p -> key_at s p ≠ k) ->
  forall q ctr, in_range q -> 0 <= ctr <= Capacity ->
  Capacity < ctr + Z.of_nat fuel ->
  find_loop cap_log fuel s k q ctr = Some None.
Proof.
  intros Hk Hno. pose proof Capacity_lt. induction fuel as [|fuel IH]; intros q ctr Hq Hc Hf; [lia|].
  simpl. rewrite (proj2 (Z.eqb_neq _ _)) by (by apply Hno). simpl.
  destruct (Z.eqb_spec (key_at s q) EMPTY); simpl; [done|].
  destruct (Z.eqb_spec ctr Capacity); simpl; [done|].
  rewrite wrap_small by (unfold fits; lia). apply IH; [apply next_pos_in_range|lia|lia].
Qed.

(** The search returns: the position of the key when it is present. *)
Lemma find_loop_spec s k :
  wf_slots s -> k ≠ EMPTY ->
  match to_map s !! k with
  | Some v => exists p, in_range p /\ slot_at s p = mkSlot k v /\
      find_loop cap_log (S (Z.to_nat Capacity)) s k (home k) 0 = Some (Some p)
  | None => find_loop cap_log (S (Z.to_nat Capacity)) s k (home k) 0 = Some None
  end.
Proof.
  intros Hwf Hk. pose proof Hwf as [Hl Hu HR]. pose proof Capacity_pos.
  destruct (to_map s !! k) as [v|] eqn:Hm.
  - apply lookup_to_map in Hm as (_ & p & Hp & Hs); [|done..].
    exists p. split; [done|]. split; [done|].
    pose proof (probe_distance_range k p).
    apply find_loop_hit with (n := Z.to_nat (probe_distance_ k p)); try done; try lia.
    + unfold key_at. by rewrite Hs.
    + apply home_in_range.
    + rewrite gap_home. lia.
  - apply find_loop_miss; [done|by apply lookup_to_map_None|apply home_in_range|lia|lia].
Qed.

(** ** [insert] *)

(** Replacing the resident of a slot by one at least as far from home. *)
Lemma wf_slots_place s p k v :
  wf_slots s -> in_range p -> k ≠ EMPTY ->
  (forall q, in_range q -> q ≠ p -> key_at s q ≠ k) ->
  supported (dist_at s) p (probe_distance_ k p) ->
  (forall e, dist_at s p = Some e -> e <= probe_distance_ k p) ->
  wf_slots (set_slot s p (mkSlot k v)) /\
  to_map (set_slot s p (mkSlot k v)) = <[k := v]> (delete (key_at s p) (to_map s)).
Proof.
  intros [Hl Hu HR] Hp Hk Hno Hs Hle. split.
  - split.
    + by rewrite length_set_slot.
    + apply unique_keys_set; auto.
    + apply (robin_hood_ext (upd (dist_at s) p (Some (probe_distance_ k p)))).
      { intros q Hq. rewrite dist_at_set by done. unfold upd. case_decide; [|done].
        simpl. by rewrite (proj2 (Z.eqb_neq _ _)). }
      apply robin_hood_raise; [done..|]. intros Hn e He.
      by apply (robin_hood_after_empty (dist_at s) p).
  - rewrite to_map_set by auto. simpl. by rewrite (proj2 (Z.eqb_neq _ _)).
Qed.

Lemma supported_zero D p : supported D p 0.
Proof. by left. Qed.

Lemma supported_next D p d e :
  in_range p -> D p = Some e -> d <= e + 1 -> supported D (next_pos p) d.
Proof. intros. right. by exists p, e. Qed.

Lemma anchored_fill s p k v :
  wf_slots s -> in_range p -> k ≠ EMPTY -> key_at s p = EMPTY ->
  anchored (dist_at (set_slot s p (mkSlot k v))).
Proof.
  intros [Hl Hu HR] Hp Hk He. exists (next_pos p). split; [apply next_pos_in_range|].
  rewrite dist_at_set by (done || apply next_pos_in_range). simpl.
  rewrite (proj2 (Z.eqb_neq _ _)) by done. case_decide as Hn.
  - apply next_pos_self in Hn; [|done]. pose proof (probe_distance_range k p).
    right. f_equal. lia.
  - destruct (dist_at s (next_pos p)) as [d|] eqn:Hd; [|by left].
    right. f_equal. apply dist_at_None in He.
    pose proof (robin_hood_after_empty _ _ _ Hp HR He Hd).
    apply dist_at_Some in Hd as [_ ->].
    pose proof (probe_distance_range (key_at s (next_pos p)) (next_pos p)). lia.
Qed.

(** The map seen by a swap: the carried element goes in, the resident comes out. *)
Lemma swap_map (m : gmap Z V) k v k' v' :
  k ≠ k' -> m !! k' = Some v' ->
  <[k' := v']> (<[k := v]> (delete k' m)) = <[k := v]> m.
Proof.
  intros Hne Hm. rewrite insert_insert_ne by done. by rewrite insert_delete_id.
Qed.

Lemma to_map_resident s p :
  wf_slots s -> in_range p -> key_at s p ≠ EMPTY ->
  to_map s !! key_at s p = Some (value (slot_at s p)).
Proof.
  intros [Hl Hu HR] Hp Hk. apply lookup_to_map; [done..|]. split; [done|]. exists p.
  split; [done|]. unfold key_at. by destruct (slot_at s p).
Qed.

(** The evicting walk: with an empty slot ahead, the carried element reaches a
    slot before the counter runs out, and the array gains exactly that element. *)
Lemma insert_loop_new fuel : forall n s k v pos ctr dist q,
  wf_slots s -> k ≠ EMPTY -> (forall p, in_range p -> key_at s p ≠ k) ->
  in_range pos -> in_range q -> key_at s q = EMPTY -> gap pos q = Z.of_nat n ->
  dist = probe_distance_ k pos -> supported (dist_at s) pos dist ->
  0 <= dist <= ctr -> ctr + Z.of_nat n < Capacity -> (n < fuel)%nat ->
  exists s', insert_loop cap_log fuel s k v pos ctr dist = Some (true, s', true) /\
    wf_slots s' /\ to_map s' = <[k := v]> (to_map s) /\ anchored (dist_at s').
Proof.
  pose proof Capacity_lt as HC64. pose proof Capacity_pos as HC0.
  induction fuel as [|fuel IH]; intros n s k v pos ctr dist q
    Hwf Hk Hno Hpos Hq Hqe Hg -> Hsup Hd Hctr Hf; [lia|].
  pose proof Hwf as [Hl Hu HR]. simpl.
  rewrite (proj2 (Z.eqb_neq (key_at s pos) k)) by auto.
  destruct (Z.eqb_spec (key_at s pos) EMPTY) as [He|He]; simpl.
  - (* an empty slot: the final store *)
    destruct (wf_slots_place s pos k v) as [Hwf' Hm]; auto.
    { intros e Hde. apply dist_at_None in He. congruence. }
    eexists. split; [done|]. split; [done|]. split.
    + rewrite Hm, He, delete_id by apply to_map_EMPTY. done.
    + by apply anchored_fill.
  - destruct n as [|n]; [apply gap_zero in Hg; [congruence|done..]|].
    assert (gap (next_pos pos) q = Z.of_nat n) as Hg' by (rewrite gap_next; lia).
    pose proof (next_pos_in_range pos) as Hnp.
    rewrite !(wrap_small 64 (ctr + 1)) by (unfold fits; lia).
    rewrite (proj2 (Z.eqb_neq (ctr + 1) _)) by lia.
    set (rd := probe_distance_ (key_at s pos) pos) in *.
    assert (dist_at s pos = Some rd) as Hrd by (by apply dist_at_occupied).
    pose proof (probe_distance_range (key_at s pos) pos) as Hrdr. fold rd in Hrdr.
    destruct (Z.ltb_spec rd (probe_distance_ k pos)) as [Hlt|Hge].
    + (* the resident is closer to its home: swap *)
      destruct (wf_slots_place s pos k v) as [Hwf' Hm]; auto.
      { intros e Hde. assert (e = rd) by congruence. lia. }
      rewrite wrap_small by (unfold fits; lia).
      edestruct (IH n (set_slot s pos (mkSlot k v)) (key_at s pos) (value (slot_at s pos))
        (next_pos pos) (ctr + 1) (rd + 1) q) as (s' & Hs' & Hwf'' & Hm' & Ha); try done; try lia.
      * intros p Hp. rewrite key_at_set by done. case_decide; [by apply not_eq_sym, Hno|].
        intros Heq. by destruct (Hu pos p); auto.
      * rewrite key_at_set by done. case_decide; [congruence|done].
      * unfold rd in *. rewrite probe_distance_next; lia.
      * eapply supported_next; [done| |].
        { rewrite dist_at_set by done. rewrite decide_True by done. simpl.
          by rewrite (proj2 (Z.eqb_neq _ _)). }
        lia.
      * exists s'. split; [done|]. split; [done|]. split; [|done].
        rewrite Hm', Hm. apply swap_map; [by apply not_eq_sym, Hno|]. by apply to_map_resident.
    + (* walk on *)
      rewrite wrap_small by (unfold fits; lia).
      apply (IH n) with (q := q); auto; try lia.
      * rewrite probe_distance_next; lia.
      * eapply supported_next; [done..|lia].
Qed.

(** A key already in the table is found without any eviction on the way. *)
Lemma insert_loop_hit s k v p fuel : forall n q ctr dist,
  wf_slots s -> k ≠ EMPTY -> in_range p -> key_at s p = k ->
  in_range q -> gap q p = Z.of_nat n -> dist = probe_distance_ k p - Z.of_nat n ->
  0 <= dist <= ctr -> ctr + Z.of_nat n < Capacity -> (n < fuel)%nat ->
  insert_loop cap_log fuel s k v q ctr dist = Some (true, set_slot s p (mkSlot k v), false).
Proof.
  pose proof Capacity_lt as HC64. pose proof Capacity_pos as HC0.
  induction fuel as [|fuel IH]; intros n q ctr dist Hwf Hk Hp Hkp Hq Hg Hd Hdc Hc Hf; [lia|].
  simpl. destruct n as [|n].
  - apply gap_zero in Hg as ->; [|done..]. rewrite Hkp, Z.eqb_refl, andb_false_r.
    by rewrite (proj2 (Z.eqb_neq _ _)).
  - destruct (probe_chain s p (S n) Hwf Hp) with (q := q) as (e & He & Hle);
      [congruence|done..|rewrite Hkp; lia|].
    apply dist_at_Some in He as [Hne ->].
    rewrite (proj2 (Z.eqb_neq (key_at s q) EMPTY)) by done.
    destruct (Z.eqb_spec (key_at s q) k) as [Hqk|Hqk]; simpl.
    { assert (q = p) as -> by (apply (wf_unique _ _ Hwf); congruence).
      unfold gap in Hg. rewrite Z.sub_diag, Z.mod_0_l in Hg; lia. }
    rewrite !(wrap_small 64 (ctr + 1)) by (unfold fits; lia).
    rewrite (proj2 (Z.eqb_neq (ctr + 1) _)) by lia.
    rewrite (proj2 (Z.ltb_ge _ _)) by (rewrite Hkp in Hle; lia).
    rewrite wrap_small by (unfold fits; lia).
    apply (IH n); auto; try lia; [apply next_pos_in_range|rewrite gap_next; lia].
Qed.

(** In a full table without the key the walk runs out of slots. *)
Lemma insert_loop_full fuel : forall s k v pos ctr dist,
  length s = Z.to_nat Capacity -> unique_keys s -> k ≠ EMPTY ->
  (forall p, in_range p -> key_at s p ≠ EMPTY /\ key_at s p ≠ k) ->
  in_range pos -> 0 <= ctr -> ctr + Z.of_nat fuel = Capacity -> (0 < fuel)%nat ->
  exists s', insert_loop cap_log fuel s k v pos ctr dist = Some (false, s', false).
Proof.
  pose proof Capacity_lt as HC64.
  induction fuel as [|fuel IH]; intros s k v pos ctr dist Hl Hu Hk Hno Hpos Hc Hcf Hf; [lia|].
  simpl. destruct (Hno pos Hpos) as [Hne Hnk].
  rewrite !(proj2 (Z.eqb_neq _ _)) with (1 := Hne). rewrite (proj2 (Z.eqb_neq _ _) Hnk). simpl.
  rewrite !(wrap_small 64 (ctr + 1)) by (unfold fits; lia).
  destruct (Z.eqb_spec (ctr + 1) Capacity); [by eexists|].
  destruct (_ <? dist).
  - apply IH; try lia; try done; try apply next_pos_in_range.
    + by rewrite length_set_slot.
    + apply unique_keys_set; auto. right. intros q Hq _. by apply Hno.
    + intros p Hp. rewrite key_at_set by done. case_decide; simpl.
      * split; [done|]. congruence.
      * destruct (Hno p Hp). split; [done|]. intros Heq. by destruct (Hu p pos).
  - apply IH; try lia; try done. apply next_pos_in_range.
Qed.

(** ** [erase] *)

(** Moving a resident one slot back into the hole does not change the map. *)
Lemma backshift_step_map s pos next :
  length s = Z.to_nat Capacity -> unique_keys s ->
  in_range pos -> in_range next -> key_at s pos = EMPTY -> key_at s next ≠ EMPTY ->
  let s1 := set_slot s pos (slot_at s next) in
  let s2 := set_slot s1 next (mkSlot EMPTY (value (slot_at s1 next))) in
  unique_keys s2 /\ to_map s2 = to_map s.
Proof.
  intros Hl Hu Hp Hn He Hk s1 s2.
  assert (pos ≠ next) as Hne by congruence.
  set (x := mkSlot EMPTY (value (slot_at s1 next))).
  assert (s2 = set_slot (set_slot s next x) pos (slot_at s next)) as ->.
  { unfold s2, s1, set_slot. apply list_insert_insert_ne. unfold Fhm.in_range in *. lia. }
  assert (unique_keys (set_slot s next x)) as Hu' by (apply unique_keys_set; auto).
  assert (forall q, in_range q -> q ≠ pos ->
            key_at (set_slot s next x) q ≠ key (slot_at s next)) as Hno.
  { intros q Hq Hqp. rewrite key_at_set by done. fold (key_at s next). case_decide; simpl.
    - congruence.
    - intros Heq. by destruct (Hu next q). }
  split; [apply unique_keys_set; rewrite ?length_set_slot; auto|].
  rewrite to_map_set by (rewrite ?length_set_slot; auto). fold (key_at s next).
  rewrite (proj2 (Z.eqb_neq _ _)) by done.
  rewrite to_map_set by (simpl; auto). simpl.
  rewrite key_at_set by done. rewrite decide_False by done. rewrite He.
  rewrite (delete_id (delete _ _)) by (rewrite lookup_delete_ne by done; apply to_map_EMPTY).
  rewrite insert_delete_id; [done|].
  apply lookup_to_map; [done..|]. split; [done|]. exists next. split; [done|].
  unfold key_at. by destruct (slot_at s next).
Qed.

Lemma backshift_loop_spec fuel : forall n s pos e q,
  length s = Z.to_nat Capacity -> unique_keys s -> in_range pos -> key_at s pos = EMPTY ->
  robin_hood (upd (dist_at s) pos (Some e)) ->
  in_range q -> (upd (dist_at s) pos (Some e) q = None \/ upd (dist_at s) pos (Some e) q = Some 0) ->
  gap (next_pos pos) q = Z.of_nat n -> (n < fuel)%nat ->
  exists s', backshift_loop cap_log fuel s pos (next_pos pos) = Some s' /\
    wf_slots s' /\ to_map s' = to_map s /\ anchored (dist_at s').
Proof.
  induction fuel as [|fuel IH]; intros n s pos e q Hl Hu Hp He HR Hq Hanch Hg Hf; [lia|].
  pose proof (next_pos_in_range pos) as Hn. simpl.
  assert (dist_at s pos = None) as Hdp by (by apply dist_at_None).
  assert (next_pos pos = pos \/ dist_at s (next_pos pos) = None \/
          dist_at s (next_pos pos) = Some 0 ->
          wf_slots s /\ to_map s = to_map s /\ anchored (dist_at s)) as Hexit.
  { intros Hstop. split_and!; [split; [done..|]|done|exists pos; auto].
    apply (robin_hood_ext (upd (upd (dist_at s) pos (Some e)) pos None)).
    { intros p _. unfold upd. case_decide; by subst. }
    apply robin_hood_clear; [done..|]. unfold upd. case_decide; [by left|naive_solver]. }
  destruct (Z.eqb_spec (key_at s (next_pos pos)) EMPTY) as [Hkn|Hkn]; simpl.
  { exists s. split; [done|]. apply Hexit. right. left. by apply dist_at_None. }
  set (d := probe_distance_ (key_at s (next_pos pos)) (next_pos pos)).
  assert (dist_at s (next_pos pos) = Some d) as Hd by (by apply dist_at_occupied).
  destruct (Z.eqb_spec d 0) as [Hd0|Hd0].
  { exists s. split; [done|]. apply Hexit. right. right. congruence. }
  assert (next_pos pos ≠ pos) as Hnp by congruence.
  pose proof (probe_distance_range (key_at s (next_pos pos)) (next_pos pos)). fold d in H.
  assert (d <= e + 1) as Hde.
  { destruct (HR pos d) as (e' & He' & ?); [done|unfold upd; by rewrite decide_False|lia|].
    unfold upd in He'. rewrite decide_True in He' by done. assert (e' = e) by congruence. lia. }
  assert (q ≠ next_pos pos) as Hqn.
  { intros ->. unfold upd in Hanch. rewrite decide_False in Hanch by done.
    destruct Hanch; congruence. }
  destruct n as [|n]; [apply gap_zero in Hg; congruence|].
  destruct (backshift_step_map s pos (next_pos pos)) as [Hu' Hm']; auto.
  set (s1 := set_slot s pos (slot_at s (next_pos pos))) in *.
  set (s2 := set_slot s1 (next_pos pos) _) in *.
  assert (forall p, in_range p -> dist_at s2 p =
    if decide (p = next_pos pos) then None
    else if decide (p = pos) then Some (d - 1) else dist_at s p) as Hds.
  { intros p Hpr. unfold s2. rewrite dist_at_set by (unfold s1; rewrite ?length_set_slot; done).
    case_decide; [done|]. unfold s1. rewrite dist_at_set by done. case_decide; [|done].
    fold (key_at s (next_pos pos)). rewrite (proj2 (Z.eqb_neq _ _)) by done.
    f_equal. unfold d. apply probe_distance_prev. fold d. lia. }
  rewrite <- Hm'. apply (IH n s2 (next_pos pos) d q); auto; try lia.
  - unfold s2, s1. by rewrite !length_set_slot.
  - unfold s2. rewrite key_at_set by (unfold s1; rewrite ?length_set_slot; done).
    by rewrite decide_True.
  - apply (robin_hood_ext (upd (upd (dist_at s) pos (Some e)) pos (Some (d - 1)))).
    { intros p Hpr. unfold upd. rewrite Hds by done. repeat case_decide; congruence. }
    apply (robin_hood_lower _ pos e); [done..| |lia|].
    + unfold upd. by rewrite decide_True.
    + intros e' He' _. unfold upd in He'. rewrite decide_False in He' by done.
      assert (e' = d) by congruence. lia.
  - unfold upd in *. rewrite decide_False by done. rewrite Hds by done.
    rewrite decide_False by done. case_decide as Hqp; [|done].
    right. destruct Hanch as [?|Hz]; [done|]. assert (e = 0) by congruence. f_equal. lia.
  - rewrite gap_next; lia.
Qed.

(** ** The map-level contract *)
Lemma wf_size_bound (m : FlatHashMap V) : wf m -> 0 <= size_ m <= Capacity.
Proof.
  intros [[Hl Hu HR] Ha Hs]. rewrite Hs. pose proof (to_map_size_le _ Hl Hu).
  unfold view. pose proof Capacity_pos. lia.
Qed.

Lemma make_wf : wf (make cap_log : FlatHashMap V) /\ view (make cap_log : FlatHashMap V) = ∅.
Proof.
  set (s := replicate (Z.to_nat Capacity) (mkSlot EMPTY (inhabitant : V))).
  assert (forall p, in_range p -> key_at s p = EMPTY) as Hk.
  { intros p Hp. unfold key_at, slot_at, s, Fhm.in_range in *.
    by rewrite lookup_total_replicate_2 by lia. }
  assert (to_map s = ∅) as Hm.
  { unfold to_map, entries. enough (filter (fun x => key x ≠ EMPTY) s = []) as -> by done.
    unfold s. clear. generalize (Z.to_nat Capacity) as n.
    induction n as [|n IH]; [done|]. simpl.
    rewrite filter_cons_False; [exact IH|]. intros Hne. by apply Hne. }
  split; [|done]. split; simpl; fold s.
  - split.
    + apply length_replicate.
    + intros p q Hp _ Hne. by rewrite Hk in Hne.
    + intros p d _ Hd. apply dist_at_Some in Hd as [Hne _].
      by rewrite Hk in Hne by apply next_pos_in_range.
  - exists (home 0). split; [apply home_in_range|]. left. apply dist_at_None, Hk, home_in_range.
  - unfold view. simpl. fold s. by rewrite Hm, map_size_empty.
Qed.

Lemma find_view (m : FlatHashMap V) k :
  wf m -> k ≠ EMPTY -> find_value cap_log m k = Some (view m !! k).
Proof.
  intros [Hwf _ _] Hk. pose proof (find_loop_spec _ _ Hwf Hk) as Hf. unfold find_value, find, view, deref.
  destruct (to_map (slots_ m) !! k) as [v|].
  - destruct Hf as (p & _ & Hs & ->). simpl. by rewrite Hs.
  - by rewrite Hf.
Qed.

Lemma insert_view (m : FlatHashMap V) k v :
  wf m -> k ≠ EMPTY -> is_Some (view m !! k) \/ size_ m < Capacity ->
  exists m', insert cap_log m k v = Some (true, m') /\ wf m' /\ view m' = <[k := v]> (view m).
Proof.
  intros [Hwf Ha Hsz] Hk Hroom. pose proof Hwf as [Hl Hu HR].
  pose proof Capacity_pos. pose proof Capacity_lt. unfold insert, view in *.
  destruct (to_map (slots_ m) !! k) as [v0|] eqn:Hm.
  - apply lookup_to_map in Hm as Hm'; [|done..]. destruct Hm' as (_ & p & Hp & Hs).
    assert (key_at (slots_ m) p = k) as Hkp by (unfold key_at; by rewrite Hs).
    pose proof (probe_distance_range k p).
    rewrite (insert_loop_hit _ k v p _ (Z.to_nat (probe_distance_ k p)));
      try done; try lia; try apply home_in_range; [|rewrite gap_home; lia].
    simpl. eexists. split; [done|].
    assert (forall q, in_range q -> q ≠ p -> key_at (slots_ m) q ≠ k) as Hno
      by (intros q Hq Hne Heq; apply Hne, Hu; congruence).
    assert (forall q, in_range q -> dist_at (set_slot (slots_ m) p (mkSlot k v)) q
                                  = dist_at (slots_ m) q) as Hds.
    { intros q Hq. rewrite dist_at_set by done. case_decide; [|done]. subst q. simpl.
      unfold Fhm.dist_at. by rewrite Hkp. }
    assert (to_map (set_slot (slots_ m) p (mkSlot k v)) = <[k:=v]> (to_map (slots_ m))) as Hmap.
    { rewrite to_map_set by auto. simpl. rewrite (proj2 (Z.eqb_neq _ _)) by done.
      by rewrite Hkp, insert_delete_eq. }
    split; [|done]. split; simpl.
    + split; [by rewrite length_set_slot|apply unique_keys_set; auto|].
      apply (robin_hood_ext (dist_at (slots_ m))); [|done]. intros q Hq. by rewrite Hds.
    + apply (anchored_ext (dist_at (slots_ m))); [|done]. intros q Hq. by rewrite Hds.
    + unfold view. simpl. rewrite Hmap, Hsz. by rewrite map_size_insert_Some by eauto.
  - destruct Hroom as [[? ?]|Hroom]; [done|].
    destruct (exists_empty_slot _ Hl Hu) as (q & Hq & Hqe); [lia|].
    pose proof (gap_range (home k) q).
    edestruct (insert_loop_new (Z.to_nat Capacity) (Z.to_nat (gap (home k) q)) (slots_ m) k v
      (home k) 0 0 q) as (s' & -> & Hwf' & Hm' & Ha'); try done; try lia;
      try apply home_in_range.
    + by apply lookup_to_map_None.
    + by rewrite probe_distance_home.
    + apply supported_zero.
    + simpl. eexists. split; [done|]. split; [|done]. split; [done..|]. simpl.
      unfold view. simpl. rewrite Hm', map_size_insert_None by done.
      rewrite wrap_small; [lia|]. unfold fits. lia.
Qed.

Lemma insert_view_full (m : FlatHashMap V) k v :
  wf m -> k ≠ EMPTY -> view m !! k = None -> size_ m = Capacity ->
  exists m', insert cap_log m k v = Some (false, m').
Proof.
  intros [Hwf Ha Hsz] Hk Hm Hfull. pose proof Hwf as [Hl Hu HR].
  pose proof Capacity_pos. unfold insert, view in *.
  destruct (insert_loop_full (Z.to_nat Capacity) (slots_ m) k v (home k) 0 0)
    as [s' ->]; try done; try lia; [|apply home_in_range|by eexists].
  intros p Hp. split; [|by apply lookup_to_map_None].
  intros He. assert (length (filter (fun x => key x ≠ EMPTY) (slots_ m)) < length (slots_ m))%nat as Hlt.
  { apply length_filter_lt with (slot_at (slots_ m) p).
    - apply elem_of_slots; eauto.
    - intros Hne. by apply Hne. }
  unfold to_map, entries in Hsz.
  rewrite map_size_list_to_map, length_fmap in Hsz by (by apply entries_NoDup). lia.
Qed.

Lemma erase_view (m : FlatHashMap V) k :
  wf m -> k ≠ EMPTY ->
  exists m', erase cap_log m k = Some (bool_decide (is_Some (view m !! k)), m') /\
    wf m' /\ view m' = delete k (view m).
Proof.
  intros Hwfm Hk. pose proof (wf_size_bound m Hwfm) as Hszb.
  destruct Hwfm as [Hwf Ha Hsz]. pose proof Hwf as [Hl Hu HR].
  pose proof Capacity_lt. unfold erase, view in *.
  pose proof (find_loop_spec _ _ Hwf Hk) as Hf.
  destruct (to_map (slots_ m) !! k) as [v|] eqn:Hm.
  - destruct Hf as (p & Hp & Hs & ->). simpl.
    assert (key_at (slots_ m) p = k) as Hkp by (unfold key_at; by rewrite Hs).
    set (s1 := set_slot (slots_ m) p _).
    assert (key_at s1 p = EMPTY) as He1 by (unfold s1; rewrite key_at_set by done; by rewrite decide_True).
    assert (forall q, in_range q ->
      dist_at (slots_ m) q = upd (dist_at s1) p (Some (probe_distance_ k p)) q) as Hds.
    { intros q Hq. unfold upd, s1. case_decide as Hqp.
      - subst q. rewrite dist_at_occupied by congruence. by rewrite Hkp.
      - rewrite dist_at_set by done. by rewrite decide_False. }
    assert (to_map s1 = delete k (to_map (slots_ m))) as Hm1.
    { unfold s1. rewrite to_map_set by auto. simpl. by rewrite Hkp. }
    destruct Ha as (q & Hq & Hqa). pose proof (gap_range (next_pos p) q).
    destruct (backshift_loop_spec (Z.to_nat Capacity) (Z.to_nat (gap (next_pos p) q)) s1 p
      (probe_distance_ k p) q) as (s' & -> & Hwf' & Hm' & Ha'); try done; try lia.
    + unfold s1. by rewrite length_set_slot.
    + unfold s1. apply unique_keys_set; auto.
    + by apply (robin_hood_ext (dist_at (slots_ m))).
    + by rewrite <- Hds.
    + simpl. eexists. split; [done|]. split; [split; [done..|]|by rewrite <- Hm1].
      unfold view. simpl. rewrite Hm', Hm1, map_size_delete, Hm. simpl.
      assert (base.size (to_map (slots_ m)) ≠ 0%nat).
      { intros Hz%map_size_empty_inv. rewrite Hz in Hm. by rewrite lookup_empty in Hm. }
      rewrite wrap_small; [lia|]. unfold fits. lia.
  - rewrite Hf. simpl. exists m. split; [done|]. split; [by split|].
    symmetry. by apply delete_id.
Qed.

End proofs.

(** ** Refinement: a program over the map computes what it computes over [gmap] *)
Section refinement.
  Context {V : Type} `{!Inhabited V}.
  Context (cap_log : Z).

Inductive Op : Type :=
  | OpInsert (k : Z) (v : V)
  | OpFind (k : Z)
  | OpErase (k : Z).

Inductive Out : Type :=
  | OutBool (b : bool)
  | OutValue (v : option V).

(** One call on the implementation; [None] is a loop that does not return. *)
Definition step (m : FlatHashMap V) (o : Op) : option (Out * FlatHashMap V) :=
  match o with
  | OpInsert k v => '(ok, m) ← insert cap_log m k v; Some (OutBool ok, m)
  | OpFind k => r ← find_value cap_log m k; Some (OutValue r, m)
  | OpErase k => '(ok, m) ← erase cap_log m k; Some (OutBool ok, m)
  end.

Fixpoint run (m : FlatHashMap V) (ops : list Op) : option (list Out * FlatHashMap V) :=
  match ops with
  | [] => Some ([], m)
  | o :: ops => '(r, m) ← step m o; '(rs, m) ← run m ops; Some (r :: rs, m)
  end.

(** The same calls on a finite map. *)
Definition spec_step (m : gmap Z V) (o : Op) : Out * gmap Z V :=
  match o with
  | OpInsert k v => (OutBool true, <[k := v]> m)
  | OpFind k => (OutValue (m !! k), m)
  | OpErase k => (OutBool (bool_decide (is_Some (m !! k))), delete k m)
  end.

Fixpoint spec_run (m : gmap Z V) (ops : list Op) : list Out * gmap Z V :=
  match ops with
  | [] => ([], m)
  | o :: ops => let r := spec_step m o in
                let rs := spec_run (snd r) ops in (fst r :: fst rs, snd rs)
  end.

(** Never the sentinel as a key, and never a new key into a full table. *)
Definition op_ok (m : gmap Z V) (o : Op) : bool :=
  match o with
  | OpInsert k _ =>
      negb (k =? EMPTY) && (bool_decide (is_Some (m !! k)) ||
                            (Z.of_nat (base.size m) <? Capacity cap_log))
  | OpFind k | OpErase k => negb (k =? EMPTY)
  end.

Fixpoint ops_ok (m : gmap Z V) (ops : list Op) : bool :=
  match ops with
  | [] => true
  | o :: ops => op_ok m o && ops_ok (snd (spec_step m o)) ops
  end.

Lemma step_refines (Hcap : 0 <= cap_log <= 63) m o :
  wf cap_log m -> op_ok (view m) o = true ->
  exists m', step m o = Some (fst (spec_step (view m) o), m') /\
    wf cap_log m' /\ view m' = snd (spec_step (view m) o).
Proof.
  intros Hwf Hok. destruct o as [k v|k|k]; simpl in *.
  - apply andb_prop in Hok as [Hk Hroom]. apply negb_true_iff, Z.eqb_neq in Hk.
    destruct (insert_view cap_log Hcap m k v) as (m' & -> & ? & ?); [done..| |by exists m'].
    apply orb_prop in Hroom as [H%bool_decide_eq_true|H%Z.ltb_lt]; [by left|right].
    by rewrite (wf_size cap_log _ Hwf).
  - apply negb_true_iff, Z.eqb_neq in Hok. rewrite find_view by done. by exists m.
  - apply negb_true_iff, Z.eqb_neq in Hok.
    destruct (erase_view cap_log Hcap m k) as (m' & -> & ? & ?); [done..|by exists m'].
Qed.

Lemma run_refines (Hcap : 0 <= cap_log <= 63) ops m :
  wf cap_log m -> ops_ok (view m) ops = true ->
  exists m', run m ops = Some (fst (spec_run (view m) ops), m') /\
    wf cap_log m' /\ view m' = snd (spec_run (view m) ops).
Proof.
  revert m. induction ops as [|o ops IH]; intros m Hwf Hok; simpl in *; [by exists m|].
  apply andb_prop in Hok as [Ho Hops].
  destruct (step_refines Hcap m o Hwf Ho) as (m1 & -> & Hwf1 & Hv1). simpl.
  rewrite <- Hv1 in Hops. destruct (IH m1 Hwf1 Hops) as (m2 & -> & Hwf2 & Hv2).
  exists m2. by rewrite Hv1 in Hv2 |- *.
Qed.

End refinement.
Arguments Op : clear implicits.
Arguments Out : clear implicits.

(** C9. Every sequence of [insert], [find] and [erase] calls on a new
    [FlatHashMap] of capacity [2^cap_log] in which the sentinel [2 ^ 64 - 1] is not used
    as a key and no new key is inserted into a full table returns (no probing loop runs
    on), and returns exactly what the same calls on a finite map return; the final table
    stands for the final map and its [size()] is the map's.  Insertions up to the last free
    slot are covered and succeed (DESIGN.md:256 says that they fail from a load of 70% on;
    the code has no such test).  The two conditions are needed: the sentinel is found in a
    table that does not hold it ([fhm_sentinel_key_is_found]), and an insertion into a full
    table reports failure but replaces a key ([fhm_refused_insert_loses_key]). *)
Theorem fhm_refines_finite_map {V} `{!Inhabited V} (cap_log : Z) (ops : list (Op V)) :
  0 <= cap_log <= 63 ->
  ops_ok cap_log ∅ ops = true ->
  exists m', run cap_log (make cap_log) ops = Some (fst (spec_run ∅ ops), m') /\
    view m' = snd (spec_run ∅ ops) /\
    size m' = Z.of_nat (base.size (snd (spec_run ∅ ops))) /\ wf cap_log m'.
Proof.
  intros Hcap Hok. destruct (make_wf cap_log Hcap (V := V)) as [Hwf Hv].
  pose proof (run_refines cap_log Hcap ops (make cap_log) Hwf) as Hrun. rewrite Hv in Hrun.
  destruct (Hrun Hok) as (m' & Hr & Hwf' & Hv').
  exists m'. rewrite Hr, <- Hv'. split_and!; [done..| |done]. by apply (wf_size cap_log).
Qed.

Definition demo_ops : list (Op Z) :=
  [OpInsert 5 100; OpInsert 9 101; OpInsert 1 102; OpInsert 7 103; OpFind 9;
   OpInsert 5 200; OpErase 9; OpFind 9; OpErase 9; OpFind 7; OpInsert 9 300; OpFind 5].

Lemma fhm_refines_finite_map_witness :
  exists m', run 2 (make 2) demo_ops = Some (fst (spec_run ∅ demo_ops), m') /\
    view m' = snd (spec_run ∅ demo_ops) /\
    size m' = Z.of_nat (base.size (snd (spec_run ∅ demo_ops))) /\ wf 2 m'.
Proof. apply (fhm_refines_finite_map 2 demo_ops); [lia|vm_compute; reflexivity]. Defined.

(** [insert] on every branch: it always returns; it reports success exactly
    when the key is present or the table has room; on success the table is
    well formed and stands for the updated map. *)
Theorem fhm_insert_branches {V} `{!Inhabited V} (cap_log : Z) (m : FlatHashMap V) (k : Z) (v : V) :
  0 <= cap_log <= 63 -> wf cap_log m -> k ≠ EMPTY ->
  exists ok m', insert cap_log m k v = Some (ok, m') /\
    (ok = true <-> is_Some (view m !! k) \/ size m < capacity cap_log) /\
    (ok = true -> wf cap_log m' /\ view m' = <[k := v]> (view m)).
Proof.
  intros Hcap Hwf Hk. unfold size, capacity.
  destruct (decide (is_Some (view m !! k) \/ size_ m < Capacity cap_log)) as [Hr|Hr].
  - destruct (insert_view cap_log Hcap m k v) as (m' & -> & ? & ?); [done..|].
    by exists true, m'.
  - pose proof (wf_size_bound cap_log Hcap m Hwf).
    destruct (insert_view_full cap_log Hcap m k v) as (m' & ->); [done..| | |].
    { apply eq_None_not_Some. tauto. }
    { destruct (decide (size_ m < Capacity cap_log)); [tauto|lia]. }
    exists false, m'. split; [done|]. split; [naive_solver|done].
Qed.

Lemma fhm_insert_branches_witness :
  exists ok m', insert 2 (make 2) 7 (70 : Z) = Some (ok, m') /\
    (ok = true <-> is_Some (view (make 2 : FlatHashMap Z) !! 7) \/ size (make 2 : FlatHashMap Z) < capacity 2) /\
    (ok = true -> wf 2 m' /\ view m' = <[7 := 70]> (view (make 2 : FlatHashMap Z))).
Proof.
  apply (fhm_insert_branches 2 (make 2) 7 (70 : Z)); [lia| |vm_compute; discriminate].
  apply make_wf. lia.
Defined.

(** A refused [insert] is not a no-op.  With capacity 8 and the keys 0..7
    stored (the table is full), [insert(8)] returns [false] and yet the walk has
    already evicted: key 4 is gone, key 8 is in the table with its value, and
    [size()] is unchanged.  The unit test [InsertReturnsFalseWhenFull] expects the
    refusal to happen "rather than corrupting state". *)
Theorem fhm_refused_insert_loses_key :
  let fill := (fun i => OpInsert (Z.of_nat i) (Z.of_nat i)) <$> seq 0 8 in
  match run 3 (make 3) (fill ++ [OpFind 4; OpInsert 8 8; OpFind 4; OpFind 8]) with
  | Some (outs, m) =>
      outs = replicate 8 (OutBool true) ++
        [OutValue (Some 4); OutBool false; OutValue None; OutValue (Some 8)] /\
      size m = 8
  | None => False
  end.
Proof. vm_compute. split; reflexivity. Qed.

(** The sentinel is found in an empty table: [find(UINT64_MAX)] on a new map
    returns a non-null pointer to an unused slot, and [erase(UINT64_MAX)] reports
    success and wraps [size()] around to [2^64 - 1]. *)
Theorem fhm_sentinel_key_is_found (cap_log : Z) :
  0 <= cap_log <= 63 ->
  find cap_log (make cap_log : FlatHashMap Z) EMPTY = Some (Some (home cap_log EMPTY)) /\
  exists m', erase cap_log (make cap_log : FlatHashMap Z) EMPTY = Some (true, m') /\
    size m' = 2 ^ 64 - 1.
Proof.
  intros Hcap.
  assert (forall p, in_range cap_log p ->
    key_at (slots_ (make cap_log : FlatHashMap Z)) p = EMPTY) as Hk.
  { intros p Hp. unfold key_at, slot_at, make, in_range in *. simpl.
    by rewrite lookup_total_replicate_2 by lia. }
  assert (find_loop cap_log (S (Z.to_nat (Capacity cap_log)))
    (slots_ (make cap_log : FlatHashMap Z)) EMPTY (home cap_log EMPTY) 0
    = Some (Some (home cap_log EMPTY))) as Hf.
  { cbn [find_loop]. rewrite Hk by (by apply home_in_range). done. }
  split; [done|]. unfold erase. rewrite Hf. cbn [mbind option_bind].
  pose proof (Capacity_pos cap_log Hcap).
  destruct (Z.to_nat (Capacity cap_log)) as [|n] eqn:Hn; [lia|]. cbn [backshift_loop].
  rewrite key_at_set with (cap_log := cap_log);
    [|apply length_replicate|by apply home_in_range|by apply next_pos_in_range].
  assert (forall b : bool, b = true -> negb b = false) as Hneg by (by intros ? ->).
  rewrite Hneg; [by eexists|].
  case_decide; [|rewrite Hk by (by apply next_pos_in_range)]; apply Z.eqb_refl.
Qed.

Lemma fhm_sentinel_key_is_found_witness :
  find 4 (make 4 : FlatHashMap Z) EMPTY = Some (Some (home 4 EMPTY)) /\
  exists m', erase 4 (make 4 : FlatHashMap Z) EMPTY = Some (true, m') /\ size m' = 2 ^ 64 - 1.
Proof. apply (fhm_sentinel_key_is_found 4). lia. Defined.


(** ** The instance of the index interface *)
Section index.
  Context {V : Type} `{!Inhabited V} (cap_log : Z) (Hcap : 0 <= cap_log <= 63).

Definition index_ops : IndexOps (FlatHashMap V) V :=
  {| idx_make := make cap_log; idx_insert := insert cap_log;
     idx_find := find_value cap_log; idx_erase := erase cap_log |}.

Definition index_laws : @IndexLaws (FlatHashMap V) V index_ops.
Proof.
  refine {| idx_capacity := Capacity cap_log; idx_key_ok := fun k => k ≠ EMPTY;
            idx_view := view; idx_inv := wf cap_log |}.
  - by apply make_wf.
  - intros t k v Hwf Hk Hroom. apply insert_view; [done..|].
    by rewrite (wf_size cap_log _ Hwf).
  - intros t k Hwf Hk. by apply find_view.
  - intros t k Hwf Hk. by apply erase_view.
Defined.
End index.

End Fhm.
