(* ===== verification/Pool.v ===== *)
(** * [src/core/pool_alloc.h]: the fixed-size block pool

    [Pool<T, Capacity>]: an intrusive free list threaded through the blocks of
    one mapping.  Pointers are integers ([nullptr] is 0), the memory of the
    mapping is a finite map from block addresses to the [T] stored there, and
    the pool reads and writes a block's first word through [Overlay].  The file
    proves that a block is never handed out twice, that exactly [Capacity]
    blocks can be held at once, and that the list is last-in first-out. *)
From stdpp Require Import gmap list numbers.
From S2P Require Import Prelude Interfaces.
Open Scope Z_scope.

Module Pool.

Section operations.
  Context {T : Type} `{!Overlay T}.
  (** [sizeof(T)], the capacity, and the address [mmap] returned. *)
  Context (block_size_ : Z) (Capacity : nat) (base_ : Z).

Definition nullptr : Z := 0.

Record Pool := mkPool { free_head_ : Z }.

Definition block (i : nat) : Z := base_ + Z.of_nat i * block_size_.
Definition blocks : list Z := block <$> seq 0 Capacity.

(** [*reinterpret_cast<void**>(p) = q] *)
Definition store_link (m : gmap Z T) (p q : Z) : option (gmap Z T) :=
  x ← m !! p; Some (<[p := link_set q x]> m).

(** [*reinterpret_cast<void**>(p)] *)
Definition load_link (m : gmap Z T) (p : Z) : option Z := link_get <$> m !! p.

(** The constructor's loop: block [i] links to block [i + 1]. *)
Fixpoint link_blocks (m : gmap Z T) (i n : nat) : option (gmap Z T) :=
  match n with
  | O => Some m
  | S n => m ← store_link m (block i) (block (S i)); link_blocks m (S i) n
  end.

(** The constructor, over the memory of the mapping. *)
Definition make (m : gmap Z T) : option (gmap Z T * Pool) :=
  m ← link_blocks m 0 (Capacity - 1);
  m ← store_link m (block (Capacity - 1)) nullptr;
  Some (m, mkPool base_).

Definition allocate (m : gmap Z T) (p : Pool) : option (Z * Pool) :=
  if free_head_ p =? nullptr then Some (nullptr, p)
  else
    let ret := free_head_ p in
    next ← load_link m (free_head_ p);
    Some (ret, mkPool next).

Definition deallocate (m : gmap Z T) (p : Pool) (ptr : Z) : option (gmap Z T * Pool) :=
  m ← store_link m ptr (free_head_ p);
  Some (m, mkPool ptr).

Definition full (p : Pool) : bool := free_head_ p =? nullptr.
Definition capacity : nat := Capacity.

(** ** The free list *)
Fixpoint chain (m : gmap Z T) (h : Z) (fl : list Z) : Prop :=
  match fl with
  | [] => h = nullptr
  | a :: fl => h = a /\ a ≠ nullptr /\ exists x, m !! a = Some x /\ chain m (link_get x) fl
  end.

Definition free_list (m : gmap Z T) (p : Pool) (fl : list Z) : Prop :=
  NoDup fl /\ chain m (free_head_ p) fl.

End operations.

Section proofs.
  Context {T : Type} `{!Overlay T}.

Lemma chain_frame (m m' : gmap Z T) h fl :
  chain m h fl -> (forall a, a ∈ fl -> m' !! a = m !! a) -> chain m' h fl.
Proof.
  revert h. induction fl as [|a fl IH]; intros h; simpl; [done|].
  intros (-> & Ha & x & Hx & Hc) Hm. split; [done|]. split; [done|]. exists x.
  split; [rewrite Hm by set_solver; done|]. apply IH; [done|]. set_solver.
Qed.

Lemma chain_block (m : gmap Z T) h fl a :
  chain m h fl -> a ∈ fl -> a ≠ nullptr /\ is_Some (m !! a).
Proof.
  revert h. induction fl as [|b fl IH]; intros h; simpl; [set_solver|].
  intros (-> & Hb & x & Hx & Hc) [->|Hin]%elem_of_cons; [by eauto|eauto].
Qed.

Lemma allocate_nil (m : gmap Z T) p : free_list m p [] -> allocate m p = Some (nullptr, p).
Proof. intros [_ Hc]. simpl in Hc. unfold allocate. by rewrite Hc. Qed.

Lemma allocate_cons (m : gmap Z T) p a fl :
  free_list m p (a :: fl) ->
  exists p', allocate m p = Some (a, p') /\ free_list m p' fl.
Proof.
  intros [Hnd (Hh & Ha & x & Hx & Hc)]. unfold allocate, load_link.
  rewrite Hh, (proj2 (Z.eqb_neq _ _)), Hx by done. simpl. eexists. split; [done|].
  split; [by apply NoDup_cons_1_2 in Hnd|done].
Qed.

Lemma deallocate_cons (m : gmap Z T) p fl a :
  free_list m p fl -> a ≠ nullptr -> a ∉ fl -> is_Some (m !! a) ->
  exists m' p', deallocate m p a = Some (m', p') /\ free_list m' p' (a :: fl) /\
    is_Some (m' !! a) /\ forall b, b ≠ a -> m' !! b = m !! b.
Proof.
  intros [Hnd Hc] Ha Hfl [x Hx]. unfold deallocate, store_link. rewrite Hx. simpl.
  eexists _, _. split; [done|]. split; [split|split].
  - by apply NoDup_cons_2.
  - simpl. split; [done|]. split; [done|]. eexists. rewrite lookup_insert_eq. split; [done|].
    rewrite link_get_set. eapply chain_frame; [done|].
    intros b Hb. rewrite lookup_insert_ne by set_solver. done.
  - rewrite lookup_insert_eq. eauto.
  - intros b Hb. by rewrite lookup_insert_ne.
Qed.

#[export] Instance pool_ops : PoolOps Pool T :=
  {| pool_allocate := allocate; pool_deallocate := deallocate |}.

#[export] Instance pool_laws : PoolLaws Pool T.
Proof.
  refine {| pool_free := free_list |}.
  - intros m p fl a [_ Hc] Ha. by apply (chain_block m (free_head_ p) fl).
  - apply allocate_nil.
  - apply allocate_cons.
  - apply deallocate_cons.
  - intros m m' p fl [Hnd Hc] Hm. split; [done|]. by apply (chain_frame m).
Defined.

End proofs.

(** ** A pool and its client

    The client allocates, deallocates blocks it holds, and writes anything into
    blocks it holds, in any order. *)
Section client.
  Context {T : Type} `{!Overlay T}.
  Context (block_size_ : Z) (Capacity : nat) (base_ : Z).
  (** [static_assert(Capacity > 0)], [static_assert(sizeof(T) >= sizeof(void * ))],
      and a mapping that is not at the null page. *)
  Context (HC : (0 < Capacity)%nat) (Hbs : 8 <= block_size_) (Hbase : 0 < base_).

  Abbreviation block := (block block_size_ base_).
  Abbreviation blocks := (blocks block_size_ Capacity base_).

Record Client := mkClient { mem : gmap Z T; pool : Pool; held : list Z }.

Inductive client_step : Client -> Client -> Prop :=
  | step_allocate m p h a p' :
      allocate m p = Some (a, p') -> a ≠ nullptr ->
      client_step (mkClient m p h) (mkClient m p' (a :: h))
  | step_exhausted m p h p' :
      allocate m p = Some (nullptr, p') ->
      client_step (mkClient m p h) (mkClient m p' h)
  | step_deallocate m p h1 h2 a m' p' :
      deallocate m p a = Some (m', p') ->
      client_step (mkClient m p (h1 ++ a :: h2)) (mkClient m' p' (h1 ++ h2))
  | step_write m p h a x :
      a ∈ h -> client_step (mkClient m p h) (mkClient (<[a := x]> m) p h).

Definition client_inv (c : Client) : Prop :=
  exists fl, free_list (mem c) (pool c) fl /\ held c ++ fl ≡ₚ blocks /\
    forall a, a ∈ blocks -> is_Some (mem c !! a).

Lemma block_inj i j : block i = block j -> i = j.
Proof. unfold Pool.block. intros H. assert (Z.of_nat i = Z.of_nat j) by nia. lia. Qed.

Lemma block_nonnull i : block i ≠ nullptr.
Proof. unfold Pool.block, nullptr. nia. Qed.

Lemma blocks_NoDup : NoDup blocks.
Proof. apply NoDup_fmap_2; [|apply NoDup_seq]. intros i j. apply block_inj. Qed.

Lemma blocks_elem i : block i ∈ blocks <-> (i < Capacity)%nat.
Proof.
  unfold Pool.blocks. rewrite list_elem_of_fmap. split.
  - intros (j & Hj%block_inj & [_ Hlt]%elem_of_seq). lia.
  - intros Hi. exists i. split; [done|]. apply elem_of_seq. lia.
Qed.

Lemma blocks_nonnull a : a ∈ blocks -> a ≠ nullptr.
Proof. unfold Pool.blocks. intros (i & -> & _)%list_elem_of_fmap. apply block_nonnull. Qed.

(** The linking loop threads blocks [i .. i + n]. *)
Lemma link_blocks_chain n : forall i (m : gmap Z T),
  (forall j, (j <= i + n)%nat -> is_Some (m !! block j)) ->
  exists m', link_blocks block_size_ base_ m i n = Some m' /\
    (forall j, (j < i \/ i + n <= j)%nat -> m' !! block j = m !! block j) /\
    (forall j, (i <= j < i + n)%nat -> load_link m' (block j) = Some (block (S j))) /\
    (forall a, is_Some (m !! a) -> is_Some (m' !! a)).
Proof.
  induction n as [|n IH]; intros i m Hm; simpl.
  { exists m. split_and!; try done. intros j Hj. lia. }
  destruct (Hm i) as [x Hx]; [lia|]. unfold store_link. rewrite Hx. simpl.
  set (m1 := <[block i := link_set (block (S i)) x]> m).
  assert (forall a, is_Some (m !! a) -> is_Some (m1 !! a)) as Hm1.
  { intros a Ha. unfold m1. destruct (decide (a = block i)) as [->|Hne].
    - rewrite lookup_insert_eq. eauto.
    - by rewrite lookup_insert_ne. }
  destruct (IH (S i) m1) as (m' & -> & Hout & Hin & Hdom).
  { intros j Hj. apply Hm1, Hm. lia. }
  exists m'. split; [done|]. split_and!; [| |auto].
  - intros j Hj. rewrite Hout by lia. unfold m1. apply lookup_insert_ne.
    intros ?%block_inj. lia.
  - intros j Hj. destruct (decide (j = i)) as [->|Hne]; [|apply Hin; lia].
    unfold load_link. rewrite Hout by lia. unfold m1.
    rewrite lookup_insert_eq. simpl. by rewrite link_get_set.
Qed.

Lemma chain_of_links (m : gmap Z T) n : forall i,
  (forall j, (i <= j < i + n)%nat -> load_link m (block j) = Some (block (S j))) ->
  load_link m (block (i + n)) = Some nullptr ->
  chain m (block i) (block <$> seq i (S n)).
Proof.
  induction n as [|n IH]; intros i Hl Hlast; simpl.
  - rewrite Nat.add_0_r in Hlast. unfold load_link in Hlast.
    apply fmap_Some in Hlast as (x & Hx & Hlx).
    split; [done|]. split; [apply block_nonnull|]. by exists x.
  - assert (load_link m (block i) = Some (block (S i))) as Hi by (apply Hl; lia).
    unfold load_link in Hi. apply fmap_Some in Hi as (x & Hx & Hlx).
    split; [done|]. split; [apply block_nonnull|]. exists x. split; [done|].
    rewrite <- Hlx. apply (IH (S i)); [intros j Hj; apply Hl; lia|].
    by replace (S i + n)%nat with (i + S n)%nat by lia.
Qed.

(** The constructor writes only to memory that is mapped. *)
Lemma store_link_outside (m m' : gmap Z T) a q b : store_link m a q = Some m' -> m !! b = None -> m' !! b = None.
Proof. unfold store_link. intros H Hb. destruct (m !! a) as [x|] eqn:E; simplify_option_eq. rewrite lookup_insert_ne by congruence. done. Qed.

Lemma link_blocks_outside n : forall i (m m' : gmap Z T) b, link_blocks block_size_ base_ m i n = Some m' -> m !! b = None -> m' !! b = None.
Proof.
  induction n as [|n IH]; intros i m m' b H Hb; cbn [link_blocks] in H; [by simplify_eq|].
  destruct (store_link m _ _) as [m1|] eqn:E; [|done]. cbn [mbind option_bind] in H. eapply IH; [exact H|]. by eapply store_link_outside.
Qed.

Lemma make_outside (m m' : gmap Z T) p b : make block_size_ Capacity base_ m = Some (m', p) -> m !! b = None -> m' !! b = None.
Proof.
  unfold make. intros H Hb. destruct (link_blocks _ _ m 0 _) as [m1|] eqn:E; [|done]. cbn [mbind option_bind] in H.
  destruct (store_link m1 _ _) as [m2|] eqn:E2; [|done]. cbn [mbind option_bind] in H. simplify_eq. eapply store_link_outside; [exact E2|]. by eapply link_blocks_outside.
Qed.

Lemma make_free_list (m : gmap Z T) :
  (forall a, a ∈ blocks -> is_Some (m !! a)) ->
  exists m' p, make block_size_ Capacity base_ m = Some (m', p) /\ client_inv (mkClient m' p []).
Proof.
  intros Hm. unfold make.
  destruct (link_blocks_chain (Capacity - 1) 0 m) as (m1 & -> & Hout & Hin & Hdom).
  { intros j Hj. apply Hm, blocks_elem. lia. }
  simpl. destruct (Hdom (block (Capacity - 1))) as [x Hx]; [apply Hm, blocks_elem; lia|].
  unfold store_link. rewrite Hx. simpl. eexists _, _. split; [done|].
  set (m2 := <[_:=_]> m1). exists blocks. simpl. split; [split|split; [done|]].
  - apply blocks_NoDup.
  - replace (free_head_ (mkPool base_)) with (block 0) by (unfold Pool.block; simpl; lia).
    unfold Pool.blocks. replace Capacity with (S (Capacity - 1)) at 1 by lia.
    apply chain_of_links.
    + intros j Hj. rewrite <- Hin by lia. unfold load_link, m2.
      by rewrite lookup_insert_ne by (intros ?%block_inj; lia).
    + unfold load_link, m2. simpl. rewrite lookup_insert_eq. simpl. by rewrite link_get_set.
  - intros a Ha. unfold m2. destruct (decide (a = block (Capacity - 1))) as [->|Hne].
    + rewrite lookup_insert_eq. eauto.
    + rewrite lookup_insert_ne by done. auto.
Qed.

Lemma client_step_inv c c' : client_step c c' -> client_inv c -> client_inv c'.
Proof.
  intros Hs (fl & Hfl & Hperm & Hmap). destruct Hs as [m p h a p' Ha Hne|m p h p' Ha|m p h1 h2 a m' p' Ha|m p h a x Ha];
    simpl in *.
  - destruct fl as [|b fl]; [apply allocate_nil in Hfl; congruence|].
    apply allocate_cons in Hfl as (p'' & Ha' & Hfl'). rewrite Ha in Ha'. simplify_eq.
    exists fl. simpl. split; [done|]. split; [|done].
    by rewrite <- Hperm, Permutation_middle.
  - destruct fl as [|b fl].
    + apply allocate_nil in Hfl as Ha'. rewrite Ha in Ha'. simplify_eq. by exists [].
    + exfalso. apply allocate_cons in Hfl as (p'' & Ha' & Hfl').
      assert (b = nullptr) as -> by congruence.
      apply (blocks_nonnull nullptr); [|done]. rewrite <- Hperm. set_solver.
  - assert (a ∈ blocks) as Hab by (rewrite <- Hperm; set_solver).
    pose proof blocks_NoDup as Hnd. rewrite <- Hperm, <- app_assoc in Hnd.
    cbn [app] in Hnd. rewrite <- Permutation_middle in Hnd. apply NoDup_cons_1_1 in Hnd.
    destruct (deallocate_cons m p fl a) as (m'' & p'' & Ha' & Hfl' & Hin & Hout);
      [done|by apply blocks_nonnull|set_solver|auto|].
    rewrite Ha in Ha'. simplify_eq. exists (a :: fl). simpl. split; [done|]. split.
    + rewrite <- Hperm. solve_Permutation.
    + intros b Hb. destruct (decide (b = a)) as [->|Hne]; [done|]. rewrite Hout; auto.
  - exists fl. split; [|split; [done|]].
    + destruct Hfl as [Hnd Hc]. split; [done|]. simpl in *. apply (chain_frame m); [done|].
      intros b Hb. apply lookup_insert_ne. intros ->.
      pose proof blocks_NoDup as Hndb. rewrite <- Hperm in Hndb.
      apply list.NoDup_app in Hndb as (_ & Hd & _). by apply (Hd b).
    + intros b Hb. simpl. destruct (decide (b = a)) as [->|Hne].
      * rewrite lookup_insert_eq. eauto.
      * rewrite lookup_insert_ne; auto.
Qed.

End client.

(** The words of the memory themselves as blocks: enough to exercise a pool. *)
#[export] Instance word_overlay : Overlay Z :=
  {| link_get := fun x => x; link_set := fun p _ => p; link_get_set := fun _ _ => eq_refl |}.

(** C22. No block is handed out twice, none is lost, and the pool's own links
    survive whatever the client writes into the blocks it holds: in every state
    a client reaches from a new pool by any interleaving of [allocate],
    [deallocate] of held blocks and writes to held blocks, the held blocks are
    distinct blocks of the mapping, and the next [allocate] returns; it returns
    [nullptr] exactly when all [Capacity] blocks are held, and otherwise a block
    of the mapping that is not held. *)
Theorem pool_blocks_exclusive {T} `{!Overlay T} (block_size : Z) (Capacity : nat) (base : Z)
    (m0 : gmap Z T) (m1 : gmap Z T) (p1 : Pool) (c : Client) :
  (0 < Capacity)%nat -> 8 <= block_size -> 0 < base ->
  (forall a, a ∈ blocks block_size Capacity base -> is_Some (m0 !! a)) ->
  make block_size Capacity base m0 = Some (m1, p1) ->
  rtc client_step (mkClient m1 p1 []) c ->
  NoDup (held c) /\ (forall a, a ∈ held c -> a ∈ blocks block_size Capacity base) /\
  exists a p', allocate (mem c) (pool c) = Some (a, p') /\
    (a = nullptr <-> length (held c) = Capacity) /\
    (a ≠ nullptr -> a ∈ blocks block_size Capacity base /\ a ∉ held c).
Proof.
  intros HC Hbs Hbase Hm0 Hmake Hrtc.
  destruct (make_free_list block_size Capacity base HC Hbs Hbase m0 Hm0) as (m1' & p1' & Hmk & Hinv).
  rewrite Hmake in Hmk. simplify_eq.
  assert (client_inv block_size Capacity base c) as (fl & Hfl & Hperm & _).
  { revert Hinv. remember (mkClient m1' p1' []) as c0. clear Heqc0 Hmake.
    induction Hrtc as [|c1 c2 c3 Hs _ IH]; [done|]. intros Hinv.
    apply IH. by apply (client_step_inv block_size Capacity base HC Hbs Hbase c1). }
  pose proof (blocks_NoDup block_size Capacity base HC Hbs) as Hnd.
  rewrite <- Hperm in Hnd. apply list.NoDup_app in Hnd as (Hnd & Hdisj & _).
  split; [done|]. split.
  { intros a Ha. rewrite <- Hperm. set_solver. }
  assert (length (held c) + length fl = Capacity)%nat as Hlen.
  { rewrite <- length_app, Hperm. unfold blocks. by rewrite length_fmap, length_seq. }
  destruct fl as [|a fl].
  - exists nullptr, (pool c). split; [by apply allocate_nil|]. simpl in Hlen.
    split; [|done]. split; [lia|done].
  - destruct (allocate_cons _ _ _ _ Hfl) as (p' & Ha & Hfl').
    destruct Hfl as [_ (_ & Hne & _)]. exists a, p'. simpl in Hlen.
    split; [done|]. split; [split; [done|lia]|]. intros _. split.
    + rewrite <- Hperm. set_solver.
    + intros Hin. apply (Hdisj a Hin). set_solver.
Qed.

Definition demo_memory : gmap Z Z := {[ 4096 := 0; 4128 := 0; 4160 := 0 ]}.
Definition demo_client : Client :=
  mkClient {[ 4096 := 4128; 4128 := 77; 4160 := 0 ]} (mkPool 4160) [4128; 4096].

Lemma pool_blocks_exclusive_witness :
  NoDup [4128; 4096] /\ (forall a, a ∈ [4128; 4096] -> a ∈ blocks 32 3 4096) /\
  exists a p', allocate (mem demo_client) (pool demo_client) = Some (a, p') /\
    (a = nullptr <-> length [4128; 4096] = 3%nat) /\
    (a ≠ nullptr -> a ∈ blocks 32 3 4096 /\ a ∉ [4128; 4096]).
Proof.
  apply (pool_blocks_exclusive 32 3 4096 demo_memory
           {[ 4096 := 4128; 4128 := 4160; 4160 := 0 ]} (mkPool 4096) demo_client);
    [lia|lia|lia| |vm_compute; reflexivity|].
  - intros a Ha. vm_compute in Ha.
    repeat (apply elem_of_cons in Ha as [->|Ha]; [by vm_compute; eexists|]).
    by apply not_elem_of_nil in Ha.
  - eapply rtc_l. { apply (step_allocate _ _ _ 4096 (mkPool 4128)); [by vm_compute|done]. }
    eapply rtc_l. { apply (step_allocate _ _ _ 4128 (mkPool 4160)); [by vm_compute|done]. }
    eapply rtc_l. { apply (step_write _ _ _ 4128 77). set_solver. }
    apply rtc_refl.
Defined.

(** The free list is last-in first-out: a block just returned is the next
    one handed out, and the pool is then back in the state before. *)
Theorem pool_lifo {T} `{!Overlay T} (m : gmap Z T) (p : Pool) (a : Z) :
  a ≠ nullptr -> is_Some (m !! a) ->
  exists m' p', deallocate m p a = Some (m', p') /\ full p' = false /\
    allocate m' p' = Some (a, p).
Proof.
  intros Ha [x Hx]. unfold deallocate, store_link. rewrite Hx. simpl.
  eexists _, _. split; [done|]. unfold full, allocate, load_link. simpl.
  rewrite (proj2 (Z.eqb_neq _ _)), lookup_insert_eq by done. split; [done|]. simpl.
  rewrite link_get_set. by destruct p.
Qed.

Lemma pool_lifo_witness :
  exists m' p', deallocate demo_memory (mkPool 0) 4128 = Some (m', p') /\ full p' = false /\
    allocate m' p' = Some (4128, mkPool 0).
Proof.
  apply (pool_lifo demo_memory (mkPool 0) 4128); [done|by vm_compute; eexists].
Defined.

End Pool.
