(* ===== verification/MatchingEngine.v ===== *)
(** * [sim/domain/matching_engine.{h,cpp}]: the price-time-priority book

    The engine as the code has it: orders are blocks of the pool's memory linked
    by [prev_in_level]/[next_in_level] pointers, a price level is a head pointer,
    a tail pointer and a 32-bit total, [bids_] and [asks_] are arrays of 101
    levels, and [orders_] indexes live orders by id.  Operations are state
    transformers that return [None] where the C++ program has no defined
    behaviour (a null or unmapped pointer, an index outside an array) or where a
    loop runs out of its fuel.  [ts_now()] is the argument [ts]. *)
From stdpp Require Import gmap list numbers.
From S2P Require Import Prelude Interfaces.
Open Scope Z_scope.
Open Scope cpp_scope.

Module Engine.

(** ** The data *)
Inductive Side := YES | NO.

Global Instance Side_eq_dec : EqDecision Side.
Proof. solve_decision. Defined.
Global Instance Side_inhabited : Inhabited Side := populate YES.

Record Fill := mkFill {
  maker_order_id : Z;
  taker_order_id : Z;
  fill_price : Z;
  fill_qty : Z;
  fill_ts : Z;
}.

Record Order := mkOrder {
  order_id : Z;
  client_id : Z;
  side : Side;
  price : Z;
  qty_remaining : Z;
  ts_received : Z;
  prev_in_level : Z;
  next_in_level : Z;
}.

Record PriceLevel := mkLevel { head : Z; tail : Z; total_qty : Z }.

Record PlaceResult := mkResult {
  result_order_id : Z;
  fills : list Fill;
  qty_resting : Z;
  accepted : bool;
}.

Definition nullptr : Z := 0.
Definition POOL_CAPACITY : nat := 2048.

(** The first word of an [Order] is its [order_id]: that is the word the pool's
    free list overwrites. *)
#[export] Instance order_overlay : Overlay Order := {
  link_get o := order_id o;
  link_set p o := mkOrder p (client_id o) (side o) (price o) (qty_remaining o)
                    (ts_received o) (prev_in_level o) (next_in_level o);
  link_get_set _ _ := eq_refl;
}.

Definition set_qty (q : Z) (o : Order) : Order :=
  mkOrder (order_id o) (client_id o) (side o) (price o) q
    (ts_received o) (prev_in_level o) (next_in_level o).
Definition set_prev (p : Z) (o : Order) : Order :=
  mkOrder (order_id o) (client_id o) (side o) (price o) (qty_remaining o)
    (ts_received o) p (next_in_level o).
Definition set_next (p : Z) (o : Order) : Order :=
  mkOrder (order_id o) (client_id o) (side o) (price o) (qty_remaining o)
    (ts_received o) (prev_in_level o) p.

Definition set_head (p : Z) (l : PriceLevel) : PriceLevel := mkLevel p (tail l) (total_qty l).
Definition set_tail (p : Z) (l : PriceLevel) : PriceLevel := mkLevel (head l) p (total_qty l).
Definition set_total (q : Z) (l : PriceLevel) : PriceLevel := mkLevel (head l) (tail l) q.

(** The engine, over an implementation [P] of the pool and [I] of the index. *)
Record MatchingEngine (P I : Type) := mkEngine {
  mem : gmap Z Order;
  pool_ : P;
  bids_ : list PriceLevel;
  asks_ : list PriceLevel;
  orders_ : I;
  best_bid_ : Z;
  best_ask_ : Z;
  next_order_id_ : Z;
}.
Arguments mkEngine {P I} _ _ _ _ _ _ _ _.
Arguments mem {P I} _.
Arguments pool_ {P I} _.
Arguments bids_ {P I} _.
Arguments asks_ {P I} _.
Arguments orders_ {P I} _.
Arguments best_bid_ {P I} _.
Arguments best_ask_ {P I} _.
Arguments next_order_id_ {P I} _.

Section operations.
  Context {P I : Type} `{!PoolOps P Order} `{!IndexOps I Z}.
  Abbreviation engine := (MatchingEngine P I).

(** ** State transformers with undefined behaviour *)
Definition M (A : Type) : Type := engine -> option (A * engine).
Definition ret {A} (x : A) : M A := fun e => Some (x, e).
Definition bind {A B} (m : M A) (k : A -> M B) : M B :=
  fun e => '(x, e) ← m e; k x e.
Local Notation "x <- m ;; k" := (bind m (fun x => k))
  (at level 100, m at next level, right associativity).
Local Notation "m ;; k" := (bind m (fun _ => k)) (at level 100, right associativity).
Definition gets {A} (f : engine -> A) : M A := fun e => Some (f e, e).
Definition when (b : bool) (m : M unit) : M unit := if b then m else ret tt.

Definition set_mem (m : gmap Z Order) (e : engine) : engine :=
  mkEngine m (pool_ e) (bids_ e) (asks_ e) (orders_ e) (best_bid_ e) (best_ask_ e) (next_order_id_ e).
Definition set_pool (p : P) (e : engine) : engine :=
  mkEngine (mem e) p (bids_ e) (asks_ e) (orders_ e) (best_bid_ e) (best_ask_ e) (next_order_id_ e).
Definition set_orders (i : I) (e : engine) : engine :=
  mkEngine (mem e) (pool_ e) (bids_ e) (asks_ e) i (best_bid_ e) (best_ask_ e) (next_order_id_ e).
Definition set_best_bid (b : Z) (e : engine) : engine :=
  mkEngine (mem e) (pool_ e) (bids_ e) (asks_ e) (orders_ e) b (best_ask_ e) (next_order_id_ e).
Definition set_best_ask (b : Z) (e : engine) : engine :=
  mkEngine (mem e) (pool_ e) (bids_ e) (asks_ e) (orders_ e) (best_bid_ e) b (next_order_id_ e).
Definition set_next_id (n : Z) (e : engine) : engine :=
  mkEngine (mem e) (pool_ e) (bids_ e) (asks_ e) (orders_ e) (best_bid_ e) (best_ask_ e) n.

(** Resting YES orders live in [bids_], resting NO orders in [asks_]. *)
Definition wall (sd : Side) (e : engine) : list PriceLevel :=
  match sd with YES => bids_ e | NO => asks_ e end.
Definition set_wall (sd : Side) (w : list PriceLevel) (e : engine) : engine :=
  match sd with
  | YES => mkEngine (mem e) (pool_ e) w (asks_ e) (orders_ e) (best_bid_ e) (best_ask_ e) (next_order_id_ e)
  | NO => mkEngine (mem e) (pool_ e) (bids_ e) w (orders_ e) (best_bid_ e) (best_ask_ e) (next_order_id_ e)
  end.
Definition opposite (sd : Side) : Side := match sd with YES => NO | NO => YES end.

(** [*p], [p->f = v], [wall[i]], [wall[i].f = v] *)
Definition load (p : Z) : M Order := fun e =>
  o ← mem e !! p; Some (o, e).
Definition store (p : Z) (f : Order -> Order) : M unit := fun e =>
  o ← mem e !! p; Some (tt, set_mem (<[p := f o]> (mem e)) e).
Definition load_level (sd : Side) (i : Z) : M PriceLevel := fun e =>
  l ← wall sd e !! Z.to_nat i; Some (l, e).
Definition store_level (sd : Side) (i : Z) (f : PriceLevel -> PriceLevel) : M unit := fun e =>
  l ← wall sd e !! Z.to_nat i; Some (tt, set_wall sd (<[Z.to_nat i := f l]> (wall sd e)) e).

Definition pool_alloc : M Z := fun e =>
  '(p, pl) ← pool_allocate (mem e) (pool_ e); Some (p, set_pool pl e).
Definition pool_dealloc (p : Z) : M unit := fun e =>
  '(m, pl) ← pool_deallocate (mem e) (pool_ e) p; Some (tt, set_pool pl (set_mem m e)).

Definition orders_insert (id p : Z) : M bool := fun e =>
  '(b, i) ← idx_insert (orders_ e) id p; Some (b, set_orders i e).
Definition orders_find (id : Z) : M (option Z) := fun e =>
  r ← idx_find (orders_ e) id; Some (r, e).
Definition orders_erase (id : Z) : M bool := fun e =>
  '(b, i) ← idx_erase (orders_ e) id; Some (b, set_orders i e).

(** ** The rescans that end [place_limit] and [cancel] *)
Fixpoint rescan_bid (fuel : nat) : M unit :=
  match fuel with
  | O => fun _ => None
  | S fuel =>
      b <- gets best_bid_ ;; l <- load_level YES b ;;
      if (total_qty l =? 0) && negb (b =? 0)
      then (fun e => Some (tt, set_best_bid (b -8 1) e)) ;; rescan_bid fuel
      else ret tt
  end.

Fixpoint rescan_ask (fuel : nat) : M unit :=
  match fuel with
  | O => fun _ => None
  | S fuel =>
      a <- gets best_ask_ ;; l <- load_level NO a ;;
      if (total_qty l =? 0) && negb (a =? 100)
      then (fun e => Some (tt, set_best_ask (a +8 1) e)) ;; rescan_ask fuel
      else ret tt
  end.

Definition SCAN_FUEL : nat := 102.

(** ** [place_limit] *)
Definition rejected : PlaceResult := mkResult 0 [] 0 false.

(** The loop over the orders of one level. *)
Fixpoint match_level (fuel : nat) (wl : Side) (ptr incoming cur : Z) (fs : list Fill)
    : M (list Fill) :=
  match fuel with
  | O => fun _ => None
  | S fuel =>
    if cur =? nullptr then ret fs else
    i <- load incoming ;;
    if negb (0 <? qty_remaining i) then ret fs else
    c <- load cur ;;
    let traded := Z.min (qty_remaining c) (qty_remaining i) in
    let fs := fs ++ [mkFill (order_id c) (order_id i) ptr traded (ts_received i)] in
    store cur (fun o => set_qty (qty_remaining o -32 traded) o) ;;
    store_level wl ptr (fun l => set_total (total_qty l -32 traded) l) ;;
    store incoming (fun o => set_qty (qty_remaining o -32 traded) o) ;;
    c <- load cur ;;
    if qty_remaining c =? 0 then
      let next := next_in_level c in
      (if negb (prev_in_level c =? nullptr)
       then store (prev_in_level c) (set_next next)
       else store_level wl ptr (set_head next)) ;;
      c <- load cur ;;
      (if negb (next =? nullptr)
       then store next (set_prev (prev_in_level c))
       else store_level wl ptr (set_tail (prev_in_level c))) ;;
      c <- load cur ;;
      orders_erase (order_id c) ;;
      pool_dealloc cur ;;
      match_level fuel wl ptr incoming next fs
    else ret fs
  end.

Definition LEVEL_FUEL : nat := S POOL_CAPACITY.

(** The loop over the price levels, upwards through the asks for a YES order and
    downwards through the bids for a NO order. *)
Fixpoint match_levels (fuel : nat) (sd : Side) (limit incoming ptr : Z) (fs : list Fill)
    : M (list Fill) :=
  match fuel with
  | O => fun _ => None
  | S fuel =>
    i <- load incoming ;;
    if (match sd with YES => ptr <=? limit | NO => limit <=? ptr end)
       && negb (qty_remaining i =? 0) then
      l <- load_level (opposite sd) ptr ;;
      fs <- match_level LEVEL_FUEL (opposite sd) ptr incoming (head l) fs ;;
      match_levels fuel sd limit incoming
        (match sd with YES => ptr +8 1 | NO => ptr -8 1 end) fs
    else ret fs
  end.

(** Appending the remainder to its level. *)
Definition rest_order (sd : Side) (incoming : Z) : M unit :=
  i <- load incoming ;;
  orders_insert (order_id i) incoming ;;
  l <- load_level sd (price i) ;;
  let old_tail := tail l in
  store_level sd (price i) (set_tail incoming) ;;
  (if old_tail =? nullptr
   then store_level sd (price i) (set_head incoming)
   else store incoming (set_prev old_tail) ;; store old_tail (set_next incoming)) ;;
  i <- load incoming ;;
  store_level sd (price i) (fun l => set_total (total_qty l +32 qty_remaining i) l) ;;
  match sd with
  | YES => fun e => Some (tt, set_best_bid (Z.max (best_bid_ e) (price i)) e)
  | NO => fun e => Some (tt, set_best_ask (Z.min (best_ask_ e) (price i)) e)
  end.

Definition place_limit (ts client : Z) (sd : Side) (pr qty : Z) : M PlaceResult :=
  if (pr <? 1) || (99 <? pr) then ret rejected else
  if qty =? 0 then ret rejected else
  scan_start <- gets (match sd with YES => best_ask_ | NO => best_bid_ end) ;;
  incoming <- pool_alloc ;;
  if incoming =? nullptr then ret rejected else
  id <- gets next_order_id_ ;;
  (fun e => Some (tt, set_next_id (id +64 1) e)) ;;
  store incoming (fun _ => mkOrder id client sd pr qty ts nullptr nullptr) ;;
  fs <- match_levels SCAN_FUEL sd pr incoming scan_start [] ;;
  i <- load incoming ;;
  resting <- (if 0 <? qty_remaining i
              then rest_order sd incoming ;; ret (qty_remaining i)
              else pool_dealloc incoming ;; ret 0) ;;
  rescan_bid SCAN_FUEL ;;
  rescan_ask SCAN_FUEL ;;
  ret (mkResult id fs resting true).

(** ** [cancel] *)
Definition cancel (id client : Z) : M bool :=
  slot <- orders_find id ;;
  match slot with
  | None => ret false
  | Some cur =>
    c <- load cur ;;
    if negb (client_id c =? client) then ret false else
    let pr := price c in
    let sd := side c in
    (if next_in_level c =? nullptr
     then store_level sd pr (set_tail (prev_in_level c))
     else store (next_in_level c) (set_prev (prev_in_level c))) ;;
    c <- load cur ;;
    (if prev_in_level c =? nullptr
     then store_level sd pr (set_head (next_in_level c))
     else store (prev_in_level c) (set_next (next_in_level c))) ;;
    c <- load cur ;;
    store_level sd pr (fun l => set_total (total_qty l -32 qty_remaining c) l) ;;
    orders_erase id ;;
    pool_dealloc cur ;;
    rescan_bid SCAN_FUEL ;;
    rescan_ask SCAN_FUEL ;;
    ret true
  end.

(** ** Observers *)
Definition best_bid (e : engine) : Z := best_bid_ e.
Definition best_ask (e : engine) : Z := best_ask_ e.
Definition depth_at (e : engine) (sd : Side) (pr : Z) : option Z :=
  if (pr <? 1) || (99 <? pr) then Some 0
  else total_qty <$> wall sd e !! Z.to_nat pr.

End operations.

End Engine.
