(* ===== verification/MatchSpec.v ===== *)
(** * What the exchange promises: an abstract limit order book

    A book gives every side and price its queue of resting orders, oldest first.
    [submit] and [withdraw] are the contract of [MatchingEngine::place_limit] and
    [MatchingEngine::cancel]: no pointers, no index, no cached best prices.  The
    file proves what makes the contract a price-time-priority exchange:
    conservation of quantity, price priority, time priority, limit prices and
    the absence of a crossed book.  [EngineRefine.v] proves that the pointer
    program implements it. *)
From stdpp Require Import gmap list numbers sorting.
From S2P Require Import Prelude Interfaces MatchingEngine.
Open Scope Z_scope.

Module Clob.
Import Engine.

Record order := mkO { o_id : Z; o_client : Z; o_qty : Z; o_ts : Z }.

Definition book : Type := Side * Z -> list order.

Global Instance key_eq_dec : EqDecision (Side * Z) := _.

Definition upd {A} (f : Side * Z -> A) (k : Side * Z) (x : A) : Side * Z -> A :=
  fun k' => if decide (k' = k) then x else f k'.

Definition with_qty (q : Z) (o : order) : order := mkO (o_id o) (o_client o) q (o_ts o).

(** A taker meets one queue: oldest orders first, each filled as far as the
    taker's remaining quantity goes. *)
Fixpoint fill_queue (taker ts pr : Z) (q : list order) (rem : Z) : list Fill * list order * Z :=
  match q with
  | [] => ([], [], rem)
  | o :: q' =>
    if rem <=? 0 then ([], q, rem)
    else if o_qty o <=? rem then
      let '(fs, q'', rem') := fill_queue taker ts pr q' (rem - o_qty o) in
      (mkFill (o_id o) taker pr (o_qty o) ts :: fs, q'', rem')
    else ([mkFill (o_id o) taker pr rem ts], with_qty (o_qty o - rem) o :: q', 0)
  end.

(** The taker meets the queues of the opposite side at the given prices. *)
Fixpoint sweep (taker ts : Z) (sd : Side) (prices : list Z) (b : book) (rem : Z)
    : list Fill * book * Z :=
  match prices with
  | [] => ([], b, rem)
  | p :: ps =>
    let '(fs, q, rem') := fill_queue taker ts p (b (sd, p)) rem in
    let '(fs', b', rem'') := sweep taker ts sd ps (upd b (sd, p) q) rem' in
    (fs ++ fs', b', rem'')
  end.

(** The prices from [ptr] to the limit, in the order the taker meets them. *)
Definition prices_from (sd : Side) (limit ptr : Z) : list Z :=
  match sd with
  | YES => seqZ ptr (limit - ptr + 1)
  | NO => reverse (seqZ limit (ptr - limit + 1))
  end.

(** The prices a limit order may trade at, best first: the asks from 1 up to the
    limit for a YES order, the bids from 99 down to the limit for a NO order. *)
Definition prices_for (sd : Side) (limit : Z) : list Z :=
  prices_from sd limit (match sd with YES => 1 | NO => 99 end).

(** The contract of an accepted [place_limit]. *)
Definition place (id ts client : Z) (sd : Side) (limit qty : Z) (b : book)
    : list Fill * Z * book :=
  let '(fs, b', rem) := sweep id ts (opposite sd) (prices_for sd limit) b qty in
  (fs, rem,
   if 0 <? rem then upd b' (sd, limit) (b' (sd, limit) ++ [mkO id client rem ts]) else b').

(** The contract of a [cancel] that finds its order. *)
Definition remove_order (id : Z) (q : list order) : list order :=
  filter (fun o => o_id o ≠ id) q.

(** ** The exchange as a state machine *)
Definition all_keys : list (Side * Z) :=
  sd ← [YES; NO]; (fun p => (sd, p)) <$> seqZ 1 99.
Definition entries (b : book) : list ((Side * Z) * order) :=
  k ← all_keys; (fun o => (k, o)) <$> b k.
Definition resting (b : book) : nat := length (entries b).
Definition find_order (id : Z) (b : book) : option ((Side * Z) * order) :=
  snd <$> list_find (fun x => o_id x.2 = id) (entries b).

Record state := mkState { bk : book; nid : Z }.

Definition submit (ts client : Z) (sd : Side) (pr qty : Z) (s : state) : PlaceResult * state :=
  if decide (1 <= pr <= 99 /\ qty ≠ 0 /\ (resting (bk s) < POOL_CAPACITY)%nat) then
    let '(fs, rem, b') := place (nid s) ts client sd pr qty (bk s) in
    (mkResult (nid s) fs rem true, mkState b' (nid s + 1))
  else (rejected, s).

Definition withdraw (id client : Z) (s : state) : bool * state :=
  match find_order id (bk s) with
  | Some (k, o) =>
      if decide (o_client o = client)
      then (true, mkState (upd (bk s) k (remove_order id (bk s k))) (nid s))
      else (false, s)
  | None => (false, s)
  end.

Definition sum_qty (q : list order) : Z := foldr (fun o acc => o_qty o + acc) 0 q.
Definition sum_fills (fs : list Fill) : Z := foldr (fun f acc => fill_qty f + acc) 0 fs.

Definition positive (b : book) : Prop := forall k o, o ∈ b k -> 0 < o_qty o.

(** No bid at or above an ask. *)
Definition uncrossed (b : book) : Prop :=
  forall p q, b (YES, p) ≠ [] -> b (NO, q) ≠ [] -> p < q.

(** ** One queue *)
Lemma sum_fills_app fs fs' : sum_fills (fs ++ fs') = sum_fills fs + sum_fills fs'.
Proof. induction fs; simpl; lia. Qed.

Lemma sum_qty_app q q' : sum_qty (q ++ q') = sum_qty q + sum_qty q'.
Proof. induction q; simpl; lia. Qed.

Lemma sum_qty_nonneg q : (forall o, o ∈ q -> 1 <= o_qty o) -> 0 <= sum_qty q.
Proof.
  induction q as [|o q IH]; intros H; simpl; [lia|]. pose proof (H o (list_elem_of_here _ _)).
  assert (0 <= sum_qty q) by (apply IH; intros; apply H; by right). lia.
Qed.

Lemma upd_eq {A} (f : Side * Z -> A) k x : upd f k x k = x.
Proof. unfold upd. by rewrite decide_True. Qed.

Lemma upd_ne {A} (f : Side * Z -> A) k k' x : k' ≠ k -> upd f k x k' = f k'.
Proof. intros. unfold upd. by rewrite decide_False. Qed.

(** What a queue gives up is what the taker gets, and nothing is overfilled. *)
Lemma fill_queue_conserves taker ts pr q rem fs q' rem' :
  0 <= rem -> Forall (fun o => 0 < o_qty o) q ->
  fill_queue taker ts pr q rem = (fs, q', rem') ->
  sum_fills fs = sum_qty q - sum_qty q' /\ sum_fills fs = rem - rem' /\
  0 <= rem' /\ Forall (fun o => 0 < o_qty o) q' /\ (0 < rem' -> q' = []) /\
  Forall (fun f => 0 < fill_qty f /\ fill_price f = pr /\ taker_order_id f = taker /\ fill_ts f = ts) fs.
Proof.
  revert rem fs q' rem'. induction q as [|o q IH]; intros rem fs q' rem' Hrem Hpos; simpl.
  { intros [= <- <- <-]. split_and!; auto; simpl; lia. }
  apply Forall_cons in Hpos as [Ho Hpos].
  destruct (Z.leb_spec rem 0).
  { intros [= <- <- <-]. split_and!; auto; simpl; lia. }
  destruct (Z.leb_spec (o_qty o) rem).
  - destruct (fill_queue taker ts pr q (rem - o_qty o)) as [[fs1 q1] r1] eqn:E.
    intros [= <- <- <-]. apply IH in E as (E1 & E2 & E3 & E4 & E5 & E6); [|lia|done]. simpl.
    split_and!; auto; lia.
  - intros [= <- <- <-]. simpl. split_and!; try lia.
    + constructor; [simpl; lia|done].
    + by repeat constructor.
Qed.

(** Time priority: the makers are the queue's ids from the front, and what is
    left is the queue's tail, at most its first order reduced. *)
Lemma fill_queue_fifo taker ts pr q rem fs q' rem' :
  fill_queue taker ts pr q rem = (fs, q', rem') ->
  exists n, maker_order_id <$> fs = take n (o_id <$> q) /\
    (q' = drop n q \/
     exists o o' rest, drop (n - 1) q = o :: rest /\ q' = o' :: rest /\ (0 < n)%nat /\
       o_id o' = o_id o /\ o_client o' = o_client o /\ o_ts o' = o_ts o /\ o_qty o' < o_qty o).
Proof.
  revert rem fs q' rem'. induction q as [|o q IH]; intros rem fs q' rem'; simpl.
  { intros [= <- <- <-]. exists 0%nat. simpl. auto. }
  destruct (Z.leb_spec rem 0).
  { intros [= <- <- <-]. exists 0%nat. simpl. auto. }
  destruct (Z.leb_spec (o_qty o) rem).
  - destruct (fill_queue taker ts pr q (rem - o_qty o)) as [[fs1 q1] r1] eqn:E.
    intros [= <- <- <-]. apply IH in E as (n & Hn & Hq). exists (S n). csimpl. rewrite Hn.
    split; [done|]. destruct Hq as [Hq|(a & a' & rest & Hd & Hq & Hpos & Ha)]; [by left|].
    right. exists a, a', rest. destruct n as [|n]; [lia|]. simpl in *.
    rewrite Nat.sub_0_r in Hd. auto with lia.
  - intros [= <- <- <-]. exists 1%nat. simpl. split; [done|]. right.
    exists o, (with_qty (o_qty o - rem) o), q. simpl. auto with lia.
Qed.

(** ** The sweep *)
Lemma sweep_conserves taker ts sd ps : forall b rem fs b' rem',
  0 <= rem -> positive b -> sweep taker ts sd ps b rem = (fs, b', rem') ->
  sum_fills fs = rem - rem' /\ 0 <= rem' /\ positive b' /\
  (forall k, (fst k ≠ sd \/ snd k ∉ ps) -> b' k = b k) /\
  (0 < rem' -> forall p, p ∈ ps -> b' (sd, p) = []) /\
  (forall p, b (sd, p) = [] -> b' (sd, p) = []) /\
  Forall (fun f => 0 < fill_qty f /\ fill_price f ∈ ps /\ taker_order_id f = taker /\ fill_ts f = ts) fs.
Proof.
  induction ps as [|p ps IH]; intros b rem fs b' rem' Hrem Hpos; simpl.
  { intros [= <- <- <-]. split_and!; auto; simpl; try lia; set_solver. }
  destruct (fill_queue taker ts p (b (sd, p)) rem) as [[fs1 q1] r1] eqn:E1.
  destruct (sweep taker ts sd ps (upd b (sd, p) q1) r1) as [[fs2 b2] r2] eqn:E2.
  intros [= <- <- <-].
  pose proof E1 as E1'.
  apply fill_queue_conserves in E1 as (A1 & A2 & A3 & A4 & A5 & A6);
    [|done|apply Forall_forall; intros; by apply (Hpos (sd, p))].
  apply IH in E2 as (B1 & B2 & B3 & B4 & B5 & B6 & B7); [|lia|].
  2:{ intros k o Ho. unfold upd in Ho. case_decide; [|by apply (Hpos k)].
      rewrite Forall_forall in A4. by apply A4. }
  rewrite sum_fills_app. split_and!; try lia; auto.
  - intros [sd' p'] Hk. simpl in *. rewrite B4 by set_solver. apply upd_ne. set_solver.
  - intros Hr p' [->|Hp']%elem_of_cons; [|auto].
    destruct (decide (p ∈ ps)); [auto|]. rewrite B4 by (simpl; auto). rewrite upd_eq. apply A5.
    assert (0 <= sum_fills fs2); [|lia].
    clear -B7. induction fs2; simpl; [lia|]. apply Forall_cons in B7 as [? ?]. naive_solver lia.
  - intros p' Hp'. apply B6. destruct (decide (p' = p)) as [->|Hne].
    + rewrite upd_eq. rewrite Hp' in E1'. simpl in E1'. congruence.
    + rewrite upd_ne by congruence. done.
  - apply Forall_app. split; eapply Forall_impl; [exact A6| |exact B7|]; simpl; intros f Hf; naive_solver set_solver.
Qed.

(** Price priority: fill prices follow the order of the swept prices. *)
Lemma sweep_price_order taker ts sd (R : Z -> Z -> Prop) `{!Reflexive R} ps :
  StronglySorted R ps ->
  forall b rem fs b' rem', 0 <= rem -> positive b ->
  sweep taker ts sd ps b rem = (fs, b', rem') -> StronglySorted R (fill_price <$> fs).
Proof.
  induction 1 as [|p ps Hps IH Hp]; intros b rem fs b' rem' Hrem Hpos; simpl.
  { intros [= <- <- <-]. constructor. }
  destruct (fill_queue taker ts p (b (sd, p)) rem) as [[fs1 q1] r1] eqn:E1.
  destruct (sweep taker ts sd ps (upd b (sd, p) q1) r1) as [[fs2 b2] r2] eqn:E2.
  intros [= <- <- <-].
  apply fill_queue_conserves in E1 as (_ & _ & A3 & A4 & _ & A6);
    [|done|apply Forall_forall; intros; by apply (Hpos (sd, p))].
  assert (positive (upd b (sd, p) q1)) as Hpos'.
  { intros k o Ho. unfold upd in Ho. case_decide; [|by apply (Hpos k)].
    rewrite Forall_forall in A4. by apply A4. }
  pose proof (IH _ _ _ _ _ A3 Hpos' E2) as Hs.
  apply sweep_conserves in E2 as (_ & _ & _ & _ & _ & _ & B7); [|done..].
  rewrite fmap_app. clear -Hs A6 B7 Hp Reflexive0.
  assert (Forall (R p) (fill_price <$> fs2)) as Hp2.
  { apply Forall_fmap. eapply Forall_impl; [exact B7|]. intros f (_ & Hf & _).
    rewrite Forall_forall in Hp. by apply Hp. }
  induction fs1 as [|f fs1 IH]; simpl; [done|].
  apply Forall_cons in A6 as [(_ & -> & _) A6]. constructor; [auto|].
  apply Forall_app. split; [|done]. apply Forall_fmap. eapply Forall_impl; [exact A6|].
  intros g (_ & Hg & _). simpl. by rewrite Hg.
Qed.

(** ** Books up to pointwise equality *)
Definition book_eq : relation book := pointwise_relation (Side * Z) eq.
Definition outcome_eq : relation (list Fill * book * Z) :=
  fun x y => x.1.1 = y.1.1 /\ book_eq x.1.2 y.1.2 /\ x.2 = y.2.

Global Instance book_eq_equiv : Equivalence book_eq.
Proof. unfold book_eq. apply _. Qed.
Global Instance outcome_eq_equiv : Equivalence outcome_eq.
Proof.
  split.
  - intros x. by split_and!.
  - intros x y (? & ? & ?). split_and!; by symmetry.
  - intros x y z (? & ? & ?) (? & ? & ?). split_and!; by etransitivity.
Qed.

Global Instance upd_proper : Proper (book_eq ==> eq ==> eq ==> book_eq) upd.
Proof. intros b b' Hb ? k -> ? x ->. intros k'. unfold upd. case_decide; [done|apply Hb]. Qed.

Lemma upd_id b k : book_eq (upd b k (b k)) b.
Proof. intros k'. unfold upd. case_decide; by subst. Qed.

Global Instance sweep_proper taker ts sd ps : Proper (book_eq ==> eq ==> outcome_eq) (sweep taker ts sd ps).
Proof.
  induction ps as [|p ps IH]; intros b b' Hb ? rem ->; simpl; [by split_and!|].
  rewrite (Hb (sd, p)). destruct (fill_queue taker ts p (b' (sd, p)) rem) as [[fs q] r].
  pose proof (IH (upd b (sd, p) q) (upd b' (sd, p) q) ltac:(by rewrite Hb) r r eq_refl) as (H1 & H2 & H3).
  destruct (sweep taker ts sd ps (upd b (sd, p) q) r) as [[fs1 b1] r1].
  destruct (sweep taker ts sd ps (upd b' (sd, p) q) r) as [[fs2 b2] r2].
  simpl in *. split_and!; simpl; [by rewrite H1|done|done].
Qed.

Lemma sweep_app taker ts sd ps ps' b rem :
  sweep taker ts sd (ps ++ ps') b rem =
  let '(fs, b1, r) := sweep taker ts sd ps b rem in
  let '(fs', b2, r') := sweep taker ts sd ps' b1 r in (fs ++ fs', b2, r').
Proof.
  revert b rem. induction ps as [|p ps IH]; intros b rem; simpl.
  - by destruct (sweep taker ts sd ps' b rem) as [[? ?] ?].
  - destruct (fill_queue _ _ _ _ _) as [[fs q] r]. rewrite IH.
    destruct (sweep taker ts sd ps _ r) as [[fs1 b1] r1].
    destruct (sweep taker ts sd ps' b1 r1) as [[fs2 b2] r2]. by rewrite app_assoc.
Qed.

Lemma sweep_nothing taker ts sd ps : forall b rem,
  (rem = 0 \/ forall p, p ∈ ps -> b (sd, p) = []) ->
  outcome_eq (sweep taker ts sd ps b rem) ([], b, rem).
Proof.
  induction ps as [|p ps IH]; intros b rem H; simpl; [by split_and!|].
  assert (fill_queue taker ts p (b (sd, p)) rem = ([], b (sd, p), rem)) as ->.
  { destruct H as [->|H]; [|rewrite H by set_solver; done]. by destruct (b (sd, p)). }
  destruct (IH b rem) as (H1 & H2 & H3); [set_solver|].
  destruct (sweep_proper taker ts sd ps _ _ (upd_id b (sd, p)) rem rem eq_refl) as (H4 & H5 & H6).
  destruct (sweep taker ts sd ps (upd b (sd, p) (b (sd, p))) rem) as [[fs1 b1] r1].
  destruct (sweep taker ts sd ps b rem) as [[fs2 b2] r2]. simpl in *. subst.
  split_and!; simpl; [done| |done]. by rewrite H5.
Qed.

(** A sweep without fills found every queue empty. *)
Lemma sweep_no_fills taker ts sd ps : forall b rem b' rem',
  0 < rem -> sweep taker ts sd ps b rem = ([], b', rem') -> book_eq b' b /\ rem' = rem.
Proof.
  induction ps as [|p ps IH]; intros b rem b' rem' Hr; simpl; [by intros [= <- <-]|].
  destruct (fill_queue taker ts p (b (sd, p)) rem) as [[fs q] r] eqn:E1.
  destruct (sweep taker ts sd ps (upd b (sd, p) q) r) as [[fs2 b2] r2] eqn:E2.
  intros [= [-> ->]%app_nil <- <-].
  assert (b (sd, p) = [] /\ q = [] /\ r = rem) as (Hb & -> & ->).
  { destruct (b (sd, p)) as [|o os]; simpl in E1; [by injection E1 as <- <-|].
    rewrite (proj2 (Z.leb_gt _ _)) in E1 by done. destruct (_ <=? _); [|done].
    by destruct (fill_queue _ _ _ _ _) as [[? ?] ?]. }
  apply IH in E2 as [E2 ->]; [|done]. split; [|done]. rewrite E2, <- Hb. apply upd_id.
Qed.

(** The taker may start at the best price of the opposite side. *)
Lemma prices_from_stop sd limit ptr :
  (match sd with YES => limit < ptr | NO => ptr < limit end) -> prices_from sd limit ptr = [].
Proof. destruct sd; intros H; simpl; by rewrite seqZ_nil by lia. Qed.

Lemma prices_from_step sd limit ptr :
  (match sd with YES => ptr <= limit | NO => limit <= ptr end) ->
  prices_from sd limit ptr =
  ptr :: prices_from sd limit (match sd with YES => ptr + 1 | NO => ptr - 1 end).
Proof.
  destruct sd; intros H; simpl.
  - rewrite seqZ_cons by lia. f_equal. f_equal; lia.
  - rewrite <- reverse_snoc. f_equal.
    replace (ptr - limit + 1) with (ptr - limit + 1) by lia.
    rewrite (seqZ_app limit (ptr - limit) 1) by lia. f_equal; [f_equal; lia|].
    rewrite seqZ_cons by lia. simpl. f_equal. lia.
Qed.

Lemma prices_from_split sd limit from ptr :
  (match sd with YES => from <= ptr | NO => ptr <= from end) ->
  exists ps, prices_from sd limit from = ps ++ prices_from sd limit ptr /\
    forall p, p ∈ ps -> match sd with YES => from <= p < ptr | NO => ptr < p <= from end.
Proof.
  destruct sd; intros H; simpl.
  - destruct (decide (ptr <= limit + 1)).
    + exists (seqZ from (ptr - from)). split.
      * replace (limit - from + 1) with ((ptr - from) + (limit - ptr + 1)) by lia.
        rewrite seqZ_app by lia. do 2 f_equal. lia.
      * intros p Hp%elem_of_seqZ. lia.
    + exists (seqZ from (limit - from + 1)). rewrite (seqZ_nil ptr) by lia. rewrite app_nil_r.
      split; [done|]. intros p Hp%elem_of_seqZ. lia.
  - destruct (decide (limit <= ptr + 1)).
    + exists (reverse (seqZ (ptr + 1) (from - ptr))). split.
      * rewrite <- reverse_app. f_equal.
        replace (from - limit + 1) with ((ptr - limit + 1) + (from - ptr)) by lia.
        rewrite seqZ_app by lia. do 2 f_equal. lia.
      * intros p Hp%elem_of_reverse%elem_of_seqZ. lia.
    + exists (reverse (seqZ limit (from - limit + 1))). rewrite (seqZ_nil limit (ptr - _ + _)) by lia.
      rewrite app_nil_r. split; [done|]. intros p Hp%elem_of_reverse%elem_of_seqZ. lia.
Qed.

Lemma sweep_from_best taker ts sd limit from ptr b rem :
  (match sd with YES => from <= ptr | NO => ptr <= from end) ->
  (forall p, match sd with YES => p < ptr | NO => ptr < p end -> b (opposite sd, p) = []) ->
  outcome_eq (sweep taker ts (opposite sd) (prices_from sd limit from) b rem)
             (sweep taker ts (opposite sd) (prices_from sd limit ptr) b rem).
Proof.
  intros Hle Hb. destruct (prices_from_split sd limit from ptr Hle) as (ps & -> & Hps).
  rewrite sweep_app. destruct (sweep_nothing taker ts (opposite sd) ps b rem) as (H1 & H2 & H3).
  { right. intros p Hp. apply Hb. specialize (Hps p Hp). destruct sd; lia. }
  destruct (sweep taker ts (opposite sd) ps b rem) as [[fs1 b1] r1]. simpl in *. subst.
  pose proof (sweep_proper taker ts (opposite sd) (prices_from sd limit ptr) _ _ H2 rem rem eq_refl) as Hs.
  by destruct (sweep taker ts (opposite sd) (prices_from sd limit ptr) b1 rem) as [[? ?] ?].
Qed.

Lemma sweep_shrinks taker ts sd ps b rem fs b' rem' :
  0 <= rem -> positive b -> sweep taker ts sd ps b rem = (fs, b', rem') ->
  forall k, b k = [] -> b' k = [].
Proof.
  intros Hr Hpos HS [sd' p] Hb. apply sweep_conserves in HS as (_ & _ & _ & H1 & _ & H2 & _); [|done..].
  destruct (decide (sd' = sd)) as [->|]; [by apply H2|]. rewrite H1; [done|by left].
Qed.

(** ** An accepted order *)
Definition in_range (b : book) : Prop := forall sd p, b (sd, p) ≠ [] -> 1 <= p <= 99.

(** The order in which a taker of side [sd] meets prices: no later price is better. *)
Definition price_order (sd : Side) : Z -> Z -> Prop :=
  match sd with YES => Z.le | NO => Z.ge end.

Global Instance price_order_refl sd : Reflexive (price_order sd).
Proof. destruct sd; intros x; simpl; lia. Qed.

Lemma elem_of_prices_for sd limit p :
  p ∈ prices_for sd limit <-> match sd with YES => 1 <= p <= limit | NO => limit <= p <= 99 end.
Proof.
  unfold prices_for. destruct sd; simpl; rewrite ?elem_of_reverse, elem_of_seqZ; lia.
Qed.

Lemma prices_for_sorted sd limit : StronglySorted (price_order sd) (prices_for sd limit).
Proof.
  unfold prices_for. set (ptr := match sd with YES => 1 | NO => 99 end). clearbody ptr.
  remember (Z.to_nat (match sd with YES => limit - ptr + 1 | NO => ptr - limit + 1 end)) as n eqn:Hn.
  revert ptr Hn. induction n as [|n IH]; intros ptr Hn.
  { rewrite prices_from_stop; [constructor|]. destruct sd; lia. }
  rewrite prices_from_step by (destruct sd; lia). constructor; [apply IH; destruct sd; lia|].
  apply Forall_forall. intros p Hp. destruct sd; simpl in *; [|rewrite elem_of_reverse in Hp];
    apply elem_of_seqZ in Hp; lia.
Qed.

Lemma prices_for_NoDup sd limit : NoDup (prices_for sd limit).
Proof. unfold prices_for. destruct sd; simpl; [|rewrite reverse_Permutation]; apply NoDup_seqZ. Qed.

(** Conservation, the limit price and price priority. *)
Lemma place_fills id ts client sd limit qty b fs rem b' :
  0 <= qty -> positive b -> place id ts client sd limit qty b = (fs, rem, b') ->
  sum_fills fs + rem = qty /\ 0 <= rem /\
  Forall (fun f => 0 < fill_qty f /\ taker_order_id f = id /\ fill_ts f = ts /\
                   match sd with YES => 1 <= fill_price f <= limit | NO => limit <= fill_price f <= 99 end) fs /\
  StronglySorted (price_order sd) (fill_price <$> fs).
Proof.
  intros Hq Hpos. unfold place. destruct (sweep _ _ _ _ _ _) as [[fs1 b1] r1] eqn:E. intros [= <- <- <-].
  pose proof (sweep_price_order _ _ _ (price_order sd) _ (prices_for_sorted sd limit) _ _ _ _ _ Hq Hpos E) as Hs.
  apply sweep_conserves in E as (H1 & H2 & _ & _ & _ & _ & H3); [|done..].
  split_and!; [lia|done| |done]. eapply Forall_impl; [exact H3|].
  intros f (? & Hp%elem_of_prices_for & ? & ?). done.
Qed.

Lemma place_positive id ts client sd limit qty b fs rem b' :
  0 <= qty -> positive b -> place id ts client sd limit qty b = (fs, rem, b') -> positive b'.
Proof.
  intros Hq Hpos. unfold place. destruct (sweep _ _ _ _ _ _) as [[fs1 b1] r1] eqn:E. intros [= <- <- <-].
  apply sweep_conserves in E as (H1 & H2 & H3 & _); [|done..].
  destruct (Z.ltb_spec 0 r1); [|done]. intros k o. unfold upd. case_decide; [subst|apply H3].
  intros [Ho|[->|Ho%not_elem_of_nil]%elem_of_cons]%elem_of_app; [by eapply H3|simpl; lia|done].
Qed.

Lemma place_uncrossed id ts client sd limit qty b fs rem b' :
  0 <= qty -> positive b -> in_range b -> 1 <= limit <= 99 -> uncrossed b ->
  place id ts client sd limit qty b = (fs, rem, b') -> uncrossed b'.
Proof.
  intros Hq Hpos Hrg Hl Hun. unfold place. destruct (sweep _ _ _ _ _ _) as [[fs1 b1] r1] eqn:E. intros [= <- <- <-].
  assert (forall k, b1 k ≠ [] -> b k ≠ []) as Hsh.
  { intros k Hk Hb. apply Hk. by eapply sweep_shrinks. }
  assert (uncrossed b1) as Hun1 by (intros p q Hp Hq'; apply Hun; by apply Hsh).
  apply sweep_conserves in E as (H1 & H2 & _ & _ & H3 & _); [|done..].
  destruct (Z.ltb_spec 0 r1) as [Hr|]; [|done]. specialize (H3 Hr).
  setoid_rewrite elem_of_prices_for in H3. intros p q. unfold upd.
  destruct sd; simpl in H3; repeat case_decide; simplify_eq; intros Hp Hq'; try (by apply Hun1).
  - pose proof (Hrg NO q (Hsh _ Hq')). destruct (decide (q <= limit)); [|lia].
    exfalso. apply Hq', H3. lia.
  - pose proof (Hrg YES p (Hsh _ Hp)). destruct (decide (limit <= p)); [|lia].
    exfalso. apply Hp, H3. lia.
Qed.

(** Time priority: at every price the makers are the oldest orders of that price. *)
Lemma sweep_fifo taker ts sd p ps : forall b rem fs b' rem',
  NoDup ps -> 0 <= rem -> positive b -> sweep taker ts sd ps b rem = (fs, b', rem') ->
  exists n, maker_order_id <$> filter (fun f => fill_price f = p) fs = take n (o_id <$> b (sd, p)).
Proof.
  induction ps as [|x ps IH]; intros b rem fs b' rem' Hnd Hrem Hpos; simpl.
  { intros [= <- <- <-]. by exists 0%nat. }
  destruct (fill_queue taker ts x (b (sd, x)) rem) as [[fs1 q1] r1] eqn:E1.
  destruct (sweep taker ts sd ps (upd b (sd, x) q1) r1) as [[fs2 b2] r2] eqn:E2. intros [= <- <- <-].
  pose proof (fill_queue_fifo _ _ _ _ _ _ _ _ E1) as (n1 & Hn1 & _).
  apply fill_queue_conserves in E1 as (_ & _ & A3 & A4 & _ & A6);
    [|done|apply Forall_forall; intros; by apply (Hpos (sd, x))].
  assert (positive (upd b (sd, x) q1)) as Hpos'.
  { intros k o Ho. unfold upd in Ho. case_decide; [|by apply (Hpos k)].
    rewrite Forall_forall in A4. by apply A4. }
  pose proof (NoDup_cons_1_1 _ _ Hnd) as Hx. apply NoDup_cons_1_2 in Hnd.
  rewrite filter_app, fmap_app. destruct (decide (x = p)) as [->|Hne].
  - exists n1. rewrite filter_Forall_id.
    2:{ eapply Forall_impl; [exact A6|]. naive_solver. }
    rewrite Hn1. apply sweep_conserves in E2 as (_ & _ & _ & _ & _ & _ & B7); [|done..].
    assert (filter (fun f => fill_price f = p) fs2 = []) as ->; [|by rewrite app_nil_r].
    clear -B7 Hx. induction fs2 as [|f fs2 IH]; [done|]. apply Forall_cons in B7 as [(_ & Hf & _) B7].
    rewrite filter_cons_False by (by intros <-). auto.
  - destruct (IH _ _ _ _ _ Hnd A3 Hpos' E2) as [n Hn]. exists n. rewrite upd_ne in Hn by congruence. rewrite <- Hn.
    assert (filter (fun f => fill_price f = p) fs1 = []) as ->; [|done].
    clear -A6 Hne. induction fs1 as [|f fs1 IH]; [done|]. apply Forall_cons in A6 as [(_ & Hf & _) A6].
    rewrite filter_cons_False by congruence. auto.
Qed.

Lemma place_fifo id ts client sd limit qty b fs rem b' p :
  0 <= qty -> positive b -> place id ts client sd limit qty b = (fs, rem, b') ->
  exists n, maker_order_id <$> filter (fun f => fill_price f = p) fs = take n (o_id <$> b (opposite sd, p)).
Proof.
  intros Hq Hpos. unfold place. destruct (sweep _ _ _ _ _ _) as [[fs1 b1] r1] eqn:E. intros [= <- <- <-].
  eapply sweep_fifo; [apply prices_for_NoDup|done..].
Qed.

End Clob.
