(* ===== verification/EngineRep.v ===== *)
(** * The representation invariant of the matching engine

    [rep e Q fl n] ties the pointer structure of an engine [e] to the queues [Q]
    it stores: for every side and price the list of (block address, order) pairs
    in time order.  The file holds the doubly linked segments, the invariant, the
    ways the engine's operations change it, and the execution rules of the
    state monad. *)
From stdpp Require Import gmap list numbers.
From S2P Require Import Prelude Interfaces MatchingEngine MatchSpec.
Open Scope Z_scope.
Open Scope cpp_scope.

Module Rep.
Import Engine Clob.

(** ** Doubly linked segments *)
Abbreviation entry := (Z * order)%type.

Definition hd_ptr (qs : list entry) (nx : Z) : Z :=
  match qs with [] => nx | x :: _ => x.1 end.

Fixpoint last_ptr (pv : Z) (qs : list entry) : Z :=
  match qs with [] => pv | x :: qs => last_ptr x.1 qs end.

(** The block that stores order [o] of level [(sd, pr)] between [pv] and [nx]. *)
Definition block_of (sd : Side) (pr : Z) (o : order) (pv nx : Z) : Order :=
  mkOrder (o_id o) (o_client o) sd pr (o_qty o) (o_ts o) pv nx.

Fixpoint dseg (m : gmap Z Order) (sd : Side) (pr pv : Z) (qs : list entry) (nx : Z) : Prop :=
  match qs with
  | [] => True
  | x :: qs =>
      m !! x.1 = Some (block_of sd pr x.2 pv (hd_ptr qs nx)) /\ dseg m sd pr x.1 qs nx
  end.

(** The level record of a queue. *)
Definition level_of (qs : list entry) : PriceLevel :=
  mkLevel (hd_ptr qs nullptr) (last_ptr nullptr qs) (sum_qty qs.*2).

Lemma hd_ptr_app l1 l2 nx : hd_ptr (l1 ++ l2) nx = hd_ptr l1 (hd_ptr l2 nx).
Proof. by destruct l1. Qed.

Lemma last_ptr_app l1 : forall l2 pv, last_ptr pv (l1 ++ l2) = last_ptr (last_ptr pv l1) l2.
Proof. induction l1; intros; simpl; auto. Qed.

Section segments.
  Context (sd : Side) (pr : Z).
  Implicit Types (m : gmap Z Order) (qs : list entry).

Lemma dseg_app m l1 : forall l2 pv nx,
  dseg m sd pr pv (l1 ++ l2) nx <->
  dseg m sd pr pv l1 (hd_ptr l2 nx) /\ dseg m sd pr (last_ptr pv l1) l2 nx.
Proof.
  induction l1 as [|x l1 IH]; intros l2 pv nx; simpl; [naive_solver|].
  rewrite IH, hd_ptr_app. naive_solver.
Qed.

Lemma dseg_frame m m' qs : forall pv nx,
  (forall a, a ∈ qs.*1 -> m' !! a = m !! a) -> dseg m sd pr pv qs nx -> dseg m' sd pr pv qs nx.
Proof.
  induction qs as [|x qs IH]; intros pv nx Hm; simpl; [done|]. intros [Hx Hqs].
  split; [|apply IH; [|done]; set_solver]. rewrite Hm; set_solver.
Qed.

Lemma dseg_lookup m qs : forall pv nx a o,
  dseg m sd pr pv qs nx -> (a, o) ∈ qs ->
  exists pv' nx', m !! a = Some (block_of sd pr o pv' nx').
Proof.
  induction qs as [|x qs IH]; intros pv nx a o; simpl; [set_solver|].
  intros [Hx Hqs] [<-|H]%elem_of_cons; eauto.
Qed.

  (** Writing the first block's [prev] and the last block's [next]. *)
Lemma dseg_set_prev m b o qs pv pv' nx :
  b ∉ qs.*1 -> dseg m sd pr pv ((b, o) :: qs) nx ->
  dseg (alter (set_prev pv') b m) sd pr pv' ((b, o) :: qs) nx.
Proof.
  intros Hb [Hx Hqs]. split; simpl in *.
  - rewrite lookup_alter_eq, Hx. done.
  - eapply dseg_frame; [|done]. intros a Ha. apply lookup_alter_ne. set_solver.
Qed.

Lemma dseg_set_next m a o qs pv nx nx' :
  a ∉ qs.*1 -> dseg m sd pr pv (qs ++ [(a, o)]) nx ->
  dseg (alter (set_next nx') a m) sd pr pv (qs ++ [(a, o)]) nx'.
Proof.
  rewrite !dseg_app. simpl. intros Ha (Hqs & Hx & _). split_and!; [|by rewrite lookup_alter_eq, Hx|done].
  eapply dseg_frame; [|done]. intros b Hb. apply lookup_alter_ne. set_solver.
Qed.

  (** The stores of an unlink, and the segment they leave. *)
Definition link_next (l1 : list entry) (nx : Z) (m : gmap Z Order) : gmap Z Order :=
  match list.last l1 with None => m | Some x => alter (set_next nx) x.1 m end.
Definition link_prev (l2 : list entry) (pv : Z) (m : gmap Z Order) : gmap Z Order :=
  match l2 with [] => m | x :: _ => alter (set_prev pv) x.1 m end.

Lemma link_next_ne l1 nx m a : a ∉ l1.*1 -> link_next l1 nx m !! a = m !! a.
Proof.
  unfold link_next. intros Ha. destruct (list.last l1) as [x|] eqn:E; [|done].
  apply lookup_alter_ne. apply last_Some_elem_of in E. set_solver.
Qed.

Lemma link_prev_ne l2 pv m a : a ∉ l2.*1 -> link_prev l2 pv m !! a = m !! a.
Proof.
  unfold link_prev. intros Ha. destruct l2 as [|x l2]; [done|].
  apply lookup_alter_ne. set_solver.
Qed.

Lemma link_next_congr l1 nx m m' a :
  m !! a = m' !! a -> link_next l1 nx m !! a = link_next l1 nx m' !! a.
Proof.
  unfold link_next. intros Ha. destruct (list.last l1) as [x|]; [|done].
  destruct (decide (x.1 = a)) as [->|]; [by rewrite !lookup_alter_eq, Ha|by rewrite !lookup_alter_ne].
Qed.

Lemma link_prev_congr l2 pv m m' a :
  m !! a = m' !! a -> link_prev l2 pv m !! a = link_prev l2 pv m' !! a.
Proof.
  unfold link_prev. intros Ha. destruct l2 as [|x l2]; [done|].
  destruct (decide (x.1 = a)) as [->|]; [by rewrite !lookup_alter_eq, Ha|by rewrite !lookup_alter_ne].
Qed.

Lemma dseg_link_next m l1 nx nx' pv :
  NoDup l1.*1 -> dseg m sd pr pv l1 nx -> dseg (link_next l1 nx' m) sd pr pv l1 nx'.
Proof.
  intros Hnd. unfold link_next. destruct l1 as [|x l1 _] using rev_ind; [done|].
  destruct x as [a o]. rewrite list.last_snoc. rewrite fmap_app in Hnd. apply list.NoDup_app in Hnd as (_ & Hnd & _).
  apply dseg_set_next. set_solver.
Qed.

Lemma dseg_link_prev m l2 pv pv' nx :
  NoDup l2.*1 -> dseg m sd pr pv l2 nx -> dseg (link_prev l2 pv' m) sd pr pv' l2 nx.
Proof.
  intros Hnd. destruct l2 as [|[b o] l2]; [done|]. simpl.
  apply dseg_set_prev. by apply NoDup_cons_1_1 in Hnd.
Qed.

Lemma dseg_unlink m l1 x l2 pv nx :
  NoDup (l1 ++ x :: l2).*1 -> dseg m sd pr pv (l1 ++ x :: l2) nx ->
  dseg (link_prev l2 (last_ptr pv l1) (link_next l1 (hd_ptr l2 nx) m)) sd pr pv (l1 ++ l2) nx.
Proof.
  rewrite fmap_app, dseg_app. intros (N1 & N12 & N2)%list.NoDup_app [H1 [_ H2]].
  apply NoDup_cons_1_2 in N2. rewrite dseg_app. split.
  - apply dseg_frame with (link_next l1 (hd_ptr l2 nx) m); [|by eapply dseg_link_next].
    intros a Ha. apply link_prev_ne. set_solver.
  - eapply dseg_link_prev; [done|]. eapply dseg_frame; [|exact H2].
    intros a Ha. apply link_next_ne. set_solver.
Qed.

Lemma dseg_append m qs a o nx :
  a ∉ qs.*1 -> NoDup qs.*1 -> dseg m sd pr nullptr qs nx ->
  m !! a = Some (block_of sd pr o (last_ptr nullptr qs) nullptr) ->
  dseg (link_next qs a m) sd pr nullptr (qs ++ [(a, o)]) nullptr.
Proof.
  intros Ha Hnd Hqs Hm. apply dseg_app. split; [by eapply dseg_link_next|].
  simpl. by rewrite link_next_ne.
Qed.
End segments.

(** ** The invariant *)
Definition queues : Type := Side * Z -> list entry.
Definition book_of (Q : queues) : book := fun k => (Q k).*2.

(** 2048 orders of at most this quantity cannot overflow a level's 32-bit total. *)
Definition QTY_BOUND : Z := 2097151.

Definition good_order (next : Z) (o : order) : Prop :=
  1 <= o_qty o <= QTY_BOUND /\ 1 <= o_id o < next.

Section invariant.
  Context {P I : Type} `{!PoolOps P Order} `{!IndexOps I Z} `{!PoolLaws P Order} `{!IndexLaws I Z}.
  Abbreviation engine := (MatchingEngine P I).
  Implicit Types (e : engine) (Q : queues) (fl : list Z).

Record rep e Q fl (n : nat) : Prop := {
  rep_wall sd p : 0 <= p <= 100 -> wall sd e !! Z.to_nat p = Some (level_of (Q (sd, p)));
  rep_seg sd p : dseg (mem e) sd p nullptr (Q (sd, p)) nullptr;
  rep_nodup k : NoDup (Q k).*1;
  rep_range sd p : Q (sd, p) ≠ [] -> 1 <= p <= 99;
  rep_ptr k a o : (a, o) ∈ Q k -> a ≠ nullptr /\ a ∉ fl;
  rep_ord k a o : (a, o) ∈ Q k -> good_order (next_order_id_ e) o;
  rep_index k a o : (a, o) ∈ Q k -> idx_view (orders_ e) !! o_id o = Some a;
  rep_cover id a : idx_view (orders_ e) !! id = Some a -> exists k o, (a, o) ∈ Q k /\ o_id o = id;
  rep_idx : idx_inv (orders_ e);
  rep_pool : pool_free (mem e) (pool_ e) fl;
  rep_free : NoDup fl;
  rep_count : (size (idx_view (orders_ e)) + length fl = n)%nat;
  rep_bound : (n <= POOL_CAPACITY)%nat;
  rep_next : 1 <= next_order_id_ e < 2 ^ 64;
}.

(** A block taken from the pool that no queue holds: the incoming order. *)
Record held e Q fl (a : Z) (i : Order) : Prop := {
  held_block : mem e !! a = Some i;
  held_ptr : a ≠ nullptr;
  held_free : a ∉ fl;
  held_out k o : (a, o) ∉ Q k;
  held_fresh : idx_view (orders_ e) !! order_id i = None;
  held_id : 1 <= order_id i < next_order_id_ e;
}.

(** The cached best prices: nothing rests beyond them; after a rescan they are
    also attained. *)
Definition best_loose e (b : book) : Prop :=
  0 <= best_bid_ e <= 99 /\ 1 <= best_ask_ e <= 100 /\
  (forall p, best_bid_ e < p -> b (YES, p) = []) /\ (forall p, p < best_ask_ e -> b (NO, p) = []).
Definition best_exact e (b : book) : Prop :=
  best_loose e b /\ (best_bid_ e = 0 \/ b (YES, best_bid_ e) ≠ []) /\
  (best_ask_ e = 100 \/ b (NO, best_ask_ e) ≠ []).

(** ** Consequences *)
Lemma rep_lookup e Q fl n sd p a o :
  rep e Q fl n -> (a, o) ∈ Q (sd, p) -> exists pv nx, mem e !! a = Some (block_of sd p o pv nx).
Proof. intros R H. eapply dseg_lookup; [apply R|done]. Qed.

(** A block belongs to one level and stores one order. *)
Lemma rep_inj e Q fl n k k' a o o' :
  rep e Q fl n -> (a, o) ∈ Q k -> (a, o') ∈ Q k' -> k = k' /\ o = o'.
Proof.
  destruct k as [sd p], k' as [sd' p']. intros R H H'.
  destruct (rep_lookup _ _ _ _ _ _ _ _ R H) as (? & ? & E).
  destruct (rep_lookup _ _ _ _ _ _ _ _ R H') as (? & ? & E').
  rewrite E in E'. destruct o, o'. injection E'. intros. by subst.
Qed.

Lemma rep_inj_id e Q fl n k k' a a' o o' :
  rep e Q fl n -> (a, o) ∈ Q k -> (a', o') ∈ Q k' -> o_id o = o_id o' -> a = a' /\ k = k' /\ o = o'.
Proof.
  intros R H H' Hid. pose proof (rep_index _ _ _ _ R _ _ _ H) as E.
  pose proof (rep_index _ _ _ _ R _ _ _ H') as E'. rewrite Hid, E' in E.
  injection E as ->. split; [done|]. by eapply rep_inj.
Qed.

Lemma rep_length e Q fl n k : rep e Q fl n -> (length (Q k) <= size (idx_view (orders_ e)))%nat.
Proof.
  intros R. set (ids := (fun x : entry => o_id x.2) <$> Q k).
  assert (NoDup ids) as Hnd.
  { apply NoDup_fmap_2_strong; [|by eapply NoDup_fmap_1, (rep_nodup _ _ _ _ R)].
    intros [a o] [a' o'] H H' Hid. by destruct (rep_inj_id _ _ _ _ _ _ _ _ _ _ R H H' Hid) as (-> & _ & ->). }
  rewrite <- size_dom. replace (length (Q k)) with (length ids) by apply length_fmap.
  rewrite <- (size_list_to_set (C := gset Z)) by done. apply subseteq_size.
  intros id. rewrite elem_of_list_to_set, elem_of_dom. intros ([a o] & -> & H)%list_elem_of_fmap.
  simpl. rewrite (rep_index _ _ _ _ R _ _ _ H). eauto.
Qed.

Lemma rep_sum_le e Q fl n k : rep e Q fl n -> 0 <= sum_qty (Q k).*2 <= QTY_BOUND * Z.of_nat n.
Proof.
  intros R. assert (0 <= sum_qty (Q k).*2 <= QTY_BOUND * Z.of_nat (length (Q k))) as H.
  { pose proof (rep_ord _ _ _ _ R k) as Ho. induction (Q k) as [|[a o] qs IH]; csimpl; [lia|].
    assert (1 <= o_qty o <= QTY_BOUND) by (destruct (Ho a o); set_solver).
    assert (0 <= sum_qty qs.*2 <= QTY_BOUND * Z.of_nat (length qs)) by (apply IH; set_solver). lia. }
  pose proof (rep_length _ _ _ _ k R). pose proof (rep_count _ _ _ _ R).
  unfold QTY_BOUND in *. lia.
Qed.

Lemma rep_sum e Q fl n k : rep e Q fl n -> 0 <= sum_qty (Q k).*2 < 2 ^ 32.
Proof.
  intros R. pose proof (rep_sum_le _ _ _ _ k R). pose proof (rep_bound _ _ _ _ R).
  unfold QTY_BOUND, POOL_CAPACITY in *. lia.
Qed.

Lemma rep_total_zero e Q fl n k : rep e Q fl n -> (sum_qty (Q k).*2 = 0 <-> Q k = []).
Proof.
  intros R. split; [|by intros ->]. pose proof (rep_ord _ _ _ _ R k) as Ho.
  destruct (Q k) as [|[a o] qs]; [done|]. csimpl. intros Hz. exfalso.
  assert (1 <= o_qty o) by (destruct (Ho a o); set_solver).
  assert (0 <= sum_qty qs.*2); [|lia]. apply sum_qty_nonneg.
  intros ? ([b x] & -> & Hx)%list_elem_of_fmap. destruct (Ho b x) as [? _]; [set_solver|simpl; lia].
Qed.

(** ** Changing one level *)
Lemma rep_update e Q fl n e' fl' n' sd p qs :
  rep e Q fl n ->
  (forall sd' p', 0 <= p' <= 100 -> (sd', p') ≠ (sd, p) -> wall sd' e' !! Z.to_nat p' = wall sd' e !! Z.to_nat p') ->
  wall sd e' !! Z.to_nat p = Some (level_of qs) ->
  (forall k a o, k ≠ (sd, p) -> (a, o) ∈ Q k ->
     mem e' !! a = mem e !! a /\ (a ∉ fl') /\ idx_view (orders_ e') !! o_id o = Some a) ->
  dseg (mem e') sd p nullptr qs nullptr ->
  NoDup qs.*1 -> 1 <= p <= 99 ->
  (forall a o, (a, o) ∈ qs -> a ≠ nullptr /\ (a ∉ fl') /\ good_order (next_order_id_ e') o /\
     idx_view (orders_ e') !! o_id o = Some a) ->
  (forall id a, idx_view (orders_ e') !! id = Some a ->
     (exists o, (a, o) ∈ qs /\ o_id o = id) \/
     (exists k o, k ≠ (sd, p) /\ (a, o) ∈ Q k /\ o_id o = id)) ->
  idx_inv (orders_ e') -> pool_free (mem e') (pool_ e') fl' -> NoDup fl' ->
  (size (idx_view (orders_ e')) + length fl' = n')%nat -> (n' <= POOL_CAPACITY)%nat ->
  next_order_id_ e <= next_order_id_ e' < 2 ^ 64 ->
  rep e' (upd Q (sd, p) qs) fl' n'.
Proof.
  intros R Hw Hwk Hother Hseg Hnd Hp Hqs Hcov Hidx Hpool Hfl Hcnt Hn Hnext.
  split; try done; unfold upd.
  - intros sd' p' Hp'. case_decide; [by simplify_eq|]. rewrite Hw by done. by apply R.
  - intros sd' p'. case_decide; [by simplify_eq|]. eapply dseg_frame; [|by apply R].
    intros a ([? o] & -> & Ha)%list_elem_of_fmap. by eapply Hother.
  - intros k. case_decide; [done|]. apply R.
  - intros sd' p'. case_decide; [by simplify_eq|]. apply R.
  - intros k a o. case_decide; intros H'; [split; by eapply Hqs|].
    split; [by eapply R|by eapply Hother].
  - intros k a o. case_decide; intros H'; [by eapply Hqs|].
    destruct (rep_ord _ _ _ _ R _ _ _ H') as [? ?]. split; lia.
  - intros k a o. case_decide; intros H'; [by eapply Hqs|by eapply Hother].
  - intros id a Hid. destruct (Hcov _ _ Hid) as [(o & ? & ?)|(k & o & ? & ? & ?)].
    + exists (sd, p), o. by rewrite decide_True.
    + exists k, o. by rewrite decide_False.
  - pose proof (rep_next _ _ _ _ R). lia.
Qed.
End invariant.

End Rep.
