(* ===== verification/EngineRefine.v ===== *)
(** * The pointer engine implements the abstract book

    Every operation of [Engine], run on a state that represents the queues [Q],
    returns (no null dereference, no index outside an array, no loop that runs
    on) and leaves a state that represents what [Clob] prescribes. *)
From stdpp Require Import gmap list numbers sorting.
From S2P Require Import Prelude Interfaces MatchingEngine MatchSpec EngineRep.
Open Scope Z_scope.
Open Scope cpp_scope.

Module Refine.
Import Engine Clob Rep.

(** ** Execution rules of the state monad *)
Section rules.
  Context {P I : Type} `{!PoolOps P Order} `{!IndexOps I Z}.
  Abbreviation engine := (MatchingEngine P I).
  Implicit Types e : engine.

Lemma bind_run {A B} (m : M A) (k : A -> M B) e x e1 :
  m e = Some (x, e1) -> bind m k e = k x e1.
Proof. unfold bind. by intros ->. Qed.

Lemma bind_stuck {A B} (m : M A) (k : A -> M B) e : m e = None -> bind m k e = None.
Proof. unfold bind. by intros ->. Qed.

Lemma gets_run {A} (f : engine -> A) e : gets f e = Some (f e, e).
Proof. done. Qed.

Lemma load_run p o e : mem e !! p = Some o -> load p e = Some (o, e).
Proof. unfold load. by intros ->. Qed.

Lemma store_run p f e : is_Some (mem e !! p) -> store p f e = Some (tt, set_mem (alter f p (mem e)) e).
Proof.
  intros [o Ho]. unfold store. rewrite Ho. simpl. do 3 f_equal.
  by rewrite <- (alter_insert_eq (mem e) p f o), insert_id.
Qed.

Lemma load_level_run sd i l e : wall sd e !! Z.to_nat i = Some l -> load_level sd i e = Some (l, e).
Proof. unfold load_level. by intros ->. Qed.

(** Replace level [i] of side [sd]. *)
Definition on_level (sd : Side) (i : Z) (f : PriceLevel -> PriceLevel) e : engine :=
  set_wall sd (alter f (Z.to_nat i) (wall sd e)) e.

Lemma store_level_run sd i f e :
  is_Some (wall sd e !! Z.to_nat i) -> store_level sd i f e = Some (tt, on_level sd i f e).
Proof.
  intros [l Hl]. unfold store_level, on_level. rewrite Hl. simpl. do 3 f_equal.
  rewrite list_insert_alter. apply list_alter_ext; [|done]. naive_solver.
Qed.

(** ** What each write leaves alone *)
Lemma on_level_eq sd i f e : wall sd (on_level sd i f e) !! Z.to_nat i = f <$> wall sd e !! Z.to_nat i.
Proof. destruct sd; apply list_lookup_alter_eq. Qed.
Lemma on_level_ne sd i f e sd' i' :
  0 <= i -> 0 <= i' -> (sd', i') ≠ (sd, i) ->
  wall sd' (on_level sd i f e) !! Z.to_nat i' = wall sd' e !! Z.to_nat i'.
Proof.
  intros Hi Hi' Hne. destruct sd, sd'; simpl; try done; apply list_lookup_alter_ne; intros E;
    apply Hne; f_equal; lia.
Qed.
Lemma mem_on_level sd i f e : mem (on_level sd i f e) = mem e.
Proof. by destruct sd. Qed.
Lemma pool_on_level sd i f e : pool_ (on_level sd i f e) = pool_ e.
Proof. by destruct sd. Qed.
Lemma orders_on_level sd i f e : orders_ (on_level sd i f e) = orders_ e.
Proof. by destruct sd. Qed.
Lemma best_bid_on_level sd i f e : best_bid_ (on_level sd i f e) = best_bid_ e.
Proof. by destruct sd. Qed.
Lemma best_ask_on_level sd i f e : best_ask_ (on_level sd i f e) = best_ask_ e.
Proof. by destruct sd. Qed.
Lemma next_on_level sd i f e : next_order_id_ (on_level sd i f e) = next_order_id_ e.
Proof. by destruct sd. Qed.
Lemma wall_set_mem sd m e : wall sd (set_mem m e) = wall sd e.
Proof. by destruct sd. Qed.
Lemma wall_set_pool sd p e : wall sd (set_pool p e) = wall sd e.
Proof. by destruct sd. Qed.
Lemma wall_set_orders sd i e : wall sd (set_orders i e) = wall sd e.
Proof. by destruct sd. Qed.
End rules.

Create Rewrite HintDb eng.
#[export] Hint Rewrite @mem_on_level @pool_on_level @orders_on_level @best_bid_on_level
  @best_ask_on_level @next_on_level @wall_set_mem @wall_set_pool @wall_set_orders : eng.

(** Run the first instruction of the goal's monadic program with rule [r]. *)
Tactic Notation "mrun" uconstr(r) := (erewrite bind_run; [|eapply r]).

Section refinement.
  Context {P I : Type} `{!PoolOps P Order} `{!IndexOps I Z} `{!PoolLaws P Order} `{!IndexLaws I Z}.
  Context `{!IndexRoom I Z (Z.of_nat POOL_CAPACITY)}.
  Abbreviation engine := (MatchingEngine P I).
  Implicit Types (e : engine) (Q : queues) (fl : list Z).

(** ** The three ways an operation changes a queue *)

(** Agreement of [e'] with a memory on the blocks of the queues other than [a]. *)
Definition agree_on Q (m m' : gmap Z Order) (a : Z) : Prop :=
  forall k b o, (b, o) ∈ Q k -> b ≠ a -> m' !! b = m !! b.

Definition same_levels sd p e e' : Prop :=
  forall sd' p', 0 <= p' <= 100 -> (sd', p') ≠ (sd, p) ->
    wall sd' e' !! Z.to_nat p' = wall sd' e !! Z.to_nat p'.

Lemma rep_remove e Q fl n sd p l1 a o l2 e' :
  rep e Q fl n -> Q (sd, p) = l1 ++ (a, o) :: l2 ->
  same_levels sd p e e' -> wall sd e' !! Z.to_nat p = Some (level_of (l1 ++ l2)) ->
  agree_on Q (link_prev l2 (last_ptr nullptr l1) (link_next l1 (hd_ptr l2 nullptr) (mem e))) (mem e') a ->
  pool_free (mem e') (pool_ e') (a :: fl) ->
  idx_inv (orders_ e') -> idx_view (orders_ e') = delete (o_id o) (idx_view (orders_ e)) ->
  next_order_id_ e' = next_order_id_ e ->
  rep e' (upd Q (sd, p) (l1 ++ l2)) (a :: fl) n.
Proof.
  intros R HQ Hw Hwk Hm Hpool Hidx Hview Hnext.
  assert ((a, o) ∈ Q (sd, p)) as Hao by (rewrite HQ; set_solver).
  pose proof (rep_nodup _ _ _ _ R (sd, p)) as Hnd. rewrite HQ in Hnd.
  pose proof Hnd as Hnd'. rewrite fmap_app in Hnd'. apply list.NoDup_app in Hnd' as (N1 & N12 & N2).
  pose proof (NoDup_cons_1_1 _ _ N2) as Ha2. apply NoDup_cons_1_2 in N2. simpl in Ha2.
  assert (forall b x, (b, x) ∈ l1 ++ l2 -> (b, x) ∈ Q (sd, p) /\ b ≠ a) as Hin.
  { intros b x Hb. rewrite HQ. split; [set_solver|]. intros ->.
    apply elem_of_app in Hb as [Hb|Hb]; apply (list_elem_of_fmap_2 fst) in Hb; [|done].
    apply (N12 _ Hb). simpl. set_solver. }
  pose proof (rep_index _ _ _ _ R _ _ _ Hao) as Hia.
  eapply rep_update; try done.
  - intros k b x Hk Hb. assert (b ≠ a) by (intros ->; by destruct (rep_inj _ _ _ _ _ _ _ _ _ R Hao Hb)).
    split_and!.
    + rewrite (Hm k b x) by done. rewrite link_prev_ne, link_next_ne; [done|..];
        intros ([c y] & -> & Hy)%list_elem_of_fmap; simpl in *;
        destruct (Hin c y) as [Hy' _]; [set_solver| |set_solver|];
        by destruct (rep_inj _ _ _ _ _ _ _ _ _ R Hb Hy').
    + apply not_elem_of_cons. split; [done|]. by eapply R.
    + rewrite Hview, lookup_delete_ne; [by eapply R|].
      intros Hid. by destruct (rep_inj_id _ _ _ _ _ _ _ _ _ _ R Hao Hb Hid).
  - eapply dseg_frame; [|apply dseg_unlink with (x := (a, o)); [done|rewrite <- HQ; apply R]].
    intros b ([? x] & -> & Hb)%list_elem_of_fmap. simpl. destruct (Hin _ _ Hb). by eapply Hm.
  - rewrite fmap_app. apply list.NoDup_app. split_and!; [done| |done]. set_solver.
  - apply (rep_range _ _ _ _ R sd). rewrite HQ. by destruct l1.
  - intros b x Hb. destruct (Hin _ _ Hb) as [Hb' Hne].
    destruct (rep_ptr _ _ _ _ R _ _ _ Hb'). split_and!; [done|set_solver| |].
    + rewrite Hnext. by eapply R.
    + rewrite Hview, lookup_delete_ne; [by eapply R|].
      intros Hid. by destruct (rep_inj_id _ _ _ _ _ _ _ _ _ _ R Hao Hb' Hid).
  - intros id b. rewrite Hview. intros [Hne Hid]%lookup_delete_Some.
    destruct (rep_cover _ _ _ _ R _ _ Hid) as ([sd' p'] & x & Hx & <-).
    destruct (decide ((sd', p') = (sd, p))) as [[= -> ->]|Hk]; [left|right; eauto].
    exists x. split; [|done]. rewrite HQ in Hx. apply elem_of_app in Hx as [|[|]%elem_of_cons]; set_solver.
  - constructor; [|apply R]. by eapply R.
  - rewrite Hview, map_size_delete_Some by eauto. simpl. pose proof (rep_count _ _ _ _ R).
    assert (size (idx_view (orders_ e)) ≠ 0%nat); [|lia].
    intros Hz%map_size_empty_iff. by rewrite Hz in Hia.
  - apply R.
  - rewrite Hnext. pose proof (rep_next _ _ _ _ R). lia.
Qed.

Lemma rep_partial e Q fl n sd p a o qs q e' :
  rep e Q fl n -> Q (sd, p) = (a, o) :: qs -> 1 <= q <= o_qty o ->
  same_levels sd p e e' -> wall sd e' !! Z.to_nat p = Some (level_of ((a, with_qty q o) :: qs)) ->
  agree_on Q (mem e) (mem e') a -> mem e' !! a = set_qty q <$> mem e !! a ->
  pool_free (mem e') (pool_ e') fl ->
  orders_ e' = orders_ e -> next_order_id_ e' = next_order_id_ e ->
  rep e' (upd Q (sd, p) ((a, with_qty q o) :: qs)) fl n.
Proof.
  intros R HQ Hq Hw Hwk Hm Hma Hpool Hord Hnext.
  assert ((a, o) ∈ Q (sd, p)) as Hao by (rewrite HQ; set_solver).
  pose proof (rep_nodup _ _ _ _ R (sd, p)) as Hnd. rewrite HQ in Hnd. simpl in Hnd.
  pose proof (rep_seg _ _ _ _ R sd p) as Hseg. rewrite HQ in Hseg. destruct Hseg as [Ha Hseg]; simpl in Ha, Hseg.
  assert (forall b x, (b, x) ∈ qs -> b ≠ a) as Hin.
  { intros b x Hb ->. apply NoDup_cons_1_1 in Hnd. apply Hnd. by apply (list_elem_of_fmap_2 fst) in Hb. }
  eapply rep_update; try done.
  - intros k b x Hk Hb. assert (b ≠ a) by (intros ->; by destruct (rep_inj _ _ _ _ _ _ _ _ _ R Hao Hb)).
    rewrite Hord. split_and!; [by eapply Hm|by eapply R|by eapply R].
  - split; simpl; [by rewrite Hma, Ha|]. eapply dseg_frame; [|done].
    intros ? ([b x] & -> & Hb)%list_elem_of_fmap. simpl. apply (Hm (sd, p) b x); [|by eapply Hin].
    rewrite HQ. set_solver.
  - apply (rep_range _ _ _ _ R sd). by rewrite HQ.
  - rewrite Hord, Hnext. intros b x [[= -> ->]|Hb]%elem_of_cons.
    + destruct (rep_ptr _ _ _ _ R _ _ _ Hao), (rep_ord _ _ _ _ R _ _ _ Hao).
      split_and!; [done..| |by apply (rep_index _ _ _ _ R _ _ _ Hao)]. split; simpl; lia.
    + assert ((b, x) ∈ Q (sd, p)) as Hb' by (rewrite HQ; set_solver).
      destruct (rep_ptr _ _ _ _ R _ _ _ Hb'). split_and!; [done..|by eapply R|by eapply R].
  - rewrite Hord. intros id b Hid.
    destruct (rep_cover _ _ _ _ R _ _ Hid) as ([sd' p'] & x & Hx & <-).
    destruct (decide ((sd', p') = (sd, p))) as [[= -> ->]|Hk]; [left|right; eauto].
    rewrite HQ in Hx. apply elem_of_cons in Hx as [[= -> ->]|Hx].
    + exists (with_qty q o). set_solver.
    + exists x. set_solver.
  - rewrite Hord. apply R.
  - apply R.
  - rewrite Hord. apply R.
  - apply R.
  - rewrite Hnext. pose proof (rep_next _ _ _ _ R). lia.
Qed.
Lemma rep_append e Q fl n sd p a i o e' :
  rep e Q fl n -> held e Q fl a i -> 1 <= p <= 99 -> (n < POOL_CAPACITY)%nat ->
  o_id o = order_id i -> 1 <= o_qty o <= QTY_BOUND ->
  same_levels sd p e e' -> wall sd e' !! Z.to_nat p = Some (level_of (Q (sd, p) ++ [(a, o)])) ->
  agree_on Q (link_next (Q (sd, p)) a (mem e)) (mem e') a ->
  mem e' !! a = Some (block_of sd p o (last_ptr nullptr (Q (sd, p))) nullptr) ->
  pool_free (mem e') (pool_ e') fl ->
  idx_inv (orders_ e') -> idx_view (orders_ e') = <[order_id i := a]> (idx_view (orders_ e)) ->
  next_order_id_ e' = next_order_id_ e ->
  rep e' (upd Q (sd, p) (Q (sd, p) ++ [(a, o)])) fl (S n).
Proof.
  intros R [Hi Ha Hafl Hout Hfresh Hid] Hp Hn Hoid Hq Hw Hwk Hm Hma Hpool Hidx Hview Hnext.
  assert (forall k b x, (b, x) ∈ Q k ->
    b ≠ a /\ idx_view (orders_ e') !! o_id x = Some b) as Hold.
  { intros k b x Hb. split; [intros ->; by eapply Hout|]. pose proof (rep_index _ _ _ _ R _ _ _ Hb).
    rewrite Hview, lookup_insert_ne by congruence. done. }
  assert (a ∉ (Q (sd, p)).*1) as Hnot.
  { intros ([? x] & -> & Hx)%list_elem_of_fmap. by eapply Hout. }
  eapply rep_update; try done.
  - intros k b x Hk Hb. destruct (Hold _ _ _ Hb) as [Hne Hix].
    split_and!; [|by eapply R|done]. rewrite (Hm k b x) by done. apply link_next_ne.
    intros ([? y] & -> & Hy)%list_elem_of_fmap. by destruct (rep_inj _ _ _ _ _ _ _ _ _ R Hb Hy).
  - eapply dseg_frame with (link_next (Q (sd, p)) a (<[a := block_of sd p o (last_ptr nullptr (Q (sd, p))) nullptr]> (mem e))).
    2:{ apply dseg_append with nullptr; [done|apply R| |by rewrite lookup_insert_eq].
        eapply dseg_frame; [|apply R]. intros b Hb. apply lookup_insert_ne. naive_solver. }
    intros ? ([b x] & -> & Hb)%list_elem_of_fmap. simpl.
    apply elem_of_app in Hb as [Hb|[[= -> ->]|Hb%not_elem_of_nil]%elem_of_cons]; [| |done].
    + destruct (Hold _ _ _ Hb). rewrite (Hm (sd, p) b x) by done. unfold link_next.
      destruct (list.last _) as [y|]; [|by rewrite lookup_insert_ne].
      destruct (decide (y.1 = b)) as [->|]; [rewrite !lookup_alter_eq|rewrite !lookup_alter_ne by done];
        by rewrite lookup_insert_ne.
    + by rewrite link_next_ne, lookup_insert_eq.
  - rewrite fmap_app. apply list.NoDup_app. split_and!; [apply R| |apply NoDup_singleton]. set_solver.
  - intros b x [Hb|[[= -> ->]|Hb%not_elem_of_nil]%elem_of_cons]%elem_of_app; [| |done].
    + destruct (Hold _ _ _ Hb), (rep_ptr _ _ _ _ R _ _ _ Hb). rewrite Hnext.
      split_and!; [done..|by eapply R|done].
    + rewrite Hview, Hoid, lookup_insert_eq, Hnext. split_and!; try done. split; rewrite ?Hoid; lia.
  - intros id b. rewrite Hview. intros [[<- <-]|[Hne Hb]]%lookup_insert_Some; [left; exists o; set_solver|].
    destruct (rep_cover _ _ _ _ R _ _ Hb) as ([sd' p'] & x & Hx & <-).
    destruct (decide ((sd', p') = (sd, p))) as [[= -> ->]|Hk]; [left; exists x; set_solver|right; eauto].
  - apply R.
  - rewrite Hview, map_size_insert_None by done. pose proof (rep_count _ _ _ _ R). lia.
  - rewrite Hnext. pose proof (rep_next _ _ _ _ R). lia.
Qed.

(** Writes outside the queues, allocations and deallocations of the incoming block. *)
Lemma rep_frame e Q fl n e' fl' n' :
  rep e Q fl n -> (forall sd, wall sd e' = wall sd e) ->
  (forall k b o, (b, o) ∈ Q k -> mem e' !! b = mem e !! b /\ b ∉ fl') ->
  orders_ e' = orders_ e -> pool_free (mem e') (pool_ e') fl' -> NoDup fl' ->
  (length fl' + n = length fl + n')%nat -> (n' <= POOL_CAPACITY)%nat ->
  next_order_id_ e <= next_order_id_ e' < 2 ^ 64 ->
  rep e' Q fl' n'.
Proof.
  intros R Hw Hm Hord Hpool Hnd Hlen Hn Hnext. split; try done; rewrite ?Hord; try apply R.
  - intros. rewrite Hw. by apply R.
  - intros. eapply dseg_frame; [|apply R]. intros ? ([b x] & -> & Hb)%list_elem_of_fmap. by eapply Hm.
  - intros. split; [by eapply R|by eapply Hm].
  - intros k b o Hb. destruct (rep_ord _ _ _ _ R _ _ _ Hb). split; lia.
  - pose proof (rep_count _ _ _ _ R). lia.
  - pose proof (rep_next _ _ _ _ R). lia.
Qed.
Definition unmoved e e' : Prop :=
  best_bid_ e' = best_bid_ e /\ best_ask_ e' = best_ask_ e /\ next_order_id_ e' = next_order_id_ e.

Lemma unmoved_trans e1 e2 e3 : unmoved e1 e2 -> unmoved e2 e3 -> unmoved e1 e3.
Proof. intros (? & ? & ?) (? & ? & ?). unfold unmoved. split_and!; congruence. Qed.

(** ** Unlinking

    The two relinking steps of [place_limit] (previous block first) and of
    [cancel] (next block first) leave the same state. *)
Definition relink_next (l2 : list entry) sd p pv : M (P := P) (I := I) unit :=
  if hd_ptr l2 nullptr =? nullptr then store_level sd p (set_tail pv)
  else store (hd_ptr l2 nullptr) (set_prev pv).
Definition relink_prev (l1 : list entry) sd p nx : M (P := P) (I := I) unit :=
  if last_ptr nullptr l1 =? nullptr then store_level sd p (set_head nx)
  else store (last_ptr nullptr l1) (set_next nx).

Definition mapped e (l : list entry) : Prop :=
  forall x, x ∈ l -> x.1 ≠ nullptr /\ is_Some (mem e !! x.1).

Lemma relink_next_run l2 sd p pv e :
  mapped e l2 -> is_Some (wall sd e !! Z.to_nat p) ->
  relink_next l2 sd p pv e =
  Some (tt, set_mem (link_prev l2 pv (mem e)) (if l2 is [] then on_level sd p (set_tail pv) e else e)).
Proof.
  intros Hl Hw. unfold relink_next. destruct l2 as [|x l2]; simpl.
  - rewrite store_level_run by done. by destruct e, sd.
  - destruct (Hl x) as [Hx Hm]; [set_solver|]. rewrite (proj2 (Z.eqb_neq _ _)) by done.
    by rewrite store_run.
Qed.

Lemma relink_prev_run l1 sd p nx e :
  mapped e l1 -> is_Some (wall sd e !! Z.to_nat p) ->
  relink_prev l1 sd p nx e =
  Some (tt, set_mem (link_next l1 nx (mem e)) (if l1 is [] then on_level sd p (set_head nx) e else e)).
Proof.
  intros Hl Hw. unfold relink_prev. destruct l1 as [|x l1 _] using rev_ind; simpl.
  - rewrite store_level_run by done. by destruct e, sd.
  - unfold link_next. rewrite last_ptr_app, list.last_snoc. simpl.
    destruct (Hl x) as [Hx Hm]; [set_solver|]. rewrite (proj2 (Z.eqb_neq _ _)) by done.
    rewrite store_run by done. by destruct l1.
Qed.

Record unlinked sd p (l1 : list entry) x (l2 : list entry) e e' : Prop := {
  un_mem : mem e' = link_prev l2 (last_ptr nullptr l1) (link_next l1 (hd_ptr l2 nullptr) (mem e));
  un_levels : same_levels sd p e e';
  un_level t :
    wall sd e !! Z.to_nat p = Some (mkLevel (hd_ptr (l1 ++ x :: l2) nullptr) (last_ptr nullptr (l1 ++ x :: l2)) t) ->
    wall sd e' !! Z.to_nat p = Some (mkLevel (hd_ptr (l1 ++ l2) nullptr) (last_ptr nullptr (l1 ++ l2)) t);
  un_orders : orders_ e' = orders_ e;
  un_pool : pool_ e' = pool_ e;
  un_unmoved : unmoved e e';
}.

Lemma mapped_link_prev e e' l l2 pv : mem e' = link_prev l2 pv (mem e) -> mapped e l -> mapped e' l.
Proof.
  intros Hm Hl x Hx. destruct (Hl x Hx) as [? Hs]. split; [done|]. rewrite Hm. unfold link_prev.
  destruct l2 as [|y l2]; [done|]. destruct (decide (y.1 = x.1)) as [->|];
    [rewrite lookup_alter_eq, fmap_is_Some|rewrite lookup_alter_ne]; done.
Qed.

Lemma mapped_link_next e e' l l1 nx : mem e' = link_next l1 nx (mem e) -> mapped e l -> mapped e' l.
Proof.
  intros Hm Hl x Hx. destruct (Hl x Hx) as [? Hs]. split; [done|]. rewrite Hm. unfold link_next.
  destruct (list.last l1) as [y|]; [|done]. destruct (decide (y.1 = x.1)) as [->|];
    [rewrite lookup_alter_eq, fmap_is_Some|rewrite lookup_alter_ne]; done.
Qed.

(** The state of either order of the two steps. *)
Definition relinked sd p (l1 l2 : list entry) (m : gmap Z Order) e : engine :=
  let e1 := if l1 is [] then on_level sd p (set_head (hd_ptr l2 nullptr)) e else e in
  set_mem m (if l2 is [] then on_level sd p (set_tail (last_ptr nullptr l1)) e1 else e1).

Lemma relinked_unlinked sd p l1 x l2 e :
  0 <= p -> is_Some (wall sd e !! Z.to_nat p) ->
  unlinked sd p l1 x l2 e
    (relinked sd p l1 l2 (link_prev l2 (last_ptr nullptr l1) (link_next l1 (hd_ptr l2 nullptr) (mem e))) e).
Proof.
  intros Hp Hw. split.
  - done.
  - intros sd' p' Hp' Hne. unfold relinked. autorewrite with eng.
    destruct l1, l2; rewrite ?on_level_ne by (done || lia); done.
  - intros t Ht. unfold relinked. autorewrite with eng.
    destruct l1, l2; rewrite ?on_level_eq, Ht; simpl; unfold set_head, set_tail; simpl;
      by rewrite ?last_ptr_app, ?app_nil_r.
  - by destruct l1, l2, sd.
  - by destruct l1, l2, sd.
  - by destruct l1, l2, sd.
Qed.

Lemma unlink_prev_first sd p l1 x l2 e :
  mapped e (l1 ++ l2) -> is_Some (wall sd e !! Z.to_nat p) -> 0 <= p ->
  exists e1 e', relink_prev l1 sd p (hd_ptr l2 nullptr) e = Some (tt, e1) /\
    mem e1 = link_next l1 (hd_ptr l2 nullptr) (mem e) /\
    relink_next l2 sd p (last_ptr nullptr l1) e1 = Some (tt, e') /\ unlinked sd p l1 x l2 e e'.
Proof.
  intros Hm Hw Hp. do 2 eexists. split_and!; [| | |by apply relinked_unlinked].
  - apply relink_prev_run; [intros y Hy; apply Hm; set_solver|done].
  - done.
  - erewrite relink_next_run; [by destruct l1, l2, sd| |].
    + eapply mapped_link_next; [reflexivity|]. intros y Hy. apply Hm. set_solver.
    + autorewrite with eng. destruct l1; [by rewrite on_level_eq, fmap_is_Some|done].
Qed.

Lemma on_level_comm sd p f g e :
  (forall l, f (g l) = g (f l)) -> on_level sd p f (on_level sd p g e) = on_level sd p g (on_level sd p f e).
Proof.
  intros Hfg. assert (forall (l : list PriceLevel) i, alter f i (alter g i l) = alter g i (alter f i l)) as H.
  { intros l i. apply list_eq. intros j. destruct (decide (i = j)) as [->|].
    - rewrite !list_lookup_alter_eq. destruct (l !! j); simpl; by rewrite ?Hfg.
    - by rewrite !list_lookup_alter_ne. }
  destruct sd; unfold on_level; simpl; by rewrite H.
Qed.

Lemma link_comm (l1 l2 : list entry) nx pv m :
  (forall y, y ∈ l1 -> y.1 ∉ l2.*1) ->
  link_next l1 nx (link_prev l2 pv m) = link_prev l2 pv (link_next l1 nx m).
Proof.
  intros Hd. unfold link_next, link_prev. destruct (list.last l1) as [y|] eqn:E; [|done].
  destruct l2 as [|z l2]; [done|]. apply partial_alter_partial_alter_ne. apply last_Some_elem_of, Hd in E. set_solver.
Qed.

Lemma unlink_next_first sd p l1 x l2 e :
  (forall y, y ∈ l1 -> y.1 ∉ l2.*1) ->
  mapped e (l1 ++ l2) -> is_Some (wall sd e !! Z.to_nat p) -> 0 <= p ->
  exists e1 e', relink_next l2 sd p (last_ptr nullptr l1) e = Some (tt, e1) /\
    mem e1 = link_prev l2 (last_ptr nullptr l1) (mem e) /\
    relink_prev l1 sd p (hd_ptr l2 nullptr) e1 = Some (tt, e') /\ unlinked sd p l1 x l2 e e'.
Proof.
  intros Hd Hm Hw Hp. do 2 eexists. split_and!; [| | |by apply relinked_unlinked].
  - apply relink_next_run; [intros y Hy; apply Hm; set_solver|done].
  - done.
  - erewrite relink_prev_run.
    + do 2 f_equal. rewrite <- link_comm by done. unfold relinked.
      destruct l1, l2; [rewrite <- on_level_comm by done|..]; by destruct sd.
    + eapply mapped_link_prev; [reflexivity|]. intros y Hy. apply Hm. set_solver.
    + autorewrite with eng. destruct l2; [by rewrite on_level_eq, fmap_is_Some|done].
Qed.

Lemma erase_run e Q fl n id a k o :
  rep e Q fl n -> (a, o) ∈ Q k -> o_id o = id -> 
  exists t, idx_erase (orders_ e) id = Some (true, t) /\ idx_inv t /\
    idx_view t = delete id (idx_view (orders_ e)).
Proof.
  intros R Ho <-. destruct (rep_ord _ _ _ _ R _ _ _ Ho) as [_ Hid]. pose proof (rep_next _ _ _ _ R).
  destruct (idx_erase_ok (orders_ e) (o_id o)) as (t & Ht & Hi & Hv); [apply R|apply room_key; lia|].
  exists t. rewrite Ht, (rep_index _ _ _ _ R _ _ _ Ho), bool_decide_true by eauto. done.
Qed.
(** ** One level of the matching loop *)
(** The state after the three subtractions of a trade. *)
Definition traded_state (wl : Side) (ptr inc a t : Z) e : engine :=
  set_mem (alter (fun o => set_qty (qty_remaining o -32 t) o) inc
            (alter (fun o => set_qty (qty_remaining o -32 t) o) a (mem e)))
    (on_level wl ptr (fun l => set_total (total_qty l -32 t) l) e).

Lemma trade_run {A} (k : M A) wl ptr inc a t e :
  is_Some (mem e !! a) -> is_Some (mem e !! inc) -> is_Some (wall wl e !! Z.to_nat ptr) ->
  bind (store a (fun o => set_qty (qty_remaining o -32 t) o)) (fun _ =>
    bind (store_level wl ptr (fun l => set_total (total_qty l -32 t) l)) (fun _ =>
      bind (store inc (fun o => set_qty (qty_remaining o -32 t) o)) (fun _ => k))) e =
  k (traded_state wl ptr inc a t e).
Proof.
  intros Ha Hi Hw.
  mrun store_run; [|done]. mrun store_level_run; [|by autorewrite with eng].
  mrun store_run; [by destruct wl|]. autorewrite with eng. simpl.
  destruct (decide (inc = a)) as [->|Hne]; [by rewrite lookup_alter_eq, fmap_is_Some|].
  by rewrite lookup_alter_ne.
Qed.

(** The facts about the head of a level that a trade needs. *)
Lemma rep_head e Q fl n wl ptr inc i a o qs :
  rep e Q fl n -> held e Q fl inc i -> Q (wl, ptr) = (a, o) :: qs ->
  1 <= ptr <= 99 /\ a ≠ inc /\ a ≠ nullptr /\ (a ∉ fl) /\
  mem e !! a = Some (block_of wl ptr o nullptr (hd_ptr qs nullptr)) /\
  good_order (next_order_id_ e) o /\ o_qty o + sum_qty qs.*2 < 2 ^ 32 /\ 0 <= sum_qty qs.*2 /\
  wall wl e !! Z.to_nat ptr = Some (level_of ((a, o) :: qs)).
Proof.
  intros R H HQ. assert ((a, o) ∈ Q (wl, ptr)) as Ho by (rewrite HQ; set_solver).
  pose proof (rep_range _ _ _ _ R wl ptr) as Hp. rewrite HQ in Hp. specialize (Hp ltac:(done)).
  pose proof (rep_sum _ _ _ _ (wl, ptr) R) as Hs. rewrite HQ in Hs. csimpl in Hs.
  pose proof (rep_seg _ _ _ _ R wl ptr) as Hseg. rewrite HQ in Hseg. destruct Hseg as [Hm _].
  destruct (rep_ptr _ _ _ _ R _ _ _ Ho). pose proof (rep_ord _ _ _ _ R _ _ _ Ho) as Hg.
  split_and!; try done; try lia.
  - intros ->. by apply (held_out _ _ _ _ _ H _ _ Ho).
  - apply sum_qty_nonneg. intros ? ([b x] & -> & Hx)%list_elem_of_fmap.
    destruct (rep_ord _ _ _ _ R (wl, ptr) b x) as [? _]; [rewrite HQ; set_solver|simpl; lia].
  - rewrite <- HQ. apply R. lia.
Qed.

(** What a trade of [t] between the head [a] and the incoming block leaves. *)
Record traded wl ptr inc i a o (qs : list entry) t e e1 : Prop := {
  tr_maker : mem e1 !! a = Some (set_qty (o_qty o - t) (block_of wl ptr o nullptr (hd_ptr qs nullptr)));
  tr_taker : mem e1 !! inc = Some (set_qty (qty_remaining i - t) i);
  tr_other b : b ≠ a -> b ≠ inc -> mem e1 !! b = mem e !! b;
  tr_level : wall wl e1 !! Z.to_nat ptr =
    Some (mkLevel a (last_ptr a qs) (o_qty o - t + sum_qty qs.*2));
  tr_levels : same_levels wl ptr e e1;
  tr_orders : orders_ e1 = orders_ e;
  tr_pool : pool_ e1 = pool_ e;
  tr_unmoved : unmoved e e1;
}.

Lemma trade_ok {A} (k : M A) wl ptr inc e Q fl n i a o qs t :
  rep e Q fl n -> held e Q fl inc i -> Q (wl, ptr) = (a, o) :: qs ->
  0 <= t <= o_qty o -> t <= qty_remaining i <= QTY_BOUND ->
  exists e1, traded wl ptr inc i a o qs t e e1 /\
  bind (store a (fun o => set_qty (qty_remaining o -32 t) o)) (fun _ =>
    bind (store_level wl ptr (fun l => set_total (total_qty l -32 t) l)) (fun _ =>
      bind (store inc (fun o => set_qty (qty_remaining o -32 t) o)) (fun _ => k))) e = k e1.
Proof.
  intros R H HQ Ht Hr.
  destruct (rep_head _ _ _ _ _ _ _ _ _ _ _ R H HQ) as (Hp & Hai & Ha & Hfl & Hma & [Hg1 Hg2] & Hs1 & Hs2 & Hw).
  unfold QTY_BOUND in *. pose proof (held_block _ _ _ _ _ H) as Hmi.
  exists (traded_state wl ptr inc a t e). split; [|by apply trade_run; rewrite ?Hma, ?Hmi, ?Hw].
  split; unfold traded_state; simpl; autorewrite with eng; try done.
  - rewrite lookup_alter_ne, lookup_alter_eq, Hma by done. simpl. rewrite wrap_small; [done|unfold fits; lia].
  - rewrite lookup_alter_eq, lookup_alter_ne, Hmi by done. simpl. rewrite wrap_small; [done|unfold fits; lia].
  - intros b Hb Hb'. by rewrite !lookup_alter_ne.
  - rewrite on_level_eq, Hw. csimpl. unfold set_total. simpl.
    rewrite wrap_small by (unfold fits; lia). do 2 f_equal. lia.
  - intros sd' p' ? ?. autorewrite with eng. apply on_level_ne; [lia..|done].
  - unfold unmoved. simpl. by autorewrite with eng.
Qed.

Lemma traded_agree wl ptr inc i a o qs t e e1 Q fl :
  traded wl ptr inc i a o qs t e e1 -> held e Q fl inc i -> a ∉ fl ->
  agree_on Q (mem e) (mem e1) a /\ forall b, b ∈ fl -> mem e1 !! b = mem e !! b.
Proof.
  intros T H Ha. split.
  - intros k b x Hb Hne. apply (tr_other _ _ _ _ _ _ _ _ _ _ T); [done|].
    intros ->. by apply (held_out _ _ _ _ _ H _ _ Hb).
  - intros b Hb. apply (tr_other _ _ _ _ _ _ _ _ _ _ T); [by intros ->|].
    intros ->. by apply (held_free _ _ _ _ _ H).
Qed.

Lemma out_upd Q k (qs : list entry) a :
  (forall b o, (b, o) ∈ qs -> exists o', (b, o') ∈ Q k) ->
  (forall k o, (a, o) ∉ Q k) -> forall k' o, (a, o) ∉ upd Q k qs k'.
Proof.
  intros Hqs Ha k' o. unfold upd. case_decide; [|apply Ha]. intros Hb.
  apply Hqs in Hb as [o' Hb]. by apply (Ha _ _ Hb).
Qed.

Lemma match_level_partial fuel wl ptr inc fs e Q fl n i a o qs :
  rep e Q fl n -> held e Q fl inc i -> Q (wl, ptr) = (a, o) :: qs ->
  0 < qty_remaining i <= QTY_BOUND -> qty_remaining i < o_qty o ->
  exists e',
    match_level (S fuel) wl ptr inc a fs e =
      Some (fs ++ [mkFill (o_id o) (order_id i) ptr (qty_remaining i) (ts_received i)], e') /\
    rep e' (upd Q (wl, ptr) ((a, with_qty (o_qty o - qty_remaining i) o) :: qs)) fl n /\
    held e' (upd Q (wl, ptr) ((a, with_qty (o_qty o - qty_remaining i) o) :: qs)) fl inc (set_qty 0 i) /\
    unmoved e e'.
Proof.
  intros R H HQ Hr Hlt.
  destruct (rep_head _ _ _ _ _ _ _ _ _ _ _ R H HQ) as (Hp & Hai & Ha & Hfl & Hma & Hg & Hs1 & Hs2 & Hw).
  edestruct (trade_ok (A := list Fill)) as (e1 & T & Hrun); [done..| |by split; [|apply Hr]|]; [lia|].
  destruct (traded_agree _ _ _ _ _ _ _ _ _ _ _ _ T H Hfl) as [Hag Hagf].
  destruct T as [Tm Ti To Tl Tls Tord Tpl Tun]. exists e1. split_and!; try done.
  - simpl. rewrite (proj2 (Z.eqb_neq _ _)) by done.
    mrun load_run; [|apply H]. rewrite (proj2 (Z.ltb_lt _ _)) by lia. simpl.
    mrun load_run; [|done]. simpl. rewrite Z.min_r by lia. rewrite Hrun.
    mrun load_run; [|done]. simpl. rewrite (proj2 (Z.eqb_neq _ _)) by lia. done.
  - eapply rep_partial; try done; [lia|by rewrite Tm, Hma| |by destruct Tun as (_ & _ & ->)].
    rewrite Tpl. eapply pool_free_frame; [by apply R|done].
  - split; try apply H.
    + by rewrite Ti, Z.sub_diag.
    + apply out_upd; [|apply H]. rewrite HQ. intros b x [[= -> ->]|Hb]%elem_of_cons; set_solver.
    + rewrite Tord. apply H.
    + destruct Tun as (_ & _ & ->). apply H.
Qed.
(** The blocks next to [a] in its queue. *)
Lemma rep_neighbours e Q fl n sd p l1 a o l2 :
  rep e Q fl n -> Q (sd, p) = l1 ++ (a, o) :: l2 ->
  forall x, x ∈ l1 ++ l2 -> x ∈ Q (sd, p) /\ x.1 ≠ a /\ (x.1 ∉ fl) /\ x.1 ≠ nullptr /\ is_Some (mem e !! x.1).
Proof.
  intros R HQ [b x] Hx. assert ((b, x) ∈ Q (sd, p)) as Hx' by (rewrite HQ; set_solver).
  destruct (rep_ptr _ _ _ _ R _ _ _ Hx'). destruct (rep_lookup _ _ _ _ _ _ _ _ R Hx') as (? & ? & Hm).
  split_and!; try done.
  pose proof (rep_nodup _ _ _ _ R (sd, p)) as Hnd. rewrite HQ, fmap_app in Hnd.
  apply list.NoDup_app in Hnd as (_ & N12 & N2). csimpl in *. apply NoDup_cons_1_1 in N2.
  intros ->. apply elem_of_app in Hx as [Hx|Hx]; apply (list_elem_of_fmap_2 fst) in Hx; [|done].
  apply (N12 _ Hx). set_solver.
Qed.

(** Erasing an unlinked order from the index and returning its block. *)
Lemma drop_run {A} (k : M A) e Q fl n sd p l1 a o l2 e1 :
  rep e Q fl n -> Q (sd, p) = l1 ++ (a, o) :: l2 ->
  same_levels sd p e e1 -> wall sd e1 !! Z.to_nat p = Some (level_of (l1 ++ l2)) ->
  agree_on Q (link_prev l2 (last_ptr nullptr l1) (link_next l1 (hd_ptr l2 nullptr) (mem e))) (mem e1) a ->
  is_Some (mem e1 !! a) -> (forall b, b ∈ fl -> mem e1 !! b = mem e !! b) ->
  orders_ e1 = orders_ e -> pool_ e1 = pool_ e -> next_order_id_ e1 = next_order_id_ e ->
  exists e', bind (orders_erase (o_id o)) (fun _ => bind (pool_dealloc a) (fun _ => k)) e1 = k e' /\
    rep e' (upd Q (sd, p) (l1 ++ l2)) (a :: fl) n /\
    (forall b, b ≠ a -> mem e' !! b = mem e1 !! b) /\ unmoved e1 e' /\
    idx_view (orders_ e') = delete (o_id o) (idx_view (orders_ e)).
Proof.
  intros R HQ Hw Hwk Hm Ha Hfl Hord Hpl Hnext.
  assert ((a, o) ∈ Q (sd, p)) as Hao by (rewrite HQ; set_solver).
  destruct (rep_ptr _ _ _ _ R _ _ _ Hao) as [Hnull Hafl].
  destruct (erase_run _ _ _ _ (o_id o) a (sd, p) o R) as (t & Ht & Hti & Htv); [done..|].
  destruct (pool_deallocate_ok (mem e1) (pool_ e1) fl a) as (m & pl & Hd & Hpf & _ & Hma); [|done..|].
  { rewrite Hpl. eapply pool_free_frame; [by apply R|done]. }
  exists (set_pool pl (set_mem m (set_orders t e1))). split_and!; try done.
  - erewrite bind_run; [|unfold orders_erase; rewrite Hord, Ht; done].
    erewrite bind_run; [|unfold pool_dealloc; simpl; rewrite Hd; done]. done.
  - eapply rep_remove; try done.
    intros k' b x Hb Hne. simpl. rewrite Hma by done. by eapply Hm.
Qed.


Lemma agree_unlinked Q sd p l1 x l2 e e1 e3 a :
  agree_on Q (mem e) (mem e1) a -> unlinked sd p l1 x l2 e1 e3 ->
  agree_on Q (link_prev l2 (last_ptr nullptr l1) (link_next l1 (hd_ptr l2 nullptr) (mem e))) (mem e3) a.
Proof.
  intros Hag U k b o Hb Hne. rewrite (un_mem _ _ _ _ _ _ _ U).
  apply link_prev_congr, link_next_congr. by eapply Hag.
Qed.

Lemma unlinked_outside sd p l1 x l2 e e1 b :
  unlinked sd p l1 x l2 e e1 -> (b ∉ (l1 ++ l2).*1) -> mem e1 !! b = mem e !! b.
Proof.
  intros U Hb. rewrite fmap_app in Hb. rewrite (un_mem _ _ _ _ _ _ _ U), link_prev_ne, link_next_ne; set_solver.
Qed.

Lemma match_level_full fuel wl ptr inc fs e Q fl n i a o qs :
  rep e Q fl n -> held e Q fl inc i -> Q (wl, ptr) = (a, o) :: qs ->
  0 < qty_remaining i <= QTY_BOUND -> o_qty o <= qty_remaining i ->
  exists e',
    match_level (S fuel) wl ptr inc a fs e =
      match_level fuel wl ptr inc (hd_ptr qs nullptr)
        (fs ++ [mkFill (o_id o) (order_id i) ptr (o_qty o) (ts_received i)]) e' /\
    rep e' (upd Q (wl, ptr) qs) (a :: fl) n /\
    held e' (upd Q (wl, ptr) qs) (a :: fl) inc (set_qty (qty_remaining i - o_qty o) i) /\
    unmoved e e'.
Proof.
  intros R H HQ Hr Hle.
  destruct (rep_head _ _ _ _ _ _ _ _ _ _ _ R H HQ) as (Hp & Hai & Ha & Hfl & Hma & [Hg1 Hg2] & Hs1 & Hs2 & Hw).
  pose proof (rep_neighbours _ _ _ _ _ _ [] _ _ _ R HQ) as Hqs. simpl in Hqs.
  assert (Hnq : forall b, (b = a \/ b = inc \/ b ∈ fl) -> b ∉ qs.*1).
  { intros b Hb ([c x] & -> & Hx)%list_elem_of_fmap. apply Hqs in Hx as (Hx & ? & ? & ?).
    destruct Hb as [?|[<-|?]]; [done| |done]. by apply (held_out _ _ _ _ _ H _ _ Hx). }
  edestruct (trade_ok (A := list Fill)) as (e1 & T & Htr); [done..| |by split; [|apply Hr]|]; [lia|].
  destruct (traded_agree _ _ _ _ _ _ _ _ _ _ _ _ T H Hfl) as [Hag Hagf].
  destruct T as [Tm Ti To Tl Tls Tord Tpl (Tb & Ta & Tn)]. rewrite Z.sub_diag in Tm, Tl.
  destruct (unlink_prev_first wl ptr [] (a, o) qs e1) as (e2 & e3 & H2 & Hm2 & H3 & U); [|by rewrite Tl|lia|].
  { intros x Hx. destruct (Hqs x Hx) as (? & ? & ? & ? & ?). split; [done|]. rewrite To; [done..|].
    intros Hxi. apply (Hnq inc); [auto|]. rewrite <- Hxi. by apply list_elem_of_fmap_2. }
  assert (Hlk : forall b, (b = a \/ b = inc \/ b ∈ fl) -> mem e3 !! b = mem e1 !! b).
  { intros b Hb. eapply unlinked_outside; [done|]. by apply Hnq. }
  destruct (un_unmoved _ _ _ _ _ _ _ U) as (Ub & Ua & Un).
  edestruct (drop_run (A := list Fill)) as (e' & Hrun & R' & Hm & (Db & Da & Dn) & Hv);
    [exact R|by rewrite (app_nil_l (_ :: _))| |by apply (un_level _ _ _ _ _ _ _ U)|by eapply agree_unlinked|..].
  - intros sd' p' Hp' Hne. by rewrite (un_levels _ _ _ _ _ _ _ U), Tls.
  - rewrite Hlk by auto. by rewrite Tm.
  - intros b Hb. rewrite Hlk by auto. by apply Hagf.
  - by rewrite (un_orders _ _ _ _ _ _ _ U).
  - by rewrite (un_pool _ _ _ _ _ _ _ U).
  - congruence.
  - exists e'. split_and!; [| |split|]; try done.
    + simpl. rewrite (proj2 (Z.eqb_neq _ _)) by done.
      mrun load_run; [|apply H]. rewrite (proj2 (Z.ltb_lt _ _)) by lia. simpl.
      mrun load_run; [|done]. simpl. rewrite Z.min_l by lia. rewrite Htr.
      mrun load_run; [|done]. simpl.
      mrun H2. mrun load_run; [|by rewrite Hm2]. simpl.
      erewrite bind_run; [|rewrite if_negb; exact H3].
      mrun load_run; [|by rewrite Hlk, Tm by auto]. simpl. exact Hrun.
    + by rewrite Hm, Hlk, Ti by auto.
    + apply H.
    + apply not_elem_of_cons. split; [done|apply H].
    + apply out_upd; [|apply H]. rewrite HQ. set_solver.
    + rewrite Hv, lookup_delete_None. right. apply H.
    + simpl. rewrite Dn, Un, Tn. apply H.
    + unfold unmoved. split_and!; congruence.
Qed.

(** The whole loop over one level is [fill_queue]. *)
Lemma book_of_upd Q k qs : book_eq (book_of (upd Q k qs)) (upd (book_of Q) k qs.*2).
Proof. intros k'. unfold book_of, upd. by case_decide. Qed.

Lemma match_level_ok fuel : forall wl ptr inc fs e Q fl n i fs' q' rem',
  rep e Q fl n -> held e Q fl inc i -> 0 <= ptr <= 100 ->
  0 <= qty_remaining i <= QTY_BOUND -> (length (Q (wl, ptr)) < fuel)%nat ->
  fill_queue (order_id i) (ts_received i) ptr (book_of Q (wl, ptr)) (qty_remaining i) = (fs', q', rem') ->
  exists e' Q' fl',
    match_level fuel wl ptr inc (hd_ptr (Q (wl, ptr)) nullptr) fs e = Some (fs ++ fs', e') /\
    rep e' Q' fl' n /\ held e' Q' fl' inc (set_qty rem' i) /\ unmoved e e' /\
    book_eq (book_of Q') (upd (book_of Q) (wl, ptr) q') /\ 0 <= rem' <= qty_remaining i.
Proof.
  induction fuel as [|fuel IH]; intros wl ptr inc fs e Q fl n i fs' q' rem' R H Hp Hr Hf HF; [lia|].
  unfold book_of in HF. destruct (Q (wl, ptr)) as [|[a o] qs] eqn:HQ; csimpl in HF.
  { injection HF as <- <- <-. exists e, Q, fl. rewrite app_nil_r. split_and!; try done.
    - by destruct i.
    - intros k. unfold upd, book_of. case_decide; [by subst; rewrite HQ|done].
    - lia. }
  destruct (Z.leb_spec (qty_remaining i) 0).
  { injection HF as <- <- <-. exists e, Q, fl. rewrite app_nil_r. split_and!; try done; [|by destruct i| |lia].
    - destruct (rep_head _ _ _ _ _ _ _ _ _ _ _ R H HQ) as (_ & _ & Ha & _).
      simpl. rewrite (proj2 (Z.eqb_neq _ _)) by done. mrun load_run; [|apply H].
      by rewrite (proj2 (Z.ltb_ge _ _)).
    - intros k. unfold upd, book_of. case_decide; [by subst; rewrite HQ|done]. }
  destruct (rep_ord _ _ _ _ R (wl, ptr) a o) as [Ho _]; [rewrite HQ; set_solver|].
  destruct (Z.leb_spec (o_qty o) (qty_remaining i)).
  - destruct (fill_queue _ _ _ _ _) as [[fs1 q1] r1] eqn:E. injection HF as <- <- <-.
    edestruct (match_level_full fuel wl ptr inc fs) as (e1 & Hrun & R1 & Hh1 & Hu1); [done..|lia|done|].
    edestruct (IH wl ptr inc) as (e' & Q' & fl' & Hrun' & R' & H' & Hu' & Hb' & Hr');
      [exact R1|exact Hh1|done| | | |].
    + simpl. lia.
    + rewrite upd_eq. simpl in Hf. lia.
    + simpl. unfold book_of. rewrite upd_eq. exact E.
    + exists e', Q', fl'. rewrite upd_eq in Hrun'.
      change (hd_ptr ((a, o) :: qs) nullptr) with a. rewrite Hrun, Hrun', <- app_assoc. split_and!; try done.
      * by eapply unmoved_trans.
      * intros k. rewrite Hb'. unfold upd. case_decide; [done|]. unfold book_of, upd. by rewrite decide_False.
      * simpl in Hr'. lia.
      * simpl in Hr'. lia.
  - injection HF as <- <- <-.
    edestruct (match_level_partial fuel wl ptr inc fs) as (e1 & Hrun & R1 & Hh1 & Hu1); [done..|lia|done|].
    do 3 eexists. split_and!; try done; [|lia].
    intros k. by rewrite book_of_upd.
Qed.

(** ** The loop over the levels is [sweep] *)
Lemma level_fuel e Q fl n k : rep e Q fl n -> (length (Q k) < LEVEL_FUEL)%nat.
Proof.
  intros R. pose proof (rep_length _ _ _ _ k R). pose proof (rep_count _ _ _ _ R).
  pose proof (rep_bound _ _ _ _ R). unfold LEVEL_FUEL. lia.
Qed.

Definition levels_left (sd : Side) (limit ptr : Z) : Z :=
  match sd with YES => limit - ptr + 1 | NO => ptr - limit + 1 end.

Lemma match_levels_ok fuel : forall sd limit inc ptr fs e Q fl n i fs' b' rem',
  rep e Q fl n -> held e Q fl inc i -> 0 <= ptr <= 100 -> 1 <= limit <= 99 ->
  0 <= qty_remaining i <= QTY_BOUND -> Z.max 0 (levels_left sd limit ptr) < Z.of_nat fuel ->
  sweep (order_id i) (ts_received i) (opposite sd) (prices_from sd limit ptr) (book_of Q)
    (qty_remaining i) = (fs', b', rem') ->
  exists e' Q' fl',
    match_levels fuel sd limit inc ptr fs e = Some (fs ++ fs', e') /\
    rep e' Q' fl' n /\ held e' Q' fl' inc (set_qty rem' i) /\ unmoved e e' /\
    book_eq (book_of Q') b' /\ 0 <= rem' <= qty_remaining i.
Proof.
  induction fuel as [|fuel IH]; intros sd limit inc ptr fs e Q fl n i fs' b' rem' R H Hp Hl Hr Hf HS; [lia|].
  cbn [match_levels]. mrun load_run; [|apply H].
  set (c := match sd with YES => ptr <=? limit | NO => limit <=? ptr end).
  destruct (c && negb (qty_remaining i =? 0)) eqn:Hc.
  - apply andb_true_iff in Hc as [Hc Hz]. apply negb_true_iff, Z.eqb_neq in Hz.
    rewrite prices_from_step in HS by (destruct sd; by apply Z.leb_le in Hc). simpl in HS.
    destruct (fill_queue _ _ _ _ _) as [[fs1 q1] r1] eqn:E1.
    destruct (sweep _ _ _ _ _ r1) as [[fs2 b2] r2] eqn:E2. injection HS as <- <- <-.
    mrun load_level_run; [|apply R; lia]. cbn [head level_of].
    edestruct (match_level_ok LEVEL_FUEL (opposite sd) ptr inc fs) as (e1 & Q1 & fl1 & Hrun & R1 & Hh1 & Hu1 & Hb1 & Hr1);
      [done..|by eapply level_fuel|done|].
    mrun Hrun.
    pose proof (sweep_proper (order_id i) (ts_received i) (opposite sd)
      (prices_from sd limit (match sd with YES => ptr + 1 | NO => ptr - 1 end)) _ _ Hb1 r1 r1 eq_refl) as HP.
    rewrite E2 in HP. destruct (sweep _ _ _ _ (book_of Q1) r1) as [[fs2' b2'] r2'] eqn:E2'.
    destruct HP as (HP1 & HP2 & HP3). simpl in HP1, HP2, HP3. subst fs2' r2'.
    replace (match sd with YES => ptr +8 1 | NO => ptr -8 1 end)
      with (match sd with YES => ptr + 1 | NO => ptr - 1 end)
      by (destruct sd; apply Z.leb_le in Hc; rewrite wrap_small; unfold fits; lia).
    edestruct (IH sd limit inc) as (e2 & Q2 & fl2 & Hrun2 & R2 & H2 & Hu2 & Hb2 & Hr2); [exact R1|exact Hh1|..|exact E2'|].
    + destruct sd; apply Z.leb_le in Hc; lia.
    + done.
    + simpl. lia.
    + unfold levels_left in *. destruct sd; apply Z.leb_le in Hc; lia.
    + exists e2, Q2, fl2. rewrite Hrun2, <- app_assoc. split_and!; try done; simpl in Hr2; try lia.
      * by eapply unmoved_trans.
      * by rewrite Hb2.
  - pose proof (sweep_nothing (order_id i) (ts_received i) (opposite sd) (prices_from sd limit ptr)
      (book_of Q) (qty_remaining i)) as HN.
    destruct HN as (H1 & H2 & H3).
    { apply andb_false_iff in Hc as [Hc|Hc]; [right|left].
      - rewrite prices_from_stop; [set_solver|]. destruct sd; by apply Z.leb_gt in Hc.
      - by apply negb_false_iff, Z.eqb_eq in Hc. }
    rewrite HS in H1, H2, H3. simpl in H1, H2, H3. subst fs' rem'.
    exists e, Q, fl. rewrite app_nil_r. split_and!; try done; [by destruct i|lia].
Qed.

(** ** Resting the remainder *)
Lemma insert_run e Q fl n inc i :
  rep e Q fl n -> held e Q fl inc i -> (n <= POOL_CAPACITY)%nat -> 
  (size (idx_view (orders_ e)) < POOL_CAPACITY)%nat ->
  exists t, orders_insert (order_id i) inc e = Some (true, set_orders t e) /\ idx_inv t /\
    idx_view t = <[order_id i := inc]> (idx_view (orders_ e)).
Proof.
  intros R H Hn Hs. pose proof (held_id _ _ _ _ _ H). pose proof (rep_next _ _ _ _ R).
  destruct (idx_insert_ok (orders_ e) (order_id i) inc) as (t & Ht & Hi & Hv); [apply R|apply room_key; lia| |].
  { right. pose proof (room_capacity (IndexRoom := IndexRoom0)). lia. }
  exists t. unfold orders_insert. by rewrite Ht.
Qed.

(** Linking a block at the end of its level. *)
Definition link_tail (inc : Z) (sd : Side) (p old_tail : Z) : M (P := P) (I := I) unit :=
  bind (store_level sd p (set_tail inc)) (fun _ =>
    if old_tail =? nullptr then store_level sd p (set_head inc)
    else bind (store inc (set_prev old_tail)) (fun _ => store old_tail (set_next inc))).

Lemma link_tail_run {A} (k : M A) inc sd p old_tail e e1 :
  link_tail inc sd p old_tail e = Some (tt, e1) ->
  bind (store_level sd p (set_tail inc)) (fun _ =>
    bind (if old_tail =? nullptr then store_level sd p (set_head inc)
          else bind (store inc (set_prev old_tail)) (fun _ => store old_tail (set_next inc)))
      (fun _ => k)) e = k e1.
Proof.
  unfold link_tail, bind. destruct (store_level _ _ _ e) as [[[] e']|]; [|done]. simpl. by intros ->.
Qed.

Record linked sd p inc i (qs : list entry) e e' : Prop := {
  ln_block : mem e' !! inc = Some (set_prev (last_ptr nullptr qs) i);
  ln_other b : b ≠ inc -> mem e' !! b = link_next qs inc (mem e) !! b;
  ln_level : wall sd e' !! Z.to_nat p = Some (mkLevel (hd_ptr qs inc) inc (sum_qty qs.*2));
  ln_levels : same_levels sd p e e';
  ln_orders : orders_ e' = orders_ e;
  ln_pool : pool_ e' = pool_ e;
  ln_unmoved : unmoved e e';
}.

Lemma link_tail_ok inc i sd p qs e :
  mapped e qs -> wall sd e !! Z.to_nat p = Some (level_of qs) -> 0 <= p ->
  mem e !! inc = Some i -> inc ∉ qs.*1 -> prev_in_level i = nullptr ->
  exists e', link_tail inc sd p (last_ptr nullptr qs) e = Some (tt, e') /\ linked sd p inc i qs e e'.
Proof.
  intros Hm Hw Hp Hi Hinc Hpv. unfold link_tail. mrun store_level_run; [|by rewrite Hw].
  destruct qs as [|[a o] qs _] using rev_ind.
  - eexists. split; [apply store_level_run; by rewrite on_level_eq, Hw|].
    split; autorewrite with eng; try done.
    + rewrite Hi. simpl. by destruct i; simpl in *; subst.
    + by rewrite !on_level_eq, Hw.
    + intros sd' p' ? ?. by rewrite !on_level_ne by (done || lia).
    + unfold unmoved. by autorewrite with eng.
  - destruct (Hm (a, o)) as [Ha Hma]; [set_solver|]. simpl in *.
    assert (inc ≠ a) by (rewrite fmap_app in Hinc; set_solver).
    rewrite last_ptr_app. simpl. rewrite (proj2 (Z.eqb_neq _ _)) by done.
    eexists. split.
    + mrun store_run; [|by autorewrite with eng; rewrite Hi].
      apply store_run. simpl. autorewrite with eng. by rewrite lookup_alter_ne.
    + split; simpl; autorewrite with eng; try done.
      * rewrite lookup_alter_ne, lookup_alter_eq, Hi by done. simpl. by rewrite last_ptr_app.
      * intros b Hb. unfold link_next. rewrite list.last_snoc. simpl.
        destruct (decide (a = b)) as [->|]; [rewrite !lookup_alter_eq|rewrite !lookup_alter_ne by done];
          by rewrite ?lookup_alter_ne.
      * rewrite on_level_eq, Hw. simpl. unfold set_tail. simpl. by rewrite !hd_ptr_app.
      * intros sd' p' ? ?. autorewrite with eng. by rewrite !on_level_ne by (done || lia).
      * unfold unmoved. simpl. by autorewrite with eng.
Qed.

Lemma rest_order_ok sd inc e Q fl n i :
  rep e Q fl n -> held e Q fl inc i -> (n < POOL_CAPACITY)%nat ->
  side i = sd -> 1 <= price i <= 99 -> 1 <= qty_remaining i <= QTY_BOUND ->
  prev_in_level i = nullptr -> next_in_level i = nullptr ->
  exists e', rest_order sd inc e = Some (tt, e') /\
    rep e' (upd Q (sd, price i) (Q (sd, price i) ++
      [(inc, mkO (order_id i) (client_id i) (qty_remaining i) (ts_received i))])) fl (S n) /\
    best_bid_ e' = (if sd is YES then Z.max (best_bid_ e) (price i) else best_bid_ e) /\
    best_ask_ e' = (if sd is NO then Z.min (best_ask_ e) (price i) else best_ask_ e) /\
    next_order_id_ e' = next_order_id_ e.
Proof.
  intros R H Hn Hsd Hp Hq Hpv Hnx. pose proof (rep_count _ _ _ _ R).
  destruct (insert_run _ _ _ _ _ _ R H) as (t & Ht & Hti & Htv); [lia..|].
  set (qs := Q (sd, price i)).
  assert (Hinc : inc ∉ qs.*1).
  { intros ([? x] & -> & Hx)%list_elem_of_fmap. by apply (held_out _ _ _ _ _ H _ _ Hx). }
  assert (Hw : wall sd e !! Z.to_nat (price i) = Some (level_of qs)) by (apply R; lia).
  destruct (link_tail_ok inc i sd (price i) qs (set_orders t e)) as (e1 & Hrun & [Lb Lo Ll Lls Lord Lpl (Lbid & Lask & Ln)]);
    [|by autorewrite with eng|lia|apply H|done..|].
  { intros [b x] Hx. destruct (rep_ptr _ _ _ _ R _ _ _ Hx). destruct (rep_lookup _ _ _ _ _ _ _ _ R Hx) as (? & ? & Hm).
    split; [done|]. simpl. by rewrite Hm. }
  pose proof (rep_sum_le _ _ _ _ (sd, price i) R) as Hsum. fold qs in Hsum.
  set (e2 := on_level sd (price i) (fun l => set_total (total_qty l +32 qty_remaining i) l) e1).
  assert (Hmem : mem e2 = mem e1) by apply mem_on_level.
  assert (Hbest : best_bid_ e2 = best_bid_ e /\ best_ask_ e2 = best_ask_ e /\ next_order_id_ e2 = next_order_id_ e)
    by (unfold e2; autorewrite with eng; split_and!; done).
  destruct Hbest as (Hbid & Hask & Hnext).
  exists (match sd with
          | YES => set_best_bid (Z.max (best_bid_ e2) (price i)) e2
          | NO => set_best_ask (Z.min (best_ask_ e2) (price i)) e2 end).
  split_and!.
  - unfold rest_order. mrun load_run; [|apply H]. mrun Ht.
    mrun load_level_run; [|by autorewrite with eng]. cbn [tail level_of]. rewrite (link_tail_run _ _ _ _ _ _ _ Hrun).
    mrun load_run; [|exact Lb]. cbn [set_prev price qty_remaining].
    mrun store_level_run; [|by rewrite Ll]. by destruct sd.
  - apply rep_append with e i; try done.
    + intros sd' p' ? ?. transitivity (wall sd' e2 !! Z.to_nat p'); [by destruct sd, sd'|].
      unfold e2. rewrite on_level_ne by (done || lia). rewrite Lls by done. by autorewrite with eng.
    + transitivity (wall sd e2 !! Z.to_nat (price i)); [by destruct sd|].
      unfold e2. rewrite on_level_eq, Ll. fold qs. simpl. unfold set_total, level_of. simpl.
      rewrite hd_ptr_app, last_ptr_app, fmap_app, sum_qty_app. csimpl. do 2 f_equal.
      rewrite wrap_small; [lia|]. unfold fits, QTY_BOUND, POOL_CAPACITY in *. lia.
    + intros k b x Hb Hne. transitivity (mem e2 !! b); [by destruct sd|]. rewrite Hmem. by apply Lo.
    + transitivity (mem e2 !! inc); [by destruct sd|]. rewrite Hmem, Lb. subst qs. destruct i; simpl in *; by subst.
    + replace (pool_ _) with (pool_ e) by (destruct sd; symmetry; apply Lpl).
      eapply pool_free_frame; [by apply R|]. intros b Hb. transitivity (mem e2 !! b); [by destruct sd|].
      rewrite Hmem, Lo by (intros ->; by apply (held_free _ _ _ _ _ H)). apply link_next_ne.
      intros ([? x] & -> & Hx)%list_elem_of_fmap. by apply (rep_ptr _ _ _ _ R _ _ _ Hx).
    + replace (orders_ _) with t by (destruct sd; symmetry; apply Lord). done.
    + replace (orders_ (match sd with YES => _ | NO => _ end)) with t by (destruct sd; symmetry; apply Lord). done.
    + by destruct sd.
  - destruct sd; [by rewrite <- Hbid|exact Hbid].
  - destruct sd; [exact Hask|by rewrite <- Hask].
  - by destruct sd.
Qed.

(** ** The rescans *)
Lemma rescan_bid_ok fuel : forall e Q fl n,
  rep e Q fl n -> 0 <= best_bid_ e <= 99 -> (Z.to_nat (best_bid_ e) < fuel)%nat ->
  exists b, rescan_bid fuel e = Some (tt, set_best_bid b e) /\ 0 <= b <= best_bid_ e /\
    (forall p, b < p <= best_bid_ e -> Q (YES, p) = []) /\ (b = 0 \/ Q (YES, b) ≠ []).
Proof.
  induction fuel as [|fuel IH]; intros e Q fl n R Hb Hf; [lia|]. cbn [rescan_bid].
  mrun gets_run. mrun load_level_run; [|apply R; lia]. cbn [total_qty level_of].
  pose proof (rep_total_zero _ _ _ _ (YES, best_bid_ e) R) as Hz.
  destruct (Z.eqb_spec (sum_qty (Q (YES, best_bid_ e)).*2) 0) as [E|E]; simpl.
  - apply Hz in E. destruct (Z.eqb_spec (best_bid_ e) 0) as [E0|E0]; simpl.
    + exists (best_bid_ e). split_and!; [by destruct e|lia..|by left].
    + erewrite bind_run by done. rewrite wrap_small by (unfold fits; lia).
      destruct (IH (set_best_bid (best_bid_ e - 1) e) Q fl n) as (b & Hrun & Hb' & He & Hx);
        [|simpl; lia..|].
      { destruct R; by split. }
      exists b. simpl in Hb', He. split_and!; [by rewrite Hrun|lia..| |done].
      intros p Hp. destruct (decide (p = best_bid_ e)) as [->|]; [done|]. apply He. lia.
  - exists (best_bid_ e). split_and!; [by destruct e|lia..|]. right. intros Hq. apply E. by apply Hz.
Qed.

Lemma rescan_ask_ok fuel : forall e Q fl n,
  rep e Q fl n -> 1 <= best_ask_ e <= 100 -> (Z.to_nat (100 - best_ask_ e) < fuel)%nat ->
  exists b, rescan_ask fuel e = Some (tt, set_best_ask b e) /\ best_ask_ e <= b <= 100 /\
    (forall p, best_ask_ e <= p < b -> Q (NO, p) = []) /\ (b = 100 \/ Q (NO, b) ≠ []).
Proof.
  induction fuel as [|fuel IH]; intros e Q fl n R Hb Hf; [lia|]. cbn [rescan_ask].
  mrun gets_run. mrun load_level_run; [|apply R; lia]. cbn [total_qty level_of].
  pose proof (rep_total_zero _ _ _ _ (NO, best_ask_ e) R) as Hz.
  destruct (Z.eqb_spec (sum_qty (Q (NO, best_ask_ e)).*2) 0) as [E|E]; simpl.
  - apply Hz in E. destruct (Z.eqb_spec (best_ask_ e) 100) as [E0|E0]; simpl.
    + exists (best_ask_ e). split_and!; [by destruct e|lia..|by left].
    + erewrite bind_run by done. rewrite wrap_small by (unfold fits; lia).
      destruct (IH (set_best_ask (best_ask_ e + 1) e) Q fl n) as (b & Hrun & Hb' & He & Hx);
        [|simpl; lia..|].
      { destruct R; by split. }
      exists b. simpl in Hb', He. split_and!; [by rewrite Hrun|lia..| |done].
      intros p Hp. destruct (decide (p = best_ask_ e)) as [->|]; [done|]. apply He. lia.
  - exists (best_ask_ e). split_and!; [by destruct e|lia..|]. right. intros Hq. apply E. by apply Hz.
Qed.

(** After both rescans the cached prices are the best ones. *)
Lemma rescans_ok {A} (k : M A) e Q fl n :
  rep e Q fl n -> best_loose e (book_of Q) ->
  exists e', bind (rescan_bid SCAN_FUEL) (fun _ => bind (rescan_ask SCAN_FUEL) (fun _ => k)) e = k e' /\
    rep e' Q fl n /\ best_exact e' (book_of Q) /\ next_order_id_ e' = next_order_id_ e.
Proof.
  intros R (Hb & Ha & Hbe & Hae).
  destruct (rescan_bid_ok SCAN_FUEL e Q fl n R Hb) as (b & Hrb & Hbr & Hbq & Hbx); [unfold SCAN_FUEL; lia|].
  assert (rep (set_best_bid b e) Q fl n) as R1 by (destruct R; by split).
  destruct (rescan_ask_ok SCAN_FUEL _ Q fl n R1 Ha) as (a & Hra & Har & Haq & Hax); [unfold SCAN_FUEL; simpl; lia|].
  exists (set_best_ask a (set_best_bid b e)). mrun Hrb. mrun Hra. simpl in Har, Haq.
  split_and!; [done|by destruct R; split| |done]. unfold best_exact, best_loose, book_of in *; simpl.
  split_and!; try lia.
  - intros p Hp. destruct (decide (p <= best_bid_ e)); [by rewrite Hbq by lia|]. apply Hbe. lia.
  - intros p Hp. destruct (decide (best_ask_ e <= p)); [by rewrite Haq by lia|]. apply Hae. lia.
  - destruct Hbx as [|Hx]; [by left|right]. intros E%fmap_nil_inv. done.
  - destruct Hax as [|Hx]; [by left|right]. intros E%fmap_nil_inv. done.
Qed.

(** ** [place_limit] *)
Lemma acquire_ok e Q a fl n id ts client sd pr qty :
  rep e Q (a :: fl) (S n) -> id = next_order_id_ e -> id < 2 ^ 64 - 1 ->
  exists pl, pool_alloc e = Some (a, set_pool pl e) /\
    let i := mkOrder id client sd pr qty ts nullptr nullptr in
    let e' := set_mem (<[a := i]> (mem e)) (set_next_id (id + 1) (set_pool pl e)) in
    rep e' Q fl n /\ held e' Q fl a i /\ a ≠ nullptr /\ is_Some (mem e !! a).
Proof.
  intros R -> Hid. pose proof (rep_next _ _ _ _ R). pose proof (rep_bound _ _ _ _ R).
  destruct (pool_allocate_cons _ _ _ _ (rep_pool _ _ _ _ R)) as (pl & Hal & Hfree).
  destruct (pool_free_ok _ _ _ a (rep_pool _ _ _ _ R)) as [Ha Hma]; [set_solver|].
  pose proof (rep_free _ _ _ _ R) as Hnd. pose proof (NoDup_cons_1_1 _ _ Hnd) as Hafl.
  exists pl. unfold pool_alloc. rewrite Hal. split_and!; try done.
  - eapply (rep_frame e Q (a :: fl) (S n)); try done; simpl.
    + intros k b o Hb. destruct (rep_ptr _ _ _ _ R _ _ _ Hb). rewrite lookup_insert_ne; set_solver.
    + eapply pool_free_frame; [done|]. intros b Hb. rewrite lookup_insert_ne; [done|]. by intros ->.
    + by apply NoDup_cons_1_2 in Hnd.
    + lia.
    + lia.
    + lia.
  - split; simpl; try done; [by rewrite lookup_insert_eq| | |lia].
    + intros k o Ho. apply (rep_ptr _ _ _ _ R) in Ho as [_ Ho]. set_solver.
    + destruct (idx_view _ !! _) as [b|] eqn:E; [|done].
      destruct (rep_cover _ _ _ _ R _ _ E) as (k & o & Ho & Hoid).
      destruct (rep_ord _ _ _ _ R _ _ _ Ho). lia.
Qed.

Lemma release_ok e Q fl n a i :
  rep e Q fl n -> held e Q fl a i -> (n < POOL_CAPACITY)%nat ->
  exists e', pool_dealloc a e = Some (tt, e') /\ rep e' Q (a :: fl) (S n) /\ unmoved e e'.
Proof.
  intros R H Hn.
  destruct (pool_deallocate_ok (mem e) (pool_ e) fl a) as (m & pl & Hd & Hpf & _ & Hm);
    [apply R|apply H|apply H|by rewrite (held_block _ _ _ _ _ H)|].
  exists (set_pool pl (set_mem m e)). split_and!; try done; [unfold pool_dealloc; by rewrite Hd|].
  eapply rep_frame; try done; simpl.
  - intros k b o Hb. destruct (rep_ptr _ _ _ _ R _ _ _ Hb).
    assert (b ≠ a) by (intros ->; by apply (held_out _ _ _ _ _ H _ _ Hb)). rewrite Hm by done. set_solver.
  - constructor; [apply H|apply R].
  - lia.
  - pose proof (rep_next _ _ _ _ R). lia.
Qed.

Lemma rep_positive e Q fl n : rep e Q fl n -> positive (book_of Q).
Proof.
  intros R k o ([a x] & -> & Hx)%list_elem_of_fmap. destruct (rep_ord _ _ _ _ R _ _ _ Hx). simpl. lia.
Qed.

Lemma best_loose_shrink e e' b b' :
  best_loose e b -> best_bid_ e' = best_bid_ e -> best_ask_ e' = best_ask_ e ->
  (forall k, b k = [] -> b' k = []) -> best_loose e' b'.
Proof.
  intros (H1 & H2 & H3 & H4) Hb Ha Hk. unfold best_loose. rewrite Hb, Ha. auto 10.
Qed.

(** Matching: the sweep may start at the cached best price. *)
Lemma match_phase_ok e Q fl n inc i sd pr fs b' rem :
  rep e Q fl n -> held e Q fl inc i -> best_loose e (book_of Q) ->
  1 <= pr <= 99 -> 0 <= qty_remaining i <= QTY_BOUND ->
  sweep (order_id i) (ts_received i) (opposite sd) (prices_for sd pr) (book_of Q) (qty_remaining i) = (fs, b', rem) ->
  exists e' Q' fl',
    match_levels SCAN_FUEL sd pr inc (match sd with YES => best_ask_ e | NO => best_bid_ e end) [] e = Some (fs, e') /\
    rep e' Q' fl' n /\ held e' Q' fl' inc (set_qty rem i) /\ best_loose e' (book_of Q') /\
    next_order_id_ e' = next_order_id_ e /\ book_eq (book_of Q') b' /\ 0 <= rem <= qty_remaining i.
Proof.
  intros R H HL Hp Hq HS. pose proof HL as (Hbb & Hba & Hbe & Hae).
  set (start := match sd with YES => best_ask_ e | NO => best_bid_ e end).
  pose proof (sweep_from_best (order_id i) (ts_received i) sd pr (match sd with YES => 1 | NO => 99 end)
    start (book_of Q) (qty_remaining i)) as HF.
  unfold prices_for in HS. rewrite HS in HF.
  destruct (sweep _ _ _ (prices_from sd pr start) _ _) as [[fs2 b2] r2] eqn:E2.
  destruct HF as (F1 & F2 & F3).
  { unfold start. destruct sd; lia. }
  { intros p Hpp. unfold start in Hpp. destruct sd; simpl; [by apply Hae|by apply Hbe]. }
  simpl in F1, F2, F3. subst fs2 r2.
  edestruct (match_levels_ok SCAN_FUEL sd pr inc start []) as (e2 & Q2 & fl2 & Hrun & R2 & H2 & (Hu1 & Hu2 & Hu3) & Hb2 & Hr);
    [exact R|exact H|..|exact E2|]; try done.
  { unfold start. destruct sd; lia. }
  { unfold levels_left, start, SCAN_FUEL. destruct sd; lia. }
  exists e2, Q2, fl2. split_and!; try done; try lia; [|by rewrite Hb2].
  eapply best_loose_shrink; [exact HL|done..|]. intros k Hk. rewrite Hb2.
  by eapply sweep_shrinks; [apply Hq|by eapply rep_positive, R|exact E2|].
Qed.

(** Settling: the remainder rests or the block goes back to the pool. *)
Lemma settle_phase_ok e Q fl n inc i :
  rep e Q fl n -> held e Q fl inc i -> (n < POOL_CAPACITY)%nat -> best_loose e (book_of Q) ->
  1 <= price i <= 99 -> 0 <= qty_remaining i <= QTY_BOUND ->
  prev_in_level i = nullptr -> next_in_level i = nullptr ->
  let o := mkO (order_id i) (client_id i) (qty_remaining i) (ts_received i) in
  let k := (side i, price i) in
  exists e' Q' fl',
    (if 0 <? qty_remaining i then bind (rest_order (side i) inc) (fun _ => ret (qty_remaining i))
     else bind (pool_dealloc inc) (fun _ => ret 0)) e = Some (qty_remaining i, e') /\
    rep e' Q' fl' (S n) /\ best_loose e' (book_of Q') /\ next_order_id_ e' = next_order_id_ e /\
    book_eq (book_of Q')
      (if 0 <? qty_remaining i then upd (book_of Q) k (book_of Q k ++ [o]) else book_of Q).
Proof.
  intros R H Hn HL Hp Hq Hpv Hnx o k. destruct (Z.ltb_spec 0 (qty_remaining i)).
  - destruct (rest_order_ok (side i) inc e Q fl n i) as (e' & Hrun & R' & Hb & Ha & Hnext); try done; [lia|].
    do 3 eexists. split_and!; [mrun Hrun; done|exact R'| |done|].
    + destruct HL as (H1 & H2 & H3 & H4).
      assert (forall k', k' ≠ k -> book_of Q k' = [] -> book_of (upd Q k (Q k ++ [(inc, o)])) k' = []) as Hk.
      { intros k' Hne Hk'. unfold book_of. by rewrite upd_ne. }
      unfold best_loose. rewrite Hb, Ha. unfold k in *.
      destruct (side i); split_and!; try lia; intros p Hpp; apply Hk; try congruence;
        try (apply H3; lia); try (apply H4; lia); intros [= ->]; lia.
    + subst k o. rewrite book_of_upd, fmap_app. done.
  - destruct (release_ok e Q fl n inc i R H Hn) as (e' & Hrun & R' & (Hb & Ha & Hnext)).
    exists e', Q, (inc :: fl). assert (qty_remaining i = 0) as -> by lia.
    split_and!; try done; [by mrun Hrun|]. by eapply best_loose_shrink.
Qed.

Lemma place_limit_ok e Q a fl n ts client sd pr qty fs rem b' :
  rep e Q (a :: fl) (S n) -> best_loose e (book_of Q) ->
  1 <= pr <= 99 -> 1 <= qty <= QTY_BOUND -> next_order_id_ e < 2 ^ 64 - 1 ->
  place (next_order_id_ e) ts client sd pr qty (book_of Q) = (fs, rem, b') ->
  exists e' Q' fl',
    place_limit ts client sd pr qty e = Some (mkResult (next_order_id_ e) fs rem true, e') /\
    rep e' Q' fl' (S n) /\ best_exact e' (book_of Q') /\ book_eq (book_of Q') b' /\
    next_order_id_ e' = next_order_id_ e + 1.
Proof.
  intros R HL Hp Hq Hid HP.
  pose proof (rep_next _ _ _ _ R). pose proof (rep_bound _ _ _ _ R) as Hn.
  destruct (acquire_ok _ _ _ _ _ _ ts client sd pr qty R eq_refl Hid) as (pl & Hal & R1 & H1 & Ha & Hma).
  set (id := next_order_id_ e) in *. set (i := mkOrder id client sd pr qty ts nullptr nullptr) in *.
  set (e1 := set_mem _ _) in *. unfold place in HP.
  destruct (sweep id ts (opposite sd) (prices_for sd pr) (book_of Q) qty) as [[fs1 b1] r1] eqn:E1.
  injection HP as <- <- <-.
  edestruct (match_phase_ok e1 Q fl n a i sd pr) as (e2 & Q2 & fl2 & Hrun2 & R2 & H2 & HL2 & Hn2 & Hb2 & Hr2);
    [exact R1|exact H1|exact HL|done| |exact E1|]; [simpl; lia|]. simpl in Hr2.
  edestruct (settle_phase_ok e2 Q2 fl2 n a (set_qty r1 i)) as (e3 & Q3 & fl3 & Hrun3 & R3 & HL3 & Hn3 & Hb3);
    try done; [simpl; lia|]. simpl in Hrun3, Hb3.
  edestruct (rescans_ok (A := PlaceResult)) as (e4 & Hrun4 & R4 & HE4 & Hn4); [exact R3|exact HL3|].
  exists e4, Q3, fl3. split_and!; try done.
  - unfold place_limit. rewrite (proj2 (Z.ltb_ge _ _)), (proj2 (Z.ltb_ge _ _)), (proj2 (Z.eqb_neq _ _)) by lia.
    cbn [orb]. mrun gets_run. mrun Hal. rewrite (proj2 (Z.eqb_neq _ _)) by done.
    mrun gets_run. erewrite bind_run by done. rewrite (bind_run _ _ _ tt e1).
    2:{ destruct Hma as [x Hx]. unfold store. simpl. rewrite Hx. fold id. rewrite wrap_small by (unfold fits; lia). done. }
    replace ((match sd with YES => best_ask_ | NO => best_bid_ end) e)
      with (match sd with YES => best_ask_ e1 | NO => best_bid_ e1 end) by by destruct sd.
    rewrite (bind_run _ _ _ _ _ Hrun2). mrun load_run; [|apply H2]. cbn [qty_remaining set_qty].
    rewrite (bind_run _ _ _ _ _ Hrun3). exact Hrun4.
  - rewrite Hb3. destruct (0 <? r1); [|done]. by rewrite Hb2, (Hb2 (sd, pr)).
  - rewrite Hn4, Hn3, Hn2. done.
Qed.

(** ** [cancel] *)
Lemma find_run e Q fl n id :
  rep e Q fl n -> 0 <= id < 2 ^ 64 - 1 -> orders_find id e = Some (idx_view (orders_ e) !! id, e).
Proof.
  intros R Hid. unfold orders_find. rewrite idx_find_ok; [done|apply R|by apply room_key].
Qed.

Lemma cancel_unknown e Q fl n id client :
  rep e Q fl n -> 0 <= id < 2 ^ 64 - 1 -> (forall k a o, (a, o) ∈ Q k -> o_id o ≠ id) ->
  cancel id client e = Some (false, e).
Proof.
  intros R Hid Hno. unfold cancel. mrun find_run; [|done..].
  destruct (idx_view (orders_ e) !! id) as [a|] eqn:E; [|done].
  destruct (rep_cover _ _ _ _ R _ _ E) as (k & o & Ho & Hoid). by destruct (Hno _ _ _ Ho).
Qed.

Lemma cancel_foreign e Q fl n k a o client :
  rep e Q fl n -> (a, o) ∈ Q k -> o_client o ≠ client ->
  cancel (o_id o) client e = Some (false, e).
Proof.
  intros R Ho Hc. destruct (rep_ord _ _ _ _ R _ _ _ Ho) as [_ Hid]. pose proof (rep_next _ _ _ _ R).
  unfold cancel. mrun find_run; [|done|lia]. rewrite (rep_index _ _ _ _ R _ _ _ Ho). destruct k as [sd p].
  destruct (rep_lookup _ _ _ _ _ _ _ _ R Ho) as (pv & nx & Hm). mrun load_run; [|done]. simpl.
  by rewrite (proj2 (Z.eqb_neq _ _)).
Qed.

Lemma dseg_at m sd p pv l1 a o l2 nx :
  dseg m sd p pv (l1 ++ (a, o) :: l2) nx ->
  m !! a = Some (block_of sd p o (last_ptr pv l1) (hd_ptr l2 nx)).
Proof. rewrite dseg_app. simpl. naive_solver. Qed.

Lemma cancel_ok e Q fl n sd p l1 a o l2 :
  rep e Q fl n -> best_loose e (book_of Q) -> Q (sd, p) = l1 ++ (a, o) :: l2 ->
  exists e', cancel (o_id o) (o_client o) e = Some (true, e') /\
    rep e' (upd Q (sd, p) (l1 ++ l2)) (a :: fl) n /\ best_exact e' (book_of (upd Q (sd, p) (l1 ++ l2))) /\
    next_order_id_ e' = next_order_id_ e.
Proof.
  intros R HL HQ. assert ((a, o) ∈ Q (sd, p)) as Ho by (rewrite HQ; set_solver).
  destruct (rep_ord _ _ _ _ R _ _ _ Ho) as [Hq Hid]. pose proof (rep_next _ _ _ _ R).
  pose proof (rep_seg _ _ _ _ R sd p) as Hseg. rewrite HQ in Hseg. pose proof (dseg_at _ _ _ _ _ _ _ _ _ Hseg) as Hm.
  pose proof (rep_neighbours _ _ _ _ _ _ _ _ _ _ R HQ) as Hnb.
  assert (1 <= p <= 99) as Hp by (apply (rep_range _ _ _ _ R sd); rewrite HQ; by destruct l1).
  assert (wall sd e !! Z.to_nat p = Some (level_of (l1 ++ (a, o) :: l2))) as Hw by (rewrite <- HQ; apply R; lia).
  assert (Hout : forall b, (b = a \/ b ∈ fl) -> b ∉ (l1 ++ l2).*1).
  { intros b Hb ([c x] & -> & Hx)%list_elem_of_fmap. apply Hnb in Hx as (_ & ? & ? & _). naive_solver. }
  destruct (unlink_next_first sd p l1 (a, o) l2 e) as (e1 & e2 & H1 & Hm1 & H2 & U); [| |by rewrite Hw|lia|].
  { intros y Hy Hy2. pose proof (rep_nodup _ _ _ _ R (sd, p)) as Hnd. rewrite HQ, fmap_app in Hnd.
    apply list.NoDup_app in Hnd as (_ & Hnd & _). apply (Hnd y.1); [by apply list_elem_of_fmap_2|]. csimpl. by right. }
  { intros x Hx. destruct (Hnb x Hx) as (_ & _ & _ & ? & ?). done. }
  assert (Ha1 : mem e1 !! a = mem e !! a).
  { rewrite Hm1. apply link_prev_ne. intros Hin. apply (Hout a); [auto|]. rewrite fmap_app. set_solver. }
  assert (Ha2 : mem e2 !! a = mem e !! a) by (eapply unlinked_outside; [done|auto]).
  pose proof (un_level _ _ _ _ _ _ _ U _ Hw) as Hw2. destruct (un_unmoved _ _ _ _ _ _ _ U) as (Ub & Ua & Un).
  set (e3 := on_level sd p (fun l => set_total (total_qty l -32 o_qty o) l) e2).
  assert (Hm3 : mem e3 = mem e2) by apply mem_on_level.
  edestruct (drop_run (A := bool)) with (e1 := e3) as (e4 & Hrun4 & R4 & _ & (Db & Da & Dn) & _); [exact R|exact HQ|..].
  - intros sd' p' ? ?. unfold e3. rewrite on_level_ne by (done || lia). by apply (un_levels _ _ _ _ _ _ _ U).
  - unfold e3. rewrite on_level_eq, Hw2. simpl. unfold set_total, level_of. simpl.
    pose proof (rep_sum _ _ _ _ (sd, p) R) as Hs. rewrite HQ in Hs. do 2 f_equal.
    assert (0 <= sum_qty (l1 ++ l2).*2).
    { apply sum_qty_nonneg. intros ? ([b x] & -> & Hx)%list_elem_of_fmap. apply Hnb in Hx as [Hx _].
      destruct (rep_ord _ _ _ _ R _ _ _ Hx). simpl. lia. }
    rewrite !fmap_app, !sum_qty_app in *. csimpl in *. rewrite wrap_small; [lia|unfold fits; lia].
  - rewrite Hm3. by eapply agree_unlinked.
  - by rewrite Hm3, Ha2, Hm.
  - intros b Hb. rewrite Hm3. eapply unlinked_outside; [done|auto].
  - unfold e3. autorewrite with eng. apply U.
  - unfold e3. autorewrite with eng. apply U.
  - unfold e3. by autorewrite with eng.
  - edestruct (rescans_ok (A := bool)) as (e5 & Hrun5 & R5 & HE5 & Hn5); [exact R4| |].
    + eapply best_loose_shrink; [exact HL|..].
      * rewrite Db. unfold e3. by autorewrite with eng.
      * rewrite Da. unfold e3. by autorewrite with eng.
      * intros k Hk. unfold book_of, upd in *. case_decide; [|done]. subst. rewrite HQ in Hk. by destruct l1.
    + exists e5. split_and!; try done.
      * unfold cancel. mrun find_run; [|done|lia]. rewrite (rep_index _ _ _ _ R _ _ _ Ho).
        mrun load_run; [|done]. simpl. rewrite Z.eqb_refl. simpl.
        rewrite (bind_run _ _ _ _ _ H1). mrun load_run; [|by rewrite Ha1]. simpl.
        rewrite (bind_run _ _ _ _ _ H2). mrun load_run; [|by rewrite Ha2]. simpl.
        mrun store_level_run; [|by rewrite Hw2]. fold e3. rewrite Hrun4. exact Hrun5.
      * rewrite Hn5, Dn. unfold e3. by autorewrite with eng.
Qed.
End refinement.

End Refine.
