(* ===== verification/Exchange.v ===== *)
(** * The matching engine as an exchange

    [implements e s]: the engine [e] is a concrete state of the abstract exchange
    [s].  The file proves the simulation, derives from it what traders rely on
    (conservation, price and time priority, limit prices, cancellation rights, an
    uncrossed book, exact best prices), and instantiates the engine with the hash
    map and the pool the program uses, from its constructor on. *)
From stdpp Require Import gmap list numbers sorting.
From S2P Require Import Prelude Interfaces FlatHashMap Pool MatchingEngine MatchSpec EngineRep EngineRefine.
Open Scope Z_scope.
Open Scope cpp_scope.

Module Exchange.
Import Engine Clob Rep Refine.

Section simulation.
  Context {P I : Type} `{!PoolOps P Order} `{!IndexOps I Z} `{!PoolLaws P Order} `{!IndexLaws I Z}.
  Context `{!IndexRoom I Z (Z.of_nat POOL_CAPACITY)}.
  Abbreviation engine := (MatchingEngine P I).
  Implicit Types (e : engine) (s : state).

Definition implements e s : Prop :=
  exists Q fl, rep e Q fl POOL_CAPACITY /\ book_eq (book_of Q) (bk s) /\
    best_exact e (bk s) /\ next_order_id_ e = nid s.

(** ** The abstract observers on a represented book *)
Lemma entries_proper b b' : book_eq b b' -> entries b = entries b'.
Proof. intros Hb. unfold entries. apply list_bind_ext; [|done]. intros k. by rewrite Hb. Qed.

Lemma elem_of_all_keys sd p : (sd, p) ∈ all_keys <-> 1 <= p <= 99.
Proof.
  unfold all_keys. rewrite list_elem_of_bind. split.
  - intros (sd' & (p' & [= <- <-] & Hp%elem_of_seqZ)%list_elem_of_fmap & _). lia.
  - intros Hp. exists sd. split; [|by destruct sd; set_solver].
    apply list_elem_of_fmap. exists p. split; [done|]. apply elem_of_seqZ. lia.
Qed.

Lemma NoDup_all_keys : NoDup all_keys.
Proof. apply (bool_decide_unpack _). vm_compute. exact Logic.I. Qed.

Lemma elem_of_book_entries e Q fl n k o :
  rep e Q fl n -> (k, o) ∈ entries (book_of Q) <-> exists a, (a, o) ∈ Q k.
Proof.
  intros R. destruct k as [sd p]. unfold entries. rewrite list_elem_of_bind. split.
  - intros (k & (? & [= <- <-] & ([a x] & -> & Hx)%list_elem_of_fmap)%list_elem_of_fmap & _). eauto.
  - intros [a Ha]. exists (sd, p). split.
    + apply list_elem_of_fmap. exists o. split; [done|]. apply list_elem_of_fmap. by exists (a, o).
    + apply elem_of_all_keys, (rep_range _ _ _ _ R sd p). by intros E; rewrite E in Ha; apply not_elem_of_nil in Ha.
Qed.

Lemma find_order_rep e Q fl n id :
  rep e Q fl n ->
  match find_order id (book_of Q) with
  | Some (k, o) => o_id o = id /\ exists a, (a, o) ∈ Q k
  | None => forall k a o, (a, o) ∈ Q k -> o_id o ≠ id
  end.
Proof.
  intros R. unfold find_order. destruct (list_find _ _) as [[i [k o]]|] eqn:E; simpl.
  - apply list_find_Some in E as (E & Hid & _). split; [done|]. apply (elem_of_book_entries _ _ _ _ k o R).
    by eapply list_elem_of_lookup_2.
  - apply list_find_None in E. rewrite Forall_forall in E. intros k a o Ho.
    apply (E (k, o)). apply (elem_of_book_entries _ _ _ _ k o R). eauto.
Qed.

Lemma resting_rep e Q fl n : rep e Q fl n -> resting (book_of Q) = size (idx_view (orders_ e)).
Proof.
  intros R. unfold resting. set (ids := (fun x => o_id x.2) <$> entries (book_of Q)).
  assert (NoDup ids) as Hnd.
  { apply NoDup_fmap_2_strong.
    - intros [k o] [k' o'] (a & Ha)%(elem_of_book_entries _ _ _ _ _ _ R) (a' & Ha')%(elem_of_book_entries _ _ _ _ _ _ R) Hid.
      by destruct (rep_inj_id _ _ _ _ _ _ _ _ _ _ R Ha Ha' Hid) as (_ & -> & ->).
    - apply NoDup_bind; [| |apply NoDup_all_keys].
      + by intros k k' [] _ _ (? & [= -> _] & _)%list_elem_of_fmap (? & [= -> _] & _)%list_elem_of_fmap.
      + intros k _. apply NoDup_fmap_2; [by intros ? ? [=]|]. apply NoDup_fmap_2_strong.
        * intros [a o] [a' o'] Ha Ha' Ho. simpl in Ho. subst o'.
          by destruct (rep_inj_id _ _ _ _ _ _ _ _ _ _ R Ha Ha' eq_refl) as (-> & _).
        * eapply NoDup_fmap_1, (rep_nodup _ _ _ _ R). }
  rewrite <- size_dom. replace (length _) with (length ids) by apply length_fmap.
  rewrite <- (size_list_to_set (C := gset Z)) by done. f_equal. apply set_eq. intros id.
  rewrite elem_of_list_to_set, elem_of_dom. unfold ids. rewrite list_elem_of_fmap. split.
  - intros ([k o] & -> & (a & Ha)%(elem_of_book_entries _ _ _ _ _ _ R)). simpl. rewrite (rep_index _ _ _ _ R _ _ _ Ha). eauto.
  - intros [a Ha]. apply (rep_cover _ _ _ _ R) in Ha as (k & o & Ho & <-). exists (k, o). split; [done|].
    apply (elem_of_book_entries _ _ _ _ _ _ R). eauto.
Qed.

Lemma remove_order_rep e Q fl n k l1 a o l2 :
  rep e Q fl n -> Q k = l1 ++ (a, o) :: l2 ->
  remove_order (o_id o) (book_of Q k) = (l1 ++ l2).*2.
Proof.
  intros R HQ. destruct k as [sd p]. unfold book_of, remove_order. rewrite HQ, !fmap_app, filter_app. csimpl.
  rewrite filter_cons_False by naive_solver. f_equal; apply filter_Forall_id, Forall_forall;
    intros ? ([b x] & -> & Hx)%list_elem_of_fmap Hid;
    (assert ((b, x) ∈ l1 ++ l2) as Hx' by set_solver);
    destruct (rep_neighbours _ _ _ _ _ _ _ _ _ _ R HQ _ Hx') as (Hb & Hne & _);
    (assert ((a, o) ∈ Q (sd, p)) as Ha by (rewrite HQ; set_solver));
    by destruct (rep_inj_id _ _ _ _ _ _ _ _ _ _ R Hb Ha Hid).
Qed.

Lemma best_exact_proper e b b' : book_eq b b' -> best_exact e b -> best_exact e b'.
Proof. intros Hb. unfold best_exact, best_loose. rewrite <- !Hb. intros ((? & ? & H1 & H2) & ?). 
  split_and!; try done; try tauto; intros; rewrite <- Hb; auto. Qed.

Lemma place_proper id ts client sd pr qty b b' :
  book_eq b b' -> outcome_eq
    (let '(fs, rem, b1) := place id ts client sd pr qty b in (fs, b1, rem))
    (let '(fs, rem, b1) := place id ts client sd pr qty b' in (fs, b1, rem)).
Proof.
  intros Hb. unfold place.
  pose proof (sweep_proper id ts (opposite sd) (prices_for sd pr) _ _ Hb qty qty eq_refl) as (H1 & H2 & H3).
  destruct (sweep id ts (opposite sd) (prices_for sd pr) b qty) as [[fs1 b1] r1].
  destruct (sweep id ts (opposite sd) (prices_for sd pr) b' qty) as [[fs2 b2] r2].
  simpl in *. subst. split_and!; simpl; [done| |done]. destruct (0 <? r2); [|done]. by rewrite H2.
Qed.

(** ** The simulation *)
Lemma rejected_run ts client sd pr qty e :
  (pr < 1 \/ 99 < pr \/ qty = 0) -> Engine.place_limit ts client sd pr qty e = Some (rejected, e).
Proof.
  intros H. unfold Engine.place_limit. destruct (Z.ltb_spec pr 1); [done|]. destruct (Z.ltb_spec 99 pr); [done|].
  cbn [orb]. rewrite (proj2 (Z.eqb_eq _ _)) by lia. done.
Qed.

Lemma full_run ts client sd pr qty e Q n :
  rep e Q [] n -> Engine.place_limit ts client sd pr qty e = Some (rejected, e).
Proof.
  intros R. unfold Engine.place_limit. destruct (_ || _); [done|]. destruct (_ =? _); [done|].
  mrun gets_run. erewrite bind_run.
  2:{ unfold pool_alloc. rewrite pool_allocate_nil; [done|apply R]. }
  simpl. by destruct e.
Qed.

Lemma place_simulates e s ts client sd pr qty :
  implements e s -> 0 <= qty <= QTY_BOUND -> nid s < 2 ^ 64 - 1 ->
  exists e', Engine.place_limit ts client sd pr qty e = Some ((submit ts client sd pr qty s).1, e') /\
    implements e' (submit ts client sd pr qty s).2.
Proof.
  intros (Q & fl & R & Hb & HE & Hn) Hq Hid. unfold submit. pose proof (rep_count _ _ _ _ R) as Hc.
  pose proof (resting_rep _ _ _ _ R) as Hr. unfold resting in *. rewrite (entries_proper _ _ Hb) in Hr.
  assert (implements e s) as Him by (by exists Q, fl).
  case_decide as Hd; cycle 1.
  { exists e. split; [|done]. destruct (decide (1 <= pr <= 99)); [|apply rejected_run; lia].
    destruct (decide (qty = 0)); [apply rejected_run; lia|].
    destruct fl; [by eapply full_run|]. exfalso. apply Hd. simpl in Hc. split_and!; [lia..|]. lia. }
  destruct Hd as (Hp & Hz & Hlt). destruct fl as [|a fl]; [simpl in Hc; lia|].
  destruct (place (nid s) ts client sd pr qty (book_of Q)) as [[fs rem] b'] eqn:EP.
  rewrite <- Hn in EP. edestruct (place_limit_ok e Q a fl 2047 ts client sd pr qty) as (e' & Q' & fl' & Hrun & R' & HE' & Hb' & Hn'); 
    [exact R|by eapply best_exact_proper in HE as [? _]; [|by symmetry]|done|lia|by rewrite Hn|exact EP|].
  pose proof (place_proper (nid s) ts client sd pr qty _ _ Hb) as HP. rewrite Hn in EP. rewrite EP in HP.
  destruct (place (nid s) ts client sd pr qty (bk s)) as [[fs2 rem2] b2]. destruct HP as (P1 & P2 & P3). simpl in *. subst.
  exists e'. rewrite Hrun, Hn. split; [done|]. exists Q', fl'. split_and!; try done; simpl; [by rewrite Hb'| |by rewrite Hn', Hn].
  eapply best_exact_proper; [|done]. by rewrite Hb'.
Qed.

Lemma cancel_simulates e s id client :
  implements e s -> 0 <= id < 2 ^ 64 - 1 ->
  exists e', Engine.cancel id client e = Some ((withdraw id client s).1, e') /\
    implements e' (withdraw id client s).2.
Proof.
  intros (Q & fl & R & Hb & HE & Hn) Hid. assert (implements e s) as Him by (by exists Q, fl).
  unfold withdraw, find_order. rewrite <- (entries_proper _ _ Hb). fold (find_order id (book_of Q)).
  pose proof (find_order_rep _ _ _ _ id R) as HF. destruct (find_order id (book_of Q)) as [[[sd p] o]|].
  - destruct HF as [<- [a Ha]]. case_decide as Hc; [subst client|exists e; split; [by eapply cancel_foreign|done]].
    pose proof Ha as (l1 & l2 & HQ)%list_elem_of_split.
    edestruct cancel_ok as (e' & Hrun & R' & HE' & Hn');
      [exact R|by eapply best_exact_proper in HE as [? _]; [|by symmetry]|exact HQ|].
    assert (book_eq (book_of (upd Q (sd, p) (l1 ++ l2))) (upd (bk s) (sd, p) (remove_order (o_id o) (bk s (sd, p))))) as Hb'.
    { rewrite book_of_upd, <- (remove_order_rep _ _ _ _ _ _ _ _ _ R HQ). by rewrite Hb, (Hb (sd, p)). }
    exists e'. split; [done|]. do 2 eexists. split_and!; [exact R'|exact Hb'|by eapply best_exact_proper|]. by rewrite Hn'.
  - exists e. split; [|done]. by eapply cancel_unknown.
Qed.

(** What every represented book satisfies. *)
Lemma implements_book e s : implements e s -> positive (bk s) /\ in_range (bk s).
Proof.
  intros (Q & fl & R & Hb & _). split.
  - intros k o Ho. rewrite <- (Hb k) in Ho. by apply (rep_positive _ _ _ _ R k).
  - intros sd p Hp. rewrite <- (Hb (sd, p)) in Hp. apply (rep_range _ _ _ _ R sd p).
    intros E. apply Hp. unfold book_of. by rewrite E.
Qed.

Lemma submit_uncrossed e s ts client sd pr qty :
  implements e s -> 0 <= qty -> uncrossed (bk s) -> uncrossed (bk (submit ts client sd pr qty s).2).
Proof.
  intros [Hpos Hrg]%implements_book Hq Hun. unfold submit. case_decide as Hd; [|done].
  destruct (place _ _ _ _ _ _ _) as [[fs rem] b'] eqn:E. destruct Hd as (? & _). simpl. by eapply place_uncrossed.
Qed.

Lemma withdraw_uncrossed id client s : uncrossed (bk s) -> uncrossed (bk (withdraw id client s).2).
Proof.
  intros Hun. unfold withdraw. destruct (find_order id (bk s)) as [[k o]|]; [|done]. case_decide; [|done].
  simpl. assert (forall k', upd (bk s) k (remove_order id (bk s k)) k' ≠ [] -> bk s k' ≠ []) as Hk.
  { intros k'. unfold upd. case_decide; [|done]. subst. intros Hr Hb. by rewrite Hb in Hr. }
  intros p q Hp Hq. apply Hun; by apply Hk.
Qed.
End simulation.


(** ** The program's engine: a [Pool<Order, 2048>] and a [FlatHashMap<uint64_t, Order*, 4096>] *)
#[export] Instance order_pool_ops : PoolOps Pool.Pool Order := Pool.pool_ops.
#[export] Instance order_pool_laws : PoolLaws Pool.Pool Order := Pool.pool_laws.
(** The values of the index are pointers, so a zeroed value is [nullptr]. *)
Definition zeroed_pointer : Inhabited Z := populate nullptr.
#[export] Instance orders_ops : IndexOps (Fhm.FlatHashMap Z) Z := @Fhm.index_ops Z zeroed_pointer 12.
#[export] Instance orders_laws : IndexLaws (Fhm.FlatHashMap Z) Z := @Fhm.index_laws Z zeroed_pointer 12 ltac:(lia).
#[export] Instance orders_room : IndexRoom (Fhm.FlatHashMap Z) Z (Z.of_nat POOL_CAPACITY).
Proof. split; [|done]. intros k Hk. simpl. unfold Fhm.EMPTY. lia. Qed.

Abbreviation KalshiEngine := (MatchingEngine Pool.Pool (Fhm.FlatHashMap Z)).

(** [sizeof(Order)]; the mapping at [base] is zero-filled. *)
Definition ORDER_SIZE : Z := 48.
Definition zero_order : Order := mkOrder 0 0 YES 0 0 0 0 0.
Definition order_blocks (base : Z) : list Z := Pool.blocks ORDER_SIZE POOL_CAPACITY base.
Definition zeroed (base : Z) : gmap Z Order :=
  list_to_map ((fun a => (a, zero_order)) <$> order_blocks base).

Definition empty_level : PriceLevel := mkLevel nullptr nullptr 0.

Definition make (base : Z) : option KalshiEngine :=
  '(m, p) ← Pool.make ORDER_SIZE POOL_CAPACITY base (zeroed base);
  Some (mkEngine m p (replicate 101 empty_level) (replicate 101 empty_level) idx_make 0 100 1).

Definition empty_state : state := mkState (fun _ => []) 1.

Lemma zeroed_mapped base a : a ∈ order_blocks base -> is_Some (zeroed base !! a).
Proof.
  intros Ha. unfold zeroed. generalize dependent (order_blocks base). intros l Ha.
  induction l as [|b l IH]; [set_solver|]. csimpl. destruct (decide (b = a)) as [->|Hne].
  - rewrite lookup_insert_eq. eauto.
  - rewrite lookup_insert_ne by done. apply IH. set_solver.
Qed.

Lemma make_implements base : 0 < base -> exists e, make base = Some e /\ implements e empty_state.
Proof.
  intros Hb. destruct (Pool.make_free_list ORDER_SIZE POOL_CAPACITY base) with (m := zeroed base)
    as (m & p & Hmk & fl & Hfl & Hperm & Hmap); [unfold POOL_CAPACITY; lia|done|done|apply zeroed_mapped|].
  unfold make. rewrite Hmk. cbn [mbind option_bind]. eexists. split; [reflexivity|].
  destruct (idx_make_ok (T := Fhm.FlatHashMap Z) (V := Z)) as [Hi Hv].
  assert (length fl = POOL_CAPACITY) as Hlen.
  { rewrite app_nil_l in Hperm. rewrite Hperm. unfold Pool.blocks. by rewrite length_fmap, length_seq. }
  exists (fun _ => []), fl. split_and!; [|done| |done].
  - apply Build_rep; cbn [wall bids_ asks_ mem pool_ orders_ next_order_id_].
    + intros sd i Hi'. destruct sd; cbn [wall bids_ asks_]; (rewrite lookup_replicate_2; [reflexivity|lia]).
    + intros sd i. exact Logic.I.
    + intros. apply NoDup_nil_2.
    + intros sd i H. by destruct H.
    + intros k a o Ho. destruct (not_elem_of_nil _ Ho).
    + intros k a o Ho. destruct (not_elem_of_nil _ Ho).
    + intros k a o Ho. destruct (not_elem_of_nil _ Ho).
    + intros id a. rewrite Hv, lookup_empty. discriminate.
    + exact Hi.
    + exact Hfl.
    + apply Hfl.
    + rewrite Hv, map_size_empty. exact Hlen.
    + apply Nat.le_refl.
    + lia.
  - unfold best_exact, best_loose; cbn [best_bid_ best_ask_ bk empty_state]. split_and!; (lia || done || by left).
Qed.

(** ** Sequences of requests *)
Inductive request :=
| Place (ts client : Z) (sd : Side) (pr qty : Z)
| Cancel (id client : Z).
Inductive response := Placed (r : PlaceResult) | Cancelled (b : bool).

(** The requests the theorems are about.  [QTY_BOUND] is 2,097,151: with at most 2048 resting
    orders no 32-bit level total wraps ([engine_total_overflow] below shows what happens
    otherwise; the HTTP handler lets through quantities up to 1,000,000).  An id is one that
    an engine can have issued: [2 ^ 64 - 1] is the marker of an empty slot of the index, and
    cancelling it is undefined ([engine_cancel] below). *)
Definition request_ok (q : request) : Prop :=
  match q with
  | Place _ _ _ _ qty => 0 <= qty <= QTY_BOUND
  | Cancel id _ => 0 <= id < 2 ^ 64 - 1
  end.

Definition serve (q : request) (e : KalshiEngine) : option (response * KalshiEngine) :=
  match q with
  | Place ts client sd pr qty => '(r, e) ← Engine.place_limit ts client sd pr qty e; Some (Placed r, e)
  | Cancel id client => '(b, e) ← Engine.cancel id client e; Some (Cancelled b, e)
  end.

Definition spec_serve (q : request) (s : state) : response * state :=
  match q with
  | Place ts client sd pr qty => let '(r, s) := submit ts client sd pr qty s in (Placed r, s)
  | Cancel id client => let '(b, s) := withdraw id client s in (Cancelled b, s)
  end.

Fixpoint serve_all (qs : list request) (e : KalshiEngine) : option (list response * KalshiEngine) :=
  match qs with
  | [] => Some ([], e)
  | q :: qs => '(r, e) ← serve q e; '(rs, e) ← serve_all qs e; Some (r :: rs, e)
  end.

Fixpoint spec_serve_all (qs : list request) (s : state) : list response * state :=
  match qs with
  | [] => ([], s)
  | q :: qs => let '(r, s) := spec_serve q s in let '(rs, s) := spec_serve_all qs s in (r :: rs, s)
  end.

Lemma serve_simulates q e s :
  implements e s -> request_ok q -> nid s < 2 ^ 64 - 1 ->
  exists e', serve q e = Some ((spec_serve q s).1, e') /\ implements e' (spec_serve q s).2.
Proof.
  intros Hi Hq Hn. destruct q as [ts client sd pr qty|id client]; simpl in *.
  - destruct (place_simulates e s ts client sd pr qty Hi Hq Hn) as (e' & Hrun & Hi').
    destruct (submit ts client sd pr qty s) as [r s']. rewrite Hrun. eauto.
  - destruct (cancel_simulates e s id client Hi Hq) as (e' & Hrun & Hi').
    destruct (withdraw id client s) as [r s']. rewrite Hrun. eauto.
Qed.

Lemma spec_serve_nid q s : nid s <= nid (spec_serve q s).2 <= nid s + 1.
Proof.
  destruct q; simpl.
  - unfold submit. case_decide; [|simpl; lia]. destruct (place _ _ _ _ _ _ _) as [[? ?] ?]. simpl. lia.
  - unfold withdraw. destruct (find_order _ _) as [[? ?]|]; [case_decide|]; simpl; lia.
Qed.

Lemma serve_all_simulates qs : forall e s,
  implements e s -> Forall request_ok qs -> nid s + Z.of_nat (length qs) <= 2 ^ 64 - 1 ->
  exists e', serve_all qs e = Some ((spec_serve_all qs s).1, e') /\ implements e' (spec_serve_all qs s).2.
Proof.
  induction qs as [|q qs IH]; intros e s Hi Hqs Hn; simpl; [eauto|].
  apply Forall_cons in Hqs as [Hq Hqs]. simpl in Hn.
  destruct (serve_simulates q e s Hi Hq) as (e1 & Hrun & Hi1); [lia|]. rewrite Hrun.
  pose proof (spec_serve_nid q s). destruct (spec_serve q s) as [r s1]. simpl in *.
  destruct (IH e1 s1 Hi1 Hqs) as (e2 & Hrun2 & Hi2); [lia|]. rewrite Hrun2.
  destruct (spec_serve_all qs s1) as [rs s2]. simpl in *. eauto.
Qed.

(** ** Reachable engines *)
Inductive reach (base : Z) : KalshiEngine -> Prop :=
| reach_make e : make base = Some e -> reach base e
| reach_serve q e r e' :
    reach base e -> request_ok q -> next_order_id_ e < 2 ^ 64 - 1 ->
    serve q e = Some (r, e') -> reach base e'.

Lemma reach_inv base e : 0 < base -> reach base e -> exists s, implements e s /\ uncrossed (bk s).
Proof.
  intros Hb. induction 1 as [e He|q e r e' _ (s & Hi & Hun) Hq Hn Hs].
  - destruct (make_implements base Hb) as (e0 & He0 & Hi). rewrite He in He0. injection He0 as <-.
    exists empty_state. split; [done|]. intros p q Hp. by destruct Hp.
  - assert (next_order_id_ e = nid s) as Hnid by (by destruct Hi as (? & ? & _ & _ & _ & ?)).
    destruct (serve_simulates q e s Hi Hq) as (e1 & Hrun & Hi1); [by rewrite <- Hnid|].
    rewrite Hs in Hrun. injection Hrun as -> ->. exists (spec_serve q s).2. split; [done|].
    destruct q as [ts client sd pr qty|id client]; simpl in *.
    + pose proof (submit_uncrossed e s ts client sd pr qty Hi (proj1 Hq) Hun) as H.
      by destruct (submit ts client sd pr qty s).
    + pose proof (withdraw_uncrossed id client s Hun) as H. by destruct (withdraw id client s).
Qed.

(** ** What traders see *)
Section observers.
  Context {P I : Type} `{!PoolOps P Order} `{!IndexOps I Z} `{!PoolLaws P Order} `{!IndexLaws I Z}.
  Implicit Types (e : MatchingEngine P I).

Lemma depth_implements e s sd p :
  implements e s -> 1 <= p <= 99 -> depth_at e sd p = Some (sum_qty (bk s (sd, p))).
Proof.
  intros (Q & fl & R & Hb & _) Hp. unfold depth_at. rewrite !(proj2 (Z.ltb_ge _ _)) by lia. cbn [orb].
  rewrite (rep_wall _ _ _ _ R) by lia. simpl. by rewrite <- (Hb (sd, p)).
Qed.

(** Best prices are a function of the book. *)
Lemma best_exact_unique e e' b :
  best_exact e b -> best_exact e' b -> best_bid_ e = best_bid_ e' /\ best_ask_ e = best_ask_ e'.
Proof.
  intros ((Hb & Ha & H1 & H2) & H3 & H4) ((Hb' & Ha' & H1' & H2') & H3' & H4'). split.
  - destruct (Z.lt_trichotomy (best_bid_ e) (best_bid_ e')) as [?|[?|?]]; [|done|].
    + destruct H3' as [?|H3']; [lia|]. by destruct H3'; apply H1.
    + destruct H3 as [?|H3]; [lia|]. by destruct H3; apply H1'.
  - destruct (Z.lt_trichotomy (best_ask_ e) (best_ask_ e')) as [?|[?|?]]; [|done|].
    + destruct H4 as [?|H4]; [lia|]. by destruct H4; apply H2'.
    + destruct H4' as [?|H4']; [lia|]. by destruct H4'; apply H2.
Qed.

Lemma observers_agree e e' s s' :
  implements e s -> implements e' s' -> book_eq (bk s) (bk s') ->
  best_bid e = best_bid e' /\ best_ask e = best_ask e' /\ forall sd p, depth_at e sd p = depth_at e' sd p.
Proof.
  intros Hi Hi' Hb. assert (best_exact e (bk s')) as HE.
  { destruct Hi as (? & ? & _ & _ & HE & _). by eapply best_exact_proper. }
  destruct (best_exact_unique e e' (bk s') HE) as [? ?]; [by destruct Hi' as (? & ? & _ & _ & ? & _)|].
  split_and!; [done..|]. intros sd p. destruct (decide (1 <= p <= 99)).
  - rewrite (depth_implements e s), (depth_implements e' s') by done. by rewrite (Hb (sd, p)).
  - unfold depth_at. assert ((p <? 1) || (99 <? p) = true) as -> by lia. done.
Qed.
End observers.

Lemma sum_qty_pos q : (forall o, o ∈ q -> 0 < o_qty o) -> (q ≠ [] <-> 0 < sum_qty q).
Proof.
  intros Hq. destruct q as [|o q]; simpl; [split; [done|lia]|]. split; [|done]. intros _.
  assert (0 < o_qty o) by (apply Hq; left). pose proof (sum_qty_nonneg q) as Hs.
  assert (forall x, x ∈ q -> 1 <= o_qty x) as Hx by (intros x Hx; specialize (Hq x (list_elem_of_further _ _ _ Hx)); lia).
  specialize (Hs Hx). lia.
Qed.

Lemma reach_serve_all base : 0 < base -> forall qs e rs e',
  reach base e -> Forall request_ok qs -> next_order_id_ e + Z.of_nat (length qs) <= 2 ^ 64 - 1 ->
  serve_all qs e = Some (rs, e') -> reach base e'.
Proof.
  intros Hb. induction qs as [|q qs IH]; intros e rs e' Hr Hqs Hn; simpl; [by intros [= <- <-]|].
  apply Forall_cons in Hqs as [Hq Hqs]. simpl in Hn. intros H.
  destruct (serve q e) as [[r e1]|] eqn:E; simpl in H; [|done].
  destruct (serve_all qs e1) as [[rs1 e2]|] eqn:E1; simpl in H; [|done]. injection H as <- <-.
  assert (reach base e1) as Hr1 by (eapply reach_serve; [done..|lia|done]).
  eapply IH; [exact Hr1|done| |exact E1].
  destruct (reach_inv _ _ Hb Hr) as (s & Hi & _).
  assert (forall (x : KalshiEngine) y, implements x y -> next_order_id_ x = nid y) as Hnid by (by intros x y (? & ? & _ & _ & _ & ?)).
  destruct (serve_simulates q e s Hi Hq) as (e1' & Hrun & Hi1); [rewrite <- (Hnid _ _ Hi); lia|].
  rewrite E in Hrun. injection Hrun as -> ->. rewrite (Hnid _ _ Hi1). pose proof (spec_serve_nid q s).
  rewrite (Hnid _ _ Hi) in Hn. lia.
Qed.

(** A book in use: two bids at 60, one at 55, asks at 62 and 65. *)
Definition demo_requests : list request :=
  [Place 1 7 YES 60 10; Place 2 8 YES 60 5; Place 3 7 YES 55 20; Place 4 9 NO 62 8; Place 5 9 NO 65 4].
Definition blank : KalshiEngine := mkEngine ∅ (Pool.mkPool 0) [] [] idx_make 0 100 1.
Definition demo_start : KalshiEngine := default blank (make 65536).
Definition demo_engine : KalshiEngine := default blank (snd <$> serve_all demo_requests demo_start).
Definition demo_state : state := (spec_serve_all demo_requests empty_state).2.

Lemma demo_start_eq : make 65536 = Some demo_start.
Proof.
  destruct (make_implements 65536) as (e & He & _); [lia|]. unfold demo_start. rewrite He. exact eq_refl.
Qed.

Lemma demo_start_implements : implements demo_start empty_state.
Proof.
  destruct (make_implements 65536) as (e & He & Hi); [lia|]. unfold demo_start. rewrite He. exact Hi.
Qed.

Lemma demo_ok : Forall request_ok demo_requests.
Proof. repeat constructor; simpl; unfold QTY_BOUND; lia. Qed.

Lemma demo_run : exists rs, serve_all demo_requests demo_start = Some (rs, demo_engine) /\ implements demo_engine demo_state.
Proof.
  destruct (serve_all_simulates demo_requests _ _ demo_start_implements demo_ok) as (e & He & Hi); [simpl; lia|].
  exists (spec_serve_all demo_requests empty_state).1. unfold demo_engine. rewrite He. exact (conj eq_refl Hi).
Qed.

Lemma demo_reach : reach 65536 demo_engine.
Proof.
  destruct demo_run as (rs & Hrs & _).
  eapply (reach_serve_all 65536); [lia|apply reach_make, demo_start_eq|apply demo_ok| |exact Hrs].
  destruct demo_start_implements as (? & ? & _ & _ & _ & ->). simpl. lia.
Qed.

(** ** The properties *)

(** C1. The engine is a price-time-priority exchange for requests that satisfy [request_ok],
    that is, placements of a quantity up to 2,097,151 and cancellations of an id below
    [2 ^ 64 - 1]: from its constructor on, every sequence of fewer than [2 ^ 64 - 1] such
    [place_limit] and [cancel] requests is served without a null or unmapped access, an
    index out of range or a loop that does not end, every response is the one of the
    abstract exchange, and the final memory represents its book.  Outside of [request_ok]
    it does not hold: larger quantities can wrap a level total ([engine_total_overflow]),
    and cancelling [2 ^ 64 - 1] is undefined ([engine_cancel]). *)
Theorem engine_refines_exchange (base : Z) (qs : list request) :
  0 < base -> Forall request_ok qs -> Z.of_nat (length qs) <= 2 ^ 64 - 2 ->
  exists e e', make base = Some e /\
    serve_all qs e = Some ((spec_serve_all qs empty_state).1, e') /\
    implements e' (spec_serve_all qs empty_state).2.
Proof.
  intros Hb Hqs Hn. destruct (make_implements base Hb) as (e & He & Hi). exists e.
  destruct (serve_all_simulates qs e empty_state Hi Hqs) as (e' & Hrun & Hi'); [simpl; lia|]. eauto.
Qed.

Lemma engine_refines_exchange_witness :
  exists e e', make 65536 = Some e /\
    serve_all demo_requests e = Some ((spec_serve_all demo_requests empty_state).1, e') /\
    implements e' (spec_serve_all demo_requests empty_state).2.
Proof. apply (engine_refines_exchange 65536 demo_requests); [lia|apply demo_ok|simpl; lia]. Defined.

(** C2. In every state reachable by requests that satisfy [request_ok] (quantities up to
    2,097,151, cancelled ids below [2 ^ 64 - 1]; with larger quantities a level total can
    wrap and the book be crossed, [engine_total_overflow]) the book is not crossed and the
    cached best prices are exact: the best bid is below the best ask, nothing rests beyond either, and
    each is [0] (respectively [100]) or the price of a level with resting quantity. *)
Theorem engine_best_prices (base : Z) (e : KalshiEngine) :
  0 < base -> reach base e ->
  best_bid e < best_ask e /\
  (forall p, best_bid e < p <= 99 -> depth_at e YES p = Some 0) /\
  (forall p, 1 <= p < best_ask e -> depth_at e NO p = Some 0) /\
  (best_bid e = 0 \/ exists d, depth_at e YES (best_bid e) = Some d /\ 0 < d) /\
  (best_ask e = 100 \/ exists d, depth_at e NO (best_ask e) = Some d /\ 0 < d).
Proof.
  intros Hb Hr. destruct (reach_inv _ _ Hb Hr) as (s & Hi & Hun).
  destruct (implements_book e s Hi) as [Hpos Hrg].
  assert (best_exact e (bk s)) as ((H1 & H2 & H3 & H4) & H5 & H6) by (by destruct Hi as (? & ? & _ & _ & ? & _)).
  unfold best_bid, best_ask. split_and!.
  - destruct H5 as [->|H5], H6 as [->|H6]; try lia. by apply Hun.
  - intros p Hp. rewrite (depth_implements e s) by (done || lia). by rewrite H3 by lia.
  - intros p Hp. rewrite (depth_implements e s) by (done || lia). by rewrite H4 by lia.
  - destruct H5 as [|H5]; [by left|right]. rewrite (depth_implements e s) by (done || by apply Hrg in H5).
    eexists. split; [done|]. apply sum_qty_pos; [apply Hpos|done].
  - destruct H6 as [|H6]; [by left|right]. rewrite (depth_implements e s) by (done || by apply Hrg in H6).
    eexists. split; [done|]. apply sum_qty_pos; [apply Hpos|done].
Qed.

Lemma engine_best_prices_witness :
  best_bid demo_engine < best_ask demo_engine /\
  (forall p, best_bid demo_engine < p <= 99 -> depth_at demo_engine YES p = Some 0) /\
  (forall p, 1 <= p < best_ask demo_engine -> depth_at demo_engine NO p = Some 0) /\
  (best_bid demo_engine = 0 \/ exists d, depth_at demo_engine YES (best_bid demo_engine) = Some d /\ 0 < d) /\
  (best_ask demo_engine = 100 \/ exists d, depth_at demo_engine NO (best_ask demo_engine) = Some d /\ 0 < d).
Proof. apply (engine_best_prices 65536 demo_engine); [lia|apply demo_reach]. Defined.

(** C3. An accepted order of a quantity up to 2,097,151 trades as promised, in every state
    reachable by such requests: what it filled and what rests add up to
    its quantity, every fill is positive, names the order as taker, carries its
    timestamp and respects its limit price, and no fill is at a better price than an
    earlier one. *)
Theorem engine_fills (base : Z) (e : KalshiEngine) (ts client : Z) (sd : Side) (pr qty : Z) :
  0 < base -> reach base e -> 0 <= qty <= QTY_BOUND -> next_order_id_ e < 2 ^ 64 - 1 ->
  exists r e', Engine.place_limit ts client sd pr qty e = Some (r, e') /\ reach base e' /\
    (accepted r = true ->
       result_order_id r = next_order_id_ e /\ next_order_id_ e' = next_order_id_ e + 1 /\
       sum_fills (fills r) + qty_resting r = qty /\ 0 <= qty_resting r /\
       Forall (fun f => 0 < fill_qty f /\ taker_order_id f = result_order_id r /\ fill_ts f = ts /\
         match sd with YES => 1 <= fill_price f <= pr | NO => pr <= fill_price f <= 99 end) (fills r) /\
       StronglySorted (price_order sd) (fill_price <$> fills r)).
Proof.
  intros Hb Hr Hq Hn. destruct (reach_inv _ _ Hb Hr) as (s & Hi & _).
  assert (forall (x : KalshiEngine) y, implements x y -> next_order_id_ x = nid y) as Hnid by (by intros x y (? & ? & _ & _ & _ & ?)).
  rewrite (Hnid _ _ Hi) in *.
  destruct (place_simulates e s ts client sd pr qty Hi Hq Hn) as (e' & Hrun & Hi').
  exists (submit ts client sd pr qty s).1, e'. split_and!; [done| |].
  { eapply (reach_serve base (Place ts client sd pr qty)); [exact Hr|done|by rewrite (Hnid _ _ Hi)|].
    simpl. rewrite Hrun. done. }
  rewrite (Hnid _ _ Hi'). destruct (implements_book e s Hi) as [Hpos _].
  unfold submit. case_decide; [|done]. destruct (place _ _ _ _ _ _ _) as [[fs rem] b'] eqn:E. simpl. intros _.
  by apply place_fills in E as (? & ? & ? & ?); [|lia|done].
Qed.

Lemma engine_fills_witness :
  exists r e', Engine.place_limit 6 5 NO 55 30 demo_engine = Some (r, e') /\ reach 65536 e' /\
    (accepted r = true ->
       result_order_id r = next_order_id_ demo_engine /\ next_order_id_ e' = next_order_id_ demo_engine + 1 /\
       sum_fills (fills r) + qty_resting r = 30 /\ 0 <= qty_resting r /\
       Forall (fun f => 0 < fill_qty f /\ taker_order_id f = result_order_id r /\ fill_ts f = 6 /\
         55 <= fill_price f <= 99) (fills r) /\
       StronglySorted (price_order NO) (fill_price <$> fills r)).
Proof.
  apply (engine_fills 65536 demo_engine 6 5 NO 55 30); [lia|apply demo_reach|unfold QTY_BOUND; lia|].
  destruct demo_run as (rs & _ & (? & ? & _ & _ & _ & ->)). vm_compute. reflexivity.
Defined.

(** C4. Time priority: at every price, the makers an incoming order trades with are
    the oldest orders resting there, in the order they arrived. *)
Theorem engine_time_priority (e : KalshiEngine) (s : state) (ts client : Z) (sd : Side) (pr qty : Z) :
  implements e s -> 0 <= qty <= QTY_BOUND -> next_order_id_ e < 2 ^ 64 - 1 ->
  exists r e', Engine.place_limit ts client sd pr qty e = Some (r, e') /\
    forall p, exists n,
      maker_order_id <$> filter (fun f => fill_price f = p) (fills r) =
      take n (o_id <$> bk s (opposite sd, p)).
Proof.
  intros Hi Hq Hn. assert (next_order_id_ e = nid s) as Hnid by (by destruct Hi as (? & ? & _ & _ & _ & ?)).
  rewrite Hnid in Hn. destruct (place_simulates e s ts client sd pr qty Hi Hq Hn) as (e' & Hrun & _).
  do 2 eexists. split; [exact Hrun|]. intros p. destruct (implements_book e s Hi) as [Hpos _].
  unfold submit. case_decide; [|by exists 0%nat].
  destruct (place _ _ _ _ _ _ _) as [[fs rem] b'] eqn:E. simpl. eapply place_fifo; [|exact Hpos|exact E]. lia.
Qed.

Lemma engine_time_priority_witness :
  exists r e', Engine.place_limit 6 5 NO 60 12 demo_engine = Some (r, e') /\
    forall p, exists n,
      maker_order_id <$> filter (fun f => fill_price f = p) (fills r) =
      take n (o_id <$> bk demo_state (YES, p)).
Proof.
  apply (engine_time_priority demo_engine demo_state 6 5 NO 60 12); [|unfold QTY_BOUND; lia|];
    destruct demo_run as (rs & _ & Hi); [exact Hi|].
  destruct Hi as (? & ? & _ & _ & _ & ->). vm_compute. reflexivity.
Defined.

(** C18. A request for a quantity up to 2,097,151 is refused exactly when its price is outside 1..99, its quantity is
    zero or 2048 orders rest already (also when it would trade at once), and a refused
    request changes nothing. *)
Theorem engine_rejects (e : KalshiEngine) (s : state) (ts client : Z) (sd : Side) (pr qty : Z) :
  implements e s -> 0 <= qty <= QTY_BOUND -> next_order_id_ e < 2 ^ 64 - 1 ->
  exists r e', Engine.place_limit ts client sd pr qty e = Some (r, e') /\
    (accepted r = false <-> pr < 1 \/ 99 < pr \/ qty = 0 \/ resting (bk s) = POOL_CAPACITY) /\
    (accepted r = false -> r = rejected /\ e' = e).
Proof.
  intros Hi Hq Hn. assert (next_order_id_ e = nid s) as Hnid by (by destruct Hi as (? & ? & _ & _ & _ & ?)).
  rewrite Hnid in Hn. destruct (place_simulates e s ts client sd pr qty Hi Hq Hn) as (e' & Hrun & _).
  destruct Hi as (Q & fl & R & Hb & _). pose proof (resting_rep _ _ _ _ R) as Hr.
  unfold resting in Hr. rewrite (entries_proper _ _ Hb) in Hr. fold (resting (bk s)) in Hr.
  pose proof (rep_count _ _ _ _ R) as Hc. do 2 eexists. split; [exact Hrun|].
  unfold submit in *. case_decide as Hd.
  - destruct (place _ _ _ _ _ _ _) as [[fs rem] b']. simpl. split; [split; [done|lia]|done].
  - cbn [fst accepted rejected] in *. split; [split; [intros _|done]|].
    + destruct (decide (1 <= pr <= 99)); [|lia]. destruct (decide (qty = 0)); [lia|].
      do 3 right. destruct (decide (resting (bk s) < POOL_CAPACITY)%nat); [by destruct Hd|lia].
    + intros _. split; [done|].
      assert (Engine.place_limit ts client sd pr qty e = Some (rejected, e)) as Hrun'; [|congruence].
      destruct (decide (1 <= pr <= 99)); [|apply rejected_run; lia].
      destruct (decide (qty = 0)); [apply rejected_run; lia|].
      destruct fl; [by eapply full_run|]. exfalso. apply Hd. cbn [length] in Hc. split_and!; lia.
Qed.

Lemma engine_rejects_witness :
  exists r e', Engine.place_limit 6 5 NO 100 12 demo_engine = Some (r, e') /\
    (accepted r = false <-> 100 < 1 \/ 99 < 100 \/ 12 = 0 \/ resting (bk demo_state) = POOL_CAPACITY) /\
    (accepted r = false -> r = rejected /\ e' = demo_engine).
Proof.
  apply (engine_rejects demo_engine demo_state 6 5 NO 100 12); [|unfold QTY_BOUND; lia|];
    destruct demo_run as (rs & _ & Hi); [exact Hi|].
  destruct Hi as (? & ? & _ & _ & _ & ->). vm_compute. reflexivity.
Defined.

Lemma sum_qty_remove id q o l1 l2 :
  q = l1 ++ o :: l2 -> remove_order id q = l1 ++ l2 -> sum_qty (remove_order id q) = sum_qty q - o_qty o.
Proof. intros -> ->. rewrite !sum_qty_app. simpl. lia. Qed.

Lemma cancel_effect (e : KalshiEngine) (s : state) (id client : Z) :
  implements e s -> 0 <= id < 2 ^ 64 - 1 ->
  match find_order id (bk s) with
  | None => Engine.cancel id client e = Some (false, e)
  | Some ((sd, p), o) =>
      if decide (o_client o = client) then
        exists e', Engine.cancel id client e = Some (true, e') /\
          depth_at e' sd p = Some (sum_qty (bk s (sd, p)) - o_qty o) /\
          (forall sd' p', (sd', p') ≠ (sd, p) -> depth_at e' sd' p' = depth_at e sd' p') /\
          forall client', Engine.cancel id client' e' = Some (false, e')
      else Engine.cancel id client e = Some (false, e)
  end.
Proof.
  intros Hi Hid. pose proof (cancel_simulates e s id client Hi Hid) as (e' & Hrun & Hi').
  destruct Hi as (Q & fl & R & Hb & HE & Hn). unfold withdraw in *.
  assert (find_order id (bk s) = find_order id (book_of Q)) as Hfind.
  { unfold find_order. by rewrite (entries_proper _ _ Hb). }
  pose proof (find_order_rep _ _ _ _ id R) as HF. rewrite <- Hfind in HF.
  destruct (find_order id (bk s)) as [[[sd p] o]|] eqn:Ef; cycle 1.
  { by eapply cancel_unknown. }
  destruct HF as [Hoid [a Ha]]. subst id. case_decide as Hc; [|by eapply cancel_foreign].
  simpl in *. exists e'. pose proof Ha as (l1 & l2 & HQ)%list_elem_of_split.
  assert (1 <= p <= 99) as Hp by (apply (rep_range _ _ _ _ R sd p); rewrite HQ; by destruct l1).
  assert (Him : implements e s) by (by exists Q, fl).
  pose proof (remove_order_rep _ _ _ _ _ _ _ _ _ R HQ) as Hrm. rewrite (Hb (sd, p)) in Hrm.
  assert (Hbq : bk s (sd, p) = l1.*2 ++ o :: l2.*2) by (rewrite <- (Hb (sd, p)); unfold book_of; by rewrite HQ, fmap_app).
  split_and!; [done|..].
  - rewrite (depth_implements _ _ _ _ Hi') by done. simpl. rewrite upd_eq. f_equal.
    eapply sum_qty_remove; [exact Hbq|]. by rewrite Hrm, fmap_app.
  - intros sd' p' Hne. destruct (decide (1 <= p' <= 99)).
    + rewrite (depth_implements _ _ _ _ Hi'), (depth_implements _ _ _ _ Him) by done. simpl. by rewrite upd_ne.
    + unfold depth_at. assert ((p' <? 1) || (99 <? p') = true) as -> by lia. done.
  - intros client'. destruct Hi' as (Q' & fl' & R' & Hb' & _). eapply cancel_unknown; [exact R'|done|].
    intros k b x Hx Hid'. assert (x ∈ book_of Q' k) as Hx' by (by apply (list_elem_of_fmap_2 snd) in Hx).
    rewrite (Hb' k) in Hx'. simpl in Hx'. unfold upd in Hx'. case_decide as Hk.
    + apply list_elem_of_filter in Hx' as [? _]. done.
    + rewrite <- (Hb k) in Hx'. apply list_elem_of_fmap in Hx' as ([b' x'] & -> & Hx').
      by destruct (rep_inj_id _ _ _ _ _ _ _ _ _ _ R Hx' Ha Hid') as (_ & ? & _).
Qed.

(** Nothing is mapped at the null pointer. *)
Lemma make_null base e : 0 < base -> make base = Some e -> load 0 e = None.
Proof.
  intros Hb He. unfold make in He. destruct (Pool.make _ _ _ _) as [[m p]|] eqn:E; [|done]. cbn [mbind option_bind] in He. injection He as <-.
  unfold load. cbn [mem]. rewrite (Pool.make_outside _ _ _ _ _ _ 0 E); [done|]. unfold zeroed. apply not_elem_of_list_to_map_1.
  intros (a & E0 & (x & -> & (i & -> & _)%list_elem_of_fmap)%list_elem_of_fmap)%list_elem_of_fmap. cbn [fst] in E0. unfold Pool.block, ORDER_SIZE in E0. lia.
Qed.

(** The index reports its empty-slot marker as a key, with the null pointer stored in an
    empty slot. *)
Lemma cancel_sentinel base e client : 0 < base -> make base = Some e -> Engine.cancel (2 ^ 64 - 1) client e = None.
Proof.
  intros Hb He. pose proof (make_null base e Hb He) as Hl. assert (orders_ e = idx_make) as Ho.
  { unfold make in He. destruct (Pool.make _ _ _ _) as [[m p]|]; [|done]. cbn [mbind option_bind] in He. by injection He as <-. }
  assert (orders_find (2 ^ 64 - 1) e = Some (Some 0, e)) as Hf.
  { unfold orders_find. rewrite Ho. assert (idx_find (idx_make (T := Fhm.FlatHashMap Z) (V := Z)) (2 ^ 64 - 1) = Some (Some 0)) as -> by (vm_compute; reflexivity). exact eq_refl. }
  unfold Engine.cancel. rewrite (bind_run _ _ _ _ _ Hf). exact (bind_stuck _ _ _ Hl).
Qed.

(** C5. Cancellation, for every id.  Below [2 ^ 64 - 1]: an id that is not resting and a client
    that does not own the order get [false] and change nothing; the owner gets [true], the
    order's level loses exactly its remaining quantity, every other level keeps its own, and
    the id is then unknown to everyone.  The id [2 ^ 64 - 1], which no engine issues, is not
    refused: on a new engine cancelling it is undefined, because the index finds its own
    empty-slot marker and the null pointer stored there is followed
    (matching_engine.cpp:131). *)
Theorem engine_cancel :
  (forall e s id client, implements e s -> 0 <= id < 2 ^ 64 - 1 ->
    match find_order id (bk s) with
    | None => Engine.cancel id client e = Some (false, e)
    | Some ((sd, p), o) =>
        if decide (o_client o = client) then
          exists e', Engine.cancel id client e = Some (true, e') /\
            depth_at e' sd p = Some (sum_qty (bk s (sd, p)) - o_qty o) /\
            (forall sd' p', (sd', p') ≠ (sd, p) -> depth_at e' sd' p' = depth_at e sd' p') /\
            forall client', Engine.cancel id client' e' = Some (false, e')
        else Engine.cancel id client e = Some (false, e)
    end) /\
  forall base e client, 0 < base -> make base = Some e -> Engine.cancel (2 ^ 64 - 1) client e = None.
Proof. split; [exact cancel_effect|exact cancel_sentinel]. Qed.

Lemma engine_cancel_witness :
  (exists e', Engine.cancel 2 8 demo_engine = Some (true, e') /\
    depth_at e' YES 60 = Some 10 /\
    (forall sd' p', (sd', p') ≠ (YES, 60) -> depth_at e' sd' p' = depth_at demo_engine sd' p') /\
    forall client', Engine.cancel 2 client' e' = Some (false, e')) /\
  Engine.cancel (2 ^ 64 - 1) 8 demo_start = None.
Proof.
  assert (find_order 2 (bk demo_state) = Some ((YES, 60), mkO 2 8 5 2)) as Hf by (vm_compute; reflexivity).
  assert (sum_qty (bk demo_state (YES, 60)) = 15) as Hs by (vm_compute; reflexivity).
  destruct demo_run as (rs & _ & Hi). split.
  - pose proof (proj1 engine_cancel demo_engine demo_state 2 8 Hi) as H. rewrite Hf, Hs in H. apply H. lia.
  - apply (proj2 engine_cancel 65536); [lia|exact demo_start_eq].
Defined.

(** Placing without trading appends the order to its level. *)
Lemma place_no_fills id ts client sd pr qty b rem b' :
  0 < qty -> place id ts client sd pr qty b = ([], rem, b') ->
  rem = qty /\ book_eq b' (upd b (sd, pr) (b (sd, pr) ++ [mkO id client qty ts])).
Proof.
  intros Hq. unfold place. destruct (sweep _ _ _ _ _ _) as [[fs1 b1] r1] eqn:E. intros [= -> -> <-].
  apply sweep_no_fills in E as [Hb ->]; [|done]. split; [done|].
  rewrite (proj2 (Z.ltb_lt _ _)) by done. by rewrite Hb.
Qed.

(** Placing and cancelling are inverse: when an accepted order met nobody, its
    owner can cancel it under the id the response carries, and then best prices and
    depths are what they were before it was placed. *)
Theorem engine_place_cancel (e : KalshiEngine) (s : state) (ts client : Z) (sd : Side) (pr qty : Z)
    (r : PlaceResult) (e1 : KalshiEngine) :
  implements e s -> 0 <= qty <= QTY_BOUND -> next_order_id_ e < 2 ^ 64 - 1 ->
  Engine.place_limit ts client sd pr qty e = Some (r, e1) -> accepted r = true -> fills r = [] ->
  exists e2, Engine.cancel (result_order_id r) client e1 = Some (true, e2) /\
    best_bid e2 = best_bid e /\ best_ask e2 = best_ask e /\
    forall sd p, depth_at e2 sd p = depth_at e sd p.
Proof.
  intros Hi Hq Hn Hrun Hacc Hfs. assert (next_order_id_ e = nid s) as Hnid by (by destruct Hi as (? & ? & _ & _ & _ & ?)).
  rewrite Hnid in Hn. destruct (place_simulates e s ts client sd pr qty Hi Hq Hn) as (e1' & Hrun' & Hi1).
  rewrite Hrun in Hrun'. injection Hrun' as -> <-. unfold submit in *. case_decide as Hd; [|done].
  destruct (place (nid s) ts client sd pr qty (bk s)) as [[fs rem] b'] eqn:E. simpl in *. subst fs.
  apply place_no_fills in E as [-> Hb']; [|lia].
  assert (Hold : forall k o, o ∈ bk s k -> o_id o ≠ nid s).
  { intros k o Ho. destruct Hi as (Q & fl & R & Hb & _). rewrite <- (Hb k) in Ho.
    apply list_elem_of_fmap in Ho as ([a x] & -> & Hx). destruct (rep_ord _ _ _ _ R _ _ _ Hx). simpl. lia. }
  pose proof Hi1 as (Q & fl & R & Hb & _). simpl in Hb. pose proof (find_order_rep _ _ _ _ (nid s) R) as HF.
  destruct (cancel_simulates e1 _ (nid s) client Hi1) as (e2 & Hc & Hi2).
  { pose proof (rep_next _ _ _ _ R) as H. destruct Hi1 as (? & ? & _ & _ & _ & Hn1). simpl in Hn1.
    destruct Hi as (? & ? & R0 & _ & _ & Hn0). pose proof (rep_next _ _ _ _ R0). lia. }
  unfold withdraw in *. simpl in Hc, Hi2.
  assert (find_order (nid s) b' = find_order (nid s) (book_of Q)) as Hfind.
  { unfold find_order. by rewrite (entries_proper _ _ Hb). }
  assert (book_of Q (sd, pr) = bk s (sd, pr) ++ [mkO (nid s) client qty ts]) as Hnew by (by rewrite Hb, Hb', upd_eq).
  assert (exists a, (a, mkO (nid s) client qty ts) ∈ Q (sd, pr)) as [a Ha].
  { assert (mkO (nid s) client qty ts ∈ book_of Q (sd, pr)) as ([a x] & -> & Hx)%list_elem_of_fmap
      by (rewrite Hnew; set_solver). eauto. }
  rewrite Hfind in Hc, Hi2. destruct (find_order (nid s) (book_of Q)) as [[k o]|]; cycle 1.
  { by destruct (HF _ _ _ Ha). }
  destruct HF as [Hoid [a' Ha']]. destruct (rep_inj_id _ _ _ _ _ _ _ _ _ _ R Ha' Ha Hoid) as (_ & -> & ->).
  rewrite decide_True in Hc, Hi2 by done. exists e2. split; [done|].
  apply (observers_agree e2 e _ _ Hi2 Hi). simpl. rewrite <- (Hb (sd, pr)), Hnew, Hb'.
  intros k. unfold upd. case_decide; [subst|done]. unfold remove_order. rewrite filter_app, filter_cons_False by naive_solver.
  rewrite filter_nil, app_nil_r. apply filter_Forall_id, Forall_forall. apply Hold.
Qed.

Lemma engine_place_cancel_witness :
  exists e2, Engine.cancel 1 5 (default blank (snd <$> Engine.place_limit 6 5 YES 40 12 demo_start)) = Some (true, e2) /\
    best_bid e2 = best_bid demo_start /\ best_ask e2 = best_ask demo_start /\
    forall sd p, depth_at e2 sd p = depth_at demo_start sd p.
Proof.
  pose (x := Engine.place_limit 6 5 YES 40 12 demo_start).
  assert (fst <$> x = Some (mkResult 1 [] 12 true)) as Hx by (vm_compute; reflexivity).
  destruct x as [[r e1]|] eqn:E; [|discriminate]. injection Hx as Hr.
  change (Engine.place_limit 6 5 YES 40 12 demo_start = Some (r, e1)) in E. rewrite E.
  pose proof (engine_place_cancel demo_start empty_state 6 5 YES 40 12 r e1 demo_start_implements) as H.
  rewrite Hr in H. apply H; [unfold QTY_BOUND; lia|vm_compute; reflexivity|rewrite <- Hr; exact E|exact eq_refl..].
Defined.

(** The level total is a 32-bit word: two bids of [2^31] at one price, which
    [place_limit] accepts, make it zero; the engine then reports no bid and lets an ask
    at that price rest against them, a crossed book.  [QTY_BOUND] in the other theorems
    excludes this, and so does the bound of the HTTP handler. *)
Theorem engine_total_overflow :
  exists rs e, serve_all [Place 1 7 YES 60 (2 ^ 31); Place 2 8 YES 60 (2 ^ 31); Place 3 9 NO 60 5] demo_start = Some (rs, e) /\
    rs = [Placed (mkResult 1 [] (2 ^ 31) true); Placed (mkResult 2 [] (2 ^ 31) true); Placed (mkResult 3 [] 5 true)] /\
    depth_at e YES 60 = Some 0 /\ best_bid e = 0 /\ best_ask e = 60.
Proof.
  set (x := serve_all _ _).
  assert ((fun y => (y.1, depth_at y.2 YES 60, best_bid y.2, best_ask y.2)) <$> x =
    Some ([Placed (mkResult 1 [] (2 ^ 31) true); Placed (mkResult 2 [] (2 ^ 31) true); Placed (mkResult 3 [] 5 true)],
          Some 0, 0, 60)) as H by (vm_compute; reflexivity).
  destruct x as [[rs e]|]; [|discriminate]. injection H as H1 H2 H3 H4. exists rs, e. auto.
Qed.

End Exchange.
