(* ===== verification/Feed.v ===== *)
(** * [src/feed/parser.h], [src/feed/book.{h,cpp}]: deltas and the local order book

    [Book] keeps two arrays of 100 signed 32-bit quantities, one per contract
    side, and caches the best bid of each.  [apply] returns [None] where the C++
    program is undefined: a price outside the arrays, or a signed overflow. *)
From stdpp Require Import gmap list numbers.
From S2P Require Import Prelude.
Open Scope Z_scope.
Open Scope cpp_scope.

Module Feed.

(** ** The data of [parser.h] *)
Inductive Side := YES | NO.

Global Instance Side_eq_dec : EqDecision Side.
Proof. solve_decision. Defined.

Record OrderbookDelta := mkDelta {
  ticker : list Z;
  ts : Z;
  sid : Z;
  seq : Z;
  delta : Z;
  price : Z;
  side : Side;
}.

(** ** The book *)
Record Book := mkBook {
  yes_levels_ : list Z;
  no_levels_ : list Z;
  best_yes_bid_ : Z;
  best_no_bid_ : Z;
}.

Definition empty_book : Book := mkBook (replicate 100 0) (replicate 100 0) 0 0.

Definition levels (s : Side) (b : Book) : list Z :=
  match s with YES => yes_levels_ b | NO => no_levels_ b end.
Definition best (s : Side) (b : Book) : Z :=
  match s with YES => best_yes_bid_ b | NO => best_no_bid_ b end.
Definition set_side (s : Side) (l : list Z) (p : Z) (b : Book) : Book :=
  match s with
  | YES => mkBook l (no_levels_ b) p (best_no_bid_ b)
  | NO => mkBook (yes_levels_ b) l (best_yes_bid_ b) p
  end.

(** [while (best != 0 && levels[best] == 0) best--;] *)
Fixpoint rescan (l : list Z) (best : nat) : option Z :=
  match best with
  | O => Some 0
  | S n => q ← l !! S n; if q =? 0 then rescan l n else Some (Z.of_nat (S n))
  end.

Definition apply (d : OrderbookDelta) (b : Book) : option Book :=
  let l := levels (side d) b in
  let bst := best (side d) b in
  q ← l !! Z.to_nat (price d);
  let q' := q + delta d in
  if decide (fits_i 32 q') then
    let l' := <[Z.to_nat (price d) := q']> l in
    if (0 <? q') && (bst <? price d) then Some (set_side (side d) l' (price d) b)
    else if (price d =? bst) && (q' =? 0) then
      p ← rescan l' (Z.to_nat bst); Some (set_side (side d) l' p b)
    else Some (set_side (side d) l' bst b)
  else None.

Definition best_yes_bid (b : Book) : Z := best_yes_bid_ b.
Definition best_no_bid (b : Book) : Z := best_no_bid_ b.
Definition qty_at (b : Book) (s : Side) (p : Z) : option Z := levels s b !! Z.to_nat p.

Fixpoint apply_all (ds : list OrderbookDelta) (b : Book) : option Book :=
  match ds with
  | [] => Some b
  | d :: ds => b ← apply d b; apply_all ds b
  end.

(** ** The abstract book: a quantity per side and price *)
Definition ladder : Type := Side -> Z -> Z.

(** [is_best f p]: [p] is the highest price with a positive quantity, [0] if none. *)
Definition is_best (f : Z -> Z) (p : Z) : Prop :=
  0 <= p <= 99 /\ (forall q, p < q <= 99 -> f q = 0) /\ (p = 0 \/ 0 < f p).

Definition implements (b : Book) (f : ladder) : Prop :=
  forall s, length (levels s b) = 100%nat /\
    (forall p, 0 <= p <= 99 -> levels s b !! Z.to_nat p = Some (f s p) /\ 0 <= f s p < 2 ^ 31) /\
    is_best (f s) (best s b).

Definition bump (d : OrderbookDelta) (f : ladder) : ladder :=
  fun s p => if decide (s = side d /\ p = price d) then f s p + delta d else f s p.

Lemma levels_set_side s s' l p b : levels s' (set_side s l p b) = if decide (s' = s) then l else levels s' b.
Proof. by destruct s, s'. Qed.
Lemma best_set_side s s' l p b : best s' (set_side s l p b) = if decide (s' = s) then p else best s' b.
Proof. by destruct s, s'. Qed.

Lemma is_best_unique f p q : is_best f p -> is_best f q -> p = q.
Proof.
  intros (Hp & Hp1 & Hp2) (Hq & Hq1 & Hq2). destruct (Z.lt_trichotomy p q) as [H|[H|H]]; [|done|].
  - specialize (Hp1 q). lia.
  - specialize (Hq1 p). lia.
Qed.

Lemma rescan_ok l (f : Z -> Z) n :
  (n <= 99)%nat -> (forall p, 0 <= p <= 99 -> l !! Z.to_nat p = Some (f p) /\ 0 <= f p) ->
  (forall q, Z.of_nat n < q <= 99 -> f q = 0) ->
  exists p, rescan l n = Some p /\ is_best f p.
Proof.
  intros Hn Hl. induction n as [|n IH]; intros Hz; simpl.
  { exists 0. split; [done|]. split_and!; [lia|lia| |by left]. intros; apply Hz; lia. }
  destruct (Hl (Z.of_nat (S n))) as [Hq Hpos]; [lia|]. rewrite Nat2Z.id in Hq. rewrite Hq. simpl.
  destruct (Z.eqb_spec (f (Z.of_nat (S n))) 0) as [E|E].
  - apply IH; [lia|]. intros q Hq'. destruct (decide (q = Z.of_nat (S n))) as [->|]; [done|]. apply Hz. lia.
  - eexists. split; [done|]. split_and!; [lia|lia| |right; lia]. done.
Qed.

Lemma is_best_ext f g p : (forall q, g q = f q) -> is_best f p -> is_best g p.
Proof. intros E (H1 & H2 & H3). unfold is_best. rewrite E. split_and!; [lia|lia| |done]. intros. rewrite E. auto. Qed.

Lemma bump_other d f s p : s ≠ side d -> bump d f s p = f s p.
Proof. intros H. unfold bump. by rewrite decide_False by naive_solver. Qed.
Lemma bump_at d f : bump d f (side d) (price d) = f (side d) (price d) + delta d.
Proof. unfold bump. by rewrite decide_True. Qed.
Lemma bump_ne d f s p : p ≠ price d -> bump d f s p = f s p.
Proof. intros H. unfold bump. by rewrite decide_False by naive_solver. Qed.

(** The array after the addition, read at any price. *)
Lemma bump_levels d b f :
  implements b f -> 0 <= price d <= 99 -> 0 <= f (side d) (price d) + delta d < 2 ^ 31 ->
  forall p, 0 <= p <= 99 ->
    <[Z.to_nat (price d) := f (side d) (price d) + delta d]> (levels (side d) b) !! Z.to_nat p =
      Some (bump d f (side d) p) /\ 0 <= bump d f (side d) p < 2 ^ 31.
Proof.
  intros Hi Hp Hq p Hp'. destruct (Hi (side d)) as (Hlen & Hl & _). destruct (Hl p Hp') as [Hlp Hfp].
  destruct (decide (p = price d)) as [->|Hne].
  - rewrite bump_at. split; [|done]. apply list_lookup_insert_eq. rewrite Hlen. lia.
  - rewrite bump_ne by done. split; [|done]. rewrite list_lookup_insert_ne; [done|]. lia.
Qed.

Lemma set_side_implements d b f p :
  implements b f -> 0 <= price d <= 99 -> 0 <= f (side d) (price d) + delta d < 2 ^ 31 ->
  is_best (bump d f (side d)) p ->
  implements (set_side (side d) (<[Z.to_nat (price d) := f (side d) (price d) + delta d]> (levels (side d) b)) p b) (bump d f).
Proof.
  intros Hi Hp Hq Hbst s. rewrite levels_set_side, best_set_side. destruct (decide (s = side d)) as [->|Hs].
  - split_and!; [|by apply bump_levels|done]. rewrite length_insert. apply Hi.
  - destruct (Hi s) as (? & Hls & Hbs). split_and!; [done| |].
    + intros p' Hp'. rewrite bump_other by done. by apply Hls.
    + eapply is_best_ext; [|exact Hbs]. intros. by apply bump_other.
Qed.

(** [apply] implements the update of the ladder whenever the new quantity is a
    quantity. *)
Lemma apply_implements d b f :
  implements b f -> 0 <= price d <= 99 -> 0 <= f (side d) (price d) + delta d < 2 ^ 31 ->
  exists b', apply d b = Some b' /\ implements b' (bump d f).
Proof.
  intros Hi Hp Hq. pose proof (bump_levels d b f Hi Hp Hq) as Hl'.
  destruct (Hi (side d)) as (Hlen & Hl & Hb & Hz & Hx). unfold apply.
  destruct (Hl (price d) Hp) as [-> _]. simpl. rewrite decide_True by (unfold fits_i; simpl; lia).
  pose proof (bump_at d f) as Hat. pose proof (fun p => bump_ne d f (side d) p) as Hne.
  destruct (Z.ltb_spec 0 (f (side d) (price d) + delta d)), (Z.ltb_spec (best (side d) b) (price d)),
    (Z.eqb_spec (price d) (best (side d) b)), (Z.eqb_spec (f (side d) (price d) + delta d) 0);
    try lia; simpl;
    try (eexists; split; [done|]; apply set_side_implements; [done..|];
         split_and!; [lia|lia| |];
         [intros q Hqq; destruct (decide (q = price d)) as [->|]; [lia|]; rewrite Hne by done; apply Hz; lia
         |destruct (decide (best (side d) b = price d)) as [Eb|]; [rewrite ?Eb; lia|rewrite ?Hne by done; lia]]).
  edestruct (rescan_ok (<[Z.to_nat (price d):=f (side d) (price d) + delta d]> (levels (side d) b))
    (bump d f (side d)) (Z.to_nat (best (side d) b))) as (p & -> & Hbst); [lia| | |].
  - intros p Hpp. destruct (Hl' p Hpp). split; [done|lia].
  - intros q Hqq. rewrite Hne by lia. apply Hz. lia.
  - eexists. split; [done|]. by apply set_side_implements.
Qed.

(** ** Any stream of bounded deltas *)
(** Levels may go below zero; what keeps [apply] defined is a bound on their size. *)
Definition bounded (K : Z) (b : Book) : Prop :=
  forall s, length (levels s b) = 100%nat /\ Forall (fun q => Z.abs q <= K) (levels s b) /\ 0 <= best s b <= 99.

Lemma rescan_defined l n : (n < length l)%nat -> exists p, rescan l n = Some p /\ 0 <= p <= Z.of_nat n.
Proof.
  induction n as [|n IH]; intros Hn; cbn [rescan]; [exists 0; split; [done|lia]|].
  destruct (lookup_lt_is_Some_2 l (S n) Hn) as [q ->]. cbn [mbind option_bind]. destruct (q =? 0).
  - destruct IH as (p & -> & ?); [lia|]. exists p. split; [done|lia].
  - eexists. split; [done|lia].
Qed.

Lemma set_side_bounded K D s l p b :
  0 <= D -> bounded K b -> length l = 100%nat -> Forall (fun q => Z.abs q <= K + D) l -> 0 <= p <= 99 -> bounded (K + D) (set_side s l p b).
Proof.
  intros HD Hb Hl HF Hp s'. rewrite levels_set_side, best_set_side. destruct (decide (s' = s)); [done|].
  destruct (Hb s') as (? & HF' & ?). split_and!; [done| |lia..]. eapply Forall_impl; [|exact HF']. simpl. lia.
Qed.

Lemma apply_bounded K D d b :
  bounded K b -> 0 <= D -> 0 <= price d <= 99 -> Z.abs (delta d) <= D -> K + D < 2 ^ 31 ->
  exists b', apply d b = Some b' /\ bounded (K + D) b'.
Proof.
  intros Hb HD Hp Hd HK. destruct (Hb (side d)) as (Hl & HF & Hbst). unfold apply.
  destruct (lookup_lt_is_Some_2 (levels (side d) b) (Z.to_nat (price d))) as [q Hq]; [lia|]. rewrite Hq. cbn [mbind option_bind].
  pose proof (proj1 (Forall_lookup _ _) HF _ _ Hq) as Hqb. simpl in Hqb.
  rewrite decide_True by (unfold fits_i; simpl; lia).
  assert (Forall (fun q => Z.abs q <= K + D) (<[Z.to_nat (price d) := q + delta d]> (levels (side d) b))) as HF'.
  { apply Forall_insert; [|lia]. eapply Forall_impl; [|exact HF]. simpl. lia. }
  assert (length (<[Z.to_nat (price d) := q + delta d]> (levels (side d) b)) = 100%nat) as Hl' by (by rewrite length_insert).
  destruct (_ && _); [|destruct (_ && _)]; [eexists; split; [done|by apply set_side_bounded]| |eexists; split; [done|by apply set_side_bounded]].
  destruct (rescan_defined (<[Z.to_nat (price d) := q + delta d]> (levels (side d) b)) (Z.to_nat (best (side d) b))) as (p & -> & ?); [lia|].
  eexists. split; [done|]. apply set_side_bounded; (done || lia).
Qed.

(** ** Streams of deltas *)
Definition sum_deltas (ds : list OrderbookDelta) (s : Side) (p : Z) : Z :=
  foldr (fun d acc => (if decide (s = side d /\ p = price d) then delta d else 0) + acc) 0 ds.

(** Every delta names a price of the ladder and leaves a 32-bit quantity. *)
Fixpoint sane (ds : list OrderbookDelta) (f : ladder) : Prop :=
  match ds with
  | [] => True
  | d :: ds =>
      0 <= price d <= 99 /\ 0 <= f (side d) (price d) + delta d < 2 ^ 31 /\ sane ds (bump d f)
  end.

Definition empty_ladder : ladder := fun _ _ => 0.

Lemma empty_implements : implements empty_book empty_ladder.
Proof.
  intros s. assert (levels s empty_book = replicate 100 0) as -> by (by destruct s).
  assert (best s empty_book = 0) as -> by (by destruct s). split_and!.
  - by rewrite length_replicate.
  - intros p Hp. split; [apply lookup_replicate_2; lia|unfold empty_ladder; lia].
  - split_and!; [lia|lia|done|by left].
Qed.

Lemma apply_all_implements ds : forall b f,
  implements b f -> sane ds f ->
  exists b', apply_all ds b = Some b' /\ implements b' (fun s p => f s p + sum_deltas ds s p).
Proof.
  induction ds as [|d ds IH]; intros b f Hi; simpl.
  - intros _. exists b. split; [done|]. intros s. destruct (Hi s) as (H1 & H2 & H3). split_and!; [done| |].
    + intros p Hp. rewrite Z.add_0_r. by apply H2.
    + eapply is_best_ext; [|exact H3]. intros. simpl. lia.
  - intros (Hp & Hq & Hs). destruct (apply_implements d b f Hi Hp Hq) as (b1 & -> & Hi1). simpl.
    destruct (IH b1 _ Hi1 Hs) as (b2 & -> & Hi2). exists b2. split; [done|]. intros s.
    assert (forall p, f s p + ((if decide (s = side d /\ p = price d) then delta d else 0) + sum_deltas ds s p) =
      bump d f s p + sum_deltas ds s p) as E by (intros p; unfold bump; case_decide; lia).
    destruct (Hi2 s) as (H1 & H2 & H3). split_and!; [done| |].
    + intros p Hpp. rewrite E. by apply H2.
    + eapply is_best_ext; [|exact H3]. done.
Qed.

Lemma implements_unique b b' f f' :
  implements b f -> implements b' f' -> (forall s p, f s p = f' s p) -> b = b'.
Proof.
  intros Hi Hi' E. assert (forall s, levels s b = levels s b' /\ best s b = best s b') as H.
  { intros s. destruct (Hi s) as (L1 & H1 & B1), (Hi' s) as (L2 & H2 & B2). split.
    - apply list_eq_same_length with 100%nat; [done..|]. intros i x y Hi0 Hx Hy.
      destruct (H1 (Z.of_nat i)) as [Hx' _]; [lia|]. destruct (H2 (Z.of_nat i)) as [Hy' _]; [lia|].
      rewrite Nat2Z.id in Hx', Hy'. rewrite E in Hx'. congruence.
    - eapply is_best_unique; [exact B1|]. eapply is_best_ext; [|exact B2]. apply E. }
  destruct (H YES) as [? ?], (H NO) as [? ?]. destruct b, b'. simpl in *. congruence.
Qed.

Lemma sum_deltas_Permutation ds ds' s p : ds ≡ₚ ds' -> sum_deltas ds s p = sum_deltas ds' s p.
Proof. induction 1; simpl; lia. Qed.

(** C21. Reconstruction: after any sane stream of deltas the book holds, for every side
    and price, the sum of the deltas received for it, and each cached best bid is the
    highest price with a positive quantity ([0] if there is none). *)
Theorem book_reconstruction (ds : list OrderbookDelta) :
  sane ds empty_ladder ->
  exists b, apply_all ds empty_book = Some b /\
    (forall s p, 0 <= p <= 99 -> qty_at b s p = Some (sum_deltas ds s p)) /\
    is_best (sum_deltas ds YES) (best_yes_bid b) /\ is_best (sum_deltas ds NO) (best_no_bid b).
Proof.
  intros Hs. destruct (apply_all_implements ds _ _ empty_implements Hs) as (b & Hrun & Hi).
  exists b. split_and!; [done| | |].
  - intros s p Hp. destruct (Hi s) as (_ & H & _). by apply H.
  - apply (Hi YES).
  - apply (Hi NO).
Qed.

Definition demo_delta (s : Side) (p q : Z) : OrderbookDelta := mkDelta [] 0 0 0 q p s.
Definition demo_deltas : list OrderbookDelta :=
  [demo_delta YES 20 7; demo_delta YES 80 3; demo_delta NO 15 4; demo_delta YES 80 (-3)].

Lemma demo_sane : sane demo_deltas empty_ladder.
Proof. repeat split; vm_compute; congruence. Qed.

Lemma book_reconstruction_witness :
  exists b, apply_all demo_deltas empty_book = Some b /\
    (forall s p, 0 <= p <= 99 -> qty_at b s p = Some (sum_deltas demo_deltas s p)) /\
    is_best (sum_deltas demo_deltas YES) (best_yes_bid b) /\ is_best (sum_deltas demo_deltas NO) (best_no_bid b).
Proof. apply (book_reconstruction demo_deltas). apply demo_sane. Defined.

(** The order of delivery does not matter: two sane streams with the same deltas
    build the same book, cached best bids included. *)
Theorem book_order_independent (ds ds' : list OrderbookDelta) :
  sane ds empty_ladder -> sane ds' empty_ladder -> ds ≡ₚ ds' ->
  apply_all ds empty_book = apply_all ds' empty_book.
Proof.
  intros Hs Hs' HP. destruct (apply_all_implements ds _ _ empty_implements Hs) as (b & -> & Hi).
  destruct (apply_all_implements ds' _ _ empty_implements Hs') as (b' & -> & Hi'). f_equal.
  eapply implements_unique; [done..|]. intros s p. simpl. by rewrite (sum_deltas_Permutation ds ds').
Qed.

Lemma book_order_independent_witness :
  apply_all demo_deltas empty_book =
  apply_all [demo_delta NO 15 4; demo_delta YES 80 3; demo_delta YES 80 (-3); demo_delta YES 20 7] empty_book.
Proof.
  apply book_order_independent; [apply demo_sane|repeat split; vm_compute; congruence|].
  unfold demo_deltas. solve_Permutation.
Defined.

(** Without the assumption the cache is wrong: a level driven below zero stops the
    downward rescan, so the reported best bid can be a price whose quantity is negative
    while a lower price has a positive one. *)
Theorem book_negative_level :
  exists b, apply_all [demo_delta YES 30 5; demo_delta YES 40 (-3); demo_delta YES 60 1; demo_delta YES 60 (-1)]
              empty_book = Some b /\
    best_yes_bid b = 40 /\ qty_at b YES 40 = Some (-3) /\ qty_at b YES 30 = Some 5.
Proof. eexists. split; [vm_compute; reflexivity|]. by vm_compute. Qed.
End Feed.
