(* ===== verification/Strategy.v ===== *)
(** * [src/strategy/signal.{h,cpp}], [src/strategy/order_manager.{h,cpp}]

    [Signal::evaluate] turns the two best bids into a target quote;
    [OrderManager::reconcile] turns a target and the open orders into at most
    four actions, and [on_place_sent]/[on_cancel_sent] record what was sent. *)
From stdpp Require Import gmap list numbers.
From S2P Require Import Prelude Feed.
Open Scope Z_scope.
Open Scope cpp_scope.

Module Strategy.
Import Feed.

(** ** The signal *)
Record TargetQuote := mkQuote { active : bool; yes_price : Z; no_price : Z; tq_qty : Z }.

Definition no_quote : TargetQuote := mkQuote false 0 0 0.
Definition MIN_SPREAD : Z := 3.
Definition DEFAULT_QTY : Z := 10.

Definition evaluate (b : Book) : TargetQuote :=
  let y := best_yes_bid b in
  let n := best_no_bid b in
  if (y =? 0) || (n =? 0) then no_quote
  else
    let spread := 100 - y - n in
    if spread <? MIN_SPREAD then no_quote
    else mkQuote true (u8 (y + 1)) (u8 (n + 1)) DEFAULT_QTY.

(** ** The order manager *)
Inductive ActionKind := PLACE | CANCEL.

Global Instance kind_eq_dec : EqDecision ActionKind.
Proof. solve_decision. Defined.

Record Action := mkAction {
  kind : ActionKind;
  act_side : Side;
  act_price : Z;
  act_qty : Z;
  act_client_id : Z;
}.

Record ActionBundle := mkBundle { actions : list Action; cnt : Z }.

Record OrderState := mkState { open : bool; os_price : Z; os_qty : Z; os_client_id : Z }.

Record OrderManager := mkManager {
  yes_open_ : OrderState;
  no_open_ : OrderState;
  next_client_id_ : Z;
}.

Definition no_order : OrderState := mkState false 0 0 0.
Definition no_action : Action := mkAction PLACE YES 0 0 0.
Definition empty_bundle : ActionBundle := mkBundle (replicate 4 no_action) 0.
Definition new_manager : OrderManager := mkManager no_order no_order 1.

(** [out.actions[out.cnt++] = a], undefined past the array. *)
Definition push (a : Action) (out : ActionBundle) : option ActionBundle :=
  if decide (cnt out < Z.of_nat (length (actions out)))
  then Some (mkBundle (<[Z.to_nat (cnt out) := a]> (actions out)) (cnt out +8 1))
  else None.

Definition reconcile_helper (cur : OrderState) (s : Side) (want : bool) (want_price want_qty : Z)
    (next : Z) (out : ActionBundle) : option (Z * ActionBundle) :=
  if negb (open cur) && want then
    out ← push (mkAction PLACE s want_price want_qty next) out; Some (next +64 1, out)
  else if open cur && negb want then
    out ← push (mkAction CANCEL s 0 0 (os_client_id cur)) out; Some (next, out)
  else if open cur && want then
    if negb (want_price =? os_price cur) then
      out ← push (mkAction CANCEL s 0 0 (os_client_id cur)) out;
      out ← push (mkAction PLACE s want_price want_qty next) out; Some (next +64 1, out)
    else Some (next, out)
  else Some (next, out).

Definition reconcile (t : TargetQuote) (om : OrderManager) : option (ActionBundle * OrderManager) :=
  '(next, out) ← reconcile_helper (yes_open_ om) YES (active t) (yes_price t) (tq_qty t)
                   (next_client_id_ om) empty_bundle;
  '(next, out) ← reconcile_helper (no_open_ om) NO (active t) (no_price t) (tq_qty t) next out;
  Some (out, mkManager (yes_open_ om) (no_open_ om) next).

Definition set_open (s : Side) (o : OrderState) (om : OrderManager) : OrderManager :=
  match s with
  | YES => mkManager o (no_open_ om) (next_client_id_ om)
  | NO => mkManager (yes_open_ om) o (next_client_id_ om)
  end.
Definition open_at (s : Side) (om : OrderManager) : OrderState :=
  match s with YES => yes_open_ om | NO => no_open_ om end.

Definition on_place_sent (a : Action) (om : OrderManager) : OrderManager :=
  set_open (act_side a) (mkState true (act_price a) (act_qty a) (act_client_id a)) om.
Definition on_cancel_sent (a : Action) (om : OrderManager) : OrderManager :=
  set_open (act_side a) no_order om.

(** What the caller does with a bundle: send the first [cnt] actions in order and
    report each. *)
Definition emitted (out : ActionBundle) : list Action := take (Z.to_nat (cnt out)) (actions out).
Definition sent (om : OrderManager) (a : Action) : OrderManager :=
  match kind a with PLACE => on_place_sent a om | CANCEL => on_cancel_sent a om end.
Definition send_all (out : ActionBundle) (om : OrderManager) : OrderManager :=
  foldl sent om (emitted out).

(** ** What one side asks for *)
Definition wanted_actions (cur : OrderState) (s : Side) (want : bool) (want_price want_qty next : Z) : list Action :=
  match open cur, want with
  | false, true => [mkAction PLACE s want_price want_qty next]
  | true, false => [mkAction CANCEL s 0 0 (os_client_id cur)]
  | true, true =>
      if want_price =? os_price cur then []
      else [mkAction CANCEL s 0 0 (os_client_id cur); mkAction PLACE s want_price want_qty next]
  | false, false => []
  end.

Definition places (l : list Action) : list Action := filter (fun a => kind a = PLACE) l.


Lemma places_app l l' : places (l ++ l') = places l ++ places l'.
Proof. apply list.filter_app. Qed.

(** A bundle of [n] actions after the pushes of [l]. *)
Definition holds (out : ActionBundle) (l : list Action) : Prop :=
  length (actions out) = 4%nat /\ cnt out = Z.of_nat (length l) /\ emitted out = l.

Lemma push_action_holds a out l : holds out l -> (length l < 4)%nat -> exists out', push a out = Some out' /\ holds out' (l ++ [a]).
Proof.
  intros (H1 & H2 & H3) Hl. unfold push. rewrite decide_True by lia. eexists. split; [done|].
  unfold holds, emitted in *. simpl. rewrite length_insert, length_app. rewrite wrap_small by (unfold fits; lia).
  split_and!; [done|simpl; lia|]. rewrite H2 in *. rewrite Nat2Z.id in *.
  replace (Z.to_nat (Z.of_nat (length l) + 1)) with (S (length l)) by lia.
  rewrite take_S_r with (x := a) by (apply list_lookup_insert_eq; lia). f_equal.
  rewrite take_insert_ge by lia. done.
Qed.

Lemma helper_holds cur s want p q next out l :
  holds out l -> (length l <= 2)%nat -> 0 <= next < 2 ^ 64 - 2 ->
  exists out', let w := wanted_actions cur s want p q next in
    reconcile_helper cur s want p q next out = Some (next + Z.of_nat (length (places w)), out') /\
    holds out' (l ++ w).
Proof.
  intros Hh Hl Hn. unfold reconcile_helper, wanted_actions.
  destruct (open cur), want; simpl; rewrite ?app_nil_r.
  - destruct (Z.eqb_spec p (os_price cur)); simpl.
    + exists out. rewrite Z.add_0_r. by rewrite app_nil_r.
    + destruct (push_action_holds (mkAction CANCEL s 0 0 (os_client_id cur)) out l Hh) as (o1 & -> & H1); [lia|].
      simpl. destruct (push_action_holds (mkAction PLACE s p q next) o1 _ H1) as (o2 & -> & H2); [rewrite length_app; simpl; lia|].
      simpl. rewrite wrap_small by (unfold fits; lia). exists o2. by rewrite <- app_assoc in H2.
  - destruct (push_action_holds (mkAction CANCEL s 0 0 (os_client_id cur)) out l Hh) as (o1 & -> & H1); [lia|].
    simpl. exists o1. by rewrite Z.add_0_r.
  - destruct (push_action_holds (mkAction PLACE s p q next) out l Hh) as (o1 & -> & H1); [lia|].
    simpl. rewrite wrap_small by (unfold fits; lia). by exists o1.
  - exists out. by rewrite Z.add_0_r.
Qed.

Lemma wanted_length cur s want p q next : (length (wanted_actions cur s want p q next) <= 2)%nat.
Proof. unfold wanted_actions. destruct (open cur), want; simpl; try lia. destruct (_ =? _); simpl; lia. Qed.

(** The actions of a reconciliation, side by side. *)
Definition target_price (t : TargetQuote) (s : Side) : Z := match s with YES => yes_price t | NO => no_price t end.
Definition yes_actions (t : TargetQuote) (om : OrderManager) : list Action :=
  wanted_actions (yes_open_ om) YES (active t) (yes_price t) (tq_qty t) (next_client_id_ om).
Definition no_actions (t : TargetQuote) (om : OrderManager) : list Action :=
  wanted_actions (no_open_ om) NO (active t) (no_price t) (tq_qty t)
    (next_client_id_ om + Z.of_nat (length (places (yes_actions t om)))).

Lemma places_length cur s want p q next : (length (places (wanted_actions cur s want p q next)) <= 1)%nat.
Proof. unfold wanted_actions. destruct (open cur), want; simpl; try lia. destruct (_ =? _); simpl; lia. Qed.

Lemma reconcile_holds t om :
  0 <= next_client_id_ om < 2 ^ 64 - 3 ->
  exists out, let l := yes_actions t om ++ no_actions t om in
    reconcile t om = Some (out, mkManager (yes_open_ om) (no_open_ om)
      (next_client_id_ om + Z.of_nat (length (places l)))) /\ holds out l.
Proof.
  intros Hn. unfold reconcile.
  destruct (helper_holds (yes_open_ om) YES (active t) (yes_price t) (tq_qty t) (next_client_id_ om) empty_bundle [])
    as (o1 & -> & H1); [done|simpl; lia|lia|]. simpl.
  pose proof (places_length (yes_open_ om) YES (active t) (yes_price t) (tq_qty t) (next_client_id_ om)).
  edestruct (helper_holds (no_open_ om) NO (active t) (no_price t) (tq_qty t)) as (o2 & -> & H2);
    [exact H1|simpl; apply wanted_length| |]; [simpl; lia|].
  exists o2. split; [|done]. rewrite places_app, length_app, Nat2Z.inj_add, Z.add_assoc. done.
Qed.

Ltac each_action := repeat first [apply Forall_nil_2 | apply Forall_cons_2].

(** ** The orders the market has of this client *)
(** What an exchange does with the actions it is sent: by client id, the side, price and
    quantity of the orders that have been placed and not cancelled. *)
Abbreviation live := (gmap Z (Side * Z * Z)).
Definition receive (m : live) (a : Action) : live :=
  match kind a with
  | PLACE => <[act_client_id a := (act_side a, act_price a, act_qty a)]> m
  | CANCEL => delete (act_client_id a) m
  end.
Definition receive_all (out : ActionBundle) (m : live) : live := foldl receive m (emitted out).

(** The orders the manager believes to have. *)
Definition record_open (s : Side) (o : OrderState) (m : live) : live :=
  if open o then <[os_client_id o := (s, os_price o, os_qty o)]> m else m.
Definition orders_of (om : OrderManager) : live := record_open YES (yes_open_ om) (record_open NO (no_open_ om) ∅).

(** The ids of open orders are different and have been issued. *)
Definition issued (om : OrderManager) : Prop :=
  (forall s, open (open_at s om) = true -> os_client_id (open_at s om) < next_client_id_ om) /\
  (open (yes_open_ om) = true -> open (no_open_ om) = true -> os_client_id (yes_open_ om) ≠ os_client_id (no_open_ om)).

(** What a side should have after a reconciliation: nothing when the target is not active,
    the order it had when that is at the target's price, and else a new order. *)
Definition on_target (t : TargetQuote) (s : Side) (om om' : OrderManager) : Prop :=
  if active t then
    if open (open_at s om) && (os_price (open_at s om) =? target_price t s) then open_at s om' = open_at s om
    else exists id, next_client_id_ om <= id < next_client_id_ om' /\ open_at s om' = mkState true (target_price t s) (tq_qty t) id
  else open (open_at s om') = false.

(** Exchange and manager agree on what the actions leave. *)
Ltac same_orders :=
  unfold receive; cbn [kind act_client_id act_side act_price act_qty]; apply map_eq; let k := fresh "k" in intros k; repeat first [rewrite lookup_insert|rewrite lookup_delete];
  repeat case_decide; subst; try done; exfalso; lia.

Ltac compare_prices := repeat (match goal with |- context [?x =? ?y] => destruct (Z.eqb_spec x y) end; simpl).

Lemma reconcile_orders t om : issued om ->
  let l := yes_actions t om ++ no_actions t om in
  let om2 := foldl sent (mkManager (yes_open_ om) (no_open_ om) (next_client_id_ om + Z.of_nat (length (places l)))) l in
  foldl receive (orders_of om) l = orders_of om2 /\ issued om2 /\ (forall s, on_target t s om om2).
Proof.
  intros [Hid Hne]. pose proof (Hid YES) as HY. pose proof (Hid NO) as HN. clear Hid.
  unfold no_actions, yes_actions, wanted_actions, on_target, target_price, issued, orders_of, record_open.
  destruct om as [[yo yp yq yi] [no np nq ni] next], t as [act ty tn tq]. simpl in *.
  destruct yo, no, act; try specialize (HY eq_refl); try specialize (HN eq_refl); try specialize (Hne eq_refl eq_refl); simpl;
    rewrite ?(Z.eqb_sym ty), ?(Z.eqb_sym tn); compare_prices; (split; [try done; same_orders|]);
    (split; [split; [intros []; simpl; lia|simpl; lia]|]); intros []; simpl; compare_prices; try done; try lia; eexists; (split; [|done]); lia.
Qed.

(** C24. Reconciliation converges in one round and loses no order, provided the counter of
    client ids is at least three below its end and the open orders have different ids that
    were issued before (both kept by the reconciliation): it never writes past the four
    action slots.  Once its actions are sent, a side has nothing open when the target is
    not active; it has the very order it had before, with its old quantity, when that is
    at the target's price; and else a new order at the target's price and quantity under a
    fresh id.  An exchange that held exactly the manager's open orders before and carries
    out the actions in order holds exactly the manager's open orders afterwards, so that
    every order that is given up is cancelled; and reconciling again emits nothing. *)
Theorem reconcile_converges (t : TargetQuote) (om : OrderManager) :
  0 <= next_client_id_ om < 2 ^ 64 - 3 -> issued om ->
  exists out om1, reconcile t om = Some (out, om1) /\ 0 <= cnt out <= 4 /\
    let om2 := send_all out om1 in
    (forall s, on_target t s om om2) /\ receive_all out (orders_of om) = orders_of om2 /\ issued om2 /\
    reconcile t om2 = Some (empty_bundle, om2).
Proof.
  intros Hn Hid. destruct (reconcile_holds t om Hn) as (out & Hrun & (_ & Hc & He)).
  destruct (reconcile_orders t om Hid) as (Hlive & Hid2 & Htarget). do 2 eexists. split; [exact Hrun|]. split.
  { rewrite Hc, length_app.
    assert (length (yes_actions t om) <= 2)%nat by apply wanted_length.
    assert (length (no_actions t om) <= 2)%nat by apply wanted_length. lia. }
  unfold send_all, receive_all. rewrite He. set (om2 := foldl sent _ _) in *. clearbody om2.
  split; [done|]. split; [done|]. split; [done|].
  pose proof (Htarget YES) as HY. pose proof (Htarget NO) as HN. unfold on_target in *. clear - HY HN. destruct om as [y n next], om2 as [y2 n2 next2]. simpl in *.
  unfold reconcile, reconcile_helper. simpl. destruct (active t); simpl in *; [|by rewrite HY, HN].
  assert (open y2 = true /\ os_price y2 = yes_price t) as [-> ->].
  { destruct (open y) eqn:Eo; simpl in HY; [destruct (Z.eqb_spec (os_price y) (yes_price t))|]; [by subst|destruct HY as (? & _ & ->); done..]. }
  assert (open n2 = true /\ os_price n2 = no_price t) as [-> ->].
  { destruct (open n) eqn:Eo; simpl in HN; [destruct (Z.eqb_spec (os_price n) (no_price t))|]; [by subst|destruct HN as (? & _ & ->); done..]. }
  simpl. by rewrite !Z.eqb_refl.
Qed.

(** One side moves to a new price, the other keeps its order and its quantity. *)
Lemma reconcile_converges_witness :
  let om := mkManager (mkState true 41 10 1) (mkState true 31 4 2) 3 in
  exists out om1, reconcile (mkQuote true 42 31 10) om = Some (out, om1) /\ 0 <= cnt out <= 4 /\
    let om2 := send_all out om1 in
    (forall s, on_target (mkQuote true 42 31 10) s om om2) /\ receive_all out (orders_of om) = orders_of om2 /\ issued om2 /\
    reconcile (mkQuote true 42 31 10) om2 = Some (empty_bundle, om2).
Proof.
  apply (reconcile_converges (mkQuote true 42 31 10) (mkManager (mkState true 41 10 1) (mkState true 31 4 2) 3)); [simpl; lia|].
  split; [intros []; simpl; lia|simpl; lia].
Defined.

(** Client ids are never reused and cancels name the open order: every order placed
    gets an id at least the counter before the call and below the counter after it, the
    ids of one bundle are distinct, and every cancel carries the id of the order open on
    its side and comes before the replacement on that side. *)
Theorem reconcile_ids (t : TargetQuote) (om : OrderManager) :
  0 <= next_client_id_ om < 2 ^ 64 - 3 ->
  exists out om1, reconcile t om = Some (out, om1) /\
    yes_open_ om1 = yes_open_ om /\ no_open_ om1 = no_open_ om /\
    Forall (fun a => kind a = PLACE ->
      next_client_id_ om <= act_client_id a < next_client_id_ om1 /\ act_qty a = tq_qty t /\
      act_price a = target_price t (act_side a)) (emitted out) /\
    NoDup (act_client_id <$> places (emitted out)) /\
    Forall (fun a => kind a = CANCEL -> open (open_at (act_side a) om) = true /\
      act_client_id a = os_client_id (open_at (act_side a) om)) (emitted out) /\
    (forall i j a b, emitted out !! i = Some a -> emitted out !! j = Some b ->
       kind a = PLACE -> kind b = CANCEL -> act_side a = act_side b -> (j < i)%nat).
Proof.
  intros Hn. destruct (reconcile_holds t om Hn) as (out & Hrun & (_ & _ & He)).
  do 2 eexists. split; [exact Hrun|]. rewrite He. clear Hrun He.
  unfold no_actions, yes_actions, wanted_actions, target_price. destruct om as [y n id]. simpl in *.
  destruct (open y) eqn:Ey, (open n) eqn:En, (active t); simpl;
    repeat (destruct (_ =? _); simpl); rewrite ?Ey, ?En;
    (split; [done|split; [done|]]); (split; [each_action; simpl; intros Hk; try discriminate Hk; split_and!; (lia || done)|]);
    (split; [repeat (apply NoDup_cons_2; [rewrite ?not_elem_of_cons, ?elem_of_nil; try split; (done || lia || tauto)|]); apply NoDup_nil_2|]);
    (split; [each_action; simpl; intros Hk; try discriminate Hk; done|]);
    intros [|[|[|[|i]]]] [|[|[|[|j]]]] a b Hi Hj Ha Hb Hs; simplify_eq/=; try lia; done.
Qed.

Lemma reconcile_ids_witness :
  exists out om1, reconcile (mkQuote true 42 31 10) (mkManager (mkState true 41 10 1) no_order 2) = Some (out, om1) /\
    yes_open_ om1 = mkState true 41 10 1 /\ no_open_ om1 = no_order /\
    Forall (fun a => kind a = PLACE ->
      2 <= act_client_id a < next_client_id_ om1 /\ act_qty a = 10 /\
      act_price a = target_price (mkQuote true 42 31 10) (act_side a)) (emitted out) /\
    NoDup (act_client_id <$> places (emitted out)) /\
    Forall (fun a => kind a = CANCEL ->
      open (open_at (act_side a) (mkManager (mkState true 41 10 1) no_order 2)) = true /\
      act_client_id a = os_client_id (open_at (act_side a) (mkManager (mkState true 41 10 1) no_order 2))) (emitted out) /\
    (forall i j a b, emitted out !! i = Some a -> emitted out !! j = Some b ->
       kind a = PLACE -> kind b = CANCEL -> act_side a = act_side b -> (j < i)%nat).
Proof. apply (reconcile_ids (mkQuote true 42 31 10) (mkManager (mkState true 41 10 1) no_order 2)). simpl. lia. Defined.

(** C25. The signal quotes one tick inside both best bids, exactly when both sides have a
    bid and at least three ticks are between them: the two quoted prices are valid
    prices, improve on the bids without 8-bit wrap-around and leave a positive edge
    (together they cost less than a dollar). *)
Theorem signal_quotes (b : Book) (f : ladder) :
  implements b f ->
  let q := evaluate b in
  let y := best_yes_bid b in
  let n := best_no_bid b in
  (active q = true <-> y ≠ 0 /\ n ≠ 0 /\ y + n <= 100 - MIN_SPREAD) /\
  (active q = true -> yes_price q = y + 1 /\ no_price q = n + 1 /\ tq_qty q = DEFAULT_QTY /\
     2 <= yes_price q <= 97 /\ 2 <= no_price q <= 97 /\ yes_price q + no_price q < 100) /\
  (active q = false -> q = no_quote).
Proof.
  intros Hi. destruct (Hi YES) as (_ & _ & Hy & _), (Hi NO) as (_ & _ & Hn & _). simpl in Hy, Hn.
  unfold evaluate, MIN_SPREAD, best_yes_bid, best_no_bid.
  destruct (Z.eqb_spec (best_yes_bid_ b) 0); simpl; [split_and!; try done; split; [done|lia]|].
  destruct (Z.eqb_spec (best_no_bid_ b) 0); simpl; [split_and!; try done; split; [done|lia]|].
  destruct (Z.ltb_spec (100 - best_yes_bid_ b - best_no_bid_ b) 3); simpl.
  - split_and!; try done. split; [done|]. lia.
  - rewrite !wrap_small by (unfold fits; lia). split_and!; try done; cbn [active yes_price no_price tq_qty].
    + split; [|done]. intros _. split_and!; lia.
    + intros _. split_and!; (lia || done).
Qed.

Lemma signal_quotes_witness :
  let b := mkBook (<[40%nat := 10]> (replicate 100 0)) (<[30%nat := 10]> (replicate 100 0)) 40 30 in
  let q := evaluate b in
  (active q = true <-> 40 ≠ 0 /\ 30 ≠ 0 /\ 40 + 30 <= 100 - MIN_SPREAD) /\
  (active q = true -> yes_price q = 40 + 1 /\ no_price q = 30 + 1 /\ tq_qty q = DEFAULT_QTY /\
     2 <= yes_price q <= 97 /\ 2 <= no_price q <= 97 /\ yes_price q + no_price q < 100) /\
  (active q = false -> q = no_quote).
Proof.
  destruct (apply_implements (demo_delta YES 40 10) _ _ empty_implements) as (b1 & H1 & I1);
    [simpl; lia|simpl; unfold empty_ladder; lia|].
  destruct (apply_implements (demo_delta NO 30 10) _ _ I1) as (b2 & H2 & I2);
    [simpl; lia|simpl; unfold bump, empty_ladder; simpl; lia|].
  vm_compute in H1. injection H1 as <-. vm_compute in H2. injection H2 as <-.
  exact (signal_quotes _ _ I2).
Defined.
End Strategy.
