(* ===== verification/Bytes.v ===== *)
(** * Byte strings: the part of [std::string] the network code uses

    A string is the list of its bytes.  Positions are 64-bit words and [npos] is
    their maximum, so that the arithmetic the callers do on a failed search is the
    machine's.  Functions that may throw return [Throw]. *)
From stdpp Require Import gmap list numbers strings sorting.
From S2P Require Import Prelude.
Open Scope Z_scope.
Open Scope cpp_scope.

Module Bytes.

Abbreviation bytes := (list Z).

(** ** Outcomes of code that loops and throws *)
Inductive result (A : Type) := Done (x : A) | Throw | NoFuel.
Arguments Done {A} _.
Arguments Throw {A}.
Arguments NoFuel {A}.

Definition rbind {A B} (m : result A) (k : A -> result B) : result B :=
  match m with Done x => k x | Throw => Throw | NoFuel => NoFuel end.
Notation "'do' x <- m ; k" := (rbind m (fun x => k)) (at level 10, x name, m at level 100, k at level 200).

(** ** Literals; an apostrophe stands for the double quote *)
Definition QUOTE : Z := 34.
Fixpoint codes (s : string) : bytes :=
  match s with
  | EmptyString => []
  | String c s => Z.of_nat (Ascii.nat_of_ascii c) :: codes s
  end.
Definition lit (s : string) : bytes := (fun c => if c =? 39 then QUOTE else c) <$> codes s.
Definition CR : Z := 13.
Definition CRLF : bytes := [13; 10].
Definition SPACE : bytes := [32].

(** ** Searching *)
Definition npos : Z := 2 ^ 64 - 1.

Fixpoint is_prefix (pat l : bytes) : bool :=
  match pat, l with
  | [], _ => true
  | c :: pat, d :: l => (c =? d) && is_prefix pat l
  | _ :: _, [] => false
  end.

(** The offset of the first occurrence. *)
Fixpoint find_at (pat l : bytes) : option nat :=
  if is_prefix pat l then Some 0%nat
  else match l with [] => None | _ :: l => S <$> find_at pat l end.

(** [s.find(pat, pos)] *)
Definition find (pat s : bytes) (pos : Z) : Z :=
  if Z.of_nat (length s) <? pos then npos
  else match find_at pat (drop (Z.to_nat pos) s) with
       | Some i => pos + Z.of_nat i
       | None => npos
       end.

(** [s.substr(pos, n)] *)
Definition substr (s : bytes) (pos n : Z) : result bytes :=
  if Z.of_nat (length s) <? pos then Throw
  else Done (take (Z.to_nat (Z.min n (Z.of_nat (length s) - pos))) (drop (Z.to_nat pos) s)).

(** ** Numbers *)
Definition is_digit (c : Z) : bool := (48 <=? c) && (c <=? 57).

(** Decimal digits, last one first, in a buffer of [room] bytes. *)
Fixpoint digits (room : nat) (v : Z) : option bytes :=
  if 0 <? v then
    match room with
    | O => None
    | S room => l ← digits room (v / 10); Some (48 + v mod 10 :: l)
    end
  else Some [].

(** [std::to_string] of an unsigned value of at most 64 bits. *)
Definition to_string (v : Z) : bytes :=
  if v =? 0 then [48] else reverse (default [] (digits 20 v)).

Definition value (acc : Z) (ds : bytes) : Z := foldl (fun a c => a * 10 + (c - 48)) acc ds.
Fixpoint digit_prefix (l : bytes) : bytes :=
  match l with c :: l => if is_digit c then c :: digit_prefix l else [] | [] => [] end.
Definition is_space (c : Z) : bool := (c =? 32) || ((9 <=? c) && (c <=? 13)).
Fixpoint skip_space (l : bytes) : bytes :=
  match l with c :: l' => if is_space c then skip_space l' else l | [] => [] end.

(** [std::stoi]: white space, an optional sign, digits; what follows is ignored. *)
Definition stoi (s : bytes) : result Z :=
  let s := skip_space s in
  let '(neg, s) := match s with
                   | c :: s' => if c =? 45 then (true, s') else if c =? 43 then (false, s') else (false, s)
                   | [] => (false, s)
                   end in
  match digit_prefix s with
  | [] => Throw
  | ds => let v := if (neg : bool) then - value 0 ds else value 0 ds in
          if decide (fits_i 32 v) then Done v else Throw
  end.

(** ** Facts *)
Lemma is_digit_range c : is_digit c = true <-> 48 <= c <= 57.
Proof. unfold is_digit. rewrite andb_true_iff, !Z.leb_le. done. Qed.

Lemma digits_ok room : forall v, 0 <= v < 10 ^ Z.of_nat room ->
  exists l, digits room v = Some l /\ (length l <= room)%nat /\ Forall (fun c => is_digit c = true) l /\
    value 0 (reverse l) = v.
Proof.
  induction room as [|room IH]; intros v Hv; simpl; destruct (Z.ltb_spec 0 v).
  - change (10 ^ Z.of_nat 0) with 1 in Hv. lia.
  - exists []. split_and!; [done|simpl; lia|constructor|simpl; lia].
  - rewrite Nat2Z.inj_succ, Z.pow_succ_r in Hv by lia.
    destruct (IH (v / 10)) as (l & -> & Hl & Hd & Hval).
    { split; [apply Z.div_pos; lia|apply Z.div_lt_upper_bound; lia]. }
    pose proof (Z.mod_pos_bound v 10). pose proof (Z.div_mod v 10). eexists. split; [done|]. split_and!; [simpl; lia| |].
    + constructor; [apply is_digit_range; lia|done].
    + rewrite reverse_cons. unfold value in *. rewrite foldl_app, Hval. simpl. lia.
  - exists []. split_and!; [done|simpl; lia|constructor|simpl; lia].
Qed.

Lemma digits_nonempty room v l : digits room v = Some l -> v ≠ 0 -> 0 <= v -> l ≠ [].
Proof.
  intros H Hne Hv ->. destruct room; simpl in H; destruct (Z.ltb_spec 0 v); try lia; [done|].
  by destruct (digits room (v / 10)).
Qed.

(** What a decimal rendering is: digits whose value is the number. *)
Definition renders (v : Z) (l : bytes) : Prop :=
  (1 <= length l <= 20)%nat /\ Forall (fun c => is_digit c = true) l /\ value 0 l = v.

Lemma to_string_ok v : fits 64 v -> renders v (to_string v).
Proof.
  intros Hv. unfold to_string, renders. destruct (Z.eqb_spec v 0) as [->|Hne].
  { split_and!; simpl; try lia. by repeat constructor. }
  unfold fits in Hv. destruct (digits_ok 20 v) as (l & Hl & Hlen & Hd & Hval); [simpl; lia|].
  pose proof (digits_nonempty _ _ _ Hl Hne ltac:(lia)) as Hnil. rewrite Hl. simpl. rewrite length_reverse. split_and!; [|done|by apply Forall_reverse|done].
  destruct l; [done|simpl; lia].
Qed.

Lemma digit_prefix_app ds rest :
  Forall (fun c => is_digit c = true) ds -> (match rest with [] => True | c :: _ => is_digit c = false end) ->
  digit_prefix (ds ++ rest) = ds.
Proof.
  induction 1 as [|c ds Hc _ IH]; simpl; intros Hr; [destruct rest; [done|simpl; by rewrite Hr]|].
  rewrite Hc. f_equal. auto.
Qed.

Lemma digit_not_space c : is_digit c = true -> is_space c = false /\ (c =? 45) = false /\ (c =? 43) = false.
Proof.
  intros Hc%is_digit_range. unfold is_space. rewrite (proj2 (Z.leb_gt c 13)) by lia.
  rewrite !(proj2 (Z.eqb_neq _ _)) by lia. by rewrite andb_false_r.
Qed.

Lemma stoi_renders v l : renders v l -> v < 2 ^ 31 -> 0 <= v -> stoi l = Done v.
Proof.
  intros (Hlen & Hd & Hv) Hlt Hpos. unfold stoi. destruct l as [|c l]; [simpl in *; lia|].
  assert (is_digit c = true) as Hc by (by apply Forall_cons in Hd as [? _]).
  destruct (digit_not_space c Hc) as (Hs & Hm & Hp). cbn [skip_space]. rewrite Hs, Hm, Hp.
  pose proof (digit_prefix_app (c :: l) [] Hd Logic.I) as E. rewrite app_nil_r in E.
  rewrite E, Hv, decide_True; [done|]. unfold fits_i. change (2 ^ (32 - 1)) with (2 ^ 31). lia.
Qed.

Lemma is_prefix_app pat l : is_prefix pat (pat ++ l) = true.
Proof. induction pat as [|c pat IH]; simpl; [done|]. by rewrite Z.eqb_refl. Qed.

Lemma is_prefix_spec pat l : is_prefix pat l = true <-> exists r, l = pat ++ r.
Proof.
  split; [|intros [r ->]; apply is_prefix_app]. revert l. induction pat as [|c pat IH]; intros l; simpl; [eauto|].
  destruct l as [|d l]; [done|]. intros [Hc Hp]%andb_true_iff. apply Z.eqb_eq in Hc as ->.
  destruct (IH _ Hp) as [r ->]. by exists r.
Qed.

Lemma find_at_skip pat l1 l2 :
  (forall a b, l1 = a ++ b -> b ≠ [] -> is_prefix pat (b ++ l2) = false) ->
  find_at pat (l1 ++ l2) = (fun i => (length l1 + i)%nat) <$> find_at pat l2.
Proof.
  induction l1 as [|c l1 IH]; intros H; simpl; [by destruct (find_at pat l2)|].
  rewrite (H [] (c :: l1) eq_refl ltac:(done) : is_prefix pat (c :: (l1 ++ l2)) = false).
  rewrite IH; [by destruct (find_at pat l2)|]. intros a b -> Hb. by apply (H (c :: a) b).
Qed.

(** A pattern is not found before its first byte occurs. *)
Lemma find_at_free c pat l1 l2 :
  c ∉ l1 -> find_at (c :: pat) (l1 ++ l2) = (fun i => (length l1 + i)%nat) <$> find_at (c :: pat) l2.
Proof.
  intros Hc. apply find_at_skip.
  intros a b -> Hb. destruct b as [|d b]; [done|]. simpl. destruct (Z.eqb_spec c d); [set_solver|done].
Qed.

Lemma find_at_hit c pat l1 l2 : c ∉ l1 -> find_at (c :: pat) (l1 ++ (c :: pat) ++ l2) = Some (length l1).
Proof. intros Hc. rewrite find_at_free by done. simpl. rewrite Z.eqb_refl, is_prefix_app. simpl. f_equal. lia. Qed.

Lemma find_at_bound pat l i : find_at pat l = Some i -> (i + length pat <= length l)%nat /\ is_prefix pat (drop i l) = true.
Proof.
  revert i. induction l as [|c l IH]; intros i; simpl.
  - destruct (is_prefix pat []) eqn:E; [|done]. intros [= <-]. apply is_prefix_spec in E as [r E].
    apply (f_equal length) in E as E'. rewrite length_app in E'. simpl in *. split; [lia|]. apply is_prefix_spec. eauto.
  - destruct (is_prefix pat (c :: l)) eqn:E.
    + intros [= <-]. split; [|done]. apply is_prefix_spec in E as [r E].
      apply (f_equal length) in E. rewrite length_app in E. simpl in *. lia.
    + destruct (find_at pat l) as [j|]; simpl; [|done]. intros [= <-]. destruct (IH j eq_refl). simpl. split; [lia|done].
Qed.

Lemma find_at_first pat l i j :
  find_at pat l = Some i -> is_prefix pat (drop j l) = true -> (i <= j)%nat.
Proof.
  revert i j. induction l as [|c l IH]; intros i j; simpl.
  - destruct (is_prefix pat []); [intros [= <-]; lia|done].
  - destruct (is_prefix pat (c :: l)) eqn:E; [intros [= <-]; lia|].
    destruct (find_at pat l) as [k|] eqn:Ek; simpl; [|done]. intros [= <-]. destruct j as [|j]; simpl; [congruence|].
    intros H. specialize (IH k j eq_refl H). lia.
Qed.

Lemma find_at_exists pat l j : is_prefix pat (drop j l) = true -> exists i, find_at pat l = Some i.
Proof.
  revert j. induction l as [|c l IH]; intros j H.
  - rewrite drop_nil in H. simpl. rewrite H. eauto.
  - simpl. destruct (is_prefix pat (c :: l)) eqn:E; [eauto|]. destruct j as [|j]; simpl in H; [congruence|].
    destruct (IH j H) as [i ->]. simpl. eauto.
Qed.

(** [find] from a position inside a concatenation. *)
Lemma find_from pat a l i :
  find_at pat l = Some i -> find pat (a ++ l) (Z.of_nat (length a)) = Z.of_nat (length a + i).
Proof.
  intros H. unfold find. rewrite (proj2 (Z.ltb_ge _ _)) by (rewrite length_app; lia).
  rewrite Nat2Z.id, drop_app_length, H. lia.
Qed.

Lemma substr_mid a b c : substr (a ++ b ++ c) (Z.of_nat (length a)) (Z.of_nat (length b)) = Done b.
Proof.
  unfold substr. rewrite (proj2 (Z.ltb_ge _ _)) by (rewrite length_app; lia).
  rewrite Z.min_l by (rewrite !length_app; lia). by rewrite !Nat2Z.id, drop_app_length, take_app_length.
Qed.

Lemma substr_cases s pos n : (exists x, substr s pos n = Done x) \/ substr s pos n = Throw.
Proof. unfold substr. case_match; eauto. Qed.

Lemma stoi_cases s : (exists x, stoi s = Done x) \/ stoi s = Throw.
Proof. unfold stoi. repeat case_match; eauto. Qed.

(** The rest of a string. *)
Lemma substr_rest a b n : Z.of_nat (length b) <= n -> substr (a ++ b) (Z.of_nat (length a)) n = Done b.
Proof.
  intros Hn. unfold substr. rewrite (proj2 (Z.ltb_ge _ _)) by (rewrite length_app; lia).
  rewrite Z.min_r by (rewrite length_app; lia). rewrite Nat2Z.id, drop_app_length, take_ge; [done|]. rewrite length_app. lia.
Qed.

End Bytes.
