(* ===== verification/Serialize.v ===== *)
(** * [src/net/serialize.cpp]: actions as JSON bytes

    Bytes are integers.  The output buffer is the list of bytes written so far;
    a write past its [cap] bytes, an unterminated ticker and an overrun of the
    20-byte digit buffer are undefined and make the result [None]. *)
From stdpp Require Import gmap list numbers strings sorting.
From S2P Require Import Prelude Bytes Feed Strategy.
Open Scope Z_scope.
Open Scope cpp_scope.

Module Serialize.
Import Bytes Feed Strategy.

(** [strlen], as the bytes before the terminator. *)
Fixpoint c_string (buf : list Z) : option (list Z) :=
  match buf with
  | [] => None
  | c :: buf => if c =? 0 then Some [] else l ← c_string buf; Some (c :: l)
  end.

(** [digits 20] is the loop that fills [char buf[20]]; the second loop reverses it. *)
Definition emit_u64 (v : Z) : option (list Z) :=
  if v =? 0 then Some [48] else reverse <$> digits 20 v.

Definition emit_u8 (v : Z) : list Z :=
  (if 10 <=? v then [u8 (48 + v / 10)] else []) ++ [u8 (48 + v mod 10)].

Definition side_name (s : Side) : list Z := match s with YES => lit "yes" | NO => lit "no" end.

Definition message (a : Action) (ticker : list Z) : option (list Z) :=
  match kind a with
  | PLACE =>
      qty ← emit_u64 (act_qty a);
      id ← emit_u64 (act_client_id a);
      Some (lit "{'action':'place','ticker':'" ++ ticker ++ lit "','side':'" ++ side_name (act_side a) ++
            lit "','price':" ++ emit_u8 (act_price a) ++ lit ",'qty':" ++ qty ++
            lit ",'client_id':" ++ id ++ lit "}")
  | CANCEL =>
      id ← emit_u64 (act_client_id a);
      Some (lit "{'action':'cancel','ticker':'" ++ ticker ++ lit "','client_id':" ++ id ++ lit "}")
  end.

(** The returned size and the bytes written. *)
Definition serialize_action (a : Action) (ticker : list Z) (cap : Z) : option (Z * list Z) :=
  if cap <? 256 then Some (0, [])
  else
    t ← c_string ticker;
    out ← message a t;
    if Z.of_nat (length out) <=? cap then Some (Z.of_nat (length out), out) else None.

(** ** Reading the bytes back *)
Inductive wire :=
| WPlace (ticker : list Z) (s : Side) (price qty id : Z)
| WCancel (ticker : list Z) (id : Z).

Definition wire_of (a : Action) (ticker : list Z) : wire :=
  match kind a with
  | PLACE => WPlace ticker (act_side a) (act_price a) (act_qty a) (act_client_id a)
  | CANCEL => WCancel ticker (act_client_id a)
  end.

Fixpoint expect (pre l : list Z) : option (list Z) :=
  match pre, l with
  | [], _ => Some l
  | c :: pre, d :: l => if c =? d then expect pre l else None
  | _ :: _, [] => None
  end.

Fixpoint until_quote (l : list Z) : list Z * list Z :=
  match l with
  | [] => ([], [])
  | c :: l' => if c =? QUOTE then ([], l) else let '(a, b) := until_quote l' in (c :: a, b)
  end.

Fixpoint read_num (l : list Z) (acc : Z) : Z * list Z :=
  match l with
  | c :: l' => if is_digit c then read_num l' (acc * 10 + (c - 48)) else (acc, l)
  | [] => (acc, [])
  end.

Definition decode_place (l : list Z) : option wire :=
  let '(t, l) := until_quote l in
  l ← expect (lit "','side':'") l;
  let '(s, l) := until_quote l in
  s ← (if decide (s = lit "yes") then Some YES else if decide (s = lit "no") then Some NO else None);
  l ← expect (lit "','price':") l;
  let '(p, l) := read_num l 0 in
  l ← expect (lit ",'qty':") l;
  let '(q, l) := read_num l 0 in
  l ← expect (lit ",'client_id':") l;
  let '(id, l) := read_num l 0 in
  if decide (l = lit "}") then Some (WPlace t s p q id) else None.

Definition decode_cancel (l : list Z) : option wire :=
  let '(t, l) := until_quote l in
  l ← expect (lit "','client_id':") l;
  let '(id, l) := read_num l 0 in
  if decide (l = lit "}") then Some (WCancel t id) else None.

Definition decode (l : list Z) : option wire :=
  match expect (lit "{'action':'place','ticker':'") l with
  | Some l => decode_place l
  | None => l ← expect (lit "{'action':'cancel','ticker':'") l; decode_cancel l
  end.

(** ** Numbers *)
Definition no_digit_first (l : list Z) : Prop := match l with [] => True | c :: _ => is_digit c = false end.

Lemma read_num_value ds : forall acc rest,
  Forall (fun c => is_digit c = true) ds -> no_digit_first rest -> read_num (ds ++ rest) acc = (value acc ds, rest).
Proof.
  induction ds as [|c ds IH]; intros acc rest Hd Hr; simpl.
  - destruct rest as [|c rest]; simpl in *; [done|]. by rewrite Hr.
  - apply Forall_cons in Hd as [-> Hd]. by rewrite IH.
Qed.

(** A 64-bit number fits in the 20-byte buffer and is written as its decimal digits. *)
Lemma emit_u64_ok v : fits 64 v ->
  exists l, emit_u64 v = Some l /\ (1 <= length l <= 20)%nat /\ Forall (fun c => is_digit c = true) l /\ value 0 l = v.
Proof.
  intros Hv. exists (to_string v). split; [|by apply to_string_ok].
  unfold emit_u64, to_string. destruct (Z.eqb_spec v 0); [done|].
  unfold fits in Hv. destruct (digits_ok 20 v) as (l & -> & _); [simpl; lia|]. done.
Qed.

Lemma emit_u8_ok v : 0 <= v <= 99 ->
  (1 <= length (emit_u8 v) <= 2)%nat /\ Forall (fun c => is_digit c = true) (emit_u8 v) /\ value 0 (emit_u8 v) = v.
Proof.
  intros Hv. unfold emit_u8. pose proof (Z.mod_pos_bound v 10 ltac:(lia)). pose proof (Z.div_mod v 10 ltac:(lia)).
  rewrite (wrap_small _ (48 + v mod 10)) by (unfold fits; lia). destruct (Z.leb_spec 10 v); simpl.
  - assert (1 <= v / 10 <= 9) by lia. rewrite wrap_small by (unfold fits; lia).
    split_and!; try lia. repeat constructor; apply is_digit_range; lia.
  - assert (v / 10 = 0) by (apply Z.div_small; lia). split_and!; try lia. repeat constructor; apply is_digit_range; lia.
Qed.

(** ** Literals and tickers *)
Lemma expect_app pre l : expect pre (pre ++ l) = Some l.
Proof. induction pre as [|c pre IH]; simpl; [done|]. by rewrite Z.eqb_refl. Qed.

Lemma until_quote_app t l : QUOTE ∉ t -> until_quote (t ++ QUOTE :: l) = (t, QUOTE :: l).
Proof.
  induction t as [|c t IH]; intros Ht; simpl; [done|].
  destruct (Z.eqb_spec c QUOTE) as [->|]; [set_solver|]. rewrite IH by set_solver. done.
Qed.

Lemma c_string_ok t rest : 0 ∉ t -> c_string (t ++ 0 :: rest) = Some t.
Proof.
  induction t as [|c t IH]; intros Ht; simpl; [done|].
  destruct (Z.eqb_spec c 0) as [->|]; [set_solver|]. by rewrite IH by set_solver.
Qed.

(** The actions a strategy emits. *)
Definition action_ok (a : Action) : Prop :=
  0 <= act_price a <= 99 /\ fits 32 (act_qty a) /\ fits 64 (act_client_id a).

(** A literal that begins with the quote that ends a string. *)
Lemma until_quote_lit t s l :
  QUOTE ∉ t -> hd 0 (lit s) = QUOTE -> until_quote (t ++ lit s ++ l) = (t, lit s ++ l).
Proof.
  intros Ht Hs. destruct (lit s) as [|c cs]; [done|]. simpl in Hs. subst c. simpl. by apply until_quote_app.
Qed.

Lemma read_num_lit ds s l :
  Forall (fun c => is_digit c = true) ds -> is_digit (hd 48 (lit s)) = false ->
  read_num (ds ++ lit s ++ l) 0 = (value 0 ds, lit s ++ l).
Proof.
  intros Hd Hs. apply read_num_value; [done|]. by destruct (lit s) as [|c cs].
Qed.

Lemma read_num_end ds :
  Forall (fun c => is_digit c = true) ds -> read_num (ds ++ lit "}") 0 = (value 0 ds, lit "}").
Proof. intros Hd. by apply read_num_value. Qed.

Lemma message_ok a t :
  action_ok a -> QUOTE ∉ t ->
  exists l, message a t = Some l /\ (length l <= 114 + length t)%nat /\ decode l = Some (wire_of a t).
Proof.
  intros (Hp & Hq & Hid) Ht. unfold message, wire_of.
  destruct (emit_u64_ok (act_qty a)) as (lq & -> & Lq & Dq & Vq); [unfold fits in *; lia|].
  destruct (emit_u64_ok (act_client_id a)) as (li & -> & Li & Di & Vi); [done|].
  destruct (emit_u8_ok (act_price a) Hp) as (Lp & Dp & Vp). cbn [mbind option_bind].
  assert (Hs : (QUOTE ∉ side_name (act_side a)) /\ (length (side_name (act_side a)) <= 3)%nat).
  { destruct (act_side a); split; vm_compute; try lia; intros H; repeat (apply elem_of_cons in H as [H|H]; [done|]);
      by apply not_elem_of_nil in H. }
  destruct Hs as [Hs1 Hs2]. destruct (kind a).
  - eexists. split; [reflexivity|]. split.
    + rewrite !length_app.
      assert (length (lit "{'action':'place','ticker':'") = 28 /\ length (lit "','side':'") = 10 /\
        length (lit "','price':") = 10 /\ length (lit ",'qty':") = 7 /\ length (lit ",'client_id':") = 13 /\
        length (lit "}") = 1)%nat as (-> & -> & -> & -> & -> & ->) by done. lia.
    + unfold decode. rewrite expect_app. unfold decode_place.
      rewrite until_quote_lit by done. rewrite expect_app. cbn [mbind option_bind].
      rewrite until_quote_lit by done.
      assert ((if decide (side_name (act_side a) = lit "yes") then Some YES
               else if decide (side_name (act_side a) = lit "no") then Some NO else None) = Some (act_side a)) as ->
        by (by destruct (act_side a)).
      cbn [mbind option_bind]. rewrite expect_app. cbn [mbind option_bind].
      rewrite read_num_lit by done. rewrite expect_app. cbn [mbind option_bind].
      rewrite read_num_lit by done. rewrite expect_app. cbn [mbind option_bind].
      rewrite read_num_end by done. rewrite Vp, Vq, Vi. by rewrite decide_True.
  - eexists. split; [reflexivity|]. split.
    + rewrite !length_app.
      assert (length (lit "{'action':'cancel','ticker':'") = 29 /\ length (lit "','client_id':") = 14 /\
        length (lit "}") = 1)%nat as (-> & -> & ->) by done. lia.
    + unfold decode.
      assert (forall l, expect (lit "{'action':'place','ticker':'") (lit "{'action':'cancel','ticker':'" ++ l) = None) as ->
        by done.
      rewrite expect_app. cbn [mbind option_bind]. unfold decode_cancel.
      rewrite until_quote_lit by done. rewrite expect_app. cbn [mbind option_bind].
      rewrite read_num_end by done. rewrite Vi. by rewrite decide_True.
Qed.

Lemma serialize_ok (a : Action) (t pad : list Z) (cap : Z) :
  action_ok a -> QUOTE ∉ t -> 0 ∉ t -> (length t <= 31)%nat -> 256 <= cap ->
  exists n out, serialize_action a (t ++ 0 :: pad) cap = Some (n, out) /\
    n = Z.of_nat (length out) /\ 0 < n <= 145 /\ decode out = Some (wire_of a t).
Proof.
  intros Ha Hq Hz Hlen Hcap. unfold serialize_action. rewrite (proj2 (Z.ltb_ge _ _)) by lia.
  rewrite c_string_ok by done. destruct (message_ok a t Ha Hq) as (l & Hm & Hl & Hd). cbn [mbind option_bind].
  rewrite Hm. cbn [mbind option_bind]. rewrite (proj2 (Z.leb_le _ _)) by lia.
  do 2 eexists. split; [done|]. split_and!; [done| |lia|done]. destruct l; [done|simpl; lia].
Qed.

(** C26. The wire format is lossless and fits its buffer: for every action of the
    strategy (price at most 99, 32-bit quantity, 64-bit id) and every ticker of at most
    31 characters without a quote, a buffer of at least 256 bytes is not overrun, the
    returned size is the number of bytes written, and the bytes determine ticker, side,
    price, quantity and id. *)
Theorem serialize_roundtrip (a : Action) (t pad : list Z) (cap : Z) :
  action_ok a -> QUOTE ∉ t -> 0 ∉ t -> (length t <= 31)%nat -> 256 <= cap ->
  exists n out, serialize_action a (t ++ 0 :: pad) cap = Some (n, out) /\
    n = Z.of_nat (length out) /\ 0 < n <= 145 /\ decode out = Some (wire_of a t).
Proof. apply serialize_ok. Qed.

Lemma serialize_roundtrip_witness :
  exists n out, serialize_action (mkAction PLACE YES 42 10 (2 ^ 64 - 1)) (codes "DEMO-1" ++ 0 :: [7; 7]) 256 = Some (n, out) /\
    n = Z.of_nat (length out) /\ 0 < n <= 145 /\
    decode out = Some (WPlace (codes "DEMO-1") YES 42 10 (2 ^ 64 - 1)).
Proof.
  apply (serialize_roundtrip (mkAction PLACE YES 42 10 (2 ^ 64 - 1)) (codes "DEMO-1") [7; 7] 256);
    [repeat split; vm_compute; congruence| | |vm_compute; lia|lia];
    (intros H; vm_compute in H; repeat (apply elem_of_cons in H as [H|H]; [done|]); by apply not_elem_of_nil in H).
Defined.

(** The refusal: a buffer of fewer than 256 bytes is left alone and the size is zero. *)
Theorem serialize_small_buffer (a : Action) (ticker : list Z) (cap : Z) :
  serialize_action a ticker cap = Some (0, []) <-> cap < 256.
Proof.
  unfold serialize_action. destruct (Z.ltb_spec cap 256); [done|]. split; [|lia]. intros H'. exfalso.
  destruct (c_string ticker) as [t|]; [|done]. cbn [mbind option_bind] in H'.
  destruct (message a t) as [l|] eqn:E; [|done]. cbn [mbind option_bind] in H'.
  destruct (_ <=? _); [|done]. injection H' as _ ->. unfold message in E.
  destruct (kind a); repeat (apply bind_Some in E as (? & _ & E)); discriminate.
Qed.
End Serialize.
