(* ===== verification/Spsc.v ===== *)
(** * [src/core/spsc_queue.h]: the lock-free single-producer single-consumer ring

    First the operations as functions on the queue's fields, proved to implement a
    bounded FIFO across 64-bit wrap-around of the counters.  Then the two threads:
    a step relation with one step per access to shared memory, in which an acquire
    load may return any value of the other thread's counter that is not older than
    the last one it saw.  The counters the threads have acquired order every pair of
    accesses to a slot, so the theorems are those of the release/acquire program. *)
From stdpp Require Import gmap list numbers.
From S2P Require Import Prelude.
Open Scope Z_scope.
Open Scope cpp_scope.

Module Spsc.

Section operations.
  Context {T : Type} `{!Inhabited T}.
  (** [Capacity = 2^cap_log], by the [static_assert]s. *)
  Context (cap_log : Z).

Definition Capacity : Z := 2 ^ cap_log.
Definition mask_ : Z := Capacity - 1.

Record SPSCQueue := mkQueue {
  head_ : Z;
  cached_tail_ : Z;
  tail_ : Z;
  cached_head_ : Z;
  data_ : list T;
}.

Definition make : SPSCQueue := mkQueue 0 0 0 0 (replicate (Z.to_nat Capacity) inhabitant).

Definition slot (c : Z) : nat := Z.to_nat (Z.land c mask_).
Definition is_full (h ct : Z) : bool := h -64 ct =? Capacity.
Definition is_empty (ch t : Z) : bool := ch -64 t =? 0.

Definition set_cached_tail (v : Z) (q : SPSCQueue) : SPSCQueue :=
  mkQueue (head_ q) v (tail_ q) (cached_head_ q) (data_ q).
Definition set_cached_head (v : Z) (q : SPSCQueue) : SPSCQueue :=
  mkQueue (head_ q) (cached_tail_ q) (tail_ q) v (data_ q).
Definition set_data (i : nat) (x : T) (q : SPSCQueue) : SPSCQueue :=
  mkQueue (head_ q) (cached_tail_ q) (tail_ q) (cached_head_ q) (<[i := x]> (data_ q)).
Definition set_head (v : Z) (q : SPSCQueue) : SPSCQueue :=
  mkQueue v (cached_tail_ q) (tail_ q) (cached_head_ q) (data_ q).
Definition set_tail (v : Z) (q : SPSCQueue) : SPSCQueue :=
  mkQueue (head_ q) (cached_tail_ q) v (cached_head_ q) (data_ q).

(** [try_push(const T&)]; [try_push(T&&)] and [try_emplace] do the same to the values,
    [Ownership.v] has what they do to objects. *)
Definition try_push (item : T) (q : SPSCQueue) : bool * SPSCQueue :=
  let h := head_ q in
  let q := if is_full h (cached_tail_ q) then set_cached_tail (tail_ q) q else q in
  if is_full h (cached_tail_ q) then (false, q)
  else (true, set_head (h +64 1) (set_data (slot h) item q)).

(** The check shared by [try_pop], [front] and [pop]. *)
Definition refresh_head (q : SPSCQueue) : SPSCQueue :=
  if is_empty (cached_head_ q) (tail_ q) then set_cached_head (head_ q) q else q.

Definition try_pop (q : SPSCQueue) : option T * SPSCQueue :=
  let t := tail_ q in
  let q := refresh_head q in
  if is_empty (cached_head_ q) t then (None, q)
  else (data_ q !! slot t, set_tail (t +64 1) q).

(** The slot [front] points to. *)
Definition front (q : SPSCQueue) : option nat * SPSCQueue :=
  let t := tail_ q in
  let q := refresh_head q in
  if is_empty (cached_head_ q) t then (None, q) else (Some (slot t), q).

Definition pop (q : SPSCQueue) : bool * SPSCQueue :=
  let t := tail_ q in
  let q := refresh_head q in
  if is_empty (cached_head_ q) t then (false, q) else (true, set_tail (t +64 1) q).

Definition size (q : SPSCQueue) : Z := head_ q -64 tail_ q.
Definition empty (q : SPSCQueue) : bool := size q =? 0.
Definition capacity : Z := Capacity.

(** ** The counters

    [counted q l t ct ch]: [t] elements were consumed in all, the elements [l] follow
    them, and the cached values stand for [ct] consumed and [ch] produced. *)
Record counted (q : SPSCQueue) (l : list T) (t ct ch : Z) : Prop := {
  cn_nonneg : 0 <= ct;
  cn_tail : ct <= t;
  cn_head : t <= ch <= t + Z.of_nat (length l);
  cn_room : t + Z.of_nat (length l) - ct <= Capacity;
  cn_head_ : head_ q = u64 (t + Z.of_nat (length l));
  cn_tail_ : tail_ q = u64 t;
  cn_cached_tail : cached_tail_ q = u64 ct;
  cn_cached_head : cached_head_ q = u64 ch;
  cn_length : length (data_ q) = Z.to_nat Capacity;
  cn_data i x : l !! i = Some x -> data_ q !! Z.to_nat ((t + Z.of_nat i) mod Capacity) = Some x;
}.
Definition holds (q : SPSCQueue) (l : list T) : Prop := exists t ct ch, counted q l t ct ch.
End operations.

Arguments SPSCQueue T : clear implicits.

Section proofs.
  Context {T : Type} `{!Inhabited T} (cap_log : Z) (Hcap : 0 <= cap_log <= 63).
  Abbreviation C := (Capacity cap_log).
  Implicit Types (q : SPSCQueue T) (l : list T).

Lemma capacity_bounds : 1 <= C <= 2 ^ 63.
Proof.
  unfold Capacity. split; [change 1 with (2 ^ 0); apply Z.pow_le_mono_r; lia|apply Z.pow_le_mono_r; lia].
Qed.

(** Differences of wrapped counters are exact while they are small. *)
Lemma wrap_sub a b d : 0 <= a - b <= C -> 0 <= d <= C -> (u64 a -64 u64 b =? d) = bool_decide (a - b = d).
Proof.
  intros Hab Hd. pose proof capacity_bounds. unfold wrap. rewrite <- Zminus_mod, Z.mod_small by lia.
  case_bool_decide; [by apply Z.eqb_eq|by apply Z.eqb_neq].
Qed.

Lemma wrap_succ a : u64 a +64 1 = u64 (a + 1).
Proof. unfold wrap. by rewrite Zplus_mod_idemp_l. Qed.

Lemma slot_wrap a : slot cap_log (u64 a) = Z.to_nat (a mod C).
Proof. unfold slot, mask_, Capacity. by rewrite land_mask_wrap by lia. Qed.

Lemma slot_ne a b : 0 < b - a < C -> Z.to_nat (a mod C) ≠ Z.to_nat (b mod C).
Proof.
  intros Hab E. pose proof (Z.mod_pos_bound a C). pose proof (Z.mod_pos_bound b C).
  assert (a mod C = b mod C) as E' by lia.
  assert ((b - a) mod C = 0) as E2 by (rewrite Zminus_mod, E', Z.sub_diag; done).
  rewrite Z.mod_small in E2 by lia. lia.
Qed.

Lemma slot_bound a : (Z.to_nat (a mod C) < Z.to_nat C)%nat.
Proof. pose proof capacity_bounds. pose proof (Z.mod_pos_bound a C). lia. Qed.

(** ** The memory accesses of an operation *)
Lemma counted_refresh_tail q l t ct ch v :
  counted cap_log q l t ct ch -> ct <= v <= t -> counted cap_log (set_cached_tail (u64 v) q) l t v ch.
Proof. intros [] Hv. split; try done; lia. Qed.

Lemma counted_refresh_head q l t ct ch v :
  counted cap_log q l t ct ch -> ch <= v <= t + Z.of_nat (length l) ->
  counted cap_log (set_cached_head (u64 v) q) l t ct v.
Proof. intros [] Hv. split; try done; lia. Qed.

Lemma counted_write q l t ct ch x :
  counted cap_log q l t ct ch -> t + Z.of_nat (length l) - ct < C ->
  counted cap_log (set_data (slot cap_log (head_ q)) x q) l t ct ch /\
  data_ (set_data (slot cap_log (head_ q)) x q) !! Z.to_nat ((t + Z.of_nat (length l)) mod C) = Some x.
Proof.
  intros [] Hroom. rewrite cn_head_0, slot_wrap. split.
  - split; try done; simpl; [by rewrite length_insert|]. intros i y Hy. rewrite list_lookup_insert_ne; [by apply cn_data0|].
    apply lookup_lt_Some in Hy. apply not_eq_sym, slot_ne. lia.
  - simpl. apply list_lookup_insert_eq. rewrite cn_length0. apply slot_bound.
Qed.

Lemma counted_publish q l t ct ch x :
  counted cap_log q l t ct ch -> t + Z.of_nat (length l) - ct < C ->
  data_ q !! Z.to_nat ((t + Z.of_nat (length l)) mod C) = Some x ->
  counted cap_log (set_head (head_ q +64 1) q) (l ++ [x]) t ct ch.
Proof.
  intros [] Hroom Hx. split; try done; rewrite ?length_app; simpl; try lia.
  - rewrite cn_head_0, wrap_succ. f_equal. lia.
  - intros i y [Hy|[Hi Hy]]%lookup_app_Some; [by apply cn_data0|].
    apply list_lookup_singleton_Some in Hy as [Hz <-]. replace i with (length l) by lia. done.
Qed.

Lemma counted_consume q l t ct ch :
  counted cap_log q l t ct ch -> t < ch ->
  exists x l', l = x :: l' /\ data_ q !! slot cap_log (tail_ q) = Some x /\
    counted cap_log (set_tail (tail_ q +64 1) q) l' (t + 1) ct ch.
Proof.
  intros [] Hlt. destruct l as [|x l']; [simpl in *; lia|]. exists x, l'. split; [done|]. split.
  - rewrite cn_tail_0, slot_wrap. specialize (cn_data0 0%nat x eq_refl). by rewrite Z.add_0_r in cn_data0.
  - simpl in *. split; simpl; try done; try lia.
    + rewrite cn_head_0. f_equal. lia.
    + by rewrite cn_tail_0, wrap_succ.
    + intros i y Hy. specialize (cn_data0 (S i) y Hy). replace (t + 1 + Z.of_nat i) with (t + Z.of_nat (S i)) by lia. done.
Qed.

Lemma counted_full q l t ct ch :
  counted cap_log q l t ct ch ->
  is_full cap_log (head_ q) (cached_tail_ q) = bool_decide (t + Z.of_nat (length l) - ct = C).
Proof.
  intros []. pose proof (capacity_bounds). unfold is_full. rewrite cn_head_0, cn_cached_tail0. apply wrap_sub; lia.
Qed.

Lemma counted_empty q l t ct ch :
  counted cap_log q l t ct ch -> is_empty (cached_head_ q) (tail_ q) = bool_decide (ch = t).
Proof.
  intros []. pose proof (capacity_bounds). unfold is_empty. rewrite cn_tail_0, cn_cached_head0.
  rewrite (wrap_sub ch t 0) by lia. apply bool_decide_ext. lia.
Qed.

(** ** One thread *)
Lemma make_holds : holds cap_log (make cap_log : SPSCQueue T) [].
Proof.
  exists 0, 0, 0. pose proof capacity_bounds. split; simpl; try done; try lia. by rewrite length_replicate.
Qed.

Lemma push_holds q l x :
  holds cap_log q l ->
  if decide (Z.of_nat (length l) < C)
  then exists q', try_push cap_log x q = (true, q') /\ holds cap_log q' (l ++ [x])
  else exists q', try_push cap_log x q = (false, q') /\ holds cap_log q' l.
Proof.
  intros (t & ct & ch & HC). unfold try_push.
  set (q1 := if is_full _ _ _ then _ else q).
  assert (exists ct1, counted cap_log q1 l t ct1 ch /\ head_ q1 = head_ q /\
            (t + Z.of_nat (length l) - ct1 = C -> ct1 = t)) as (ct1 & HC1 & Hh & Hct).
  { unfold q1. rewrite (counted_full q l t ct ch HC). case_bool_decide.
    - exists t. rewrite (cn_tail_ _ _ _ _ _ _ HC). split_and!; try done.
      apply counted_refresh_tail with ct; [done|]. pose proof (cn_tail _ _ _ _ _ _ HC). lia.
    - exists ct. done. }
  rewrite <- Hh, (counted_full q1 l t ct1 ch HC1). pose proof (cn_room _ _ _ _ _ _ HC1). pose proof (cn_tail _ _ _ _ _ _ HC1).
  case_decide; case_bool_decide; try lia.
  - destruct (counted_write q1 l t ct1 ch x HC1) as [HC2 Hx]; [lia|]. eexists. split; [done|].
    exists t, ct1, ch. eapply counted_publish in HC2; [exact HC2|lia|exact Hx].
  - eexists. split; [done|]. by exists t, ct1, ch.
Qed.

(** The consumer's check. *)
Lemma refresh_counted q l t ct ch :
  counted cap_log q l t ct ch ->
  exists ch1, counted cap_log (refresh_head q) l t ct ch1 /\ tail_ (refresh_head q) = tail_ q /\ (ch1 = t <-> l = []).
Proof.
  intros HC. unfold refresh_head. rewrite (counted_empty q l t ct ch HC).
  pose proof (cn_head _ _ _ _ _ _ HC) as Hh. case_bool_decide.
  - exists (t + Z.of_nat (length l)). rewrite (cn_head_ _ _ _ _ _ _ HC). split_and!; [|done|].
    + apply counted_refresh_head with ch; [done|]. lia.
    + destruct l; simpl; split; (done || lia).
  - exists ch. split_and!; [done..|]. destruct l; simpl in *; split; (done || lia).
Qed.

Lemma pop_holds q l :
  holds cap_log q l ->
  match l with
  | [] => exists q', try_pop cap_log q = (None, q') /\ pop q = (false, q') /\ front cap_log q = (None, q') /\ holds cap_log q' []
  | x :: l' => exists q' q'' i, try_pop cap_log q = (Some x, q') /\ pop q = (true, q') /\ holds cap_log q' l' /\
      front cap_log q = (Some i, q'') /\ data_ q'' !! i = Some x /\ holds cap_log q'' l
  end.
Proof.
  intros (t & ct & ch & HC). destruct (refresh_counted q l t ct ch HC) as (ch1 & HC1 & Ht & Hnil).
  unfold try_pop, pop, front. rewrite <- Ht, (counted_empty _ l t ct ch1 HC1).
  pose proof (cn_head _ _ _ _ _ _ HC1). case_bool_decide as Hd.
  - apply Hnil in Hd as ->. eexists. split_and!; try done. by exists t, ct, ch1.
  - destruct (counted_consume _ l t ct ch1 HC1) as (x & l' & -> & Hx & HC2); [lia|].
    rewrite Hx. do 3 eexists. split_and!; try done; [by exists (t + 1), ct, ch1|by exists t, ct, ch1].
Qed.

Lemma size_holds q l : holds cap_log q l -> size q = Z.of_nat (length l) /\ (empty q = true <-> l = []).
Proof.
  intros (t & ct & ch & []). pose proof capacity_bounds. unfold empty, size. rewrite cn_head_0, cn_tail_0.
  unfold wrap. rewrite <- Zminus_mod, Z.mod_small by lia. split; [lia|].
  rewrite Z.eqb_eq. destruct l; simpl; [split; [done|lia]|]. split; [lia|done].
Qed.
End proofs.


(** ** Two threads *)
Section threads.
  Context {T : Type} `{!Inhabited T} (cap_log : Z).

(** Where the producer is inside [try_push(item)] and the consumer inside its call.
    [h] and [t] are the locals of the same names. *)
Inductive producer :=
| PIdle
| PLoad (item : T) (h : Z)
| PWrite (item : T) (h : Z)
| PStore (item : T) (h : Z).

Inductive call := TryPop | Front | Pop.
Inductive consumer :=
| CIdle
| CLoad (c : call) (t : Z)
| CRead (c : call) (t : Z)
| CStore (t : Z).

(** The queue, both threads, the modification orders of the two atomics with the
    last entry of the other's order each thread has read, and the history: items
    whose push has returned, and the items the consumer has read with their
    positions. *)
Record sys := mkSys {
  q : SPSCQueue T;
  pp : producer;
  cp : consumer;
  mo_head : list Z;
  mo_tail : list Z;
  seen_head : nat;
  seen_tail : nat;
  pushed : list T;
  reads : list (nat * T);
}.

Definition init : sys := mkSys (make cap_log) PIdle CIdle [0] [0] 0 0 [] [].

Definition after_producer_check (item : T) (h ct : Z) (full_pc : producer) : producer :=
  if is_full cap_log h ct then full_pc else PWrite item h.
Definition after_consumer_check (c : call) (t ch : Z) (empty_pc : consumer) : consumer :=
  if is_empty ch t then empty_pc else match c with Pop => CStore t | _ => CRead c t end.

Inductive producer_step : sys -> sys -> Prop :=
| p_call item q cp mh mt sh st ps rs :
    (* h = head_.load(relaxed); h - cached_tail_ == Capacity? *)
    producer_step (mkSys q PIdle cp mh mt sh st ps rs)
      (mkSys q (after_producer_check item (head_ q) (cached_tail_ q) (PLoad item (head_ q))) cp mh mt sh st ps rs)
| p_load item h v i q cp mh mt sh st ps rs :
    (* cached_tail_ = tail_.load(acquire); full: return false *)
    (st <= i)%nat -> mt !! i = Some v ->
    producer_step (mkSys q (PLoad item h) cp mh mt sh st ps rs)
      (mkSys (set_cached_tail v q) (after_producer_check item h v PIdle) cp mh mt sh i ps rs)
| p_write item h q cp mh mt sh st ps rs :
    (* data_[h & mask_] = item *)
    producer_step (mkSys q (PWrite item h) cp mh mt sh st ps rs)
      (mkSys (set_data (slot cap_log h) item q) (PStore item h) cp mh mt sh st ps rs)
| p_store item h q cp mh mt sh st ps rs :
    (* head_.store(h + 1, release); return true *)
    producer_step (mkSys q (PStore item h) cp mh mt sh st ps rs)
      (mkSys (set_head (h +64 1) q) PIdle cp (mh ++ [h +64 1]) mt sh st (ps ++ [item]) rs).

Inductive consumer_step : sys -> sys -> Prop :=
| c_call c q pp mh mt sh st ps rs :
    (* t = tail_.load(relaxed); cached_head_ - t == 0? *)
    consumer_step (mkSys q pp CIdle mh mt sh st ps rs)
      (mkSys q pp (after_consumer_check c (tail_ q) (cached_head_ q) (CLoad c (tail_ q))) mh mt sh st ps rs)
| c_load c t v i q pp mh mt sh st ps rs :
    (* cached_head_ = head_.load(acquire); empty: return *)
    (sh <= i)%nat -> mh !! i = Some v ->
    consumer_step (mkSys q pp (CLoad c t) mh mt sh st ps rs)
      (mkSys (set_cached_head v q) pp (after_consumer_check c t v CIdle) mh mt i st ps rs)
| c_read c t x q pp mh mt sh st ps rs :
    (* item = std::move(data_[t & mask_]), or the access through front()'s pointer *)
    data_ q !! slot cap_log t = Some x ->
    consumer_step (mkSys q pp (CRead c t) mh mt sh st ps rs)
      (mkSys q pp (match c with TryPop => CStore t | _ => CIdle end) mh mt sh st ps
         (rs ++ [(length mt - 1, x)%nat]))
| c_store t q pp mh mt sh st ps rs :
    (* tail_.store(t + 1, release); return true *)
    consumer_step (mkSys q pp (CStore t) mh mt sh st ps rs)
      (mkSys (set_tail (t +64 1) q) pp CIdle mh (mt ++ [t +64 1]) sh st ps rs).

Definition step (s s' : sys) : Prop := producer_step s s' \/ consumer_step s s'.

(** ** The invariant *)
Definition mo_ok (mo : list Z) (n : Z) : Prop :=
  Z.of_nat (length mo) = n + 1 /\ forall i v, mo !! i = Some v -> v = u64 (Z.of_nat i).

Definition producer_ok (s : sys) (l : list T) (t ct : Z) : Prop :=
  let n := t + Z.of_nat (length l) in
  match pp s with
  | PIdle => True
  | PLoad item h => h = head_ (q s)
  | PWrite item h => h = head_ (q s) /\ n - ct < Capacity cap_log
  | PStore item h => h = head_ (q s) /\ n - ct < Capacity cap_log /\
      data_ (q s) !! Z.to_nat (n mod Capacity cap_log) = Some item
  end.
Definition consumer_ok (s : sys) (t ch : Z) : Prop :=
  match cp s with
  | CIdle => True
  | CLoad c v => v = tail_ (q s)
  | CRead c v => v = tail_ (q s) /\ t < ch
  | CStore v => v = tail_ (q s) /\ t < ch
  end.

Record inv (s : sys) (done l : list T) (ct ch : Z) : Prop := {
  i_counted : counted cap_log (q s) l (Z.of_nat (length done)) ct ch;
  i_pushed : pushed s = done ++ l;
  i_mo_head : mo_ok (mo_head s) (Z.of_nat (length (pushed s)));
  i_mo_tail : mo_ok (mo_tail s) (Z.of_nat (length done));
  i_seen_head : Z.of_nat (seen_head s) = ch;
  i_seen_tail : Z.of_nat (seen_tail s) = ct;
  i_reads : Forall (fun r => pushed s !! r.1 = Some r.2) (reads s);
  i_producer : producer_ok s l (Z.of_nat (length done)) ct;
  i_consumer : consumer_ok s (Z.of_nat (length done)) ch;
}.
End threads.
Arguments sys T : clear implicits.

Section safety.
  Context {T : Type} `{!Inhabited T} (cap_log : Z) (Hcap : 0 <= cap_log <= 63).
  Abbreviation C := (Capacity cap_log).
  Implicit Types (s : sys T) (l : list T).

Lemma mo_ok_snoc mo n : mo_ok mo n -> mo_ok (mo ++ [u64 n +64 1]) (n + 1).
Proof.
  intros [Hl Hv]. split; [rewrite length_app; simpl; lia|]. intros i v [H|[Hi H]]%lookup_app_Some; [by apply Hv|].
  apply list_lookup_singleton_Some in H as [Hz <-]. rewrite wrap_succ. f_equal. lia.
Qed.

Lemma mo_ok_range mo n i v : mo_ok mo n -> mo !! i = Some v -> v = u64 (Z.of_nat i) /\ Z.of_nat i <= n.
Proof. intros [Hl Hv] H. split; [by apply Hv|]. apply lookup_lt_Some in H. lia. Qed.

Lemma producer_step_inv s s' done l ct ch :
  producer_step cap_log s s' -> inv cap_log s done l ct ch ->
  exists l' ct', inv cap_log s' done l' ct' ch.
Proof.
  intros Hs [HC HP HMH HMT HSH HST HR Hpr Hco]. destruct Hs as [item q cp mh mt sh st ps rs|item h v i q cp mh mt sh st ps rs Hi Hv|item h q cp mh mt sh st ps rs|item h q cp mh mt sh st ps rs]; simpl in *.
  - exists l, ct. split; try done. simpl.
    unfold after_producer_check. rewrite (counted_full cap_log Hcap _ _ _ _ _ HC). case_bool_decide; [done|].
    unfold producer_ok; simpl. split; [done|]. pose proof (cn_room _ _ _ _ _ _ HC). lia.
  - destruct (mo_ok_range _ _ _ _ HMT Hv) as [-> Hit]. unfold producer_ok in Hpr. simpl in Hpr. subst h.
    assert (HC' : counted cap_log (set_cached_tail (u64 (Z.of_nat i)) q) l (Z.of_nat (length done)) (Z.of_nat i) ch)
      by (apply (counted_refresh_tail cap_log) with ct; [done|lia]).
    exists l, (Z.of_nat i). split; try done. simpl.
    unfold after_producer_check. rewrite (counted_full cap_log Hcap _ _ _ _ _ HC' : is_full cap_log (head_ q) (u64 (Z.of_nat i)) = _).
    case_bool_decide; [done|]. unfold producer_ok; simpl. split; [done|]. pose proof (cn_room _ _ _ _ _ _ HC'). lia.
  - destruct Hpr as [-> Hroom]. destruct (counted_write cap_log Hcap _ _ _ _ _ item HC Hroom) as [HC' Hx].
    exists l, ct. split; try done.
  - destruct Hpr as (-> & Hroom & Hx). pose proof (counted_publish cap_log _ _ _ _ _ _ HC Hroom Hx) as HC'.
    exists (l ++ [item]), ct. subst ps. split; simpl; try done.
    + by rewrite app_assoc.
    + rewrite (cn_head_ _ _ _ _ _ _ HC). rewrite !length_app in *. simpl. replace (Z.of_nat (length done + length l + 1)) with (Z.of_nat (length done + length l) + 1) by lia.
      replace (Z.of_nat (length done) + Z.of_nat (length l)) with (Z.of_nat (length done + length l)) by lia. by apply mo_ok_snoc.
    + eapply list.Forall_impl; [exact HR|]. intros r Hr. by apply lookup_app_l_Some.
Qed.

Lemma consumer_step_inv s s' done l ct ch :
  consumer_step cap_log s s' -> inv cap_log s done l ct ch ->
  exists done' l' ch', inv cap_log s' done' l' ct ch'.
Proof.
  intros Hs [HC HP HMH HMT HSH HST HR Hpr Hco]. destruct Hs as [c q pp mh mt sh st ps rs|c t v i q pp mh mt sh st ps rs Hi Hv|c t x q pp mh mt sh st ps rs Hx|t q pp mh mt sh st ps rs]; simpl in *.
  - exists done, l, ch. split; try done. simpl. unfold after_consumer_check.
    rewrite (counted_empty cap_log Hcap _ _ _ _ _ HC). pose proof (cn_head _ _ _ _ _ _ HC).
    case_bool_decide; [done|]. unfold consumer_ok; simpl. destruct c; simpl; (split; [done|lia]).
  - destruct (mo_ok_range _ _ _ _ HMH Hv) as [-> Hit]. unfold consumer_ok in Hco. simpl in Hco. subst t.
    assert (HC' : counted cap_log (set_cached_head (u64 (Z.of_nat i)) q) l (Z.of_nat (length done)) ct (Z.of_nat i)).
    { apply (counted_refresh_head cap_log) with ch; [done|]. subst ps. rewrite length_app in Hit. lia. }
    exists done, l, (Z.of_nat i). split; try done. simpl. unfold after_consumer_check.
    rewrite (counted_empty cap_log Hcap _ _ _ _ _ HC' : is_empty (u64 (Z.of_nat i)) (tail_ q) = _).
    pose proof (cn_head _ _ _ _ _ _ HC'). case_bool_decide; [done|].
    unfold consumer_ok; simpl. destruct c; simpl; (split; [done|lia]).
  - destruct Hco as [Ht Hlt]; simpl in Ht; subst t. exists done, l, ch. split; try done; simpl.
    + apply Forall_app. split; [done|]. apply Forall_singleton. simpl.
      destruct (counted_consume cap_log Hcap _ _ _ _ _ HC Hlt) as (y & l' & -> & Hy & _).
      assert (x = y) as -> by congruence. subst ps. destruct HMT as [Hlen _].
      replace (length mt - 1)%nat with (length done) by lia. by rewrite lookup_app_r, Nat.sub_diag by lia.
    + unfold consumer_ok; simpl. by destruct c.
  - destruct Hco as [Ht Hlt]; simpl in Ht; subst t. destruct (counted_consume cap_log Hcap _ _ _ _ _ HC Hlt) as (y & l' & -> & Hy & HC').
    exists (done ++ [y]), l', ch.
    assert (Z.of_nat (length (done ++ [y])) = Z.of_nat (length done) + 1) as Hd by (rewrite length_app; simpl; lia).
    split; simpl; rewrite ?Hd; try done.
    + by rewrite <- app_assoc.
    + rewrite (cn_tail_ _ _ _ _ _ _ HC). by apply mo_ok_snoc.
    + unfold producer_ok in *. simpl in *. destruct pp; try done.
      * replace (Z.of_nat (length done) + 1 + Z.of_nat (length l')) with (Z.of_nat (length done) + Z.of_nat (S (length l'))) by lia. done.
      * replace (Z.of_nat (length done) + 1 + Z.of_nat (length l')) with (Z.of_nat (length done) + Z.of_nat (S (length l'))) by lia. done.
Qed.

Lemma init_inv : inv cap_log (init cap_log : sys T) [] [] 0 0.
Proof.
  pose proof (capacity_bounds cap_log Hcap). split; simpl; try done.
  - split; simpl; try done; try lia. by rewrite length_replicate.
  - split; [done|]. intros [|i] v; simpl; [by intros [= <-]|done].
  - split; [done|]. intros [|i] v; simpl; [by intros [= <-]|done].
Qed.

Lemma reachable_inv s : rtc (step cap_log) (init cap_log) s -> exists done l ct ch, inv cap_log s done l ct ch.
Proof.
  intros Hs. cut (forall s0, rtc (step cap_log) s0 s -> (exists done l ct ch, inv cap_log s0 done l ct ch) ->
    exists done l ct ch, inv cap_log s done l ct ch).
  { intros H. apply (H (init cap_log)); [done|]. exists [], [], 0, 0. apply init_inv. }
  clear Hs. induction 1 as [|s1 s2 s3 [H|H] _ IH]; [done| |]; intros (done & l & ct & ch & Hi); apply IH.
  - destruct (producer_step_inv _ _ _ _ _ _ H Hi) as (l' & ct' & Hi'). eauto.
  - destruct (consumer_step_inv _ _ _ _ _ _ H Hi) as (d' & l' & ch' & Hi'). eauto 10.
Qed.
End safety.

(** C16. Used by one thread, the ring is a bounded FIFO, whatever the counters' values
    (64-bit wrap-around included): [try_push] appends and fails exactly when [Capacity]
    items are stored, [try_pop], [front] and [pop] see the oldest item and fail exactly
    when there is none, and [size] is the number of items. *)
Theorem spsc_sequential {T} `{!Inhabited T} (cap_log : Z) (q : SPSCQueue T) (l : list T) (x : T) :
  0 <= cap_log <= 63 -> holds cap_log q l ->
  (if decide (Z.of_nat (length l) < Capacity cap_log)
   then exists q', try_push cap_log x q = (true, q') /\ holds cap_log q' (l ++ [x])
   else exists q', try_push cap_log x q = (false, q') /\ holds cap_log q' l) /\
  match l with
  | [] => exists q', try_pop cap_log q = (None, q') /\ pop q = (false, q') /\ front cap_log q = (None, q') /\ holds cap_log q' []
  | y :: l' => exists q' q'' i, try_pop cap_log q = (Some y, q') /\ pop q = (true, q') /\ holds cap_log q' l' /\
      front cap_log q = (Some i, q'') /\ data_ q'' !! i = Some y /\ holds cap_log q'' l
  end /\
  size q = Z.of_nat (length l) /\ (empty q = true <-> l = []).
Proof.
  intros Hcap Hq. split_and!; [by apply push_holds|by apply pop_holds|by eapply size_holds|by eapply size_holds].
Qed.

(** A ring of two slots that is full, its counters about to wrap around. *)
Definition wrapping : SPSCQueue Z := mkQueue 1 (2 ^ 64 - 1) (2 ^ 64 - 1) (2 ^ 64 - 1) [22; 11].

Lemma spsc_sequential_witness :
  (exists q', try_push 1 33 wrapping = (false, q') /\ holds 1 q' [11; 22]) /\
  (exists q' q'' i, try_pop 1 wrapping = (Some 11, q') /\ pop wrapping = (true, q') /\ holds 1 q' [22] /\
      front 1 wrapping = (Some i, q'') /\ data_ q'' !! i = Some 11 /\ holds 1 q'' [11; 22]) /\
  size wrapping = 2 /\ (empty wrapping = true <-> [11; 22] = []).
Proof.
  apply (spsc_sequential 1 wrapping [11; 22] 33); [lia|].
  exists (2 ^ 64 - 1), (2 ^ 64 - 1), (2 ^ 64 - 1). apply Build_counted;
    [lia|lia|simpl; lia|unfold Capacity; simpl; lia|vm_compute; reflexivity..|].
  intros [|[|i]] x Hx; [injection Hx as <-; vm_compute; reflexivity..|discriminate].
Defined.

(** C13. First in, first out across threads: in every state the two threads reach, under
    every interleaving and however stale their loads, each item the consumer read at
    position [i] of the stream is the [i]-th item pushed, and never more than [Capacity]
    items are in flight. *)
Theorem spsc_fifo {T} `{!Inhabited T} (cap_log : Z) (s : sys T) :
  0 <= cap_log <= 63 -> rtc (step cap_log) (init cap_log) s ->
  (forall i x, (i, x) ∈ reads s -> pushed s !! i = Some x) /\
  (length (mo_tail s) - 1 <= length (pushed s))%nat /\
  Z.of_nat (length (pushed s)) - Z.of_nat (length (mo_tail s) - 1) <= Capacity cap_log /\
  (forall c t, cp s = CRead c t -> data_ (q s) !! slot cap_log t = pushed s !! (length (mo_tail s) - 1)%nat).
Proof.
  intros Hcap Hs. destruct (reachable_inv cap_log Hcap s Hs) as (done & l & ct & ch & [HC HP HMH HMT HSH HST HR Hpr Hco]).
  destruct HMT as [Hl _]. rewrite HP in *. replace (length (mo_tail s) - 1)%nat with (length done) by lia.
  rewrite length_app. pose proof (cn_room _ _ _ _ _ _ HC). pose proof (cn_tail _ _ _ _ _ _ HC). split_and!; [|lia|lia|].
  - intros i x Hx. rewrite list.Forall_forall in HR. apply (HR _ Hx).
  - intros c t E. unfold consumer_ok in Hco. rewrite E in Hco. destruct Hco as [-> Hlt].
    destruct (counted_consume cap_log Hcap _ _ _ _ _ HC Hlt) as (y & l' & -> & Hy & _).
    by rewrite Hy, lookup_app_r, Nat.sub_diag by lia.
Qed.

(** A run of a one-slot ring: one item pushed, read and popped. *)
Definition demo_sys : sys Z :=
  mkSys (mkQueue 1 0 1 1 [5]) PIdle CIdle [0; 1] [0; 1] 1 0 [5] [(0%nat, 5)].

Lemma demo_sys_reachable : rtc (step 0) (init 0) demo_sys.
Proof.
  eapply rtc_l. { left. apply (p_call 0 5). } eapply rtc_l. { left. apply p_write. } eapply rtc_l. { left. apply p_store. }
  eapply rtc_l. { right. apply (c_call 0 TryPop). } eapply rtc_l. { right. apply (c_load 0 TryPop _ 1 1); [lia|done]. }
  eapply rtc_l. { right. apply (c_read 0 TryPop _ 5). vm_compute. reflexivity. } eapply rtc_l. { right. apply c_store. }
  apply rtc_refl.
Qed.

Lemma spsc_fifo_witness :
  (forall i x, (i, x) ∈ [(0%nat, 5)] -> [5] !! i = Some x) /\ (1 <= 1)%nat /\ 1 - 1 <= 1 /\
  (forall c t, CIdle = CRead c t -> data_ (q demo_sys) !! slot 0 t = [5] !! 1%nat).
Proof. apply (spsc_fifo 0 demo_sys); [lia|apply demo_sys_reachable]. Defined.

(** C14. No data race on the slots: when the producer is about to write and the consumer
    about to read, they access different slots; the position being read was published by
    a store the consumer has acquired, and the position being overwritten was released
    by a store the producer has acquired. *)
Theorem spsc_race_free {T} `{!Inhabited T} (cap_log : Z) (s : sys T) :
  0 <= cap_log <= 63 -> rtc (step cap_log) (init cap_log) s ->
  (forall item h c t, pp s = PWrite item h -> cp s = CRead c t -> slot cap_log h ≠ slot cap_log t) /\
  (forall c t, cp s = CRead c t -> (length (mo_tail s) - 1 < seen_head s)%nat) /\
  (forall item h, pp s = PWrite item h ->
     Z.of_nat (length (pushed s)) - Capacity cap_log < Z.of_nat (seen_tail s)).
Proof.
  intros Hcap Hs. destruct (reachable_inv cap_log Hcap s Hs) as (done & l & ct & ch & [HC HP HMH HMT HSH HST HR Hpr Hco]).
  destruct HMT as [Hl _]. unfold producer_ok, consumer_ok in *.
  pose proof (cn_tail _ _ _ _ _ _ HC). pose proof (cn_head _ _ _ _ _ _ HC). split_and!.
  - intros item h c t Ep Ec. rewrite Ep in Hpr. rewrite Ec in Hco. destruct Hpr as [-> Hroom], Hco as [-> Hlt].
    rewrite (cn_head_ _ _ _ _ _ _ HC), (cn_tail_ _ _ _ _ _ _ HC), !slot_wrap by done.
    apply not_eq_sym, slot_ne. lia.
  - intros c t Ec. rewrite Ec in Hco. lia.
  - intros item h Ep. rewrite Ep in Hpr. rewrite HP, length_app. lia.
Qed.

(** Both threads between the check and the access: a ring of two slots, one item in it. *)
Definition racing_sys : sys Z :=
  mkSys (mkQueue 1 0 0 1 [5; 1]) (PWrite 6 1) (CRead TryPop 0) [0; 1] [0] 1 0 [5] [].

Lemma racing_sys_reachable : rtc (step 1) (init 1) racing_sys.
Proof.
  eapply rtc_l. { left. apply (p_call 1 5). } eapply rtc_l. { left. apply p_write. } eapply rtc_l. { left. apply p_store. }
  eapply rtc_l. { right. apply (c_call 1 TryPop). } eapply rtc_l. { right. apply (c_load 1 TryPop _ 1 1); [lia|done]. }
  eapply rtc_l. { left. apply (p_call 1 6). } apply rtc_refl.
Qed.

Lemma spsc_race_free_witness :
  (forall item h c t, PWrite 6 1 = PWrite item h -> CRead TryPop 0 = CRead c t -> slot 1 h ≠ slot 1 t) /\
  (forall c t, CRead TryPop 0 = CRead c t -> (0 < 1)%nat) /\
  (forall item h, PWrite 6 1 = PWrite item h -> 1 - 2 < 0).
Proof. apply (spsc_race_free 1 racing_sys); [lia|apply racing_sys_reachable]. Defined.

(** Accesses a call still has to make. *)
Definition producer_rank {T} (p : producer (T := T)) : nat :=
  match p with PIdle => 0 | PStore _ _ => 1 | PWrite _ _ => 2 | PLoad _ _ => 3 end.
Definition consumer_rank (c : consumer) : nat :=
  match c with CIdle => 0 | CStore _ => 1 | CRead _ _ => 2 | CLoad _ _ => 3 end.

(** C15. Wait-freedom: in every reachable state each thread can take its next step whatever
    the other does, every step inside a call brings the call at least one access closer
    to its return, and a step of one thread leaves the other where it is. *)
Theorem spsc_wait_free {T} `{!Inhabited T} (cap_log : Z) (s : sys T) :
  0 <= cap_log <= 63 -> rtc (step cap_log) (init cap_log) s ->
  (exists s', producer_step cap_log s s') /\ (exists s', consumer_step cap_log s s') /\
  (forall s', producer_step cap_log s s' -> cp s' = cp s /\
     (pp s ≠ PIdle -> (producer_rank (pp s') < producer_rank (pp s))%nat)) /\
  (forall s', consumer_step cap_log s s' -> pp s' = pp s /\
     (cp s ≠ CIdle -> (consumer_rank (cp s') < consumer_rank (cp s))%nat)).
Proof.
  intros Hcap Hs. destruct (reachable_inv cap_log Hcap s Hs) as (done & l & ct & ch & [HC HP HMH HMT HSH HST HR Hpr Hco]).
  pose proof (cn_tail _ _ _ _ _ _ HC) as Ht. pose proof (cn_head _ _ _ _ _ _ HC) as Hh.
  split_and!.
  - destruct s as [q0 pc cc mh mt sh st ps rs]; simpl in *. destruct pc.
    + eexists. apply (p_call cap_log inhabitant).
    + destruct HMT as [Hl _]. destruct (lookup_lt_is_Some_2 mt st) as [v Hv]; [lia|]. eexists. by eapply p_load.
    + eexists. apply p_write.
    + eexists. apply p_store.
  - destruct s as [q0 pc cc mh mt sh st ps rs]; simpl in *. destruct cc.
    + eexists. apply (c_call cap_log TryPop).
    + destruct HMH as [Hl _]. subst ps. rewrite length_app in Hl.
      destruct (lookup_lt_is_Some_2 mh sh) as [v Hv]; [lia|]. eexists. by eapply c_load.
    + destruct Hco as [-> Hlt]. destruct (counted_consume cap_log Hcap _ _ _ _ _ HC Hlt) as (y & l' & _ & Hy & _).
      eexists. by apply (c_read cap_log _ _ y).
    + eexists. apply c_store.
  - intros s'. destruct 1; simpl; (split; [done|]); unfold after_producer_check; intros Hne; try done; try lia.
    destruct (is_full _ _ _); simpl; lia.
  - intros s'. destruct 1; simpl; (split; [done|]); unfold after_consumer_check; intros Hne; try done; try lia;
      destruct c; simpl; try lia; destruct (is_empty _ _); simpl; lia.
Qed.

Lemma spsc_wait_free_witness :
  (exists s', producer_step 1 racing_sys s') /\ (exists s', consumer_step 1 racing_sys s') /\
  (forall s', producer_step 1 racing_sys s' -> cp s' = cp racing_sys /\
     (pp racing_sys ≠ PIdle -> (producer_rank (pp s') < producer_rank (pp racing_sys))%nat)) /\
  (forall s', consumer_step 1 racing_sys s' -> pp s' = pp racing_sys /\
     (cp racing_sys ≠ CIdle -> (consumer_rank (cp s') < consumer_rank (cp racing_sys))%nat)).
Proof. apply (spsc_wait_free 1 racing_sys); [lia|apply racing_sys_reachable]. Defined.

End Spsc.
