(* ===== verification/Ownership.v ===== *)
(** * The ring with elements that own a resource

    [SPSCQueue<T>] ([src/src/core/spsc_queue.h]) is a template: its pushes differ in what
    they do to the object that is already in the slot.  [try_push] assigns to it, which
    releases what it owns; [try_emplace] constructs a new object over it without
    destroying it.  [try_pop] moves the element out; [pop] only advances the counter.
    Here [T] is a handle such as [std::unique_ptr]: [Some r] owns the resource [r], [None]
    is empty or moved from.  The counters are those of [Spsc.v]. *)
From stdpp Require Import gmap list numbers sorting.
From S2P Require Import Prelude Spsc.
Open Scope Z_scope.
Open Scope cpp_scope.

Module Ownership.
Import Spsc.

Section operations.
  Context {R : Type} (cap_log : Z).
#[local] Instance handle_inhabited : Inhabited (option R) := populate None.

(** [freed]: released by an assignment or a destructor; [lost]: overwritten without;
    [given] and [got]: accepted from the producer and handed to the consumer. *)
Record ring := mkRing {
  queue : SPSCQueue (option R);
  freed : list R;
  lost : list R;
  given : list R;
  got : list R;
}.

Definition fresh : ring := mkRing (make cap_log) [] [] [] [].

Definition owned (x : option (option R)) : list R := option_list (mjoin x).

(** The full check of the three pushes. *)
Definition refresh_tail (q : SPSCQueue (option R)) : SPSCQueue (option R) :=
  if is_full cap_log (head_ q) (cached_tail_ q) then set_cached_tail (tail_ q) q else q.

(** [data_[h & mask_] = std::move(item)]; a refused item stays with the caller. *)
Definition try_push_move (item : option R) (o : ring) : bool * ring :=
  let h := head_ (queue o) in
  let q := refresh_tail (queue o) in
  if is_full cap_log h (cached_tail_ q) then (false, mkRing q (freed o) (lost o) (given o) (got o))
  else (true, mkRing (set_head (h +64 1) (set_data (slot cap_log h) item q))
                (freed o ++ owned (data_ q !! slot cap_log h)) (lost o) (given o ++ option_list item) (got o)).

(** [new (&data_[h & mask_]) T(args...)] *)
Definition try_emplace (item : option R) (o : ring) : bool * ring :=
  let h := head_ (queue o) in
  let q := refresh_tail (queue o) in
  if is_full cap_log h (cached_tail_ q) then (false, mkRing q (freed o) (lost o) (given o) (got o))
  else (true, mkRing (set_head (h +64 1) (set_data (slot cap_log h) item q))
                (freed o) (lost o ++ owned (data_ q !! slot cap_log h)) (given o ++ option_list item) (got o)).

(** [item = std::move(data_[t & mask_])], into an empty [item]. *)
Definition try_pop_move (o : ring) : bool * ring :=
  let t := tail_ (queue o) in
  let q := refresh_head (queue o) in
  if is_empty (cached_head_ q) t then (false, mkRing q (freed o) (lost o) (given o) (got o))
  else (true, mkRing (set_tail (t +64 1) (set_data (slot cap_log t) None q))
                (freed o) (lost o) (given o) (got o ++ owned (data_ q !! slot cap_log t))).

Definition pop_only (o : ring) : bool * ring :=
  let '(b, q) := pop (queue o) in (b, mkRing q (freed o) (lost o) (given o) (got o)).

(** The destructor destroys the slots. *)
Definition destroy (o : ring) : list R := freed o ++ omap id (data_ (queue o)).

Inductive op := Push (x : option R) | Emplace (x : option R) | TryPop | Pop.
Definition step (p : op) (o : ring) : ring :=
  match p with
  | Push x => (try_push_move x o).2
  | Emplace x => (try_emplace x o).2
  | TryPop => (try_pop_move o).2
  | Pop => (pop_only o).2
  end.
Definition run (ops : list op) (o : ring) : ring := foldl (fun o p => step p o) o ops.

(** What a slot held leaves it, what it gets is added. *)
Lemma omap_insert (d : list (option R)) i x : (i < length d)%nat ->
  omap id (<[i := x]> d) ++ owned (d !! i) ≡ₚ omap id d ++ option_list x.
Proof.
  intros Hi. destruct (lookup_lt_is_Some_2 d i Hi) as [y Hy]. rewrite Hy. cbn [owned mjoin option_join].
  rewrite <- (take_drop_middle d i y Hy) at 2. rewrite insert_take_drop by done. rewrite !omap_app. cbn.
  destruct x as [x|], y as [y|]; cbn; rewrite <- ?app_assoc; solve_Permutation || done.
Qed.
End operations.

Section proofs.
  Context {R : Type} (cap_log : Z) (Hcap : 0 <= cap_log <= 63).
#[local] Existing Instance handle_inhabited.
  Abbreviation C := (Capacity cap_log).
  Implicit Types (o : ring (R := R)) (q : SPSCQueue (option R)) (l : list (option R)).

(** ** The counters of a push and of a pop *)
Lemma push_check q l t ct ch :
  counted cap_log q l t ct ch ->
  exists ct', counted cap_log (refresh_tail cap_log q) l t ct' ch /\ data_ (refresh_tail cap_log q) = data_ q /\
    head_ (refresh_tail cap_log q) = head_ q /\
    (is_full cap_log (head_ q) (cached_tail_ (refresh_tail cap_log q)) = true \/
     is_full cap_log (head_ q) (cached_tail_ (refresh_tail cap_log q)) = false /\ t + Z.of_nat (length l) - ct' < C).
Proof.
  intros HC. assert (exists ct', counted cap_log (refresh_tail cap_log q) l t ct' ch /\ data_ (refresh_tail cap_log q) = data_ q /\
    head_ (refresh_tail cap_log q) = head_ q) as (ct' & HC' & Hd & Hh).
  { unfold refresh_tail. destruct (is_full _ _ _); [|eauto]. exists t. rewrite (cn_tail_ _ _ _ _ _ _ HC). split_and!; [|done..].
    apply counted_refresh_tail with ct; [done|]. pose proof (cn_tail _ _ _ _ _ _ HC). lia. }
  exists ct'. split_and!; [done..|]. rewrite <- Hh, (counted_full cap_log Hcap _ _ _ _ _ HC').
  pose proof (cn_room _ _ _ _ _ _ HC'). case_bool_decide; [by left|right]. split; [done|lia].
Qed.

Lemma pop_check q l t ct ch :
  counted cap_log q l t ct ch ->
  exists ch', counted cap_log (refresh_head q) l t ct ch' /\ data_ (refresh_head q) = data_ q /\ tail_ (refresh_head q) = tail_ q /\
    (is_empty (cached_head_ (refresh_head q)) (tail_ q) = true \/
     is_empty (cached_head_ (refresh_head q)) (tail_ q) = false /\ t < ch').
Proof.
  intros HC. assert (exists ch', counted cap_log (refresh_head q) l t ct ch' /\ data_ (refresh_head q) = data_ q /\
    tail_ (refresh_head q) = tail_ q) as (ch' & HC' & Hd & Ht).
  { unfold refresh_head. destruct (is_empty _ _); [|eauto]. exists (t + Z.of_nat (length l)). rewrite (cn_head_ _ _ _ _ _ _ HC).
    split_and!; [|done..]. apply counted_refresh_head with ch; [done|]. pose proof (cn_head _ _ _ _ _ _ HC). lia. }
  exists ch'. split_and!; [done..|]. rewrite <- Ht, (counted_empty cap_log Hcap _ _ _ _ _ HC').
  pose proof (cn_head _ _ _ _ _ _ HC'). case_bool_decide; [by left|right]. split; [done|lia].
Qed.

(** ** The invariant *)
(** The slots that are not part of the queue own nothing. *)
Definition clean (d : list (option R)) (n : nat) (t : Z) : Prop :=
  forall i, (i < Z.to_nat C)%nat -> (forall j, (j < n)%nat -> i ≠ Z.to_nat ((t + Z.of_nat j) mod C)) -> d !! i = Some None.

Definition accounted o : Prop := omap id (data_ (queue o)) ++ freed o ++ lost o ++ got o ≡ₚ given o.
Definition tidy o l t : Prop :=
  freed o = [] /\ lost o = [] /\ clean (data_ (queue o)) (length l) t /\ omap id (data_ (queue o)) ≡ₚ omap id l /\
  got o ++ omap id l = given o.

Lemma clean_head d l t : t + Z.of_nat (length l) - t < C -> clean d (length l) t ->
  d !! Z.to_nat ((t + Z.of_nat (length l)) mod C) = Some None.
Proof. intros Hr Hc. apply Hc; [by apply slot_bound|]. intros j Hj. apply not_eq_sym, slot_ne. lia. Qed.

Lemma clean_push d l t x :
  clean d (length l) t -> clean (<[Z.to_nat ((t + Z.of_nat (length l)) mod C) := x]> d) (S (length l)) t.
Proof.
  intros Hc i Hi Hj. rewrite list_lookup_insert_ne by (apply not_eq_sym, Hj; lia). apply Hc; [done|]. intros j Hlt. apply Hj. lia.
Qed.

Lemma clean_pop d n t : length d = Z.to_nat C -> clean d (S n) t -> clean (<[Z.to_nat (t mod C) := None]> d) n (t + 1).
Proof.
  intros Hl Hc i Hi Hj. destruct (decide (i = Z.to_nat (t mod C))) as [->|Hne]; [apply list_lookup_insert_eq; lia|].
  rewrite list_lookup_insert_ne by done. apply Hc; [done|]. intros [|j] Hlt; [by rewrite Z.add_0_r|].
  replace (t + Z.of_nat (S j)) with (t + 1 + Z.of_nat j) by lia. apply Hj. lia.
Qed.

Lemma head_slot q l t ct ch : counted cap_log q l t ct ch -> slot cap_log (head_ q) = Z.to_nat ((t + Z.of_nat (length l)) mod C).
Proof. intros HC. by rewrite (cn_head_ _ _ _ _ _ _ HC), slot_wrap. Qed.
Lemma tail_slot q l t ct ch : counted cap_log q l t ct ch -> slot cap_log (tail_ q) = Z.to_nat (t mod C).
Proof. intros HC. by rewrite (cn_tail_ _ _ _ _ _ _ HC), slot_wrap. Qed.

(** Storing into the slot of the head and publishing it. *)
Lemma push_stored q l t ct ch x :
  counted cap_log q l t ct ch -> t + Z.of_nat (length l) - ct < C ->
  counted cap_log (set_head (head_ q +64 1) (set_data (slot cap_log (head_ q)) x q)) (l ++ [x]) t ct ch.
Proof.
  intros HC Hr. destruct (counted_write cap_log Hcap q l t ct ch x HC Hr) as [HC1 Hx].
  exact (counted_publish cap_log _ l t ct ch x HC1 Hr Hx).
Qed.

(** Emptying the slot of the tail and giving it back. *)
Lemma pop_stored q l t ct ch :
  counted cap_log q l t ct ch -> t < ch ->
  exists x l', l = x :: l' /\ data_ q !! slot cap_log (tail_ q) = Some x /\
    counted cap_log (set_tail (tail_ q +64 1) (set_data (slot cap_log (tail_ q)) None q)) l' (t + 1) ct ch.
Proof.
  intros HC Ht. pose proof (tail_slot _ _ _ _ _ HC) as Hs. destruct (counted_consume cap_log Hcap q l t ct ch HC Ht) as (x & l' & -> & Hx & HC').
  exists x, l'. split_and!; [done..|]. pose proof (cn_room _ _ _ _ _ _ HC) as Hroom. pose proof (cn_tail _ _ _ _ _ _ HC). cbn [length] in Hroom.
  destruct HC'. split; try done; cbn [data_ set_tail set_data] in *; [by rewrite length_insert|].
  intros i y Hy. rewrite Hs, list_lookup_insert_ne; [by apply cn_data0|]. apply lookup_lt_Some in Hy. apply slot_ne. lia.
Qed.

(** The two pushes that take a resource differ in where the old one goes. *)
Lemma push_accounts (d : list (option R)) i x fr ls gt gv :
  (i < length d)%nat -> omap id d ++ fr ++ ls ++ gt ≡ₚ gv ->
  omap id (<[i := x]> d) ++ (fr ++ owned (d !! i)) ++ ls ++ gt ≡ₚ gv ++ option_list x /\
  omap id (<[i := x]> d) ++ fr ++ (ls ++ owned (d !! i)) ++ gt ≡ₚ gv ++ option_list x.
Proof.
  intros Hi <-. pose proof (omap_insert d i x Hi) as H.
  assert (forall a b : list R, omap id (<[i := x]> d) ++ a ++ owned (d !! i) ++ b ≡ₚ (omap id d ++ a ++ b) ++ option_list x) as E.
  { intros a b. rewrite (app_assoc a), (Permutation_app_comm a), <- (app_assoc _ a b), app_assoc, H, <- !app_assoc. f_equiv.
    by rewrite (Permutation_app_comm (option_list x)), <- app_assoc. }
  split.
  - rewrite <- (app_assoc fr). apply (E fr (ls ++ gt)).
  - rewrite <- (app_assoc ls), (app_assoc fr). rewrite (E (fr ++ ls) gt). by rewrite <- !app_assoc.
Qed.

(** What a push that is not refused does to the slots. *)
Lemma push_slots o l t ct ct' ch x :
  counted cap_log (queue o) l t ct ch -> counted cap_log (refresh_tail cap_log (queue o)) l t ct' ch ->
  data_ (refresh_tail cap_log (queue o)) = data_ (queue o) -> head_ (refresh_tail cap_log (queue o)) = head_ (queue o) ->
  t + Z.of_nat (length l) - ct' < C ->
  let i := slot cap_log (head_ (queue o)) in
  let q' := set_head (head_ (queue o) +64 1) (set_data i x (refresh_tail cap_log (queue o))) in
  counted cap_log q' (l ++ [x]) t ct' ch /\ data_ q' = <[i := x]> (data_ (queue o)) /\ (i < length (data_ (queue o)))%nat /\
  (tidy o l t -> data_ (queue o) !! i = Some None /\ clean (data_ q') (length (l ++ [x])) t /\ omap id (data_ q') ≡ₚ omap id (l ++ [x])).
Proof.
  intros HC HC' Hd Hh Hr i q'. pose proof (head_slot _ _ _ _ _ HC) as Hi. fold i in Hi.
  assert (data_ q' = <[i := x]> (data_ (queue o))) as Hq by (unfold q'; cbn; by rewrite Hd).
  assert (i < length (data_ (queue o)))%nat as Hlt by (rewrite (cn_length _ _ _ _ _ _ HC), Hi; by apply slot_bound).
  split_and!; [unfold q', i; rewrite <- Hh; by apply push_stored|done..|]. intros (_ & _ & Hcl & Hp & _).
  pose proof (cn_tail _ _ _ _ _ _ HC'). assert (data_ (queue o) !! i = Some None) as Hn by (rewrite Hi; apply clean_head; [lia|done]).
  rewrite Hq. split_and!; [done|rewrite length_app, Nat.add_1_r, Hi; by apply clean_push|].
  pose proof (omap_insert (data_ (queue o)) i x Hlt) as HO. rewrite Hn in HO. cbn in HO. rewrite app_nil_r in HO.
  rewrite HO, Hp, omap_app. by destruct x.
Qed.

(** One operation: the counters stay right and no resource disappears; while the
    consumer moves elements out, nothing is released, overwritten or left behind. *)
Definition progresses (p : op) o l t : Prop :=
  exists l' t' ct' ch', counted cap_log (queue (step cap_log p o)) l' t' ct' ch' /\ accounted (step cap_log p o) /\
    (p ≠ Pop -> tidy o l t -> tidy (step cap_log p o) l' t').

Lemma push_step_ok p x o l t ct ch :
  p = Push x \/ p = Emplace x -> counted cap_log (queue o) l t ct ch -> accounted o -> progresses p o l t.
Proof.
  intros Hpx HC Ha. destruct (push_check _ _ _ _ _ HC) as (ct' & HC' & Hd & Hh & [Hf|[Hf Hr]]); unfold progresses.
  - exists l, t, ct', ch. assert (step cap_log p o = mkRing (refresh_tail cap_log (queue o)) (freed o) (lost o) (given o) (got o)) as ->.
    { destruct Hpx as [->| ->]; cbn [step]; unfold try_push_move, try_emplace; by rewrite Hf. }
    unfold accounted, tidy in *. cbn [queue freed lost given got]. by rewrite Hd.
  - destruct (push_slots o l t ct ct' ch x HC HC' Hd Hh Hr) as (HQ & Hq & Hlt & Ht).
    destruct (push_accounts (data_ (queue o)) _ x (freed o) (lost o) (got o) (given o) Hlt Ha) as [A1 A2].
    exists (l ++ [x]), t, ct', ch.
    destruct Hpx as [->| ->]; cbn [step]; unfold try_push_move, try_emplace; rewrite Hf; cbn [snd];
      unfold accounted, tidy in *; cbn [queue freed lost given got]; rewrite Hd, Hq in *;
      (split_and!; [exact HQ|done|]); intros _ Htd; destruct (Ht Htd) as (Hn & Hcl & Hp); destruct Htd as (-> & -> & _ & _ & Hg); rewrite Hn; (split_and!; [done..|]);
      rewrite omap_app, <- Hg, <- app_assoc; by destruct x.
Qed.

Lemma try_pop_step_ok o l t ct ch : counted cap_log (queue o) l t ct ch -> accounted o -> progresses TryPop o l t.
Proof.
  intros HC Ha. destruct (pop_check _ _ _ _ _ HC) as (ch' & HC' & Hd & Ht & [He|[He Hlt]]); unfold progresses; cbn [step]; unfold try_pop_move; rewrite He; cbn [snd].
  - exists l, t, ct, ch'. unfold accounted, tidy in *. cbn [queue freed lost given got]. by rewrite Hd.
  - destruct (pop_stored _ _ _ _ _ HC' Hlt) as (x & l' & -> & Hx & HQ). rewrite Ht, Hd in *.
    exists l', (t + 1), ct, ch'. set (i := slot cap_log (tail_ (queue o))) in *.
    assert (Hi := lookup_lt_Some _ _ _ Hx). pose proof (omap_insert (data_ (queue o)) i None Hi) as HO. cbn [option_list] in HO. rewrite app_nil_r, Hx in HO.
    unfold accounted, tidy in *. cbn [queue freed lost given got data_ set_tail set_data] in *. rewrite Hd, Hx. split_and!; [exact HQ| |].
    + rewrite <- Ha, <- HO. rewrite <- !app_assoc. f_equiv. rewrite (Permutation_app_comm (owned _)), <- !app_assoc. done.
    + intros _ (-> & -> & Hcl & Hp & Hg). split_and!; [done..| | |].
      * subst i. rewrite (tail_slot _ _ _ _ _ HC). apply clean_pop; [apply (cn_length _ _ _ _ _ _ HC)|done].
      * rewrite Hp in HO. destruct x as [r|]; cbn in HO; [|by rewrite app_nil_r in HO].
        rewrite (Permutation_app_comm _ [r]) in HO. by apply Permutation_cons_inv in HO.
      * rewrite <- Hg. by destruct x; cbn; rewrite <- ?app_assoc, ?app_nil_r.
Qed.

Lemma pop_step_ok o l t ct ch : counted cap_log (queue o) l t ct ch -> accounted o -> progresses Pop o l t.
Proof.
  intros HC Ha. destruct (pop_check _ _ _ _ _ HC) as (ch' & HC' & Hd & Ht & [He|[He Hlt]]); unfold progresses; cbn [step]; unfold pop_only, pop; rewrite He; cbn [snd].
  - exists l, t, ct, ch'. unfold accounted in *. cbn [queue freed lost given got]. by rewrite Hd.
  - destruct (counted_consume cap_log Hcap _ _ _ _ _ HC' Hlt) as (x & l' & -> & _ & HQ). rewrite Ht in HQ.
    exists l', (t + 1), ct, ch'. split_and!; [exact HQ|unfold accounted in *; cbn [queue freed lost given got data_ set_tail]; by rewrite Hd|done].
Qed.

Lemma run_accounts ops : forall o l t ct ch,
  counted cap_log (queue o) l t ct ch -> accounted o ->
  exists l' t' ct' ch', counted cap_log (queue (run cap_log ops o)) l' t' ct' ch' /\ accounted (run cap_log ops o) /\
    ((Pop ∉ ops) -> tidy o l t -> tidy (run cap_log ops o) l' t').
Proof.
  induction ops as [|p ops IH]; intros o l t ct ch HC Ha; [by exists l, t, ct, ch|].
  assert (progresses p o l t) as (l1 & t1 & ct1 & ch1 & HC1 & Ha1 & Ht1).
  { destruct p as [x|x| |]; [eapply push_step_ok; eauto..|by eapply try_pop_step_ok|by eapply pop_step_ok]. }
  destruct (IH _ _ _ _ _ HC1 Ha1) as (l2 & t2 & ct2 & ch2 & HC2 & Ha2 & Ht2). exists l2, t2, ct2, ch2. split_and!; [done..|].
  intros Hp Ht. apply not_elem_of_cons in Hp as [Hp1 Hp2]. apply Ht2; [done|]. apply Ht1; [congruence|done].
Qed.

(** C17. The ring keeps account of what its elements own: whatever the sequence of moving
    pushes, emplacements, [try_pop] and [pop], every resource given to the queue was
    released once, was lost once to an emplacement over a live object, was handed to
    the consumer once, or is released when the queue is destroyed.  A consumer that never
    calls [pop] loses nothing: no resource is released early or lost, what it got is what
    was given, in that order, up to the elements still queued, and those are what the
    destructor releases. *)
Theorem ring_ownership (ops : list (op (R := R))) :
  let o := run cap_log ops (fresh cap_log) in
  destroy o ++ lost o ++ got o ≡ₚ given o /\
  exists l, holds cap_log (queue o) l /\
    ((Pop ∉ ops) -> lost o = [] /\ got o ++ omap id l = given o /\ destroy o ≡ₚ omap id l).
Proof.
  intros o. destruct (make_holds cap_log Hcap : holds cap_log (queue (fresh (R := R) cap_log)) []) as (t & ct & ch & HC).
  assert (forall n, omap id (replicate n (None : option R)) = []) as H0 by (induction n as [|n IH]; [done|exact IH]).
  assert (accounted (fresh (R := R) cap_log)) as Ha by (unfold accounted, fresh, make; cbn [queue data_]; by rewrite H0).
  assert (tidy (fresh (R := R) cap_log) [] t) as Ht.
  { unfold tidy, fresh, make. cbn [queue data_]. rewrite H0. split_and!; try done.
    intros i Hi _. by rewrite lookup_replicate_2. }
  destruct (run_accounts ops _ _ _ _ _ HC Ha) as (l & t' & ct' & ch' & HC' & Ha' & Ht'). fold o in HC', Ha', Ht'.
  unfold destroy, accounted in *. split.
  { rewrite <- Ha', <- app_assoc, !app_assoc, (Permutation_app_comm (freed o)). done. }
  exists l. split; [by eexists _, _, _|]. intros Hp. destruct (Ht' Hp Ht) as (-> & -> & _ & Hq & Hg). by rewrite app_nil_l.
Qed.
End proofs.

(** An emplacement after a [pop] loses what the popped element owned. *)
Lemma emplace_after_pop_leaks : lost (run 0 [Push (Some 1); Pop; Emplace (Some 2)] (fresh 0)) = [1].
Proof. vm_compute. reflexivity. Qed.

(** An assignment releases it, but only then. *)
Lemma push_after_pop_releases : freed (run 0 [Push (Some 1); Pop] (fresh 0)) = [] /\ freed (run 0 [Push (Some 1); Pop; Push (Some 2)] (fresh 0)) = [1].
Proof. vm_compute. by split. Qed.

Definition demo_ops : list (op (R := Z)) := [Push (Some 1); Emplace (Some 2); Push (Some 3); TryPop; Emplace (Some 4)].

Lemma ring_ownership_witness :
  (exists l, holds 1 (queue (run 1 demo_ops (fresh 1))) l /\ [1] ++ omap id l = [1; 2; 4] /\ destroy (run 1 demo_ops (fresh 1)) ≡ₚ omap id l) /\
  destroy (run 1 demo_ops (fresh 1)) ++ [] ++ [1] ≡ₚ [1; 2; 4].
Proof.
  destruct (ring_ownership 1 ltac:(lia) demo_ops) as [H1 (l & Hl & H2)]. split; [|exact H1].
  exists l. split; [exact Hl|]. destruct H2 as (_ & H2 & H3); [|exact (conj H2 H3)].
  intros H. unfold demo_ops in H. repeat (apply elem_of_cons in H as [H|H]; [discriminate|]). by apply not_elem_of_nil in H.
Defined.
End Ownership.
