(* ===== verification/Arena.v ===== *)
(** * [src/core/arena_alloc.h]: the bump allocator

    [allocate] rounds the offset up to the alignment and advances it, in 64-bit
    arithmetic.  The outer option of its model is the [assert] on the alignment,
    the inner one is [nullptr]. *)
From stdpp Require Import gmap list numbers sorting.
From S2P Require Import Prelude.
Open Scope Z_scope.
Open Scope cpp_scope.

Module Arena.

Record Arena := mkArena { base_ : Z; capacity_ : Z; offset_ : Z }.

(** The constructor, on the address [mmap] returned. *)
Definition make (base bytes : Z) : Arena := mkArena base bytes 0.

(** [~x] on a 64-bit word *)
Definition not64 (x : Z) : Z := 2 ^ 64 - 1 - x.

Definition align_up (offset align : Z) : Z := Z.land ((offset +64 align) -64 1) (not64 (align -64 1)).

Definition allocate (bytes align : Z) (a : Arena) : option (option Z * Arena) :=
  if negb (Z.land align (align -64 1) =? 0) then None
  else
    let aligned := align_up (offset_ a) align in
    if capacity_ a <? aligned +64 bytes then Some (None, a)
    else Some (Some (base_ a + aligned), mkArena (base_ a) (capacity_ a) (aligned +64 bytes)).

Definition reset (a : Arena) : Arena := mkArena (base_ a) (capacity_ a) 0.
Definition used (a : Arena) : Z := offset_ a.
Definition capacity (a : Arena) : Z := capacity_ a.

(** ** Rounding up *)
Lemma land_not64 k x : 0 <= k <= 63 -> fits 64 x -> Z.land x (not64 (2 ^ k - 1)) = x - x mod 2 ^ k.
Proof.
  intros Hk [Hx0 Hx]. assert (0 < 2 ^ k) by (apply Z.pow_pos_nonneg; lia).
  assert (not64 (2 ^ k - 1) = Z.shiftl (Z.ones (64 - k)) k) as ->.
  { unfold not64. rewrite Z.shiftl_mul_pow2, Z.ones_equiv by lia.
    assert (2 ^ 64 = 2 ^ (64 - k) * 2 ^ k) as -> by (rewrite <- Z.pow_add_r by lia; f_equal; lia). lia. }
  assert (x - x mod 2 ^ k = Z.shiftl (Z.shiftr x k) k) as ->.
  { rewrite Z.shiftl_mul_pow2, Z.shiftr_div_pow2 by lia. pose proof (Z.div_mod x (2 ^ k)). lia. }
  apply Z.bits_inj'. intros n Hn. rewrite Z.land_spec, !Z.shiftl_spec by lia.
  destruct (Z.ltb_spec n k).
  - rewrite (Z.testbit_neg_r (Z.ones _)), (Z.testbit_neg_r (Z.shiftr _ _)) by lia. by rewrite andb_false_r.
  - rewrite Z.shiftr_spec, Z.sub_add by lia. destruct (Z.ltb_spec n 64).
    + rewrite Z.ones_spec_low by lia. by rewrite andb_true_r.
    + rewrite Z.ones_spec_high by lia. rewrite andb_false_r. symmetry. apply Z.bits_above_log2; [done|].
      destruct (decide (x = 0)) as [->|]; [simpl; lia|]. apply Z.log2_lt_pow2; [lia|].
      apply Z.lt_le_trans with (2 ^ 64); [done|]. apply Z.pow_le_mono_r; lia.
Qed.

(** For a power of two, [align_up] is the least multiple at or above the offset. *)
Lemma align_up_ok k x :
  0 <= k <= 63 -> 0 <= x -> x + 2 ^ k < 2 ^ 64 ->
  let a := align_up x (2 ^ k) in a mod 2 ^ k = 0 /\ x <= a < x + 2 ^ k.
Proof.
  intros Hk Hx Hb. assert (0 < 2 ^ k) by (apply Z.pow_pos_nonneg; lia). unfold align_up.
  assert (2 ^ k -64 1 = 2 ^ k - 1) as -> by (apply wrap_small; unfold fits; lia).
  assert ((x +64 2 ^ k) -64 1 = x + 2 ^ k - 1) as ->.
  { rewrite (wrap_small 64 (x + 2 ^ k)) by (unfold fits; lia). apply wrap_small. unfold fits. lia. }
  rewrite land_not64 by (try done; unfold fits; lia). simpl.
  pose proof (Z.div_mod (x + 2 ^ k - 1) (2 ^ k)). pose proof (Z.mod_pos_bound (x + 2 ^ k - 1) (2 ^ k)).
  split; [|lia]. replace (x + 2 ^ k - 1 - (x + 2 ^ k - 1) `mod` 2 ^ k) with ((x + 2 ^ k - 1) `div` 2 ^ k * 2 ^ k) by lia.
  by apply Z.mod_mul; lia.
Qed.

Lemma pow2_test k : 0 <= k <= 63 -> Z.land (2 ^ k) (2 ^ k -64 1) = 0.
Proof.
  intros Hk. assert (0 < 2 ^ k) by (apply Z.pow_pos_nonneg; lia).
  assert (2 ^ k <= 2 ^ 63) by (apply Z.pow_le_mono_r; lia).
  rewrite wrap_small by (unfold fits; lia). rewrite land_mask by lia. by apply Z.mod_same; lia.
Qed.

(** ** Sequences of allocations

    A request is a size and the logarithm of an alignment; the result is the list of
    regions handed out. *)
Fixpoint allocate_all (rs : list (Z * Z)) (a : Arena) : option (list (option Z * Z) * Arena) :=
  match rs with
  | [] => Some ([], a)
  | (bytes, k) :: rs =>
      '(p, a) ← allocate bytes (2 ^ k) a; '(ps, a) ← allocate_all rs a; Some ((p, bytes) :: ps, a)
  end.

(** Requests whose arithmetic cannot wrap in an arena of [cap] bytes. *)
Definition request_ok (cap : Z) (r : Z * Z) : Prop :=
  0 <= r.1 /\ 0 <= r.2 <= 63 /\ cap + 2 ^ r.2 + r.1 < 2 ^ 64.

Definition wf (a : Arena) : Prop := 0 <= offset_ a <= capacity_ a.

Lemma allocate_ok bytes k a :
  wf a -> request_ok (capacity_ a) (bytes, k) ->
  exists r a', allocate bytes (2 ^ k) a = Some (r, a') /\ wf a' /\
    base_ a' = base_ a /\ capacity_ a' = capacity_ a /\
    match r with
    | None => a' = a /\ capacity_ a < align_up (offset_ a) (2 ^ k) + bytes
    | Some p => (p - base_ a) mod 2 ^ k = 0 /\ base_ a + offset_ a <= p /\ p + bytes = base_ a + offset_ a'
    end.
Proof.
  intros Hwf (Hb & Hk & Hc). simpl in *. unfold wf in Hwf. unfold allocate. rewrite pow2_test by done.
  destruct (align_up_ok k (offset_ a)) as [Hm Hr]; [done|lia|lia|]. simpl.
  rewrite wrap_small by (unfold fits; lia). destruct (Z.ltb_spec (capacity_ a) (align_up (offset_ a) (2 ^ k) + bytes)).
  - do 2 eexists. split; [done|]. split_and!; try done; lia.
  - do 2 eexists. split; [done|]. unfold wf; simpl. split_and!; try done; try lia.
    rewrite <- Hm. f_equal. lia.
Qed.

Definition region_end (r : option Z * Z) : Z := default 0 r.1 + r.2.

Lemma allocate_all_ok rs : forall a,
  wf a -> Forall (request_ok (capacity_ a)) rs ->
  exists ps a', allocate_all rs a = Some (ps, a') /\ wf a' /\ capacity_ a' = capacity_ a /\ base_ a' = base_ a /\
    Forall2 (fun r p => p.2 = r.1 /\ forall x, p.1 = Some x ->
      (x - base_ a) mod 2 ^ r.2 = 0 /\ base_ a + offset_ a <= x /\ x + p.2 <= base_ a + capacity_ a) rs ps /\
    StronglySorted (fun p q => forall x y, p.1 = Some x -> q.1 = Some y -> x + p.2 <= y) ps.
Proof.
  induction rs as [|[bytes k] rs IH]; intros a Hwf Hrs; simpl.
  { exists [], a. split_and!; try done; constructor. }
  apply Forall_cons in Hrs as [Hr Hrs].
  destruct (allocate_ok bytes k a Hwf Hr) as (r & a1 & -> & Hwf1 & Hb1 & Hc1 & Hres). simpl.
  destruct (IH a1 Hwf1) as (ps & a2 & -> & Hwf2 & Hc2 & Hb2 & Hps & Hsort); [by rewrite Hc1|]. simpl.
  assert (Hoff : offset_ a <= offset_ a1) by (destruct r; [destruct Hr|]; destruct Hres as [? ?]; subst; simpl in *; lia).
  do 2 eexists. split; [done|]. split_and!; [done|congruence|congruence| |].
  - constructor.
    + simpl. split; [done|]. intros x ->. destruct Hres as (? & ? & ?). unfold wf in Hwf1. split_and!; [done..|]. lia.
    + eapply Forall2_impl; [exact Hps|]. intros r' p [Hsz Hx]. split; [done|]. intros x Hpx.
      destruct (Hx x Hpx) as (? & ? & ?). rewrite Hb1, Hc1 in *. split_and!; [done|lia|done].
  - constructor; [done|]. apply Forall_forall. intros q Hq x y. simpl. intros -> Hy.
    destruct Hres as (_ & _ & Hend). apply list_elem_of_lookup in Hq as [i Hi].
    destruct (Forall2_lookup_r _ _ _ _ _ Hps Hi) as (r' & _ & _ & Hx). destruct (Hx y Hy) as (_ & ? & _). lia.
Qed.

(** A multiple of an alignment up to a page, counted from a page boundary. *)
Lemma page_aligned base x k : base mod 4096 = 0 -> 0 <= k <= 12 -> (x - base) mod 2 ^ k = 0 -> x mod 2 ^ k = 0.
Proof.
  intros Hb Hk Hx. pose proof (Z.pow_pos_nonneg 2 k ltac:(lia) ltac:(lia)) as Hp.
  assert ((2 ^ k | base)) as Hd.
  { apply Z.divide_trans with 4096; [|by apply Z.mod_divide]. exists (2 ^ (12 - k)). change 4096 with (2 ^ 12). rewrite <- Z.pow_add_r by lia. f_equal. lia. }
  apply Z.mod_divide; [lia|]. apply Z.mod_divide in Hx; [|lia]. replace x with ((x - base) + base) by lia. by apply Z.divide_add_r.
Qed.

(** C27. The arena hands out disjoint, aligned regions inside its mapping: for every
    sequence of requests with power-of-two alignments whose sum with the capacity does not
    wrap around 64 bits ([arena_size_overflow] shows overlapping regions otherwise), every
    region returned lies inside the capacity and begins at or after the end of every region
    returned before.  Its offset from the base is a multiple of the alignment, and so is its
    address when the base is page-aligned, as that of a mapping is, and the alignment is at
    most a page (above a page it need not be, [arena_alignment_above_page]). *)
Theorem arena_regions_disjoint (base cap : Z) (rs : list (Z * Z)) :
  0 <= cap -> Forall (request_ok cap) rs ->
  exists ps a, allocate_all rs (make base cap) = Some (ps, a) /\ 0 <= used a <= cap /\
    Forall2 (fun r p => p.2 = r.1 /\ forall x, p.1 = Some x ->
      (x - base) mod 2 ^ r.2 = 0 /\ (base mod 4096 = 0 -> r.2 <= 12 -> x mod 2 ^ r.2 = 0) /\
      base <= x /\ x + p.2 <= base + cap) rs ps /\
    StronglySorted (fun p q => forall x y, p.1 = Some x -> q.1 = Some y -> x + p.2 <= y) ps.
Proof.
  intros Hc Hrs. destruct (allocate_all_ok rs (make base cap)) as (ps & a & Hrun & Hwf & Hca & _ & Hps & Hs);
    [unfold wf; simpl; lia|done|]. exists ps, a. split_and!; try done; try apply Hwf.
  - unfold wf in Hwf. rewrite Hca in Hwf. apply Hwf.
  - apply Forall2_same_length_lookup_2; [by eapply Forall2_length|]. intros i r p Hi Hj. pose proof (Forall2_lookup_lr _ _ _ _ _ _ Hps Hi Hj) as [? Hx].
    split; [done|]. intros x Hpx. destruct (Hx x Hpx) as (Hm & ? & ?). simpl in *. split_and!; [done| |lia|done].
    intros Hb Hk. apply (page_aligned base); [done| |done]. pose proof (proj1 (Forall_lookup _ _) Hrs i r Hi) as (_ & ? & _). lia.
Qed.

Lemma arena_regions_disjoint_witness :
  exists ps a, allocate_all [(10, 4); (100, 6); (8, 3)] (make 65536 160) = Some (ps, a) /\ 0 <= used a <= 160 /\
    Forall2 (fun r p => p.2 = r.1 /\ forall x, p.1 = Some x ->
      (x - 65536) mod 2 ^ r.2 = 0 /\ (65536 mod 4096 = 0 -> r.2 <= 12 -> x mod 2 ^ r.2 = 0) /\
      65536 <= x /\ x + p.2 <= 65536 + 160) [(10, 4); (100, 6); (8, 3)] ps /\
    StronglySorted (fun p q => forall x y, p.1 = Some x -> q.1 = Some y -> x + p.2 <= y) ps.
Proof.
  apply (arena_regions_disjoint 65536 160 [(10, 4); (100, 6); (8, 3)]); [lia|].
  repeat (apply Forall_cons_2; [unfold request_ok; simpl; lia|]). apply Forall_nil_2.
Defined.

(** The offset is aligned, not the address: an alignment of two pages is not honoured on a
    mapping that begins at an odd page. *)
Theorem arena_alignment_above_page :
  exists a, allocate 64 8192 (make 69632 65536) = Some (Some 69632, a) /\ 69632 mod 4096 = 0 /\ 69632 mod 8192 = 4096.
Proof. eexists. split; [vm_compute; reflexivity|]. done. Qed.

(** The capacity test is done in 64-bit arithmetic: a request close to [2^64] bytes
    wraps past it, so that the arena returns a region far larger than itself and moves
    its offset backwards onto memory already handed out. *)
Theorem arena_size_overflow :
  exists a1, allocate 64 16 (make 65536 4096) = Some (Some 65536, a1) /\
    exists a2, allocate (2 ^ 64 - 16) 16 a1 = Some (Some (65536 + 64), a2) /\ used a2 = 48 /\
      exists a3, allocate 16 16 a2 = Some (Some (65536 + 48), a3).
Proof. repeat (eexists; split; [vm_compute; reflexivity|]). split; [done|]. eexists. vm_compute. reflexivity. Qed.
End Arena.
