(* ===== verification/Socket.v ===== *)
(** * Sockets as scripts

    What the programs see of a socket is the outcomes of the successive [read] and
    [write] calls; they are given as lists.  [outcome] is what a function that does
    such calls comes to: it returns, throws, has undefined behaviour, or would go on
    beyond the script. *)
From stdpp Require Import gmap list numbers sorting.
From S2P Require Import Prelude Bytes.
Open Scope Z_scope.

Module Socket.
Import Bytes.

Inductive outcome (A : Type) := Returned (r : A) | Thrown | Undefined | Waiting.
Arguments Returned {A} _.
Arguments Thrown {A}.
Arguments Undefined {A}.
Arguments Waiting {A}.

Definition obind {A B} (m : outcome A) (k : A -> outcome B) : outcome B :=
  match m with Returned x => k x | Thrown => Thrown | Undefined => Undefined | Waiting => Waiting end.
Notation "'let!' x := m 'in' k" := (obind m (fun x => k)) (at level 10, x name, m at level 100, k at level 200).

(** What [read] returns: some bytes, the end of the stream, [EAGAIN], another error. *)
Inductive read_result := Chunk (c : bytes) | Eof | Again | ReadError.
(** What [write] returns: the number of bytes taken, [EINTR], another error. *)
Inductive write_result := Wrote (n : nat) | Interrupted | WriteError.

(** The write loop: the bytes that left and whether it succeeded, [None] when the
    script ends first. *)
Fixpoint write_loop (ws : list write_result) (req : bytes) (sent : nat) (out : bytes) : bytes * option bool :=
  if decide (sent = length req) then (out, Some true)
  else match ws with
       | [] => (out, None)
       | Interrupted :: ws => write_loop ws req sent out
       | WriteError :: _ => (out, Some false)
       | Wrote n :: ws => write_loop ws req (sent + n) (out ++ take n (drop sent req))
       end.

Lemma write_loop_prefix ws : forall req sent out,
  out = take sent req ->
  let '(out', ok) := write_loop ws req sent out in
  out' `prefix_of` req /\ (ok = Some true -> out' = req).
Proof.
  induction ws as [|w ws IH]; intros req sent out ->; simpl; destruct (decide _) as [->|Hs];
    try (split; [apply prefix_take|intros; rewrite take_ge by lia; done]); try (by split; [apply prefix_take|]).
  destruct w as [n| |]; [|by apply IH|by split; [apply prefix_take|]].
  apply IH. by rewrite take_take_drop.
Qed.

(** The loop gives up only when a write fails with another error than [EINTR]. *)
Lemma write_loop_fails ws : forall req sent out out', write_loop ws req sent out = (out', Some false) -> WriteError ∈ ws.
Proof.
  induction ws as [|w ws IH]; intros req sent out out' H; cbn [write_loop] in H; destruct (decide _); try done.
  destruct w; [apply list_elem_of_further; eauto..|apply list_elem_of_here].
Qed.

(** The bytes a script of reads delivers up to the end of the stream. *)
Fixpoint stream (rs : list read_result) : option bytes :=
  match rs with
  | Eof :: _ => Some []
  | Again :: rs => stream rs
  | Chunk c :: rs => t ← stream rs; Some (c ++ t)
  | ReadError :: _ | [] => None
  end.

(** ** The descriptors of the process *)
(** The open ones, and the closings of descriptors that were not open. *)
Record table := mkTable { opened : gset Z; misused : list Z }.
Definition open_fd (fd : Z) (t : table) : table := mkTable ({[fd]} ∪ opened t) (misused t).
Definition close (fd : Z) (t : table) : table :=
  if decide (fd ∈ opened t) then mkTable (opened t ∖ {[fd]}) (misused t) else mkTable (opened t) (misused t ++ [fd]).

Lemma close_opened fd t : fd ∈ opened t -> close fd t = mkTable (opened t ∖ {[fd]}) (misused t).
Proof. intros H. unfold close. by rewrite decide_True. Qed.

Lemma close_closed fd t : fd ∉ opened t -> close fd t = mkTable (opened t) (misused t ++ [fd]).
Proof. intros H. unfold close. by rewrite decide_False. Qed.

(** A descriptor that was not open, opened and closed again. *)
Lemma close_open_fd fd t : fd ∉ opened t -> close fd (open_fd fd t) = t.
Proof. intros H. rewrite close_opened by (simpl; set_solver). destruct t as [o m]. simpl in *. f_equal. set_solver. Qed.

End Socket.
