(* ===== verification/Http.v ===== *)
(** * [sim/http/rest_server.cpp]: HTTP requests and responses

    [parse_request] with the position arithmetic of the source (a failed [find]
    yields [npos] and is computed with), the exceptions of [substr] and [stoi],
    and fuel for the header loop (one more than the length of the buffer, which
    [parse_request_total] shows is enough); and [serialize_response]. *)
From stdpp Require Import gmap list numbers strings sorting.
From S2P Require Import Prelude Bytes.
Open Scope Z_scope.
Open Scope cpp_scope.

Module Http.
Import Bytes.

Record Request := mkRequest { method : bytes; path : bytes; headers : gmap bytes bytes; body : bytes }.
Record Response := mkResponse { status : Z; content_type : bytes; resp_body : bytes }.

Definition strlen (s : bytes) : Z := Z.of_nat (length s).

(** The loop over the header lines; [Done None] is the early [return std::nullopt]. *)
Fixpoint header_loop (fuel : nat) (buffer : bytes) (ptr header_line : Z) (hs : gmap bytes bytes)
    : result (option (gmap bytes bytes)) :=
  match fuel with
  | O => NoFuel
  | S fuel =>
    let nxt_line := find CRLF buffer header_line in
    if nxt_line =? header_line then Done (Some hs) else
    do line <- substr buffer header_line (nxt_line -64 header_line);
    let header_name := find (lit ": ") buffer header_line in
    do name <- substr buffer header_line (header_name -64 header_line);
    let header_name := header_name +64 2 in
    do content <- substr buffer header_name (nxt_line -64 header_name);
    let hs := <[name := content]> hs in
    let header_line := nxt_line +64 2 in
    if decide (name = lit "Content-Length") then
      do n <- stoi content;
      let body_length := u64 n in
      if negb (body_length =? strlen buffer -64 ptr) then Done None
      else header_loop fuel buffer ptr header_line hs
    else header_loop fuel buffer ptr header_line hs
  end.

Definition parse_request (buffer : bytes) : result (option Request) :=
  let ptr := find (CRLF ++ CRLF) buffer 0 in
  if ptr =? npos then Done None else
  let ptr := ptr +64 4 in
  let meth := find SPACE buffer 0 in
  do m <- substr buffer 0 meth;
  let meth := meth +64 1 in
  let pth := find SPACE buffer meth in
  do p <- substr buffer meth (pth -64 meth);
  let header_line := find CRLF buffer 0 +64 2 in
  do hs <- header_loop (S (length buffer)) buffer ptr header_line ∅;
  match hs with
  | None => Done None
  | Some hs => do b <- substr buffer ptr npos; Done (Some (mkRequest m p hs b))
  end.

Definition reason_phrase (st : Z) : bytes :=
  if st =? 200 then lit "OK"
  else if st =? 400 then lit "Bad Request"
  else if st =? 404 then lit "Not Found"
  else if st =? 500 then lit "Internal Server Error"
  else lit "Unknown Status".

Definition serialize_response (r : Response) : bytes :=
  lit "HTTP/1.1 " ++ to_string (status r) ++ SPACE ++ reason_phrase (status r) ++ CRLF ++
  lit "Content-Type: " ++ content_type r ++ CRLF ++
  lit "Content-Length: " ++ to_string (strlen (resp_body r)) ++ CRLF ++
  lit "Connection: close" ++ CRLF ++
  CRLF ++ resp_body r.

(** ** The header loop ends *)
Section termination.
  Context (buffer : bytes) (Hlen : strlen buffer < 2 ^ 63).

(** A line break at a position. *)
Definition crlf_at (i : nat) : Prop := is_prefix CRLF (drop i buffer) = true.

Lemma crlf_at_chars i : crlf_at i <-> buffer !! i = Some 13 /\ buffer !! S i = Some 10.
Proof.
  unfold crlf_at. rewrite is_prefix_spec. split.
  - intros [r Hr]. rewrite <- (Nat.add_0_r i), <- (Nat.add_1_r (i + 0)), <- Nat.add_assoc, <- !lookup_drop, Hr. done.
  - intros [H1 H2]. exists (drop (S (S i)) buffer). by rewrite (drop_S _ _ _ H1), (drop_S _ _ _ H2).
Qed.

Lemma crlf_not_adjacent i : crlf_at i -> crlf_at (S i) -> False.
Proof. rewrite !crlf_at_chars. intros [_ H1] [H2 _]. congruence. Qed.

Lemma find_crlf h e :
  crlf_at e -> (h <= e)%nat ->
  exists n, find CRLF buffer (Z.of_nat h) = Z.of_nat n /\ (h <= n <= e)%nat /\ crlf_at n /\ (n + 2 <= length buffer)%nat.
Proof.
  intros He Hh. unfold find. unfold crlf_at in He. pose proof He as He'. apply crlf_at_chars in He' as [_ He'].
  apply lookup_lt_Some in He'. rewrite (proj2 (Z.ltb_ge _ _)) by lia. rewrite Nat2Z.id.
  assert (is_prefix CRLF (drop (e - h) (drop h buffer)) = true) as Hd.
  { rewrite drop_drop. by replace (h + (e - h))%nat with e by lia. }
  destruct (find_at_exists _ _ _ Hd) as [i Hi]. rewrite Hi. exists (h + i)%nat.
  pose proof (find_at_first _ _ _ _ Hi Hd). apply find_at_bound in Hi as [Hb Hp]. rewrite length_drop in Hb.
  rewrite drop_drop in Hp. simpl in Hb. split_and!; [lia..|done|lia].
Qed.

Lemma find_crlf_same h : crlf_at h -> find CRLF buffer (Z.of_nat h) = Z.of_nat h.
Proof. intros H. destruct (find_crlf h h H) as (n & -> & ? & _); [lia|]. lia. Qed.

Lemma header_loop_ends fuel : forall h e ptr hs,
  crlf_at e -> crlf_at (e + 2) -> (h <= e \/ h = e + 2)%nat -> (e + 2 - h < fuel)%nat ->
  header_loop fuel buffer ptr (Z.of_nat h) hs ≠ NoFuel.
Proof.
  induction fuel as [|fuel IH]; intros h e ptr hs He He2 Hh Hf; [lia|]. cbn [header_loop].
  destruct Hh as [Hh| ->]; [|by rewrite find_crlf_same, Z.eqb_refl].
  destruct (find_crlf h e He Hh) as (n & -> & Hn & Hnc & Hnl).
  destruct (Z.eqb_spec (Z.of_nat n) (Z.of_nat h)) as [|Hne]; [done|].
  destruct (substr_cases buffer (Z.of_nat h) (Z.of_nat n -64 Z.of_nat h)) as [[line ->]| ->]; [|done]. cbn [rbind].
  destruct (substr_cases buffer (Z.of_nat h) (find (lit ": ") buffer (Z.of_nat h) -64 Z.of_nat h)) as [[nm ->]| ->]; [|done].
  cbn [rbind]. set (c := find (lit ": ") buffer (Z.of_nat h) +64 2).
  destruct (substr_cases buffer c (Z.of_nat n -64 c)) as [[content ->]| ->]; [|done]. cbn [rbind].
  assert (header_loop fuel buffer ptr (Z.of_nat n +64 2) (<[nm:=content]> hs) ≠ NoFuel) as Hrec.
  { rewrite wrap_small by (unfold fits, strlen in *; lia). replace (Z.of_nat n + 2) with (Z.of_nat (n + 2)) by lia.
    apply (IH _ e); [done|done| |lia].
    destruct (decide (S n = e)) as [<-|]; [by destruct (crlf_not_adjacent n)|lia]. }
  case_decide; [|done]. destruct (stoi_cases content) as [[v ->]| ->]; [|done]. cbn [rbind]. by destruct (negb _).
Qed.
End termination.

Lemma parse_request_ends buffer : strlen buffer < 2 ^ 63 -> parse_request buffer ≠ NoFuel.
Proof.
  intros Hlen. unfold parse_request. destruct (Z.eqb_spec (find (CRLF ++ CRLF) buffer 0) npos) as [|Hp]; [done|].
  assert (exists e, crlf_at buffer e /\ crlf_at buffer (e + 2) /\ (e + 4 <= length buffer)%nat) as (e & He & He2 & Hel).
  { unfold find in Hp. case_match; [done|]. destruct (find_at _ _) as [e|] eqn:Hf; [|done]. rewrite drop_0 in Hf.
    apply find_at_bound in Hf as [Hb Hf]. exists e. apply is_prefix_spec in Hf as [r Hf]. simpl in Hb.
    unfold crlf_at. rewrite <- drop_drop, Hf. split_and!; [done|done|lia]. }
  set (ptr := find (CRLF ++ CRLF) buffer 0 +64 4).
  destruct (substr_cases buffer 0 (find SPACE buffer 0)) as [[m ->]| ->]; [|done]. cbn [rbind].
  set (q := find SPACE buffer 0 +64 1).
  destruct (substr_cases buffer q (find SPACE buffer q -64 q)) as [[p ->]| ->]; [|done]. cbn [rbind].
  destruct (find_crlf buffer 0 e He) as (n & Hf & Hn & Hnc & _); [lia|]. rewrite (Hf : find CRLF buffer 0 = _).
  rewrite wrap_small by (unfold fits, strlen in *; lia). replace (Z.of_nat n + 2) with (Z.of_nat (n + 2)) by lia.
  assert (header_loop (S (length buffer)) buffer ptr (Z.of_nat (n + 2)) ∅ ≠ NoFuel) as Hl.
  { apply (header_loop_ends buffer Hlen _ _ e); [done|done| |lia].
    destruct (decide (S n = e)) as [<-|]; [by destruct (crlf_not_adjacent buffer n)|lia]. }
  destruct (header_loop _ _ _ _ _) as [[hs|]| |]; [|done..]. cbn [rbind].
  destruct (substr_cases buffer ptr npos) as [[b ->]| ->]; done.
Qed.

(** The parser of requests ends on every buffer an address space can hold: the
    loop over the header lines stops at the blank line whose presence the first test
    established, so that the outcome is a request, a wait for more bytes or an
    exception. *)
Theorem parse_request_total (buffer : bytes) (Hlen : strlen buffer < 2 ^ 63) :
  parse_request buffer = Throw \/ exists r, parse_request buffer = Done r.
Proof. pose proof (parse_request_ends buffer Hlen). destruct (parse_request buffer); eauto. done. Qed.

Lemma parse_request_total_witness :
  let b := lit "GET / HTTP/1.1" ++ CRLF ++ lit "Host" ++ CRLF ++ CRLF in
  parse_request b = Throw \/ exists r, parse_request b = Done r.
Proof. apply parse_request_total. vm_compute. done. Defined.

(** ** Messages made of lines *)
Abbreviation header := (bytes * bytes)%type.

Definition no_cr (l : bytes) : Prop := CR ∉ l.

Definition line (h : header) : bytes := h.1 ++ lit ": " ++ h.2.
Definition lines (ls : list bytes) : bytes := concat ((fun l => l ++ CRLF) <$> ls).

(** A header whose name ends at the first colon of its line and holds no line break. *)
Definition header_ok (h : header) : Prop := no_cr h.1 /\ (58 ∉ h.1) /\ no_cr h.2.

Lemma not_elem_of_app_2 {A} (x : A) l1 l2 : x ∉ l1 -> x ∉ l2 -> x ∉ l1 ++ l2.
Proof. intros H1 H2 [|]%elem_of_app; auto. Qed.

Lemma lit_no_cr s : forallb (fun c => negb (c =? CR)) (lit s) = true -> no_cr (lit s).
Proof.
  intros H Hin. rewrite forallb_forall in H. apply list_elem_of_In in Hin. apply H in Hin. done.
Qed.

Lemma line_no_cr h : header_ok h -> no_cr (line h).
Proof. intros (H1 & _ & H2). apply not_elem_of_app_2; [done|]. apply not_elem_of_app_2; [|done]. by apply lit_no_cr. Qed.

Lemma line_nonempty h : line h ≠ [].
Proof. unfold line. intros [_ [? _]%app_eq_nil]%app_eq_nil. done. Qed.

Lemma lines_cons l ls rest : lines (l :: ls) ++ rest = l ++ CRLF ++ lines ls ++ rest.
Proof. unfold lines. simpl. by rewrite <- !app_assoc. Qed.

Lemma length_lines_cons l ls : length (lines (l :: ls)) = (length l + 2 + length (lines ls))%nat.
Proof. rewrite <- (app_nil_r (lines (l :: ls))), lines_cons, !length_app. simpl. lia. Qed.

(** A line break that no other follows is skipped by the search for the blank line. *)
Lemma find_at_blank_skip l rest :
  no_cr l -> l ≠ [] -> find_at (CRLF ++ CRLF) (CRLF ++ l ++ rest) = (fun i => (2 + i)%nat) <$> find_at (CRLF ++ CRLF) (l ++ rest).
Proof.
  intros Hl Hne. destruct l as [|c l]; [done|]. assert ((13 =? c) = false) as Hc.
  { apply Z.eqb_neq. intros <-. destruct Hl. apply list_elem_of_here. }
  simpl in *. rewrite Hc. cbn [andb]. by destruct (find_at _ (l ++ rest)).
Qed.

(** The blank line is the first empty one. *)
Lemma find_at_blank l ls rest :
  no_cr l -> Forall (fun l => no_cr l /\ l ≠ []) ls ->
  find_at (CRLF ++ CRLF) (lines (l :: ls) ++ CRLF ++ rest) = Some (length (lines (l :: ls)) - 2)%nat.
Proof.
  intros Hl Hls. revert l Hl. induction Hls as [|l' ls [Hl' Hne'] Hls IH]; intros l Hl.
  - rewrite lines_cons. etransitivity; [exact (find_at_hit 13 [10; 13; 10] l rest Hl)|]. unfold lines. simpl.
    rewrite !length_app. simpl. f_equal. lia.
  - rewrite lines_cons. rewrite (find_at_free 13 [10; 13; 10] l _ Hl : find_at (CRLF ++ CRLF) _ = _).
    rewrite lines_cons. rewrite (find_at_blank_skip l' _ Hl' Hne' : find_at (13 :: [10; 13; 10]) _ = _), <- lines_cons, IH by done.
    simpl. f_equal. unfold lines. simpl. rewrite !length_app. simpl. lia.
Qed.

(** One header line, read at its position. *)
Lemma header_at pre h rest :
  header_ok h ->
  let buffer := pre ++ line h ++ CRLF ++ rest in
  let i := Z.of_nat (length pre) in
  find CRLF buffer i = i + Z.of_nat (length (line h)) /\
  find (lit ": ") buffer i = i + Z.of_nat (length h.1).
Proof.
  intros Hok buffer i. split.
  - unfold buffer, i. erewrite find_from; [|by apply (find_at_hit 13 [10]), line_no_cr]. lia.
  - destruct Hok as (_ & Hc & _). unfold buffer, i, line. rewrite <- !app_assoc.
    erewrite find_from; [|by apply (find_at_hit 58 [32])]. lia.
Qed.

(** The effect of the header lines on the map. *)
Definition add_headers (hl : list header) (hs : gmap bytes bytes) : gmap bytes bytes :=
  foldl (fun m h => <[h.1 := h.2]> m) hs hl.

(** A [Content-Length] header announces [len]. *)
Definition announces (len : Z) (h : header) : Prop := h.1 = lit "Content-Length" -> stoi h.2 = Done len.

(** The loop body on a well-formed line. *)
Lemma header_step fuel pre h rest ptr hs :
  header_ok h ->
  let b := pre ++ line h ++ CRLF ++ rest in
  let next := header_loop fuel b ptr (Z.of_nat (length (pre ++ line h ++ CRLF))) (<[h.1:=h.2]> hs) in
  strlen b < 2 ^ 63 ->
  header_loop (S fuel) b ptr (Z.of_nat (length pre)) hs =
    if decide (h.1 = lit "Content-Length")
    then do n <- stoi h.2; if negb (u64 n =? strlen b -64 ptr) then Done None else next
    else next.
Proof.
  intros Hh b next Hlen. cbn [header_loop]. destruct (header_at pre h rest Hh) as [H1 H2]. fold b in H1, H2.
  assert (strlen b = Z.of_nat (length pre) + Z.of_nat (length (line h)) + 2 + strlen rest) as Hb.
  { unfold b, strlen. rewrite !length_app. simpl. lia. }
  assert (Z.of_nat (length (line h)) = Z.of_nat (length h.1) + 2 + Z.of_nat (length h.2)) as Hline.
  { unfold line. rewrite !length_app. simpl. lia. }
  rewrite H1, H2. rewrite (proj2 (Z.eqb_neq _ _)) by lia. unfold strlen in Hb, Hlen.
  rewrite !(wrap_small _ (Z.of_nat (length pre) + _ + _)), !(wrap_small _ (_ - Z.of_nat (length pre))),
    (wrap_small _ (_ - (Z.of_nat (length pre) + _ + 2))) by (unfold fits; lia).
  rewrite !Z.add_simpl_l. unfold b at 1. rewrite substr_mid. cbn [rbind].
  assert (substr b (Z.of_nat (length pre)) (Z.of_nat (length h.1)) = Done h.1) as ->.
  { unfold b, line. rewrite <- !app_assoc. apply substr_mid. }
  cbn [rbind].
  assert (substr b (Z.of_nat (length pre) + Z.of_nat (length h.1) + 2)
    (Z.of_nat (length pre) + Z.of_nat (length (line h)) - (Z.of_nat (length pre) + Z.of_nat (length h.1) + 2)) = Done h.2) as ->.
  { unfold b, line. rewrite <- !app_assoc. rewrite (app_assoc h.1), (app_assoc pre).
    rewrite <- (substr_mid (pre ++ h.1 ++ lit ": ") h.2 (CRLF ++ rest)).
    rewrite !length_app. simpl. f_equal; lia. }
  cbn [rbind].
  replace (Z.of_nat (length pre) + Z.of_nat (length (line h)) + 2) with (Z.of_nat (length (pre ++ line h ++ CRLF)))
    by (rewrite !length_app; simpl; lia). done.
Qed.

Lemma header_loop_lines len hl : forall fuel pre rest hs,
  Forall header_ok hl -> Forall (announces len) hl -> fits 31 len -> (length hl < fuel)%nat ->
  let buffer := pre ++ lines (line <$> hl) ++ CRLF ++ rest in
  strlen buffer < 2 ^ 63 ->
  header_loop fuel buffer (strlen buffer - strlen rest) (Z.of_nat (length pre)) hs =
    Done (if decide (len = strlen rest \/ (lit "Content-Length" ∉ hl.*1)) then Some (add_headers hl hs) else None).
Proof.
  induction hl as [|h hl IH]; intros fuel pre rest hs Hok Han Hl31 Hf buffer Hlen; (destruct fuel as [|fuel]; [simpl in Hf; lia|]).
  - cbn [header_loop]. assert (find CRLF buffer (Z.of_nat (length pre)) = Z.of_nat (length pre)) as ->.
    { unfold buffer. erewrite find_from; [|exact (find_at_hit 13 [10] [] rest (not_elem_of_nil _))]. simpl. lia. }
    rewrite Z.eqb_refl. by rewrite decide_True by (right; apply not_elem_of_nil).
  - apply Forall_cons in Hok as [Hh Hok], Han as [Ha Han].
    assert (buffer = pre ++ line h ++ CRLF ++ lines (line <$> hl) ++ CRLF ++ rest) as Eb by (unfold buffer; by rewrite fmap_cons, lines_cons).
    rewrite Eb in Hlen |- *. clear buffer Eb. rewrite header_step by done.
    specialize (IH fuel (pre ++ line h ++ CRLF) rest (<[h.1:=h.2]> hs) Hok Han Hl31 ltac:(simpl in Hf; lia)).
    rewrite <- !app_assoc in IH. rewrite IH by done. set (b := pre ++ _) in *.
    assert (strlen rest <= strlen b) by (unfold b, strlen; rewrite !length_app; lia).
    destruct (decide (h.1 = lit "Content-Length")) as [Hn|Hn].
    + rewrite (Ha Hn). cbn [rbind]. unfold fits in Hl31. rewrite !wrap_small by (unfold fits, strlen in *; lia).
      replace (strlen b - (strlen b - strlen rest)) with (strlen rest) by lia.
      destruct (Z.eqb_spec len (strlen rest)) as [->|]; simpl.
      * by rewrite !decide_True by auto.
      * rewrite decide_False; [done|]. intros [|Hx]; [done|]. destruct Hx. rewrite Hn. apply list_elem_of_here.
    + do 2 f_equal. destruct (decide (_ \/ (_ ∉ hl.*1))) as [Hd|Hd], (decide (_ \/ (_ ∉ (h :: hl).*1))) as [Hd'|Hd']; try done.
      * destruct Hd'. destruct Hd; [by left|right]. by apply not_elem_of_cons.
      * destruct Hd. destruct Hd' as [|Hd']; [by left|right]. by apply not_elem_of_cons in Hd' as [_ ?].
Qed.

Lemma length_lines ls : (length ls <= length (lines ls))%nat.
Proof. induction ls as [|l ls IH]; [simpl; lia|]. rewrite length_lines_cons. simpl. lia. Qed.

(** A malformed length raises the exception of [stoi]. *)
Lemma header_loop_throws hl1 c hl2 : forall fuel pre rest ptr hs,
  Forall header_ok hl1 -> lit "Content-Length" ∉ hl1.*1 -> no_cr c -> stoi c = Throw -> (length hl1 < fuel)%nat ->
  let buffer := pre ++ lines (line <$> hl1 ++ (lit "Content-Length", c) :: hl2) ++ rest in
  strlen buffer < 2 ^ 63 -> header_loop fuel buffer ptr (Z.of_nat (length pre)) hs = Throw.
Proof.
  induction hl1 as [|h hl IH]; intros fuel pre rest ptr hs Hok Hn Hc Ht Hf buffer Hlen;
    (destruct fuel as [|fuel]; [simpl in Hf; lia|]); unfold buffer in *; clear buffer; cbn [app] in *;
    rewrite fmap_cons, lines_cons in *.
  - rewrite header_step; [|split_and!; [by apply lit_no_cr|by vm_compute; set_solver|done]|done].
    rewrite decide_True by done. cbn [snd]. by rewrite Ht.
  - apply Forall_cons in Hok as [Hh Hok]. simpl in Hn. apply not_elem_of_cons in Hn as [Hn1 Hn].
    rewrite header_step by done. rewrite decide_False by auto.
    rewrite (app_assoc (line h)), (app_assoc pre) in Hlen |- *. apply IH; auto. simpl in Hf. lia.
Qed.

(** ** Whole requests *)
Section requests.
  Context (m p version : bytes) (hl : list header) (bdy : bytes) (len : Z).
  Context (Hm : no_cr m) (Hms : 32 ∉ m) (Hp : no_cr p) (Hps : 32 ∉ p) (Hv : no_cr version).
  Context (Hok : Forall header_ok hl) (Han : Forall (announces len) hl) (Hl31 : fits 31 len).

Definition request_line : bytes := m ++ SPACE ++ p ++ SPACE ++ version.
Definition request_text : bytes := lines (request_line :: (line <$> hl)) ++ CRLF ++ bdy.

Lemma request_line_no_cr : no_cr request_line.
Proof. unfold request_line, no_cr. repeat apply not_elem_of_app_2; try done; apply (lit_no_cr " "); done. Qed.

Lemma request_blank : find_at (CRLF ++ CRLF) request_text = Some (length (lines (request_line :: (line <$> hl))) - 2)%nat.
Proof.
  apply find_at_blank; [apply request_line_no_cr|]. apply Forall_fmap. eapply Forall_impl; [exact Hok|].
  intros h Hh. split; [by apply line_no_cr|apply line_nonempty].
Qed.

Lemma request_text_split : request_text = (request_line ++ CRLF) ++ lines (line <$> hl) ++ CRLF ++ bdy.
Proof. unfold request_text. rewrite lines_cons. by rewrite <- !app_assoc. Qed.

(** The request line is read and the header loop starts after it. *)
Lemma parse_request_head :
  strlen request_text < 2 ^ 63 ->
  parse_request request_text =
    do hs <- header_loop (S (length request_text)) request_text (strlen request_text - strlen bdy)
               (Z.of_nat (length (request_line ++ CRLF))) ∅;
    match hs with None => Done None | Some hs => Done (Some (mkRequest m p hs bdy)) end.
Proof.
  intros Hlen. unfold parse_request. pose proof request_text_split as Et.
  assert (strlen request_text = strlen request_line + 2 + strlen (lines (line <$> hl)) + 2 + strlen bdy) as El.
  { rewrite Et. unfold strlen. rewrite !length_app. simpl. lia. }
  assert (strlen request_line = strlen m + 1 + strlen p + 1 + strlen version) as Elr.
  { unfold request_line, strlen. rewrite !length_app. simpl. lia. }
  assert (find (CRLF ++ CRLF) request_text 0 = strlen request_line + strlen (lines (line <$> hl))) as ->.
  { rewrite (find_from _ [] _ _ request_blank : find _ request_text 0 = _). rewrite length_lines_cons. unfold strlen. simpl. lia. }
  unfold strlen in *. rewrite (proj2 (Z.eqb_neq _ npos)) by (unfold npos; lia).
  assert (request_text = m ++ SPACE ++ p ++ SPACE ++ version ++ CRLF ++ lines (line <$> hl) ++ CRLF ++ bdy) as Er.
  { rewrite Et. unfold request_line. by rewrite <- !app_assoc. }
  assert (find SPACE request_text 0 = Z.of_nat (length m)) as ->.
  { rewrite Er. exact (find_from SPACE [] _ _ (find_at_hit 32 [] m _ Hms)). }
  assert (substr request_text 0 (Z.of_nat (length m)) = Done m) as ->.
  { rewrite Er. exact (substr_mid [] m _). }
  cbn [rbind]. rewrite (wrap_small 64 (Z.of_nat (length m) + 1)) by (unfold fits; lia).
  replace (Z.of_nat (length m) + 1) with (Z.of_nat (length (m ++ SPACE))) by (rewrite length_app; simpl; lia).
  assert (find SPACE request_text (Z.of_nat (length (m ++ SPACE))) = Z.of_nat (length (m ++ SPACE)) + Z.of_nat (length p)) as ->.
  { rewrite Er, (app_assoc m). rewrite (find_from SPACE _ _ _ (find_at_hit 32 [] p _ Hps)). lia. }
  rewrite Z.add_simpl_l, (wrap_small 64 (Z.of_nat (length p))) by (unfold fits; lia).
  assert (substr request_text (Z.of_nat (length (m ++ SPACE))) (Z.of_nat (length p)) = Done p) as ->.
  { rewrite Er, (app_assoc m). apply substr_mid. }
  cbn [rbind].
  assert (find CRLF request_text 0 = Z.of_nat (length request_line)) as ->.
  { rewrite Et. rewrite <- !app_assoc. exact (find_from CRLF [] _ _ (find_at_hit 13 [10] _ _ request_line_no_cr)). }
  rewrite !wrap_small by (unfold fits; lia).
  replace (Z.of_nat (length request_line) + 2) with (Z.of_nat (length (request_line ++ CRLF))) by (rewrite length_app; simpl; lia).
  replace (Z.of_nat (length request_line) + Z.of_nat (length (lines (line <$> hl))) + 4)
    with (Z.of_nat (length request_text) - Z.of_nat (length bdy)) by lia.
  destruct (header_loop _ _ _ _ _) as [[hs|]| |]; [|done..]. cbn [rbind].
  assert (substr request_text (Z.of_nat (length request_text) - Z.of_nat (length bdy)) npos = Done bdy) as ->; [|done].
  rewrite Et, (app_assoc _ CRLF bdy), (app_assoc _ _ bdy).
  erewrite <- (substr_rest _ bdy); [f_equal|unfold npos; lia]. rewrite !length_app. simpl. lia.
Qed.

Lemma parse_request_text :
  strlen request_text < 2 ^ 63 ->
  parse_request request_text =
    Done (if decide (len = strlen bdy \/ (lit "Content-Length" ∉ hl.*1)) then Some (mkRequest m p (add_headers hl ∅) bdy) else None).
Proof.
  intros Hlen. rewrite parse_request_head by done.
  pose proof (header_loop_lines len hl (S (length request_text)) (request_line ++ CRLF) bdy ∅ Hok Han Hl31) as Hloop.
  rewrite <- request_text_split in Hloop. rewrite Hloop; [|pose proof (length_lines (line <$> hl)) as Hll|done].
  - cbn [rbind]. by case_decide.
  - rewrite length_fmap in Hll. rewrite request_text_split, !length_app. lia.
Qed.

(** A prefix that ends before the blank line is complete has none. *)
Lemma find_at_prefix_none pat (l1 l2 : bytes) i :
  find_at pat (l1 ++ l2) = Some i -> (length l1 < i + length pat)%nat -> find_at pat l1 = None.
Proof.
  intros Hf Hlt. destruct (find_at pat l1) as [j|] eqn:Hj; [|done]. apply find_at_bound in Hj as [Hb Hj].
  apply is_prefix_spec in Hj as [r Hr]. assert (is_prefix pat (drop j (l1 ++ l2)) = true) as Hp'.
  { apply is_prefix_spec. exists (r ++ l2). rewrite drop_app_le by lia. by rewrite Hr, <- app_assoc. }
  pose proof (find_at_first _ _ _ _ Hf Hp'). lia.
Qed.

End requests.

(** A proper prefix of a request is not taken for one. *)
Lemma parse_request_prefix m p version hl bdy pre rest :
  no_cr m -> 32 ∉ m -> no_cr p -> 32 ∉ p -> no_cr version -> Forall header_ok hl ->
  Forall (announces (strlen bdy)) hl -> (bdy = [] \/ lit "Content-Length" ∈ hl.*1) -> strlen bdy < 2 ^ 31 ->
  strlen (request_text m p version hl bdy) < 2 ^ 63 ->
  request_text m p version hl bdy = pre ++ rest -> rest ≠ [] -> parse_request pre = Done None.
Proof.
  intros Hm Hms Hp Hps Hv Hok Han Hcl Hb Hlen E Hrest.
  set (hd := lines (request_line m p version :: (line <$> hl))).
  pose proof (request_blank m p version hl bdy Hm Hp Hv Hok) as Hblank. fold hd in Hblank.
  assert (2 <= length hd)%nat as H2 by (unfold hd; rewrite length_lines_cons; lia).
  destruct (decide (length pre < length hd + 2)%nat) as [Hs|Hs].
  - rewrite E in Hblank. unfold parse_request, find. rewrite drop_0.
    rewrite (find_at_prefix_none _ _ _ _ Hblank) by (simpl; lia). rewrite (proj2 (Z.ltb_ge _ _)) by lia. by rewrite Z.eqb_refl.
  - assert (exists b, pre = hd ++ CRLF ++ b /\ bdy = b ++ rest) as (b & -> & ->).
    { exists (drop (length hd + 2) pre). unfold request_text in E. fold hd in E.
      assert (take (length hd + 2) pre = hd ++ CRLF) as Ht.
      { replace pre with (take (length pre) (pre ++ rest)) by (by rewrite take_app_length). rewrite <- E, take_take, Nat.min_l by lia.
        rewrite app_assoc, take_app_length'; [done|]. rewrite length_app. simpl. lia. }
      rewrite <- (take_drop (length hd + 2) pre), Ht in E. rewrite <- !app_assoc in E.
      apply app_inv_head, app_inv_head in E. split; [|done]. by rewrite app_assoc, <- Ht, take_drop. }
    assert (strlen (b ++ rest) ≠ strlen b) as Hne.
    { unfold strlen. rewrite length_app. destruct rest; [done|simpl; lia]. }
    change (hd ++ CRLF ++ b) with (request_text m p version hl b).
    rewrite (parse_request_text m p version hl b (strlen (b ++ rest))); try done.
    + rewrite decide_False; [done|]. intros [|Hx]; [done|]. destruct Hcl as [[-> ->]%app_eq_nil|]; done.
    + unfold fits, strlen in *. lia.
    + eapply Z.le_lt_trans; [|exact Hlen]. rewrite E. unfold strlen. rewrite length_app. unfold request_text. fold hd. lia.
Qed.

(** A request whose [Content-Length] is not a number makes [parse_request] throw
    ([std::stoi] is not guarded), whatever the other headers and the body are; no
    caller catches the exception. *)
Theorem parse_request_throws m p version hl1 c hl2 bdy
    (Hm : no_cr m) (Hms : 32 ∉ m) (Hp : no_cr p) (Hps : 32 ∉ p) (Hv : no_cr version)
    (Hok : Forall header_ok (hl1 ++ (lit "Content-Length", c) :: hl2))
    (Hfirst : lit "Content-Length" ∉ hl1.*1) (Hc : stoi c = Throw)
    (Hlen : strlen (request_text m p version (hl1 ++ (lit "Content-Length", c) :: hl2) bdy) < 2 ^ 63) :
  parse_request (request_text m p version (hl1 ++ (lit "Content-Length", c) :: hl2) bdy) = Throw.
Proof.
  rewrite parse_request_head by done. pose proof Hok as Hok'. apply Forall_app in Hok' as [H1 [(_ & _ & H2) _]%Forall_cons].
  rewrite request_text_split in Hlen |- *. rewrite header_loop_throws; try done.
  pose proof (length_lines (line <$> hl1 ++ (lit "Content-Length", c) :: hl2)) as Hll.
  rewrite length_fmap, length_app in Hll. rewrite !length_app. lia.
Qed.

Lemma parse_request_throws_witness :
  parse_request (request_text (lit "POST") (lit "/x") (lit "HTTP/1.1")
    ([(lit "Host", lit "h")] ++ (lit "Content-Length", lit "many") :: []) (lit "{}")) = Throw.
Proof.
  apply parse_request_throws; try (by apply lit_no_cr); try reflexivity; try (by vm_compute; set_solver).
  repeat constructor; simpl; try (by apply lit_no_cr); vm_compute; set_solver.
Defined.

End Http.
