(* ===== verification/RestClient.v ===== *)
(** * [src/net/rest_client.cpp]: the HTTP client

    Sending a request and reading the response, over the socket scripts of
    [Socket.v].  Reading a string beyond its terminating zero is [Undefined]. *)
From stdpp Require Import gmap list numbers strings sorting.
From S2P Require Import Prelude Bytes Socket Http.
Open Scope Z_scope.
Open Scope cpp_scope.

Module RestClient.
Import Bytes Socket Http.

(** [kalshi::Response] *)
Record Response := mkResponse { status : Z; headers : gmap bytes bytes; body : bytes }.
Definition no_response : Response := mkResponse 0 ∅ [].

(** ** Sending *)
Definition format_request (host method path body content_type : bytes) : bytes :=
  method ++ SPACE ++ path ++ lit " HTTP/1.1" ++ CRLF ++
  (lit "Host: " ++ host ++ CRLF) ++
  (lit "Connection: close" ++ CRLF) ++
  (if decide (body = []) then []
   else (lit "Content-Type: " ++ content_type ++ CRLF) ++ (lit "Content-Length: " ++ to_string (strlen body) ++ CRLF)) ++
  CRLF ++ body.

(** ** Receiving *)
(** The first loop of [recv_response_]: the header and what came with it of the
    body; [Done None] is the early [return Response{}]. *)
Fixpoint recv_header (rs : list read_result) (header : bytes) (tot_size : Z)
    : result (option (bytes * bytes * list read_result)) :=
  match rs with
  | [] => NoFuel
  | Again :: rs => recv_header rs header tot_size
  | ReadError :: _ => Done None
  | Eof :: rs => Done (Some (header, [], rs))
  | Chunk c :: rs =>
    let header := header ++ c in
    let ptr := find (CRLF ++ CRLF) header (Z.max 3 tot_size -64 3) in
    if negb (ptr =? npos) then
      do body <- substr header (ptr +64 4) npos;
      Done (Some (take (Z.to_nat (ptr +64 4)) header, body, rs))
    else recv_header rs header (tot_size +64 Z.of_nat (length c))
  end.

(** [while (header[ptr] != ' ') ptr++]: the bytes passed over and what follows the
    space; [None] when the loop leaves the string. *)
Fixpoint to_space (l : bytes) : option (bytes * bytes) :=
  match l with
  | [] => None
  | c :: l => if c =? 32 then Some ([], l) else '(p, r) ← to_space l; Some (c :: p, r)
  end.

(** The header loop; [Done None] is an early return.  [insert] keeps the first of
    two headers with the same name. *)
Fixpoint client_headers (fuel : nat) (header : bytes) (ptr : Z) (hs : gmap bytes bytes)
    : result (option (gmap bytes bytes)) :=
  match fuel with
  | O => NoFuel
  | S fuel =>
    let nxt := find CRLF header ptr in
    if nxt =? npos then Done None
    else if nxt =? ptr then Done (Some hs)
    else
      do header_line <- substr header ptr (nxt -64 ptr);
      let ptr := nxt +64 2 in
      let space := find (lit ": ") header_line 0 in
      if space =? npos then Done None
      else
        do header_fis <- substr header_line 0 space;
        do header_sec <- substr header_line (space +64 2) npos;
        client_headers fuel header ptr (match hs !! header_fis with
                                        | Some _ => hs
                                        | None => <[header_fis := header_sec]> hs
                                        end)
  end.

(** The last loop: the body until the end of the stream. *)
Fixpoint recv_body (rs : list read_result) (body : bytes) : result (option bytes) :=
  match rs with
  | [] => NoFuel
  | Again :: rs => recv_body rs body
  | ReadError :: _ => Done None
  | Eof :: _ => Done (Some body)
  | Chunk c :: rs => recv_body rs (body ++ c)
  end.

Definition parse_response (header : bytes) (body : bytes) (rs : list read_result) : outcome Response :=
  match to_space header with
  | None => Undefined
  | Some (skipped, l) =>
    match to_space l with
    | None => Undefined
    | Some (st, _) =>
      match stoi st with
      | Throw => Thrown
      | NoFuel => Waiting
      | Done stat =>
        let ptr := Z.of_nat (length skipped + 1 + length st) in
        let ptr := find CRLF header ptr in
        if ptr =? npos then Returned no_response
        else match client_headers (S (length header)) header (ptr +64 2) ∅ with
             | Throw => Thrown
             | NoFuel => Waiting
             | Done None => Returned no_response
             | Done (Some hs) =>
               match recv_body rs body with
               | Throw => Thrown
               | NoFuel => Waiting
               | Done None => Returned no_response
               | Done (Some b) => Returned (mkResponse stat hs b)
               end
             end
      end
    end
  end.

Definition recv_response_ (rs : list read_result) : outcome Response :=
  match recv_header rs [] 0 with
  | NoFuel => Waiting
  | Throw => Thrown
  | Done None => Returned no_response
  | Done (Some (header, body, rs)) => parse_response header body rs
  end.

(** [send_request_] returns an empty response when a write fails. *)
Definition send_request_ (host method path body content_type : bytes)
    (ws : list write_result) (rs : list read_result) : bytes * outcome Response :=
  let '(out, ok) := write_loop ws (format_request host method path body content_type) 0 [] in
  (out, match ok with
        | None => Waiting
        | Some false => Returned no_response
        | Some true => recv_response_ rs
        end).
Definition get (host path : bytes) := send_request_ host (lit "GET") path [] [].
Definition post (host path body content_type : bytes) := send_request_ host (lit "POST") path body content_type.

(** ** Requests *)
Definition request_headers (host body content_type : bytes) : list header :=
  (lit "Host", host) :: (lit "Connection", lit "close") ::
  (if decide (body = []) then []
   else [(lit "Content-Type", content_type); (lit "Content-Length", to_string (strlen body))]).

Lemma format_request_text host m p body ct :
  format_request host m p body ct = request_text m p (lit "HTTP/1.1") (request_headers host body ct) body.
Proof.
  unfold format_request, request_text, request_headers. rewrite fmap_cons, !lines_cons. unfold request_line.
  rewrite <- !app_assoc. case_decide; [done|]. rewrite !fmap_cons, !lines_cons. unfold line. cbn [fst snd]. by rewrite <- !app_assoc.
Qed.

Lemma digits_free l x : Forall (fun c => is_digit c = true) l -> is_digit x = false -> x ∉ l.
Proof. intros H Hx Hin. rewrite Forall_forall in H. apply H in Hin. congruence. Qed.

Lemma to_string_free v x : fits 64 v -> is_digit x = false -> x ∉ to_string v.
Proof. intros Hv Hx. apply digits_free; [|done]. by destruct (to_string_ok v Hv) as (_ & ? & _). Qed.

Lemma lit_free s x : forallb (fun c => negb (c =? x)) (lit s) = true -> x ∉ lit s.
Proof.
  intros H Hin. rewrite forallb_forall in H. apply list_elem_of_In, H in Hin. by rewrite Z.eqb_refl in Hin.
Qed.

(** The parts of a header are literals, given strings without line breaks, or numbers. *)
Ltac header_parts :=
  repeat first [apply List.Forall_nil | apply Forall_cons; split; [split_and!; cbn [fst snd]; try (by apply lit_free); try done|]].

Lemma request_headers_ok host body ct :
  no_cr host -> no_cr ct -> strlen body < 2 ^ 31 -> Forall header_ok (request_headers host body ct).
Proof.
  intros Hh Hc Hb. unfold request_headers. case_decide; header_parts.
  apply to_string_free; [unfold fits, strlen in *; lia|done].
Qed.

Lemma request_headers_announce host body ct :
  strlen body < 2 ^ 31 -> Forall (announces (strlen body)) (request_headers host body ct).
Proof.
  intros Hb. unfold request_headers, announces. repeat (constructor; [intros Hx; vm_compute in Hx; discriminate|]). case_decide; [constructor|].
  constructor; [intros Hx; vm_compute in Hx; discriminate|]. constructor; [|constructor]. intros _. cbn [snd].
  apply stoi_renders; [apply to_string_ok|..]; unfold fits, strlen in *; lia.
Qed.

Lemma request_reads host m p body ct
    (Hhost : no_cr host) (Hm : no_cr m) (Hms : 32 ∉ m) (Hp : no_cr p) (Hps : 32 ∉ p) (Hct : no_cr ct)
    (Hbody : strlen body < 2 ^ 31) (Hlen : strlen (format_request host m p body ct) < 2 ^ 63) :
  parse_request (format_request host m p body ct) =
    Done (Some (mkRequest m p (add_headers (request_headers host body ct) ∅) body)) /\
  forall pre rest, format_request host m p body ct = pre ++ rest -> rest ≠ [] -> parse_request pre = Done None.
Proof.
  rewrite format_request_text in *.
  assert (no_cr (lit "HTTP/1.1")) as Hv by (by apply lit_no_cr).
  pose proof (request_headers_ok host body ct Hhost Hct Hbody) as Hok.
  pose proof (request_headers_announce host body ct Hbody) as Han. split.
  - rewrite (parse_request_text m p _ _ _ (strlen body)); try done; [|unfold fits, strlen in *; lia].
    by rewrite decide_True by auto.
  - intros pre rest E Hr. eapply (parse_request_prefix m p _ _ body); try done.
    unfold request_headers. case_decide; [by left|right]. cbn. repeat (apply list_elem_of_here || apply list_elem_of_further).
Qed.

(** C19. The server reads the client's requests, when host, method, path and content type
    have no CR, method and path no space, and the body is below [2 ^ 31] bytes: what
    [send_request_] writes parses to a request with the method, the path, the headers and the body that were sent,
    and every proper prefix of it, which is what the server holds while the request
    is arriving, is taken for an incomplete request. *)
Theorem request_roundtrip host m p body ct
    (Hhost : no_cr host) (Hm : no_cr m) (Hms : 32 ∉ m) (Hp : no_cr p) (Hps : 32 ∉ p) (Hct : no_cr ct)
    (Hbody : strlen body < 2 ^ 31) (Hlen : strlen (format_request host m p body ct) < 2 ^ 63) :
  parse_request (format_request host m p body ct) =
    Done (Some (mkRequest m p (add_headers (request_headers host body ct) ∅) body)) /\
  forall pre rest, format_request host m p body ct = pre ++ rest -> rest ≠ [] -> parse_request pre = Done None.
Proof. by apply request_reads. Qed.

Lemma request_roundtrip_witness :
  parse_request (format_request (lit "localhost") (lit "POST") (lit "/trade-api/v2/portfolio/orders") (lit "{}") (lit "application/json")) =
    Done (Some (mkRequest (lit "POST") (lit "/trade-api/v2/portfolio/orders")
      (add_headers (request_headers (lit "localhost") (lit "{}") (lit "application/json")) ∅) (lit "{}"))).
Proof.
  apply (request_roundtrip (lit "localhost") (lit "POST") (lit "/trade-api/v2/portfolio/orders") (lit "{}") (lit "application/json"));
    try (by apply lit_free); reflexivity.
Defined.

(** ** Sending delivers the request in order *)

(** Whatever the socket does, the bytes that leave the client are a prefix of the
    request, each byte once and in order, and they are the whole request when the
    client goes on to read the response; after a write error the empty response is
    returned. *)
Theorem client_sends_in_order host m p body ct ws rs :
  let req := format_request host m p body ct in
  let '(out, o) := send_request_ host m p body ct ws rs in
  out `prefix_of` req /\
  ((out = req /\ o = recv_response_ rs) \/ o = Returned no_response \/ o = Waiting).
Proof.
  unfold send_request_. pose proof (write_loop_prefix ws (format_request host m p body ct) 0 [] eq_refl) as H.
  destruct (write_loop _ _ _ _) as [out [[]|]]; destruct H as [H1 H2]; auto.
Qed.

(** ** Responses *)
Lemma find_at_drop pat l i k : find_at pat l = Some i -> (k <= i)%nat -> find_at pat (drop k l) = Some (i - k)%nat.
Proof.
  intros Hi Hk. apply find_at_bound in Hi as Hb. destruct Hb as [Hb Hp].
  assert (is_prefix pat (drop (i - k) (drop k l)) = true) as Hd by (rewrite drop_drop; by replace (k + (i - k))%nat with i by lia).
  destruct (find_at_exists _ _ _ Hd) as [j Hj]. pose proof (find_at_first _ _ _ _ Hj Hd).
  apply find_at_bound in Hj as Hb'. destruct Hb' as [_ Hp']. rewrite drop_drop in Hp'.
  pose proof (find_at_first _ _ _ _ Hi Hp'). rewrite Hj. f_equal. lia.
Qed.

Lemma find_at_drop_none pat l k : find_at pat l = None -> find_at pat (drop k l) = None.
Proof.
  intros Hn. destruct (find_at pat (drop k l)) as [j|] eqn:Hj; [|done]. apply find_at_bound in Hj as [_ Hj].
  rewrite drop_drop in Hj. apply find_at_exists in Hj as [i Hi]. congruence.
Qed.

Lemma find_at_app pat l1 l2 i : find_at pat l1 = Some i -> find_at pat (l1 ++ l2) = Some i.
Proof.
  intros Hi. pose proof (find_at_bound _ _ _ Hi) as [Hb Hp]. apply is_prefix_spec in Hp as [r Hr].
  assert (is_prefix pat (drop i (l1 ++ l2)) = true) as Hp'.
  { apply is_prefix_spec. exists (r ++ l2). rewrite drop_app_le by lia. by rewrite Hr, <- app_assoc. }
  destruct (find_at_exists _ _ _ Hp') as [j Hj]. pose proof (find_at_first _ _ _ _ Hj Hp').
  destruct (decide (length l1 < j + length pat)%nat) as [Hl|Hl].
  - pose proof (find_at_prefix_none _ _ _ _ Hj Hl). congruence.
  - destruct (decide (j = i)) as [->|]; [done|]. apply find_at_bound in Hj as [_ Hj].
    apply is_prefix_spec in Hj as [r' Hr']. rewrite drop_app_le in Hr' by lia.
    assert (is_prefix pat (drop j l1) = true) as Hc; [|pose proof (find_at_first _ _ _ _ Hi Hc); lia].
    apply is_prefix_spec. exists (drop (length pat) (drop j l1)).
    apply (f_equal (take (length pat))) in Hr'. rewrite take_app_length, take_app_le in Hr' by (rewrite length_drop; lia).
    by rewrite <- Hr' at 1; rewrite take_drop.
Qed.

(** The search resumed three bytes before the new data finds what a search of the
    whole buffer finds. *)
Lemma resumed_search pre c :
  find_at (CRLF ++ CRLF) pre = None -> strlen (pre ++ c) < 2 ^ 63 ->
  find (CRLF ++ CRLF) (pre ++ c) (Z.max 3 (strlen pre) -64 3) =
    match find_at (CRLF ++ CRLF) (pre ++ c) with Some i => Z.of_nat i | None => npos end.
Proof.
  intros Hn Hlen. unfold strlen in *. rewrite length_app in Hlen. rewrite wrap_small by (unfold fits; lia).
  set (k := (Nat.max 3 (length pre) - 3)%nat). replace (Z.max 3 (Z.of_nat (length pre)) - 3) with (Z.of_nat k) by lia.
  unfold find. rewrite Nat2Z.id. destruct (find_at _ (pre ++ c)) as [i|] eqn:Hi.
  - assert (length pre < i + 4)%nat as Hlt.
    { destruct (decide (length pre < i + 4)%nat); [done|]. apply find_at_bound in Hi as [_ Hp]. apply is_prefix_spec in Hp as [r Hr].
      rewrite drop_app_le in Hr by lia. assert (is_prefix (CRLF ++ CRLF) (drop i pre) = true) as Hc; [|apply find_at_exists in Hc as [? ?]; congruence].
      apply is_prefix_spec. exists (drop 4 (drop i pre)). apply (f_equal (take 4)) in Hr. rewrite take_app_le in Hr by (rewrite length_drop; lia).
      rewrite <- (take_drop 4 (drop i pre)) at 1. by rewrite Hr. }
    apply find_at_bound in Hi as Hb. destruct Hb as [Hb _]. rewrite length_app in Hb. simpl in Hb.
    rewrite (proj2 (Z.ltb_ge _ _)) by (rewrite length_app; lia). rewrite (find_at_drop _ _ _ _ Hi) by lia. lia.
  - rewrite find_at_drop_none by done. by case_match.
Qed.

Lemma recv_header_ok rs : forall pre t i,
  find_at (CRLF ++ CRLF) pre = None -> stream rs = Some t -> find_at (CRLF ++ CRLF) (pre ++ t) = Some i ->
  strlen (pre ++ t) < 2 ^ 63 ->
  exists b rs' t', recv_header rs pre (strlen pre) = Done (Some (take (i + 4) (pre ++ t), b, rs')) /\
    stream rs' = Some t' /\ pre ++ t = take (i + 4) (pre ++ t) ++ b ++ t'.
Proof.
  induction rs as [|r rs IH]; intros pre t i Hn Hs Hi Hlen; [done|]. destruct r as [c| | |]; cbn [stream recv_header] in Hs |- *; [| | |done].
  - destruct (stream rs) as [t'|] eqn:Hs'; cbn in Hs; simplify_eq. rewrite (app_assoc pre) in Hi, Hlen |- *.
    rewrite (resumed_search pre c Hn) by (unfold strlen in *; rewrite (length_app (pre ++ c)) in Hlen; lia).
    destruct (find_at _ (pre ++ c)) as [j|] eqn:Hj.
    + rewrite (find_at_app _ _ t' _ Hj) in Hi. simplify_eq. pose proof (find_at_bound _ _ _ Hj) as [Hb _]. simpl in Hb.
      unfold strlen in Hlen. rewrite length_app in Hlen.
      rewrite (proj2 (Z.eqb_neq _ npos)) by (unfold npos; lia). cbn [negb]. rewrite wrap_small by (unfold fits; lia).
      assert (substr (pre ++ c) (Z.of_nat i + 4) npos = Done (drop (i + 4) (pre ++ c))) as ->.
      { rewrite <- (take_drop (i + 4) (pre ++ c)) at 1. erewrite <- substr_rest; [f_equal|rewrite length_drop; unfold npos; lia].
        rewrite length_take. lia. }
      cbn [rbind]. replace (Z.to_nat (Z.of_nat i + 4)) with (i + 4)%nat by lia.
      eexists _, _, _. rewrite (take_app_le (pre ++ c) t') by lia. split; [done|]. split; [done|]. by rewrite (app_assoc (take _ _)), take_drop.
    + rewrite Z.eqb_refl. cbn [negb]. unfold strlen in *. rewrite length_app in Hlen. 
      rewrite wrap_small by (unfold fits; rewrite length_app in Hlen; lia).
      replace (Z.of_nat (length pre) + Z.of_nat (length c)) with (Z.of_nat (length (pre ++ c))) by (rewrite length_app; lia).
      apply IH; try done. unfold strlen. rewrite length_app. done.
  - simplify_eq. rewrite app_nil_r in Hi. congruence.
  - by apply IH.
Qed.

Lemma recv_body_ok rs : forall body t, stream rs = Some t -> recv_body rs body = Done (Some (body ++ t)).
Proof.
  induction rs as [|r rs IH]; intros body t Hs; [done|]. destruct r as [c| | |]; cbn [stream recv_body] in Hs |- *; [| | |done].
  - destruct (stream rs) as [t'|]; cbn in Hs; simplify_eq. rewrite (IH _ t') by done. by rewrite <- app_assoc.
  - simplify_eq. by rewrite app_nil_r.
  - by apply IH.
Qed.

Lemma to_space_app a r : 32 ∉ a -> to_space (a ++ SPACE ++ r) = Some (a, r).
Proof.
  induction a as [|c a IH]; intros Ha; [done|]. apply not_elem_of_cons in Ha as [Hc Ha]. rewrite <- app_comm_cons. cbn [to_space].
  rewrite (proj2 (Z.eqb_neq _ _)) by auto. by rewrite IH.
Qed.

(** Headers with distinct names are all kept. *)
Definition keep_first (hl : list header) (hs : gmap bytes bytes) : gmap bytes bytes :=
  foldl (fun m h => match m !! h.1 with Some _ => m | None => <[h.1 := h.2]> m end) hs hl.

Lemma client_headers_lines hl : forall fuel pre rest hs,
  Forall header_ok hl -> (length hl < fuel)%nat ->
  let header := pre ++ lines (line <$> hl) ++ CRLF ++ rest in
  strlen header < 2 ^ 63 ->
  client_headers fuel header (Z.of_nat (length pre)) hs = Done (Some (keep_first hl hs)).
Proof.
  induction hl as [|h hl IH]; intros fuel pre rest hs Hok Hf b Hlen; (destruct fuel as [|fuel]; [simpl in Hf; lia|]);
    cbn [client_headers].
  - assert (find CRLF b (Z.of_nat (length pre)) = Z.of_nat (length pre)) as ->.
    { unfold b. erewrite find_from; [|exact (find_at_hit 13 [10] [] rest (not_elem_of_nil _))]. simpl. lia. }
    unfold b, strlen in Hlen. rewrite length_app in Hlen. rewrite (proj2 (Z.eqb_neq _ npos)) by (unfold npos; lia). by rewrite Z.eqb_refl.
  - apply Forall_cons in Hok as [Hh Hok].
    assert (b = pre ++ line h ++ CRLF ++ lines (line <$> hl) ++ CRLF ++ rest) as Eb by (unfold b; by rewrite fmap_cons, lines_cons).
    rewrite Eb in Hlen |- *. clear b Eb. destruct (header_at pre h (lines (line <$> hl) ++ CRLF ++ rest) Hh) as [H1 _]. rewrite H1.
    specialize (IH fuel (pre ++ line h ++ CRLF) rest (match hs !! h.1 with Some _ => hs | None => <[h.1 := h.2]> hs end) Hok ltac:(simpl in Hf; lia)).
    rewrite <- !app_assoc in IH. specialize (IH Hlen). set (b := pre ++ _) in *.
    assert (strlen b = Z.of_nat (length pre) + Z.of_nat (length (line h)) + 2 + strlen (lines (line <$> hl) ++ CRLF ++ rest)) as Hb.
    { unfold b, strlen. rewrite !length_app. simpl. lia. }
    assert (Z.of_nat (length (line h)) = Z.of_nat (length h.1) + 2 + Z.of_nat (length h.2)) as Hline.
    { unfold line. rewrite !length_app. simpl. lia. }
    unfold strlen in Hb, Hlen. rewrite (proj2 (Z.eqb_neq _ npos)) by (unfold npos; lia). rewrite (proj2 (Z.eqb_neq _ _)) by lia.
    rewrite Z.add_simpl_l, !wrap_small by (unfold fits; lia). unfold b at 1. rewrite substr_mid. cbn [rbind].
    assert (find (lit ": ") (line h) 0 = Z.of_nat (length h.1)) as ->.
    { destruct Hh as (_ & Hc & _). exact (find_from (lit ": ") [] _ _ (find_at_hit 58 [32] h.1 h.2 Hc)). }
    rewrite (proj2 (Z.eqb_neq _ npos)) by (unfold npos; lia). rewrite wrap_small by (unfold fits; lia).
    rewrite (substr_mid [] h.1 _ : substr (line h) 0 _ = _). cbn [rbind].
    assert (substr (line h) (Z.of_nat (length h.1) + 2) npos = Done h.2) as ->.
    { unfold line. rewrite app_assoc. erewrite <- substr_rest; [f_equal|unfold npos; lia]. rewrite length_app. simpl. lia. }
    cbn [rbind]. etransitivity; [|exact IH]. f_equal. rewrite !length_app. simpl. lia.
Qed.

Definition response_headers (r : Http.Response) : list header :=
  [(lit "Content-Type", content_type r); (lit "Content-Length", to_string (strlen (resp_body r))); (lit "Connection", lit "close")].

Definition status_line (r : Http.Response) : bytes :=
  lit "HTTP/1.1" ++ SPACE ++ to_string (Http.status r) ++ SPACE ++ reason_phrase (Http.status r).

Lemma serialize_response_text r :
  serialize_response r = lines (status_line r :: (line <$> response_headers r)) ++ CRLF ++ resp_body r.
Proof.
  unfold serialize_response, response_headers, status_line. rewrite !fmap_cons, !lines_cons. unfold line. cbn [fst snd].
  by rewrite <- !app_assoc.
Qed.

Lemma keep_first_response r : keep_first (response_headers r) ∅ = add_headers (response_headers r) ∅.
Proof.
  unfold keep_first, add_headers, response_headers. cbn [foldl fst snd]. rewrite lookup_empty.
  rewrite lookup_insert_ne, lookup_empty by (by vm_compute). by rewrite !lookup_insert_ne, lookup_empty by (by vm_compute).
Qed.

Lemma reason_phrase_free st : no_cr (reason_phrase st).
Proof. unfold reason_phrase. repeat case_match; by apply lit_free. Qed.


Section response.
  Context (r : Http.Response).
  Context (Hct : no_cr (content_type r)) (Hst : fits 31 (Http.status r)) (Hlen : strlen (serialize_response r) < 2 ^ 63).

Lemma response_facts : strlen (resp_body r) < 2 ^ 63 /\ Forall header_ok (response_headers r) /\ no_cr (status_line r).
Proof.
  assert (strlen (resp_body r) < 2 ^ 63) as Hb.
  { rewrite serialize_response_text in Hlen. unfold strlen in *. rewrite !length_app in Hlen. lia. }
  split_and!; [done| |].
  - unfold response_headers. header_parts. apply to_string_free; [unfold fits, strlen in *; lia|done].
  - unfold status_line, no_cr. repeat apply not_elem_of_app_2; try (by apply lit_free); try apply reason_phrase_free.
    + by apply (lit_free " ").
    + apply to_string_free; [unfold fits in *; lia|done].
    + by apply (lit_free " ").
Qed.

(** The header that [recv_header] splits off. *)
Lemma response_blank :
  find_at (CRLF ++ CRLF) (serialize_response r) = Some (length (lines (status_line r :: (line <$> response_headers r))) - 2)%nat.
Proof.
  destruct response_facts as (_ & Hok & Hs). rewrite serialize_response_text. apply find_at_blank; [done|].
  apply Forall_fmap. eapply Forall_impl; [exact Hok|]. intros h Hh. split; [by apply line_no_cr|apply line_nonempty].
Qed.

Lemma parse_response_ok b rs t :
  stream rs = Some t ->
  parse_response (lines (status_line r :: (line <$> response_headers r)) ++ CRLF) b rs =
    Returned (mkResponse (Http.status r) (add_headers (response_headers r) ∅) (b ++ t)).
Proof.
  intros Hs. destruct response_facts as (Hb & Hok & Hsl). set (header := _ ++ CRLF).
  assert (strlen header < 2 ^ 63) as Hh.
  { rewrite serialize_response_text, app_assoc in Hlen. fold header in Hlen. unfold strlen in *. rewrite length_app in Hlen. lia. }
  assert (header = (status_line r ++ CRLF) ++ lines (line <$> response_headers r) ++ CRLF) as Eh.
  { unfold header. rewrite lines_cons. by rewrite <- !app_assoc. }
  unfold parse_response. set (tail := reason_phrase (Http.status r) ++ CRLF ++ lines (line <$> response_headers r) ++ CRLF).
  assert (header = lit "HTTP/1.1" ++ SPACE ++ to_string (Http.status r) ++ SPACE ++ tail) as Et.
  { rewrite Eh. unfold status_line, tail. by rewrite <- !app_assoc. }
  assert (to_space header = Some (lit "HTTP/1.1", to_string (Http.status r) ++ SPACE ++ tail)) as ->.
  { rewrite Et. apply to_space_app. by apply lit_free. }
  rewrite to_space_app by (apply to_string_free; [unfold fits in *; lia|done]).
  rewrite (stoi_renders (Http.status r)); [|apply to_string_ok| |]; [|unfold fits in *; lia..].
  assert (find CRLF header (Z.of_nat (length (lit "HTTP/1.1") + 1 + length (to_string (Http.status r)))) = Z.of_nat (length (status_line r))) as ->.
  { rewrite Et, (app_assoc SPACE), (app_assoc (lit _)).
    replace (length (lit "HTTP/1.1") + 1 + length (to_string (Http.status r)))%nat
      with (length (lit "HTTP/1.1" ++ SPACE ++ to_string (Http.status r))) by (rewrite !length_app; simpl; lia).
    assert (13 ∉ SPACE ++ reason_phrase (Http.status r)) as Hf
      by (apply not_elem_of_app_2; [by apply (lit_free " ")|apply reason_phrase_free]).
    pose proof (find_at_hit 13 [10] _ (lines (line <$> response_headers r) ++ CRLF) Hf) as Hhit. rewrite <- app_assoc in Hhit.
    rewrite (find_from _ _ _ _ Hhit). unfold status_line. rewrite !length_app. simpl. lia. }
  assert (strlen header = strlen (status_line r) + 2 + strlen (lines (line <$> response_headers r)) + 2) as El.
  { rewrite Eh. unfold strlen. rewrite !length_app. simpl. lia. }
  unfold strlen in El, Hh. rewrite (proj2 (Z.eqb_neq _ npos)) by (unfold npos; lia). rewrite wrap_small by (unfold fits; lia).
  pose proof (client_headers_lines (response_headers r) (S (length header)) (status_line r ++ CRLF) [] ∅ Hok) as Hc.
  rewrite app_nil_r, <- Eh in Hc. replace (Z.of_nat (length (status_line r)) + 2) with (Z.of_nat (length (status_line r ++ CRLF)))
    by (rewrite length_app; simpl; lia).
  rewrite Hc, keep_first_response; [|pose proof (length_lines (line <$> response_headers r)) as Hll; rewrite length_fmap in Hll; lia|done].
  by rewrite (recv_body_ok _ _ _ Hs).
Qed.

Lemma response_reads rs (Hrs : stream rs = Some (serialize_response r)) :
  recv_response_ rs = Returned (mkResponse (Http.status r) (add_headers (response_headers r) ∅) (resp_body r)).
Proof.
  unfold recv_response_.
  destruct (recv_header_ok rs [] (serialize_response r) _ eq_refl Hrs response_blank Hlen) as (b & rs' & t' & Hrecv & Hs' & Hsplit).
  rewrite (Hrecv : recv_header rs [] 0 = _). clear Hrecv. rewrite app_nil_l in *.
  set (hd := lines (status_line r :: (line <$> response_headers r))) in *.
  assert (2 <= length hd)%nat as H2 by (unfold hd; rewrite length_lines_cons; lia).
  assert (take (length hd - 2 + 4) (serialize_response r) = hd ++ CRLF) as Ht.
  { rewrite serialize_response_text. fold hd. rewrite app_assoc, take_app_length'; [done|]. rewrite length_app. simpl. lia. }
  rewrite Ht in *. rewrite serialize_response_text in Hsplit. fold hd in Hsplit. rewrite (app_assoc hd) in Hsplit.
  apply app_inv_head in Hsplit. rewrite Hsplit. by apply parse_response_ok.
Qed.

(** C20. The client reads the server's responses, when their content type has no CR and the
    status is below [2 ^ 31]: however the network cuts the serialised response into reads, [recv_response_] returns its status, its headers
    and its body, and neither indexes out of the string nor throws. *)
Theorem response_roundtrip rs (Hrs : stream rs = Some (serialize_response r)) :
  recv_response_ rs = Returned (mkResponse (Http.status r) (add_headers (response_headers r) ∅) (resp_body r)).
Proof. by apply response_reads. Qed.
End response.

Lemma response_roundtrip_witness :
  let r := Http.mkResponse 200 (lit "application/json") (lit "{}") in
  let cut n := [Chunk (take n (serialize_response r)); Again; Chunk (drop n (serialize_response r)); Eof] in
  recv_response_ (cut 20%nat) = Returned (mkResponse 200 (add_headers (response_headers r) ∅) (lit "{}")).
Proof.
  intros r cut. apply (response_roundtrip r); [by apply lit_free|by vm_compute|by vm_compute|by vm_compute].
Defined.

(** Without a blank line, everything up to the end of the stream is the header. *)
Lemma recv_header_eof rs : forall pre t,
  stream rs = Some t -> find_at (CRLF ++ CRLF) (pre ++ t) = None -> strlen (pre ++ t) < 2 ^ 63 ->
  exists rs', recv_header rs pre (strlen pre) = Done (Some (pre ++ t, [], rs')).
Proof.
  assert (forall l1 l2, find_at (CRLF ++ CRLF) (l1 ++ l2) = None -> find_at (CRLF ++ CRLF) l1 = None) as Hpre.
  { intros l1 l2 Hn. destruct (find_at _ l1) as [i|] eqn:Hi; [|done]. by rewrite (find_at_app _ _ l2 _ Hi) in Hn. }
  induction rs as [|r rs IH]; intros pre t Hs Hn Hlen; [done|]. destruct r as [c| | |]; cbn [stream recv_header] in Hs |- *; [| | |done].
  - destruct (stream rs) as [t'|] eqn:Hs'; cbn in Hs; simplify_eq. rewrite (app_assoc pre) in Hn, Hlen |- *.
    assert (strlen (pre ++ c) < 2 ^ 63) as Hlc by (unfold strlen in *; rewrite (length_app (pre ++ c)) in Hlen; lia).
    rewrite (resumed_search pre c) by eauto. rewrite (Hpre _ _ Hn), Z.eqb_refl. cbn [negb].
    unfold strlen in *. rewrite length_app in Hlc. rewrite wrap_small by (unfold fits; lia).
    replace (Z.of_nat (length pre) + Z.of_nat (length c)) with (Z.of_nat (length (pre ++ c))) by (rewrite length_app; lia). eauto.
  - simplify_eq. rewrite app_nil_r. eauto.
  - eauto.
Qed.

Lemma to_space_none l : 32 ∉ l -> to_space l = None.
Proof.
  induction l as [|c l IH]; intros Hl; [done|]. apply not_elem_of_cons in Hl as [Hc Hl]. simpl.
  rewrite (proj2 (Z.eqb_neq _ _)) by auto. by rewrite IH.
Qed.

(** A peer whose answer holds no space, in particular one that closes the
    connection before sending anything, makes the client index its header string
    out of range. *)
Theorem client_spaceless_response rs t (Hs : stream rs = Some t) (Ht : 32 ∉ t) (Hlen : strlen t < 2 ^ 63) :
  recv_response_ rs = Undefined.
Proof.
  unfold recv_response_. destruct (find_at (CRLF ++ CRLF) t) as [i|] eqn:Hi.
  - destruct (recv_header_ok rs [] t i eq_refl Hs Hi Hlen) as (b & rs' & t' & Hr & _ & _).
    rewrite (Hr : recv_header rs [] 0 = _). unfold parse_response. rewrite to_space_none; [done|].
    intros Hin. apply Ht. simpl in Hin. apply elem_of_take in Hin as (j & Hj & _). by eapply list_elem_of_lookup_2.
  - destruct (recv_header_eof rs [] t Hs Hi Hlen) as (rs' & Hr).
    rewrite (Hr : recv_header rs [] 0 = _). unfold parse_response. by rewrite to_space_none.
Qed.

Lemma client_spaceless_response_witness : recv_response_ [Again; Eof] = Undefined.
Proof. apply (client_spaceless_response _ []); [done|apply not_elem_of_nil|by vm_compute]. Defined.

(** ** The connection *)
(** [fd_], and the descriptors of the process. *)
Record RestClient := mkClient { fd_ : Z; client_fds : table }.
Definition new_client (t : table) : RestClient := mkClient (-1) t.

(** The outcomes of [getaddrinfo], [socket] and [connect]. *)
Record dial := mkDial { d_resolved : bool; d_socket : option Z; d_connected : bool }.

Definition connect (d : dial) (c : RestClient) : bool * RestClient :=
  if negb (d_resolved d) then (false, c)
  else match d_socket d with
       | None => (false, mkClient (-1) (client_fds c))
       | Some fd =>
         let t := open_fd fd (client_fds c) in
         if negb (d_connected d) then (false, mkClient fd (close fd t)) else (true, mkClient fd t)
       end.

(** The destructor. *)
Definition destroy (c : RestClient) : table := if decide (fd_ c = -1) then client_fds c else close (fd_ c) (client_fds c).

(** The life of a client's descriptor, on every branch of [connect]: a client that
    never connected or that connected once gives back what it opened; one whose
    [::connect] was refused keeps the number it has already closed, and its destructor
    closes it again, also when it belongs to somebody else by then; one that connects a
    second time never closes its first connection. *)
Theorem client_descriptor (d d' : dial) (t : table) fd fd'
    (Hs : d_socket d = Some fd) (Hfd : fd ∉ opened t) (Hneg : 0 <= fd) (Hs' : d_socket d' = Some fd') (Hfd' : fd' ∉ {[fd]} ∪ opened t) (Hneg' : 0 <= fd') :
  let '(ok, c) := connect d (new_client t) in
  ok = d_resolved d && d_connected d /\
  (d_resolved d = false -> destroy c = t) /\
  (ok = true -> fd ∈ opened (client_fds c) /\ destroy c = t /\
     (d_resolved d' && d_connected d' = true -> opened (destroy (connect d' c).2) = {[fd]} ∪ opened t)) /\
  (d_resolved d = true -> d_connected d = false ->
     client_fds c = t /\ misused (destroy c) = misused t ++ [fd] /\ forall t', fd ∈ opened t' -> fd ∉ opened (destroy (mkClient (fd_ c) t'))).
Proof.
  unfold connect, new_client. rewrite Hs. destruct (d_resolved d), (d_connected d); cbn [negb andb].
  - split; [done|]. split; [done|]. split; [|done]. intros _. split; [simpl; set_solver|]. split.
    + unfold destroy. cbn [fd_ client_fds]. rewrite decide_False by lia. by apply close_open_fd.
    + intros [-> ->]%andb_true_iff. rewrite Hs'. unfold destroy. cbn [negb snd fd_ client_fds]. rewrite decide_False by lia. by rewrite close_open_fd.
  - split; [done|]. split; [done|]. split; [done|]. intros _ _. rewrite close_open_fd by done. split; [done|].
    unfold destroy. cbn [fd_ client_fds]. rewrite decide_False by lia. split; [by rewrite close_closed|].
    intros t' Ht'. rewrite decide_False by lia. rewrite close_opened by done. apply not_elem_of_difference. right. by apply elem_of_singleton.
  - split; [done|]. split; [done|]. split; done.
  - split; [done|]. split; [done|]. split; done.
Qed.

Lemma client_descriptor_witness :
  let c := (connect (mkDial true (Some 7) false) (new_client (mkTable {[0; 1; 2]} []))).2 in
  client_fds c = mkTable {[0; 1; 2]} [] /\ misused (destroy c) = [7].
Proof.
  destruct (client_descriptor (mkDial true (Some 7) false) (mkDial true (Some 8) true) (mkTable {[0; 1; 2]} []) 7 8 eq_refl) as (_ & _ & _ & H);
    [apply (bool_decide_unpack _); vm_compute; exact Logic.I|lia|reflexivity|apply (bool_decide_unpack _); vm_compute; exact Logic.I|lia|].
  destruct (H eq_refl eq_refl) as (H1 & H2 & _). exact (conj H1 H2).
Defined.

End RestClient.
