(* ===== verification/Reactor.v ===== *)
(** * [sim/reactor.{h,cpp}]: the event loop

    Callbacks are values of a type [C] that [invoke] runs; they may change the
    reactor and the rest [W] of the program.  The kernel is a script: the outcome of
    each [epoll_wait], and of each [epoll_ctl] as an argument.  [interest] is not a
    field of the class: it is the set of descriptors that the calls of [epoll_ctl]
    registered and that were not deleted since. *)
From stdpp Require Import gmap list numbers sorting.
From S2P Require Import Prelude Bytes Socket.
Open Scope Z_scope.

Module Reactor.
Import Socket.

Section reactor.
  Context {C : Type}.

Record Reactor := mkReactor {
  running_ : bool;
  callbacks_ : gmap Z C;
  pending_removes_ : list Z;
  interest : gset Z;
}.

Definition make : Reactor := mkReactor false ∅ [] ∅.

(** [rc] tells whether the call of [epoll_ctl] succeeds. *)
Definition add_fd (rc : bool) (fd : Z) (cb : C) (r : Reactor) : bool * Reactor :=
  if negb rc then (false, r)
  else (true, mkReactor (running_ r) (<[fd := cb]> (callbacks_ r)) (pending_removes_ r) ({[fd]} ∪ interest r)).

Definition mod_fd (rc : bool) (fd : Z) (r : Reactor) : bool * Reactor :=
  if negb rc then (false, r) else (true, r).

Definition remove_fd (rc : bool) (fd : Z) (r : Reactor) : Reactor :=
  mkReactor (running_ r) (callbacks_ r) (pending_removes_ r ++ [fd])
    (if rc then interest r ∖ {[fd]} else interest r).

Definition set_running (b : bool) (r : Reactor) : Reactor :=
  mkReactor b (callbacks_ r) (pending_removes_ r) (interest r).
Definition stop (r : Reactor) : Reactor := set_running false r.

(** The removals after a batch of events. *)
Definition flush (r : Reactor) : Reactor :=
  mkReactor (running_ r) (foldl (fun m fd => delete fd m) (callbacks_ r) (pending_removes_ r)) [] (interest r).

(** ** The loop *)
Inductive wait := Batch (evs : list (Z * Z)) | WaitInterrupted | WaitFailed.

Section run.
  Context {W : Type} (invoke : C -> Z -> Z -> Reactor * W -> outcome (Reactor * W)).

(** One event of a batch. *)
Definition handle (ev : Z * Z) (st : Reactor * W) : outcome (Reactor * W) :=
  match callbacks_ st.1 !! ev.1 with
  | Some cb => invoke cb ev.1 ev.2 st
  | None => Returned st
  end.

Fixpoint handle_all (evs : list (Z * Z)) (st : Reactor * W) : outcome (Reactor * W) :=
  match evs with
  | [] => Returned st
  | ev :: evs => let! st := handle ev st in handle_all evs st
  end.

(** The state in which the script of waits ends, or in which [run] returns. *)
Fixpoint run_loop (ws : list wait) (st : Reactor * W) : outcome (Reactor * W) :=
  if negb (running_ st.1) then Returned st
  else match ws with
       | [] | WaitFailed :: _ => Returned st
       | WaitInterrupted :: ws => run_loop ws st
       | Batch evs :: ws => let! st := handle_all evs st in run_loop ws (flush st.1, st.2)
       end.

Definition run (ws : list wait) (st : Reactor * W) : outcome (Reactor * W) :=
  run_loop ws (set_running true st.1, st.2).

(** A property of the state that every callback and every flush preserves, and under
    which no callback has undefined behaviour, holds throughout the loop. *)
Lemma run_invariant (P : Reactor -> W -> Prop) :
  (forall cb fd ev r w, P r w -> callbacks_ r !! fd = Some cb ->
     invoke cb fd ev (r, w) ≠ Undefined /\ forall r' w', invoke cb fd ev (r, w) = Returned (r', w') -> P r' w') ->
  (forall r w, P r w -> P (flush r) w) -> (forall b r w, P r w -> P (set_running b r) w) ->
  forall ws r w, P r w -> run ws (r, w) ≠ Undefined /\ forall r' w', run ws (r, w) = Returned (r', w') -> P r' w'.
Proof.
  intros Hcb Hfl Hrun.
  assert (forall evs r w, P r w ->
    handle_all evs (r, w) ≠ Undefined /\ forall r' w', handle_all evs (r, w) = Returned (r', w') -> P r' w') as Hall.
  { induction evs as [|ev evs IH]; intros r w HP; cbn [handle_all]; [split; [done|by intros; simplify_eq]|].
    unfold handle. cbn [fst]. destruct (callbacks_ r !! ev.1) as [cb|] eqn:Ec; [|by apply IH].
    destruct (Hcb cb ev.1 ev.2 r w HP Ec) as [Hu Hr]. destruct (invoke _ _ _ _) as [[r1 w1]| | |]; [|done..]. apply IH. eauto. }
  assert (forall ws r w, P r w ->
    run_loop ws (r, w) ≠ Undefined /\ forall r' w', run_loop ws (r, w) = Returned (r', w') -> P r' w') as Hloop.
  { induction ws as [|x ws IH]; intros r w HP; cbn [run_loop fst]; (destruct (negb _); [split; [done|by intros; simplify_eq]|]).
    - split; [done|by intros; simplify_eq].
    - destruct x as [evs| |]; [|by apply IH|split; [done|by intros; simplify_eq]].
      destruct (Hall evs r w HP) as [Hu Hr]. destruct (handle_all evs (r, w)) as [[r1 w1]| | |]; [|done..]. apply IH. eauto. }
  intros ws r w HP. apply Hloop. eauto.
Qed.
End run.

(** ** Callbacks and registrations agree *)
(** A descriptor is registered exactly when it has a callback that is not about to be
    removed. *)
Definition in_sync (r : Reactor) : Prop :=
  forall fd, fd ∈ interest r <-> is_Some (callbacks_ r !! fd) /\ (fd ∉ pending_removes_ r).

Lemma foldl_delete_lookup (l : list Z) (m : gmap Z C) fd :
  foldl (fun m fd => delete fd m) m l !! fd = if decide (fd ∈ l) then None else m !! fd.
Proof.
  revert m. induction l as [|x l IH]; intros m; cbn [foldl]; [by rewrite decide_False by apply not_elem_of_nil|].
  rewrite IH. destruct (decide (fd ∈ l)) as [H|H].
  - by rewrite decide_True by (by apply list_elem_of_further).
  - destruct (decide (x = fd)) as [->|Hne].
    + rewrite lookup_delete_eq, decide_True; [done|apply list_elem_of_here].
    + rewrite lookup_delete_ne by done. rewrite decide_False; [done|]. by apply not_elem_of_cons.
Qed.

Lemma flush_lookup r fd :
  callbacks_ (flush r) !! fd = if decide (fd ∈ pending_removes_ r) then None else callbacks_ r !! fd.
Proof. apply foldl_delete_lookup. Qed.

Lemma in_sync_make : in_sync make.
Proof. intros fd. simpl. rewrite lookup_empty. split; [set_solver|intros [[] _]; done]. Qed.

Lemma in_sync_flush r : in_sync r -> in_sync (flush r).
Proof.
  intros H fd. rewrite flush_lookup. simpl. specialize (H fd). case_decide.
  - split; [intros ?%H; tauto|intros [[] _]; done].
  - rewrite H. split; [intros [? _]; split; [done|apply not_elem_of_nil]|tauto].
Qed.

Lemma in_sync_running b r : in_sync r -> in_sync (set_running b r).
Proof. done. Qed.

Lemma in_sync_add rc fd cb r : in_sync r -> fd ∉ pending_removes_ r -> in_sync (add_fd rc fd cb r).2.
Proof.
  intros H Hp x. unfold add_fd. destruct rc; simpl; [|apply H]. destruct (decide (fd = x)) as [<-|Hne].
  - rewrite lookup_insert_eq. split; [intros _; eauto|set_solver].
  - rewrite lookup_insert_ne by done. rewrite <- (H x). set_solver.
Qed.

Lemma in_sync_remove fd r : in_sync r -> in_sync (remove_fd true fd r).
Proof.
  intros H x. simpl. rewrite elem_of_difference, (H x), elem_of_app, list_elem_of_singleton, elem_of_singleton. tauto.
Qed.

(** After a batch the callbacks are exactly the registered descriptors. *)
Lemma in_sync_dom r : in_sync r -> pending_removes_ r = [] -> dom (callbacks_ r) = interest r.
Proof.
  intros H Hp. apply set_eq. intros fd. rewrite (H fd), Hp, elem_of_dom. split; [intros ?; split; [done|apply not_elem_of_nil]|tauto].
Qed.

End reactor.
Arguments Reactor : clear implicits.
End Reactor.
