(* ===== verification/Gateway.v ===== *)
(** * [sim/domain/market_registry.cpp] and [sim/http/handlers.cpp]

    The registry of markets and the order handler, over the engine of [Exchange.v].
    simdjson is a parameter: the class [Json] has the calls the handler makes, each
    with the parser state it leaves behind. *)
From stdpp Require Import gmap list numbers strings sorting.
From S2P Require Import Prelude Interfaces MatchingEngine MatchSpec EngineRep Exchange Bytes Http.
Open Scope Z_scope.
Open Scope cpp_scope.

Module Gateway.
Import Engine Clob Exchange Bytes Http.

(** ** [MarketRegistry] *)
Abbreviation MarketRegistry := (gmap bytes KalshiEngine).
Definition empty_registry : MarketRegistry := ∅.

(** [base] is the address at which the new engine's pool is mapped; the engine is
    built before the lookup and dropped when the ticker exists. *)
Definition add_market (base : Z) (ticker : bytes) (reg : MarketRegistry) : option (bool * MarketRegistry) :=
  e ← Exchange.make base;
  match reg !! ticker with
  | Some _ => Some (false, reg)
  | None => Some (true, <[ticker := e]> reg)
  end.

Definition get_engine (ticker : bytes) (reg : MarketRegistry) : option KalshiEngine := reg !! ticker.
Definition has_market (ticker : bytes) (reg : MarketRegistry) : bool := bool_decide (is_Some (reg !! ticker)).
(** In the order of the map. *)
Definition list_markets (reg : MarketRegistry) : list bytes := (map_to_list reg).*1.

(** ** The JSON library *)
Class Json := {
  document : Type;
  (** [parser.iterate(s).get(doc)] *)
  iterate : bytes -> option document;
  (** [doc.find_field_unordered(k).get_string().get(v)] and [get_int64] *)
  get_string : document -> bytes -> option bytes * document;
  get_int64 : document -> bytes -> option Z * document;
}.

Section handlers.
  Context {JS : Json}.

Definition make_error (st : Z) (msg : bytes) : Response :=
  mkResponse st (lit "application/json") (lit "{'error':'" ++ msg ++ lit "'}").

Definition json_bool (b : bool) : bytes := if b then lit "true" else lit "false".

Definition fill_json (f : Fill) : bytes :=
  lit "{'maker_order_id':" ++ to_string (maker_order_id f) ++
  lit ",'taker_order_id':" ++ to_string (taker_order_id f) ++
  lit ",'price':" ++ to_string (fill_price f) ++
  lit ",'qty':" ++ to_string (fill_qty f) ++
  lit ",'ts':" ++ to_string (fill_ts f) ++ lit "}".

(** The loop over the fills from index [i]. *)
Fixpoint fills_json (i : nat) (fs : list Fill) : bytes :=
  match fs with
  | [] => []
  | f :: fs => (if (0 <? i)%nat then lit "," else []) ++ fill_json f ++ fills_json (S i) fs
  end.

Definition result_json (r : PlaceResult) : bytes :=
  lit "{'order_id':" ++ to_string (result_order_id r) ++
  lit ",'qty_resting':" ++ to_string (qty_resting r) ++
  lit ",'accepted':" ++ json_bool (accepted r) ++
  lit ",'fills': [" ++ fills_json 0 (fills r) ++ lit "]}".

Definition parse_side (s : bytes) : option Side :=
  if decide (s = lit "YES") then Some YES else if decide (s = lit "NO") then Some NO else None.

(** [None] is undefined behaviour inside the engine. *)
Definition handle_place_order (ts : Z) (req : Request) (reg : MarketRegistry) : option (Response * MarketRegistry) :=
  let client_id := 1 in
  let fail st msg := Some (make_error st (codes msg), reg) in
  match iterate (body req) with
  | None => fail 400 "malformed JSON"
  | Some doc =>
    let '(ticker, doc) := get_string doc (lit "ticker") in
    match ticker with
    | None => fail 400 "missing or invalid 'ticker'"
    | Some ticker =>
      if decide (ticker = []) then fail 400 "ticker empty" else
      let '(side_str, doc) := get_string doc (lit "side") in
      match side_str with
      | None => fail 400 "missing or invalid 'side'"
      | Some side_str =>
        match parse_side side_str with
        | None => fail 400 "side must be 'YES' or 'NO'"
        | Some side =>
          let '(price_raw, doc) := get_int64 doc (lit "price") in
          match price_raw with
          | None => fail 400 "missing or invalid 'price'"
          | Some price_raw =>
            if (price_raw <? 1) || (99 <? price_raw) then fail 400 "price out of range (1-99)" else
            let price := u8 price_raw in
            let '(qty_raw, doc) := get_int64 doc (lit "qty") in
            match qty_raw with
            | None => fail 400 "missing or invalid 'qty'"
            | Some qty_raw =>
              if (qty_raw <=? 0) || (1000000 <? qty_raw) then fail 400 "qty out of range" else
              let qty := u32 qty_raw in
              match get_engine ticker reg with
              | None => fail 404 "no such market"
              | Some engine =>
                '(result, engine) ← Engine.place_limit ts client_id side price qty engine;
                Some (mkResponse 200 (lit "application/json") (result_json result), <[ticker := engine]> reg)
              end
            end
          end
        end
      end
    end
  end.

Definition handle_get_orderbook (req : Request) (reg : MarketRegistry) : Response := make_error 501 (codes "endpoint developing").
Definition handle_cancel_order (req : Request) (reg : MarketRegistry) : Response := make_error 501 (codes "endpoint developing").

(** ** Routing *)
Definition Handler : Type := Z -> Request -> MarketRegistry -> option (Response * MarketRegistry).

Definition route (method path : bytes) (h : Handler) (routes : gmap bytes Handler) : gmap bytes Handler :=
  <[method ++ lit " " ++ path := h]> routes.

Definition dispatch_ (routes : gmap bytes Handler) : Handler := fun ts req reg =>
  match routes !! (Http.method req ++ lit " " ++ path req) with
  | None => Some (mkResponse 404 (lit "text/plain") (lit "Not Found"), reg)
  | Some h => h ts req reg
  end.

(** The routes and the market that [main] sets up. *)
Definition main_routes : gmap bytes Handler :=
  route (lit "POST") (lit "/portfolio/orders") handle_place_order
  (route (lit "GET") (lit "/portfolio/balance")
     (fun _ _ reg => Some (mkResponse 200 (lit "application/json") (lit "{'balance': 10000}"), reg))
  (route (lit "GET") (lit "/exchange/status")
     (fun _ _ reg => Some (mkResponse 200 (lit "application/json") (lit "{'status': 'ok'}"), reg)) ∅)).

Definition main_registry (base : Z) : option MarketRegistry := snd <$> add_market base (lit "DEMO-1") empty_registry.

(** ** The engines behind the gateway stay well-formed *)
(** Every engine is reachable and has issued fewer than [n] ids. *)
Definition registry_ok (n : Z) (reg : MarketRegistry) : Prop :=
  forall t e, reg !! t = Some e -> exists base, 0 < base /\ reach base e /\ next_order_id_ e <= n.

Lemma registry_ok_mono n n' reg : registry_ok n reg -> n <= n' -> registry_ok n' reg.
Proof. intros H Hn t e Ht. destruct (H t e Ht) as (b & ? & ? & ?). exists b. split_and!; [done..|lia]. Qed.

Lemma registry_ok_insert n reg t e base :
  registry_ok n reg -> 0 < base -> reach base e -> next_order_id_ e <= n -> registry_ok n (<[t := e]> reg).
Proof.
  intros H Hb Hr Hn t' e'. destruct (decide (t = t')) as [<-|Hne].
  - rewrite lookup_insert_eq. intros [= <-]. eauto.
  - rewrite lookup_insert_ne by done. apply H.
Qed.

Lemma add_market_ok n base t reg :
  0 < base -> 1 <= n -> registry_ok n reg ->
  exists reg', add_market base t reg = Some (negb (has_market t reg), reg') /\ registry_ok n reg' /\ is_Some (reg' !! t) /\
    forall u, u ≠ t \/ is_Some (reg !! t) -> reg' !! u = reg !! u.
Proof.
  intros Hb Hn Hok. destruct (make_implements base Hb) as (e & He & Hi). unfold add_market, has_market. rewrite He. cbn [mbind option_bind].
  destruct (reg !! t) as [e0|] eqn:Et.
  - exists reg. rewrite bool_decide_true by eauto. rewrite Et. split_and!; eauto.
  - exists (<[t := e]> reg). rewrite bool_decide_false by (by intros []). split_and!; [done| |rewrite lookup_insert_eq; eauto|].
    + eapply registry_ok_insert; [done|exact Hb|by apply reach_make|]. destruct Hi as (? & ? & _ & _ & _ & ->). exact Hn.
    + intros u [Hu|[]]; [|done]. by rewrite lookup_insert_ne.
Qed.

(** An order that passes the handler's checks is one of the engine's requests. *)
Lemma place_ok n reg t e ts sd pr qty :
  registry_ok n reg -> reg !! t = Some e -> n < 2 ^ 64 - 1 -> 1 <= qty <= 1000000 ->
  exists r e', Engine.place_limit ts 1 sd pr qty e = Some (r, e') /\ registry_ok (n + 1) (<[t := e']> reg) /\
    forall s, implements e s -> (r, nid (submit ts 1 sd pr qty s).2) = ((submit ts 1 sd pr qty s).1, next_order_id_ e') /\
      implements e' (submit ts 1 sd pr qty s).2.
Proof.
  intros Hok Ht Hn Hq. destruct (Hok t e Ht) as (base & Hb & Hr & Hid).
  assert (request_ok (Place ts 1 sd pr qty)) as Hrq by (simpl; unfold EngineRep.Rep.QTY_BOUND; lia).
  assert (forall (x : KalshiEngine) y, implements x y -> next_order_id_ x = nid y) as Hnid by (by intros x y (? & ? & _ & _ & _ & ?)).
  assert (forall s, implements e s -> exists e', Engine.place_limit ts 1 sd pr qty e = Some ((submit ts 1 sd pr qty s).1, e') /\
    implements e' (submit ts 1 sd pr qty s).2) as Hsim.
  { intros s Hi. destruct (place_simulates e s ts 1 sd pr qty Hi Hrq) as (e' & He' & Hi'); [rewrite <- (Hnid _ _ Hi); lia|].
    exists e'. by destruct (submit ts 1 sd pr qty s). }
  destruct (reach_inv _ _ Hb Hr) as (s & Hi & _). destruct (Hsim s Hi) as (e' & He' & Hi').
  pose proof (spec_serve_nid (Place ts 1 sd pr qty) s) as Hnx. simpl in Hnx.
  exists (submit ts 1 sd pr qty s).1, e'. split_and!; [done| |].
  - eapply registry_ok_insert; [apply (registry_ok_mono n); [done|lia]|exact Hb| |].
    + eapply (reach_serve base (Place ts 1 sd pr qty)); [done..|lia|]. unfold serve. rewrite He'. reflexivity.
    + rewrite (Hnid _ _ Hi'). rewrite (Hnid _ _ Hi) in Hid. destruct (submit ts 1 sd pr qty s). simpl in *. lia.
  - intros s2 Hi2. destruct (Hsim s2 Hi2) as (e2 & He2 & Hi2'). rewrite He' in He2. injection He2 as Hs <-.
    split; [|done]. by rewrite Hs, (Hnid _ _ Hi2').
Qed.

(** The two kinds of answers to an order. *)
Definition refused_or_placed (ts : Z) (reg : MarketRegistry) (resp : Response) (reg' : MarketRegistry) : Prop :=
  (Http.status resp ∈ [400; 404] /\ reg' = reg) \/
  exists t e sd pr qty r e', reg !! t = Some e /\ 1 <= pr <= 99 /\ 1 <= qty <= 1000000 /\
    Engine.place_limit ts 1 sd pr qty e = Some (r, e') /\ reg' = <[t := e']> reg /\
    resp = mkResponse 200 (lit "application/json") (result_json r).

Lemma handler_ok ts req reg n :
  registry_ok n reg -> n < 2 ^ 64 - 1 ->
  exists resp reg', handle_place_order ts req reg = Some (resp, reg') /\ registry_ok (n + 1) reg' /\
    refused_or_placed ts reg resp reg'.
Proof.
  intros Hok Hn.
  assert (forall st msg, st ∈ [400; 404] -> exists resp reg', Some (make_error st (codes msg), reg) = Some (resp, reg') /\
    registry_ok (n + 1) reg' /\ refused_or_placed ts reg resp reg') as Hfail.
  { intros st msg Hst. eexists _, _. split; [done|]. split; [eapply registry_ok_mono; [done|lia]|]. by left. }
  assert (400 ∈ [400; 404]) as H4 by apply list_elem_of_here.
  unfold handle_place_order. destruct (iterate _) as [d|]; [|by apply Hfail].
  destruct (get_string d _) as [[t|] d1]; [|by apply Hfail]. case_decide as Ht; [by apply Hfail|].
  destruct (get_string d1 _) as [[ss|] d2]; [|by apply Hfail]. destruct (parse_side ss) as [sd|]; [|by apply Hfail].
  destruct (get_int64 d2 _) as [[pr|] d3]; [|by apply Hfail].
  destruct (Z.ltb_spec pr 1), (Z.ltb_spec 99 pr); cbn [orb]; try (by apply Hfail).
  destruct (get_int64 d3 _) as [[qty|] d4]; [|by apply Hfail].
  destruct (Z.leb_spec qty 0), (Z.ltb_spec 1000000 qty); cbn [orb]; try (by apply Hfail).
  unfold get_engine. destruct (reg !! t) as [e|] eqn:He; [|apply Hfail; apply list_elem_of_further, list_elem_of_here].
  rewrite !wrap_small by (unfold fits; lia).
  destruct (place_ok n reg t e ts sd pr qty Hok He Hn ltac:(lia)) as (r & e' & Hp & Hok' & _).
  rewrite Hp. cbn [mbind option_bind]. eexists _, _. split; [done|]. split; [done|]. right.
  exists t, e, sd, pr, qty, r, e'. split_and!; (done || lia).
Qed.

(** C11. The order handler is safe: whatever the body is and however the JSON parser
    reads it, the call returns; it answers 400 or 404 and leaves every market as it
    was, or answers 200 after placing on one existing market an order of client 1 at
    a price of 1 to 99 for 1 to 1,000,000 contracts, and the engines stay
    well-formed. *)
Theorem handler_safe ts req reg n (Hok : registry_ok n reg) (Hn : n < 2 ^ 64 - 1) :
  exists resp reg', handle_place_order ts req reg = Some (resp, reg') /\ registry_ok (n + 1) reg' /\
    refused_or_placed ts reg resp reg'.
Proof. by apply handler_ok. Qed.

(** A well-formed order is placed: when the parser reads a known ticker, a side, a
    price and a quantity in range, the handler answers with the result of the abstract
    exchange for that market, whose engine goes on to represent the new book while the
    other markets do not change. *)
Theorem handler_places ts req reg n t e s sd ss pr qty d0 d1 d2 d3 d4
    (Hok : registry_ok n reg) (Hn : n < 2 ^ 64 - 1) (He : reg !! t = Some e) (Hs : implements e s)
    (Hd : iterate (body req) = Some d0)
    (Ht : get_string d0 (lit "ticker") = (Some t, d1)) (Hne : t ≠ [])
    (Hss : get_string d1 (lit "side") = (Some ss, d2)) (Hsd : parse_side ss = Some sd)
    (Hpr : get_int64 d2 (lit "price") = (Some pr, d3)) (Hprb : 1 <= pr <= 99)
    (Hqty : get_int64 d3 (lit "qty") = (Some qty, d4)) (Hqb : 1 <= qty <= 1000000) :
  let '(r, s') := submit ts 1 sd pr qty s in
  exists e', handle_place_order ts req reg =
      Some (mkResponse 200 (lit "application/json") (result_json r), <[t := e']> reg) /\
    implements e' s'.
Proof.
  destruct (place_ok n reg t e ts sd pr qty Hok He Hn Hqb) as (r & e' & Hp & _ & Hspec).
  destruct (Hspec s Hs) as [Hr Hi']. destruct (submit ts 1 sd pr qty s) as [r' s']. simpl in *. injection Hr as <- _.
  exists e'. split; [|done]. unfold handle_place_order. rewrite Hd, Ht, decide_False, Hss, Hsd, Hpr by done.
  rewrite (proj2 (Z.ltb_ge pr 1)), (proj2 (Z.ltb_ge 99 pr)) by lia. cbn [orb]. rewrite Hqty.
  rewrite (proj2 (Z.leb_gt qty 0)), (proj2 (Z.ltb_ge 1000000 qty)) by lia. cbn [orb]. unfold get_engine. rewrite He.
  rewrite !wrap_small by (unfold fits; lia). by rewrite Hp.
Qed.

End handlers.

(** ** Instances *)
(** A parser that knows one order. *)
Definition demo_json : Json := {|
  document := unit;
  iterate _ := Some tt;
  get_string d k := (Some (if decide (k = lit "ticker") then lit "DEMO-1" else lit "YES"), d);
  get_int64 d k := (Some (if decide (k = lit "price") then 62 else 10), d);
|}.
Definition demo_registry : MarketRegistry := {[lit "DEMO-1" := demo_engine]}.
Definition demo_request : Request := mkRequest (lit "POST") (lit "/portfolio/orders") ∅ [].

Lemma demo_registry_ok : registry_ok 6 demo_registry.
Proof.
  intros t e Ht. unfold demo_registry in Ht. apply lookup_singleton_Some in Ht as [<- <-]. exists 65536. split_and!; [lia|apply demo_reach|].
  destruct demo_run as (rs & _ & (? & ? & _ & _ & _ & ->)). vm_compute. discriminate.
Qed.

Lemma handler_safe_witness :
  exists resp reg', @handle_place_order demo_json 9 demo_request demo_registry = Some (resp, reg') /\ registry_ok 7 reg' /\
    refused_or_placed 9 demo_registry resp reg'.
Proof. apply (@handler_safe demo_json 9 demo_request demo_registry 6); [exact demo_registry_ok|reflexivity]. Defined.

Lemma handler_places_witness :
  let '(r, s') := submit 9 1 YES 62 10 demo_state in
  exists e', @handle_place_order demo_json 9 demo_request demo_registry =
      Some (mkResponse 200 (lit "application/json") (result_json r), <[lit "DEMO-1" := e']> demo_registry) /\
    implements e' s'.
Proof.
  apply (@handler_places demo_json 9 demo_request demo_registry 6 (lit "DEMO-1") demo_engine demo_state YES (lit "YES") 62 10 tt tt tt tt tt).
  - exact demo_registry_ok.
  - reflexivity.
  - apply lookup_singleton_eq.
  - destruct demo_run as (rs & _ & Hi). exact Hi.
  - reflexivity.
  - reflexivity.
  - discriminate.
  - reflexivity.
  - reflexivity.
  - reflexivity.
  - lia.
  - reflexivity.
  - lia.
Defined.

End Gateway.
