(* ===== verification/Mapping.v ===== *)
(** * The lifetime of mapped memory

    [FlatHashMap], [Pool] and [Arena] ([src/src/core/]) each own one anonymous mapping:
    the constructor calls [mmap] and aborts when it fails, the destructor calls [munmap]
    with the same length.  The file models the mapped pages of the process, the three
    constructors and destructors, those of [MatchingEngine] (a pool and a table), and
    [MarketRegistry], whose engines live as long as it does.  [Mapped] is what such an
    object does to the pages and [MappedLaws] what it promises: to take pages that nobody
    has, and to give back exactly those. *)
From stdpp Require Import gmap list numbers strings sorting.
From S2P Require Import Prelude Interfaces FlatHashMap Pool Arena MatchingEngine MatchSpec EngineRep Exchange Bytes Http Gateway.
Open Scope Z_scope.
Open Scope cpp_scope.

Module Mapping.
Import Bytes Engine Exchange.

(** ** Pages *)
Definition PAGE : Z := 4096.
Definition MAP_FAILED : Z := 2 ^ 64 - 1.

(** The pages with a byte in [addr, addr + len), for an aligned address. *)
Definition pages (addr len : Z) : gset Z := list_to_set (seqZ (addr / PAGE) ((len + PAGE - 1) / PAGE)).

(** The mapped pages, and the addresses the kernel is going to choose. *)
Record kernel := mkKernel { mapped : gset Z; choices : list Z }.

(** What a successful [mmap] may return. *)
Definition grantable (a len : Z) (m : gset Z) : Prop :=
  0 < len /\ 0 < a /\ a `mod` PAGE = 0 /\ a + len < MAP_FAILED /\ pages a len ## m.
#[export] Instance grantable_dec a len m : Decision (grantable a len m).
Proof. unfold grantable. apply _. Defined.

(** [mmap(nullptr, len, PROT_READ | PROT_WRITE, MAP_PRIVATE | MAP_ANONYMOUS, -1, 0)];
    an address that cannot be granted stands for a failure. *)
Definition mmap (len : Z) (k : kernel) : Z * kernel :=
  match choices k with
  | [] => (MAP_FAILED, k)
  | a :: cs => if decide (grantable a len (mapped k)) then (a, mkKernel (mapped k ∪ pages a len) cs)
               else (MAP_FAILED, mkKernel (mapped k) cs)
  end.

(** [munmap(addr, len)]: pages in the range that are not mapped are no error; an
    address that is not aligned or an empty range is one, which the callers ignore. *)
Definition munmap (addr len : Z) (k : kernel) : kernel :=
  if (addr `mod` PAGE =? 0) && (0 <? len) then mkKernel (mapped k ∖ pages addr len) (choices k) else k.

(** ** Code that may abort *)
Inductive ran (A : Type) := Built (x : A) (k : kernel) | Aborted (stderr : bytes) | Undefined.
Arguments Built {A} _ _.
Arguments Aborted {A} _.
Arguments Undefined {A}.

Definition then_ {A B} (r : ran A) (f : A -> kernel -> ran B) : ran B :=
  match r with Built x k => f x k | Aborted err => Aborted err | Undefined => Undefined end.
Notation "'built' x , k := r 'in' s" := (then_ r (fun x k => s)) (at level 10, x name, k name, r at level 100, s at level 200).

Definition out_of_memory : bytes := codes "fatal: memory allocation failed!" ++ [10].

(** The call and the check the three constructors begin with. *)
Definition reserve (len : Z) (k : kernel) : ran Z :=
  let '(p, k) := mmap len k in
  if p =? MAP_FAILED then Aborted out_of_memory else Built p k.

(** ** What an object with mappings promises *)
Class Mapped (A : Type) := {
  construct : kernel -> ran A;
  destruct_ : A -> kernel -> kernel;
  footprint : A -> gset Z;
  intact : A -> Prop;
}.

Class MappedLaws (A : Type) `{!Mapped A} := {
  construct_ok k :
    match construct k with
    | Built x k' => intact x /\ footprint x ## mapped k /\ mapped k' = mapped k ∪ footprint x
    | Aborted err => err = out_of_memory
    | Undefined => False
    end;
  destruct_ok x k : intact x -> mapped (destruct_ x k) = mapped k ∖ footprint x;
}.

Lemma reserve_ok len k :
  match reserve len k with
  | Built a k' => grantable a len (mapped k) /\ mapped k' = mapped k ∪ pages a len
  | Aborted err => err = out_of_memory
  | Undefined => False
  end.
Proof.
  unfold reserve, mmap. destruct (choices k) as [|a cs]; [done|]. case_decide as Hg; [|done].
  rewrite (proj2 (Z.eqb_neq _ _)); [done|]. destruct Hg as (? & ? & _ & ? & _). lia.
Qed.

Lemma munmap_ok a len k m : grantable a len m -> mapped (munmap a len k) = mapped k ∖ pages a len.
Proof. intros (Hl & _ & Ha & _). unfold munmap. by rewrite (proj2 (Z.eqb_eq _ _) Ha), (proj2 (Z.ltb_lt _ _) Hl). Qed.

(** A page of the range: the page of any of its bytes. *)
Lemma elem_of_pages a len x : a `mod` PAGE = 0 -> a <= x < a + len -> x / PAGE ∈ pages a len.
Proof.
  intros Ha Hx. unfold pages. apply elem_of_list_to_set, elem_of_seqZ. unfold PAGE in *.
  pose proof (Z.div_mod a 4096 ltac:(lia)). pose proof (Z.div_mod x 4096 ltac:(lia)). pose proof (Z.mod_pos_bound x 4096 ltac:(lia)).
  pose proof (Z.div_mod (len + 4096 - 1) 4096 ltac:(lia)). pose proof (Z.mod_pos_bound (len + 4096 - 1) 4096 ltac:(lia)). lia.
Qed.

Lemma union_minus (f m : gset Z) : f ## m -> (m ∪ f) ∖ f = m.
Proof. set_solver. Qed.

Lemma grantable_forget a len m : grantable a len m -> grantable a len ∅.
Proof. intros (? & ? & ? & ? & _). split_and!; [done..|]. set_solver. Qed.

(** An object with one mapping, at [addr x] and of length [size x]. *)
Lemma one_mapping_laws {A} {M : Mapped A} (len : Z) (init : Z -> option A) (addr size : A -> Z) :
  (forall k, construct k = built p, k := reserve len k in match init p with Some x => Built x k | None => Undefined end) ->
  (forall p, 0 < p -> exists x, init p = Some x /\ addr x = p /\ size x = len) ->
  (forall x, destruct_ x = munmap (addr x) (size x)) ->
  (forall x, footprint x = pages (addr x) (size x)) ->
  (forall x, intact x = grantable (addr x) (size x) ∅) -> MappedLaws A.
Proof.
  intros Hc Hi Hd Hf Ht. split.
  - intros k. rewrite Hc. pose proof (reserve_ok len k) as H. destruct (reserve len k) as [p k'| |]; cbn [then_]; [|done..].
    destruct H as [Hg Hm]. pose proof Hg as (_ & Hp & _ & _ & Hdj). destruct (Hi p Hp) as (x & -> & Ha & Hs).
    rewrite Hf, Ht, Ha, Hs. split_and!; [by eapply grantable_forget|done..].
  - intros x k Hx. rewrite Ht in Hx. rewrite Hd, Hf. by eapply munmap_ok.
Qed.

(** ** [Arena] *)
Section arena.
  Context (bytes_ : Z).
Definition arena_construct (k : kernel) : ran Arena.Arena :=
  built p, k := reserve bytes_ k in Built (Arena.make p bytes_) k.
Definition arena_destruct (a : Arena.Arena) (k : kernel) : kernel := munmap (Arena.base_ a) (Arena.capacity_ a) k.

#[export] Instance arena_mapped : Mapped Arena.Arena := {|
  construct := arena_construct;
  destruct_ := arena_destruct;
  footprint a := pages (Arena.base_ a) (Arena.capacity_ a);
  intact a := grantable (Arena.base_ a) (Arena.capacity_ a) ∅;
|}.

#[export] Instance arena_mapped_laws : MappedLaws Arena.Arena.
Proof. apply (one_mapping_laws bytes_ (fun p => Some (Arena.make p bytes_)) Arena.base_ Arena.capacity_); eauto. Qed.
End arena.

(** ** [FlatHashMap] with [2 ^ cap_log] slots of [slot_size] bytes *)
Section table.
  Context {V : Type} `{!Inhabited V} (cap_log slot_size : Z).
Record Table := mkTable { table : Fhm.FlatHashMap V; slots_at : Z }.
Definition table_bytes : Z := Fhm.Capacity cap_log *64 slot_size.
Definition table_construct (k : kernel) : ran Table :=
  built p, k := reserve table_bytes k in Built (mkTable (Fhm.make cap_log) p) k.
Definition table_destruct (t : Table) (k : kernel) : kernel := munmap (slots_at t) table_bytes k.

#[export] Instance table_mapped : Mapped Table := {|
  construct := table_construct;
  destruct_ := table_destruct;
  footprint t := pages (slots_at t) table_bytes;
  intact t := grantable (slots_at t) table_bytes ∅;
|}.

#[export] Instance table_mapped_laws : MappedLaws Table.
Proof. apply (one_mapping_laws table_bytes (fun p => Some (mkTable (Fhm.make cap_log) p)) slots_at (fun _ => table_bytes)); eauto. Qed.

Lemma table_construct_fresh k t k' : table_construct k = Built t k' -> table t = Fhm.make cap_log.
Proof. unfold table_construct. destruct (reserve _ _) as [p k1| |]; cbn [then_]; [|done..]. by intros [= <- _]. Qed.
End table.
Arguments Table : clear implicits.
Arguments mkTable {V} _ _.
Arguments table {V} _.
Arguments slots_at {V} _.

(** ** [Pool] of [Capacity] blocks of [block_size_] bytes *)
Section pool.
  Context {T : Type} `{!Overlay T} (block_size_ : Z) (Capacity : nat).
  (** the value of a block of zeros *)
  Context (zero : T).
Record Blocks := mkBlocks { pool : Pool.Pool; memory : gmap Z T; base_ : Z }.
Definition pool_bytes : Z := Z.of_nat Capacity *64 block_size_.
Definition zeroed_blocks (p : Z) : gmap Z T := list_to_map ((fun a => (a, zero)) <$> Pool.blocks block_size_ Capacity p).
Definition pool_init (p : Z) : option Blocks :=
  '(m, q) ← Pool.make block_size_ Capacity p (zeroed_blocks p); Some (mkBlocks q m p).
Definition pool_construct (k : kernel) : ran Blocks :=
  built p, k := reserve pool_bytes k in match pool_init p with Some x => Built x k | None => Undefined end.
Definition pool_destruct (b : Blocks) (k : kernel) : kernel := munmap (base_ b) pool_bytes k.

#[export] Instance pool_mapped : Mapped Blocks := {|
  construct := pool_construct;
  destruct_ := pool_destruct;
  footprint b := pages (base_ b) pool_bytes;
  intact b := grantable (base_ b) pool_bytes ∅;
|}.

(** The [static_assert]s of the class. *)
Context (Hcap : (0 < Capacity)%nat) (Hsize : 8 <= block_size_).

Lemma zeroed_blocks_mapped p a : a ∈ Pool.blocks block_size_ Capacity p -> is_Some (zeroed_blocks p !! a).
Proof.
  intros Ha. unfold zeroed_blocks. generalize dependent (Pool.blocks block_size_ Capacity p). intros l Ha.
  induction l as [|b l IH]; [by apply not_elem_of_nil in Ha|]. cbn. destruct (decide (a = b)) as [->|Hne]; [rewrite lookup_insert_eq; eauto|].
  rewrite lookup_insert_ne by done. apply IH. by apply elem_of_cons in Ha as [?|?].
Qed.

Lemma pool_init_ok p : 0 < p -> exists x, pool_init p = Some x /\ base_ x = p.
Proof.
  intros Hp. destruct (Pool.make_free_list block_size_ Capacity p) with (m := zeroed_blocks p)
    as (m & q & Hmk & _); [done|lia|done|apply zeroed_blocks_mapped|]. unfold pool_init. rewrite Hmk. eexists. split; [reflexivity|done].
Qed.

Lemma pool_mapped_laws : MappedLaws Blocks.
Proof.
  apply (one_mapping_laws pool_bytes pool_init base_ (fun _ => pool_bytes)); [done| |done..].
  intros p Hp. destruct (pool_init_ok p Hp) as (x & ? & ?). eauto.
Qed.

Lemma pool_construct_make k b k' :
  pool_construct k = Built b k' ->
  0 < base_ b /\ Pool.make block_size_ Capacity (base_ b) (zeroed_blocks (base_ b)) = Some (memory b, pool b).
Proof.
  unfold pool_construct. pose proof (reserve_ok pool_bytes k) as H. destruct (reserve _ _) as [p k1| |]; cbn [then_]; [|done..].
  destruct H as [(_ & Hp & _) _]. unfold pool_init. destruct (Pool.make _ _ p _) as [[m q]|] eqn:E; [|done]. by intros [= <- _].
Qed.

(** Every byte of every block is on a page of the pool. *)
Lemma block_pages b a x :
  Z.of_nat Capacity * block_size_ < 2 ^ 64 -> intact b -> a ∈ Pool.blocks block_size_ Capacity (base_ b) ->
  a <= x < a + block_size_ -> x / PAGE ∈ footprint b.
Proof.
  intros Hw (_ & _ & Hal & _) Ha Hx. apply elem_of_pages; [done|]. unfold pool_bytes. rewrite wrap_small by (unfold fits; lia).
  unfold Pool.blocks in Ha. apply list_elem_of_fmap in Ha as (i & -> & [_ Hi]%elem_of_seq). unfold Pool.block in Hx. nia.
Qed.
End pool.
Arguments Blocks : clear implicits.
Arguments mkBlocks {T} _ _ _.
Arguments pool {T} _.
Arguments memory {T} _.
Arguments base_ {T} _.

(** ** [MatchingEngine]: [pool_] and [orders_], destroyed in the reverse order *)
(** [sizeof(Slot)] for a 64-bit key and a pointer *)
Definition SLOT_SIZE : Z := 16.
#[export] Instance order_blocks_mapped : Mapped (Blocks Order) := pool_mapped ORDER_SIZE POOL_CAPACITY zero_order.
#[export] Instance order_blocks_laws : MappedLaws (Blocks Order).
Proof. apply pool_mapped_laws; [unfold POOL_CAPACITY|unfold ORDER_SIZE]; lia. Qed.
#[export] Instance order_table_mapped : Mapped (Table Z) := @table_mapped Z zeroed_pointer 12 SLOT_SIZE.
#[export] Instance order_table_laws : MappedLaws (Table Z) := @table_mapped_laws Z zeroed_pointer 12 SLOT_SIZE.

(** An engine and where its two members are mapped; no operation of the engine assigns
    the addresses. *)
Record Market := mkMarket { eng : KalshiEngine; pool_at : Z; orders_at : Z }.

Definition engine_construct (k : kernel) : ran Market :=
  built b, k := (construct k : ran (Blocks Order)) in
  built t, k := (construct k : ran (Table Z)) in
  Built (mkMarket (mkEngine (memory b) (pool b) (replicate 101 empty_level) (replicate 101 empty_level) (table t) 0 100 1)
           (base_ b) (slots_at t)) k.

Definition engine_destruct (m : Market) (k : kernel) : kernel :=
  let k := munmap (orders_at m) (table_bytes 12 SLOT_SIZE) k in
  munmap (pool_at m) (pool_bytes ORDER_SIZE POOL_CAPACITY) k.

#[export] Instance engine_mapped : Mapped Market := {|
  construct := engine_construct;
  destruct_ := engine_destruct;
  footprint m := pages (pool_at m) (pool_bytes ORDER_SIZE POOL_CAPACITY) ∪ pages (orders_at m) (table_bytes 12 SLOT_SIZE);
  intact m := grantable (pool_at m) (pool_bytes ORDER_SIZE POOL_CAPACITY) ∅ /\ grantable (orders_at m) (table_bytes 12 SLOT_SIZE) ∅;
|}.

#[export] Instance engine_mapped_laws : MappedLaws Market.
Proof.
  split.
  - intros k. cbn [construct engine_mapped]. unfold engine_construct.
    pose proof (construct_ok (A := Blocks Order) k) as H1. destruct (construct k) as [b k1| |]; cbn [then_]; [|done..].
    pose proof (construct_ok (A := Table Z) k1) as H2. destruct (construct k1) as [t k2| |]; cbn [then_]; [|done..].
    destruct H1 as (I1 & D1 & M1), H2 as (I2 & D2 & M2). rewrite M1 in D2, M2.
    cbn [footprint intact engine_mapped order_blocks_mapped order_table_mapped pool_mapped table_mapped pool_at orders_at] in *.
    split_and!; [exact I1|exact I2| |by rewrite M2, (assoc_L (∪))]. apply disjoint_union_l. split; [exact D1|]. by apply disjoint_union_r in D2 as [? _].
  - intros m k [Hp Ho]. cbn [destruct_ footprint engine_mapped]. unfold engine_destruct.
    rewrite (munmap_ok _ _ _ _ Hp), (munmap_ok _ _ _ _ Ho). rewrite difference_difference_l_L. f_equal. apply union_comm_L.
Qed.

(** The engine that is built is the one of [Exchange.make], at the address of its pool. *)
Lemma engine_construct_make k :
  match engine_construct k with
  | Built m _ => 0 < pool_at m /\ Exchange.make (pool_at m) = Some (eng m)
  | _ => True
  end.
Proof.
  unfold engine_construct.
  destruct (construct k) as [b k1| |] eqn:Eb; cbn [then_]; [|done..]. destruct (construct k1 : ran (Table Z)) as [t k2| |] eqn:Et; cbn [then_]; [|done..].
  apply pool_construct_make in Eb as [Hb Hmk]. apply (table_construct_fresh 12 SLOT_SIZE) in Et. cbn [pool_at eng]. split; [exact Hb|].
  rewrite Et. unfold Exchange.make, zeroed, order_blocks. unfold zeroed_blocks in Hmk. rewrite Hmk. reflexivity.
Qed.

(** ** Who owns which pages *)
Section ownership.
  Context {K A : Type} `{!EqDecision K, !Countable K} `{!Mapped A}.
  Implicit Types (live : gmap K A) (old m : gset Z).

(** The mapped pages are the old ones and, apart from each other, those of the objects. *)
Record owns old live m : Prop := {
  owns_pages p : p ∈ m <-> p ∈ old \/ exists h x, live !! h = Some x /\ p ∈ footprint x;
  owns_new h x p : live !! h = Some x -> p ∈ footprint x -> p ∉ old;
  owns_apart h h' x x' p : live !! h = Some x -> live !! h' = Some x' -> p ∈ footprint x -> p ∈ footprint x' -> h = h';
}.

Lemma owns_nothing old : owns old ∅ old.
Proof.
  split; [|intros h x p Hx; by rewrite lookup_empty in Hx|intros h h' x x' p Hx; by rewrite lookup_empty in Hx].
  intros p. split; [by left|]. intros [?|(h & x & Hx & _)]; [done|]. by rewrite lookup_empty in Hx.
Qed.

Lemma owns_empty old m : owns old ∅ m -> m = old.
Proof.
  intros [Hp _ _]. apply set_eq. intros p. rewrite Hp. split; [|by left].
  intros [?|(h & x & Hx & _)]; [done|]. by rewrite lookup_empty in Hx.
Qed.

Lemma owns_insert old live m h x :
  live !! h = None -> footprint x ## m -> owns old live m -> owns old (<[h := x]> live) (m ∪ footprint x).
Proof.
  intros Hh Hd [Hp Hn Ha].
  assert (forall h' y p, live !! h' = Some y -> p ∈ footprint y -> p ∉ footprint x) as Hx.
  { intros h' y p Hy Hpy Hpx. apply (Hd p Hpx), Hp. right. eauto. }
  split.
  - intros p. rewrite elem_of_union, Hp. split.
    + intros [[?|(h' & y & Hy & ?)]|?]; [by left| |right; exists h, x; by rewrite lookup_insert_eq].
      right. exists h', y. split; [|done]. rewrite lookup_insert_ne; congruence.
    + intros [?|(h' & y & [[_ <-]|[_ Hy]]%lookup_insert_Some & ?)]; eauto 6.
  - intros h' y p [[_ <-]|[_ Hy]]%lookup_insert_Some Hpy; [|by eapply Hn]. intros Ho. apply (Hd p Hpy), Hp. by left.
  - intros h1 h2 y1 y2 p [[<- <-]|[_ Hy1]]%lookup_insert_Some [[<- <-]|[_ Hy2]]%lookup_insert_Some Hp1 Hp2; [done| | |by eapply Ha].
    + by destruct (Hx h2 y2 p Hy2 Hp2).
    + by destruct (Hx h1 y1 p Hy1 Hp1).
Qed.

Lemma owns_delete old live m h x :
  live !! h = Some x -> owns old live m -> owns old (delete h live) (m ∖ footprint x).
Proof.
  intros Hh [Hp Hn Ha]. split.
  - intros p. rewrite elem_of_difference, Hp. split.
    + intros [[?|(h' & y & Hy & Hpy)] Hnp]; [by left|]. right. exists h', y. split; [|done].
      rewrite lookup_delete_ne; [done|]. intros <-. congruence.
    + intros [Ho|(h' & y & [Hne Hy]%lookup_delete_Some & Hpy)].
      * split; [by left|]. intros Hpx. by apply (Hn h x p).
      * split; [right; eauto|]. intros Hpx. by apply Hne, (Ha h h' x y p).
  - intros h' y p [_ Hy]%lookup_delete_Some. by apply (Hn h').
  - intros h1 h2 y1 y2 p [_ H1]%lookup_delete_Some [_ H2]%lookup_delete_Some. by apply Ha.
Qed.

(** An object that keeps its mappings may change otherwise. *)
Lemma owns_update old live m h x y :
  live !! h = Some x -> footprint y = footprint x -> owns old live m -> owns old (<[h := y]> live) m.
Proof.
  intros Hh Hy [Hp Hn Ha].
  assert (forall h' z, <[h := y]> live !! h' = Some z -> exists z', live !! h' = Some z' /\ footprint z = footprint z') as Hl.
  { intros h' z [[<- <-]|[_ Hz]]%lookup_insert_Some; eauto. }
  split.
  - intros p. rewrite Hp. split; (intros [?|(h' & z & Hz & Hpz)]; [by left|right]).
    + destruct (decide (h = h')) as [<-|Hne]; [|exists h', z; by rewrite lookup_insert_ne].
      exists h, y. rewrite lookup_insert_eq, Hy. split; [done|]. congruence.
    + destruct (Hl h' z Hz) as (z' & Hz' & E). exists h', z'. by rewrite <- E.
  - intros h' z p Hz Hpz. destruct (Hl h' z Hz) as (z' & Hz' & E). rewrite E in Hpz. by eapply Hn.
  - intros h1 h2 z1 z2 p H1 H2 P1 P2. destruct (Hl _ _ H1) as (z1' & H1' & E1), (Hl _ _ H2) as (z2' & H2' & E2).
    rewrite E1 in P1. rewrite E2 in P2. by eapply Ha.
Qed.

(** Destroying all objects, in any order, gives back what there was. *)
Definition destroy_all (l : list (K * A)) (k : kernel) : kernel := foldl (fun k x => destruct_ x.2 k) k l.

Lemma destroy_all_ok `{!MappedLaws A} old l : forall k,
  NoDup l.*1 -> Forall (fun x => intact x.2) l -> owns old (list_to_map l) (mapped k) -> mapped (destroy_all l k) = old.
Proof.
  induction l as [|[h x] l IH]; intros k Hnd Hin Ho; [by apply owns_empty|].
  apply NoDup_cons in Hnd as [Hh Hnd]. apply Forall_cons in Hin as [Hx Hin]. cbn [destroy_all foldl snd]. fold (destroy_all l (destruct_ x k)).
  apply IH; [done..|]. rewrite destruct_ok by done. cbn [snd] in *.
  assert (list_to_map l = delete h (list_to_map ((h, x) :: l) : gmap K A)) as ->.
  { cbn. rewrite delete_insert_id; [done|]. by apply not_elem_of_list_to_map. }
  eapply owns_delete; [|done]. cbn. apply lookup_insert_eq.
Qed.
End ownership.

(** ** [MarketRegistry] *)
Abbreviation Markets := (gmap bytes Market).

(** The engine is constructed first, and destroyed when the ticker exists. *)
Definition add_market (t : bytes) (ms : Markets) (k : kernel) : ran (bool * Markets) :=
  built m, k := (construct k : ran Market) in
  match ms !! t with
  | Some _ => Built (false, ms) (destruct_ m k)
  | None => Built (true, <[t := m]> ms) k
  end.

(** The life of a registry: markets are added and their engines used. *)
Inductive op := AddMarket (t : bytes) | Use (t : bytes) (q : request).
Definition op_ok (o : op) : Prop := match o with AddMarket _ => True | Use _ q => request_ok q end.

Definition step (o : op) (ms : Markets) (k : kernel) : ran Markets :=
  match o with
  | AddMarket t => built r, k := add_market t ms k in Built r.2 k
  | Use t q =>
    match ms !! t with
    | None => Built ms k
    | Some m => match serve q (eng m) with
                | Some (_, e) => Built (<[t := mkMarket e (pool_at m) (orders_at m)]> ms) k
                | None => Undefined
                end
    end
  end.

Fixpoint run (ops : list op) (ms : Markets) (k : kernel) : ran Markets :=
  match ops with
  | [] => Built ms k
  | o :: ops => built ms, k := step o ms k in run ops ms k
  end.

(** Every market has its mappings, and its engine is one its pool's address leads to. *)
Definition markets_ok (n : Z) (ms : Markets) : Prop :=
  forall t m, ms !! t = Some m -> intact m /\ reach (pool_at m) (eng m) /\ next_order_id_ (eng m) <= n.

Lemma markets_ok_mono n n' ms : markets_ok n ms -> n <= n' -> markets_ok n' ms.
Proof. intros H Hn t m Hm. destruct (H t m Hm) as (? & ? & ?). split_and!; [done..|lia]. Qed.

Lemma markets_ok_insert n ms t m :
  markets_ok n ms -> intact m -> reach (pool_at m) (eng m) -> next_order_id_ (eng m) <= n -> markets_ok n (<[t := m]> ms).
Proof. intros H ? ? ? t' m' [[_ <-]|[_ Hm]]%lookup_insert_Some; [done|by eapply H]. Qed.

Lemma intact_pool m : intact m -> 0 < pool_at m.
Proof. by intros [(_ & ? & _) _]. Qed.

Lemma serve_reach base q e :
  0 < base -> reach base e -> request_ok q -> next_order_id_ e < 2 ^ 64 - 1 ->
  exists r e', serve q e = Some (r, e') /\ reach base e' /\ next_order_id_ e' <= next_order_id_ e + 1.
Proof.
  intros Hb Hr Hq Hn. destruct (reach_inv _ _ Hb Hr) as (s & Hi & _).
  assert (forall (x : KalshiEngine) y, implements x y -> next_order_id_ x = Clob.nid y) as Hnid by (by intros x y (? & ? & _ & _ & _ & ?)).
  destruct (serve_simulates q e s Hi Hq) as (e' & Hrun & Hi'); [by rewrite <- (Hnid _ _ Hi)|].
  eexists _, e'. split_and!; [exact Hrun|by eapply reach_serve|].
  rewrite (Hnid _ _ Hi), (Hnid _ _ Hi'). pose proof (spec_serve_nid q s). lia.
Qed.

(** [add_market] is the one of the registry of [Gateway.v], and neither branch leaks. *)
Lemma add_market_owns old n t ms k :
  1 <= n -> owns old ms (mapped k) -> markets_ok n ms ->
  match add_market t ms k with
  | Built (b, ms') k' => owns old ms' (mapped k') /\ markets_ok n ms' /\
      exists base, Gateway.add_market base t (eng <$> ms) = Some (b, eng <$> ms')
  | Aborted err => err = out_of_memory
  | Undefined => False
  end.
Proof.
  intros Hn Ho Hok. unfold add_market. pose proof (construct_ok (A := Market) k) as Hc.
  pose proof (engine_construct_make k) as Hm. change (engine_construct k) with (construct k : ran Market) in Hm.
  destruct (construct k) as [m k1| |]; cbn [then_]; [|exact Hc|exact Hc].
  destruct Hc as (Hin & Hd & Hk1), Hm as [Hp Hmk].
  destruct (ms !! t) as [m0|] eqn:Et.
  - rewrite destruct_ok, Hk1 by done. rewrite union_minus by done.
    split_and!; [done..|]. exists (pool_at m). unfold Gateway.add_market. rewrite Hmk. cbn [mbind option_bind]. by rewrite lookup_fmap, Et.
  - rewrite Hk1. split_and!; [by apply owns_insert| |].
    + apply markets_ok_insert; [done..|by apply reach_make|]. destruct (make_implements _ Hp) as (e & He & (? & ? & _ & _ & _ & Hnx)).
      rewrite Hmk in He. injection He as <-. by rewrite Hnx.
    + exists (pool_at m). unfold Gateway.add_market. rewrite Hmk. cbn [mbind option_bind]. by rewrite lookup_fmap, Et, fmap_insert.
Qed.

Lemma step_owns old n o ms k :
  1 <= n < 2 ^ 64 - 1 -> op_ok o -> owns old ms (mapped k) -> markets_ok n ms ->
  match step o ms k with
  | Built ms' k' => owns old ms' (mapped k') /\ markets_ok (n + 1) ms'
  | Aborted err => err = out_of_memory
  | Undefined => False
  end.
Proof.
  intros Hn Hop Ho Hok. destruct o as [t|t q]; cbn [step].
  - pose proof (add_market_owns old n t ms k ltac:(lia) Ho Hok) as H. destruct (add_market t ms k) as [[b ms'] k'| |]; cbn [then_ snd]; [|done..].
    destruct H as (? & ? & _). split; [done|]. eapply markets_ok_mono; [done|lia].
  - destruct (ms !! t) as [m|] eqn:Et; [|split; [done|eapply markets_ok_mono; [done|lia]]].
    destruct (Hok t m Et) as (Hin & Hr & Hid).
    destruct (serve_reach _ q _ (intact_pool m Hin) Hr Hop) as (r & e & -> & Hr' & Hid'); [lia|].
    split; [by eapply owns_update|]. apply markets_ok_insert; [eapply markets_ok_mono; [done|lia]|exact Hin|exact Hr'|cbn [eng]; lia].
Qed.

Lemma run_owns old ops : forall n ms k,
  1 <= n -> n + Z.of_nat (length ops) <= 2 ^ 64 - 1 -> Forall op_ok ops -> owns old ms (mapped k) -> markets_ok n ms ->
  match run ops ms k with
  | Built ms' k' => owns old ms' (mapped k') /\ markets_ok (n + Z.of_nat (length ops)) ms'
  | Aborted err => err = out_of_memory
  | Undefined => False
  end.
Proof.
  induction ops as [|o ops IH]; intros n ms k Hn Hl Hops Ho Hok; cbn [run length] in *.
  { split; [done|]. eapply markets_ok_mono; [done|lia]. }
  apply Forall_cons in Hops as [Hop Hops]. pose proof (step_owns old n o ms k ltac:(lia) Hop Ho Hok) as H.
  destruct (step o ms k) as [ms1 k1| |]; cbn [then_]; [|done..]. destruct H as [Ho1 Hok1].
  specialize (IH (n + 1) ms1 k1 ltac:(lia) ltac:(lia) Hops Ho1 Hok1). destruct (run ops ms1 k1) as [ms2 k2| |]; [|done..].
  destruct IH as [? ?]. split; [done|]. eapply markets_ok_mono; [done|lia].
Qed.

Lemma order_block_pages m a x :
  intact m -> a ∈ order_blocks (pool_at m) -> a <= x < a + ORDER_SIZE -> x / PAGE ∈ footprint m.
Proof.
  intros [Hp _] Ha Hx. apply elem_of_union_l.
  assert (0 < POOL_CAPACITY)%nat as H0 by (unfold POOL_CAPACITY; lia). assert (8 <= ORDER_SIZE) as H8 by (unfold ORDER_SIZE; lia).
  assert (Z.of_nat POOL_CAPACITY * ORDER_SIZE < 2 ^ 64) as Hw by (unfold POOL_CAPACITY, ORDER_SIZE; lia).
  exact (block_pages ORDER_SIZE POOL_CAPACITY zero_order H0 H8 (mkBlocks (Pool.mkPool 0) ∅ (pool_at m)) a x Hw Hp Ha Hx).
Qed.

(** C28. The memory of the registry is accounted for: whatever addresses [mmap] returns
    and whenever it fails, a sequence of fewer than [2 ^ 64 - 1] [add_market] calls and
    requests to the engines that satisfy [op_ok] (placements of a quantity up to 2,097,151,
    cancellations of an id below [2 ^ 64 - 1]; cancelling [2 ^ 64 - 1] on a new engine is
    undefined, [Exchange.engine_cancel]) never has undefined behaviour and ends early only
    by the abort with its message; otherwise the mapped pages are those there were before and, apart from each
    other, those of the registered engines, an engine built for a ticker that exists
    having returned its pages; the engines are well-formed; no order of one engine shares
    a page with another engine; and the destructor of the registry, in whatever order it
    visits the engines, unmaps exactly what was mapped. *)
Theorem registry_memory (ops : list op) (k : kernel)
    (Hops : Forall op_ok ops) (Hlen : Z.of_nat (length ops) <= 2 ^ 64 - 2) :
  match run ops ∅ k with
  | Built ms k' =>
      owns (mapped k) ms (mapped k') /\ Gateway.registry_ok (2 ^ 64 - 1) (eng <$> ms) /\
      (forall t m t' m' a x, ms !! t = Some m -> ms !! t' = Some m' -> t ≠ t' ->
         a ∈ order_blocks (pool_at m) -> a <= x < a + ORDER_SIZE -> x / PAGE ∈ mapped k' ∖ footprint m') /\
      (forall l, l ≡ₚ map_to_list ms -> mapped (destroy_all l k') = mapped k)
  | Aborted err => err = out_of_memory
  | Undefined => False
  end.
Proof.
  pose proof (run_owns (mapped k) ops 1 ∅ k ltac:(lia) ltac:(lia) Hops (owns_nothing _)) as H.
  assert (markets_ok 1 ∅) as H0 by (intros t m Hm; by rewrite lookup_empty in Hm). specialize (H H0).
  destruct (run ops ∅ k) as [ms k'| |]; [|done..]. destruct H as [Ho Hok]. split_and!; [done|..].
  - intros t e He. rewrite lookup_fmap in He. apply fmap_Some in He as (m & Hm & ->). destruct (Hok t m Hm) as (Hin & Hr & Hid).
    exists (pool_at m). split_and!; [by apply intact_pool|done|lia].
  - intros t m t' m' a x Hm Hm' Hne Ha Hx. destruct (Hok t m Hm) as (Hin & _).
    pose proof (order_block_pages m a x Hin Ha Hx) as Hp. apply elem_of_difference. split.
    + apply (owns_pages _ _ _ Ho). right. eauto.
    + intros Hp'. by apply Hne, (owns_apart _ _ _ Ho t t' m m' (x / PAGE)).
  - intros l Hl. apply destroy_all_ok.
    + rewrite Hl. apply NoDup_fst_map_to_list.
    + apply Forall_forall. intros [t m] Htm. rewrite Hl in Htm. apply elem_of_map_to_list in Htm. by destruct (Hok t m Htm).
    + assert (list_to_map l = ms) as ->; [|done]. rewrite <- (list_to_map_to_list ms). apply list_to_map_proper; [|done].
      rewrite Hl. apply NoDup_fst_map_to_list.
Qed.

(** Memory that is granted is used: with two addresses granted an engine is built there. *)
Lemma engine_construct_granted a b cs old :
  let pool_len := pool_bytes ORDER_SIZE POOL_CAPACITY in let orders_len := table_bytes 12 SLOT_SIZE in
  grantable a pool_len old -> grantable b orders_len (old ∪ pages a pool_len) ->
  exists m, construct (mkKernel old (a :: b :: cs)) = Built m (mkKernel (old ∪ pages a pool_len ∪ pages b orders_len) cs) /\
    pool_at m = a /\ orders_at m = b.
Proof.
  intros pool_len orders_len Ha Hb. cbn [construct engine_mapped]. unfold engine_construct.
  assert (forall a len cs m, grantable a len m -> reserve len (mkKernel m (a :: cs)) = Built a (mkKernel (m ∪ pages a len) cs)) as Hr.
  { intros a' len cs' m Hg. unfold reserve, mmap. cbn [choices mapped]. rewrite decide_True by done.
    rewrite (proj2 (Z.eqb_neq _ _)); [done|]. destruct Hg as (? & ? & _ & ? & _). lia. }
  assert (0 < a) as Hpos by (by destruct Ha as (_ & ? & _)).
  destruct (pool_init_ok ORDER_SIZE POOL_CAPACITY zero_order) with (p := a) as (x & Hx & Hxa);
    [unfold POOL_CAPACITY; lia|unfold ORDER_SIZE; lia|done|].
  cbn [construct order_blocks_mapped pool_mapped order_table_mapped table_mapped]. unfold pool_construct, table_construct.
  fold pool_len orders_len. rewrite Hr by done. cbn [then_]. rewrite Hx. cbn [then_]. rewrite Hr by done. cbn [then_].
  eexists. split; [reflexivity|]. by rewrite Hxa.
Qed.

(** Pages above all the mapped ones are free. *)
Definition below (n : Z) (m : gset Z) : Prop := forall p, p ∈ m -> p < n.
Lemma below_pages n m a len :
  below (a / PAGE) m -> a / PAGE + (len + PAGE - 1) / PAGE = n -> 0 <= (len + PAGE - 1) / PAGE -> below n (m ∪ pages a len).
Proof.
  intros Hm <- Hl p [Hp|Hp]%elem_of_union; [apply Hm in Hp; lia|]. apply elem_of_list_to_set, elem_of_seqZ in Hp. lia.
Qed.
Lemma grantable_above a len m :
  0 < len -> 0 < a -> a `mod` PAGE = 0 -> a + len < MAP_FAILED -> below (a / PAGE) m -> grantable a len m.
Proof.
  intros. split_and!; [done..|]. intros p Hp%elem_of_list_to_set%elem_of_seqZ Hm. specialize (H3 p Hm). lia.
Qed.

(** A market is added twice: the second engine is dropped and its pages returned. *)
Definition demo_kernel : kernel := mkKernel {[3; 4]} [40960; 139264; 204800; 303104].
Definition demo_ops : list op := [AddMarket (lit "DEMO-1"); AddMarket (lit "DEMO-1"); Use (lit "DEMO-1") (Place 1 7 YES 60 10)].

Lemma registry_memory_witness :
  exists ms k', run demo_ops ∅ demo_kernel = Built ms k' /\ owns {[3; 4]} ms (mapped k') /\
    (exists m, ms !! lit "DEMO-1" = Some m /\ pool_at m = 40960 /\ orders_at m = 139264) /\
    forall l, l ≡ₚ map_to_list ms -> mapped (destroy_all l k') = {[3; 4]}.
Proof.
  assert (Forall op_ok demo_ops) as Hops.
  { repeat (apply Forall_cons; split; [first [done|cbn; unfold EngineRep.Rep.QTY_BOUND; lia]|]). by apply Forall_nil. }
  pose proof (registry_memory demo_ops demo_kernel Hops ltac:(cbn; lia)) as H. unfold demo_ops in *. cbn [run step] in *.
  unfold add_market, demo_kernel in *.
  assert (below 10 {[3; 4]}) as B0 by (intros p Hp; apply elem_of_union in Hp as [->%elem_of_singleton| ->%elem_of_singleton]; lia).
  assert (B1 := below_pages 34 _ 40960 (pool_bytes ORDER_SIZE POOL_CAPACITY) B0 eq_refl ltac:(discriminate)).
  assert (B2 := below_pages 50 _ 139264 (table_bytes 12 SLOT_SIZE) B1 eq_refl ltac:(discriminate)).
  assert (B3 := below_pages 74 _ 204800 (pool_bytes ORDER_SIZE POOL_CAPACITY) B2 eq_refl ltac:(discriminate)).
  destruct (engine_construct_granted 40960 139264 [204800; 303104] {[3; 4]}) as (m1 & E1 & P1 & O1);
    [apply grantable_above; [reflexivity..|exact B0]|apply grantable_above; [reflexivity..|exact B1]|].
  destruct (engine_construct_granted 204800 303104 []
    ({[3; 4]} ∪ pages 40960 (pool_bytes ORDER_SIZE POOL_CAPACITY) ∪ pages 139264 (table_bytes 12 SLOT_SIZE))) as (m2 & E2 & _);
    [apply grantable_above; [reflexivity..|exact B2]|apply grantable_above; [reflexivity..|exact B3]|].
  rewrite E1 in *. cbn [then_] in *. rewrite lookup_empty in *. cbn [then_ snd] in *. rewrite E2 in *. cbn [then_] in *.
  rewrite lookup_insert_eq in *. cbn [then_ snd] in *. rewrite lookup_insert_eq in *.
  destruct (serve _ (eng m1)) as [[r e]|]; [|by destruct H]. cbn [then_] in *. destruct H as (H1 & _ & _ & H4).
  eexists _, _. split; [reflexivity|]. split_and!; [exact H1| |exact H4].
  eexists. split; [apply lookup_insert_eq|]. by split.
Defined.
End Mapping.
