(* ===== verification/Messages.v ===== *)
(** * The messages between the client and the simulator

    Both ends write JSON by hand: [serialize_action] ([src/src/net/serialize.cpp]) the
    client's orders, [handle_place_order] ([src/sim/http/handlers.cpp]) its answers.  The
    file describes flat JSON objects and their text, states as the class [JsonLaws] what
    simdjson documents about reading such an object, and gives an instance; it shows that
    the client's messages are texts of flat objects, and that the answer of the handler
    reads back as the result of the engine. *)
From stdpp Require Import gmap list numbers strings sorting.
From S2P Require Import Prelude Interfaces MatchingEngine MatchSpec EngineRep Exchange Bytes Http Gateway Feed Strategy Serialize.
Open Scope Z_scope.
Open Scope cpp_scope.

Module Messages.
Import Bytes Http Engine Clob Exchange Gateway.

(** ** Flat objects *)
Inductive jval := JStr (s : bytes) | JNum (n : Z).
Abbreviation fields := (list (bytes * jval)).

Definition quoted (s : bytes) : bytes := QUOTE :: s ++ [QUOTE].
Definition val_text (v : jval) : bytes := match v with JStr s => quoted s | JNum n => to_string n end.
Definition field_text (f : bytes * jval) : bytes := quoted f.1 ++ lit ":" ++ val_text f.2.
Fixpoint fields_text (fs : fields) : bytes :=
  match fs with
  | [] => []
  | f :: fs => field_text f ++ match fs with [] => [] | _ => lit "," ++ fields_text fs end
  end.
Definition object_text (fs : fields) : bytes := lit "{" ++ fields_text fs ++ lit "}".

(** Printable characters that need no escape. *)
Definition plain_char (c : Z) : bool := (32 <=? c) && (c <? 127) && negb (c =? QUOTE) && negb (c =? 92).
Definition plain (s : bytes) : Prop := Forall (fun c => plain_char c = true) s.
Definition field_ok (f : bytes * jval) : Prop :=
  plain f.1 /\ match f.2 with JStr s => plain s | JNum n => fits 64 n end.
Definition object_ok (fs : fields) : Prop :=
  Forall field_ok fs /\ NoDup fs.*1 /\ strlen (object_text fs) < 2 ^ 31.
Definition field (k : bytes) (fs : fields) : option jval := (list_to_map fs : gmap bytes jval) !! k.

(** What simdjson promises about such a text: the document can be iterated, its fields
    are found in any order, a field of the type that is asked for is returned and leaves
    the document usable, a missing one, one of another type or a number outside
    [int64_t] is an error. *)
Class JsonLaws (JS : Json) := {
  reads : document -> fields -> Prop;
  iterate_object fs : object_ok fs -> exists d, iterate (object_text fs) = Some d /\ reads d fs;
  get_string_found d fs k s :
    reads d fs -> field k fs = Some (JStr s) -> exists d', get_string d k = (Some s, d') /\ reads d' fs;
  get_string_error d fs k : reads d fs -> (forall s, field k fs ≠ Some (JStr s)) -> (get_string d k).1 = None;
  get_int64_found d fs k n :
    reads d fs -> field k fs = Some (JNum n) -> n < 2 ^ 63 -> exists d', get_int64 d k = (Some n, d') /\ reads d' fs;
  get_int64_error d fs k :
    reads d fs -> (forall n, field k fs = Some (JNum n) -> 2 ^ 63 <= n) -> (get_int64 d k).1 = None;
}.

(** ** An instance: a reader of flat objects *)
Definition read_value (l : bytes) : option (jval * bytes) :=
  match Serialize.expect [QUOTE] l with
  | Some l => let '(s, l) := Serialize.until_quote l in l ← Serialize.expect [QUOTE] l; Some (JStr s, l)
  | None => let '(n, l) := Serialize.read_num l 0 in Some (JNum n, l)
  end.

Definition read_field (l : bytes) : option ((bytes * jval) * bytes) :=
  l ← Serialize.expect [QUOTE] l;
  let '(k, l) := Serialize.until_quote l in
  l ← Serialize.expect (lit "':") l;
  '(v, l) ← read_value l;
  Some ((k, v), l).

Fixpoint read_fields (fuel : nat) (l : bytes) : option fields :=
  match fuel with
  | O => None
  | S fuel =>
    '(f, l) ← read_field l;
    match Serialize.expect (lit ",") l with
    | Some l => fs ← read_fields fuel l; Some (f :: fs)
    | None => if decide (l = lit "}") then Some [f] else None
    end
  end.

Definition read_object (l : bytes) : option fields :=
  l ← Serialize.expect (lit "{") l;
  if decide (l = lit "}") then Some [] else read_fields (length l) l.

Definition flat_json : Json := {|
  document := fields;
  iterate := read_object;
  get_string d k := (match field k d with Some (JStr s) => Some s | _ => None end, d);
  get_int64 d k := (match field k d with Some (JNum n) => if n <? 2 ^ 63 then Some n else None | _ => None end, d);
|}.

Lemma plain_quote s : plain s -> QUOTE ∉ s.
Proof. intros H Hin. unfold plain in H. rewrite Forall_forall in H. by specialize (H _ Hin). Qed.

Lemma quoted_text s l : quoted s ++ l = [QUOTE] ++ s ++ [QUOTE] ++ l.
Proof. unfold quoted. cbn. by rewrite <- app_assoc. Qed.

Lemma to_string_no_quote n l : fits 64 n -> Serialize.expect [QUOTE] (to_string n ++ l) = None.
Proof.
  intros Hn. destruct (to_string_ok n Hn) as (Hl & Hd & _). destruct (to_string n) as [|c cs]; [simpl in Hl; lia|].
  apply Forall_cons in Hd as [Hc _]. cbn [Serialize.expect app]. destruct (Z.eqb_spec QUOTE c) as [E|]; [|done]. by rewrite <- E in Hc.
Qed.

(** A value is followed by the end of the object or a comma. *)
Definition delimiter (l : bytes) : Prop := hd 0 l = 44 \/ hd 0 l = 125.

Lemma read_value_text v l : match v with JStr s => plain s | JNum n => fits 64 n end -> delimiter l ->
  read_value (val_text v ++ l) = Some (v, l).
Proof.
  intros Hv Hl. unfold read_value. destruct v as [s|n]; cbn [val_text].
  - rewrite quoted_text, Serialize.expect_app. change ([QUOTE] ++ l) with (QUOTE :: l).
    by rewrite Serialize.until_quote_app by by apply plain_quote.
  - rewrite to_string_no_quote by done. destruct (to_string_ok n Hv) as (_ & Hd & Hval).
    rewrite Serialize.read_num_value; [by rewrite Hval|done|]. destruct Hl as [Hl|Hl]; destruct l as [|c l]; cbn in *; by subst.
Qed.

Lemma read_field_text f l : field_ok f -> delimiter l -> read_field (field_text f ++ l) = Some (f, l).
Proof.
  intros [Hk Hv] Hl. destruct f as [k v]. cbn [fst snd] in *. unfold read_field, field_text. cbn [fst snd].
  rewrite <- !app_assoc, quoted_text, Serialize.expect_app. cbn [mbind option_bind].
  change ([QUOTE] ++ ?x) with (QUOTE :: x). rewrite Serialize.until_quote_app by by apply plain_quote.
  change (QUOTE :: lit ":" ++ ?x) with (lit "':" ++ x). rewrite Serialize.expect_app. cbn [mbind option_bind].
  by rewrite read_value_text.
Qed.

Lemma read_fields_text fs : forall fuel, fs ≠ [] -> Forall field_ok fs -> (length fs <= fuel)%nat ->
  read_fields fuel (fields_text fs ++ lit "}") = Some fs.
Proof.
  induction fs as [|f fs IH]; intros fuel Hne Hok Hf; [done|]. apply Forall_cons in Hok as [Hok Hoks].
  destruct fuel as [|fuel]; [simpl in Hf; lia|]. cbn [read_fields fields_text length] in *. rewrite <- app_assoc.
  destruct fs as [|g fs].
  - rewrite read_field_text by (done || by right). done.
  - rewrite read_field_text by (done || by left). cbn [mbind option_bind]. rewrite <- app_assoc, Serialize.expect_app.
    rewrite IH by (done || simpl in *; lia). done.
Qed.

Lemma fields_text_length fs : (length fs <= length (fields_text fs))%nat.
Proof.
  induction fs as [|f fs IH]; [done|]. cbn [fields_text length]. rewrite length_app.
  assert (1 <= length (field_text f))%nat by (unfold field_text, quoted; simpl; lia).
  destruct fs; [simpl in *; lia|]. rewrite length_app. simpl in *. lia.
Qed.

Lemma read_object_text fs : Forall field_ok fs -> read_object (object_text fs) = Some fs.
Proof.
  intros Hok. unfold read_object, object_text. rewrite Serialize.expect_app. cbn [mbind option_bind].
  destruct fs as [|f fs]; [done|]. rewrite decide_False.
  - apply read_fields_text; [done..|]. rewrite length_app. pose proof (fields_text_length (f :: fs)). lia.
  - intros E. apply (f_equal length) in E. rewrite length_app in E. simpl in E. unfold field_text, quoted in E. simpl in E. lia.
Qed.

#[export] Instance flat_json_laws : JsonLaws flat_json.
Proof.
  refine {| reads := (fun (d : @document flat_json) fs => d = fs) : @document flat_json -> fields -> Prop |};
    cbn [iterate get_string get_int64 flat_json fst].
  - intros fs (Hok & _ & _). exists fs. by rewrite read_object_text.
  - intros d fs k s -> ->. eauto.
  - intros d fs k -> Hk. destruct (field k fs) as [[s|n]|]; [by destruct (Hk s)|done..].
  - intros d fs k n -> -> Hn. rewrite (proj2 (Z.ltb_lt _ _)) by done. eauto.
  - intros d fs k -> Hk. destruct (field k fs) as [[s|n]|]; [done| |done].
    rewrite (proj2 (Z.ltb_ge _ _)); [done|]. by apply Hk.
Defined.

(** ** The client's messages are flat objects *)
Definition action_fields (a : Strategy.Action) (ticker : bytes) : fields :=
  match Strategy.kind a with
  | Strategy.PLACE =>
      [(lit "action", JStr (lit "place")); (lit "ticker", JStr ticker); (lit "side", JStr (Serialize.side_name (Strategy.act_side a)));
       (lit "price", JNum (Strategy.act_price a)); (lit "qty", JNum (Strategy.act_qty a)); (lit "client_id", JNum (Strategy.act_client_id a))]
  | Strategy.CANCEL =>
      [(lit "action", JStr (lit "cancel")); (lit "ticker", JStr ticker); (lit "client_id", JNum (Strategy.act_client_id a))]
  end.

Lemma emit_u64_to_string v : fits 64 v -> Serialize.emit_u64 v = Some (to_string v).
Proof.
  intros Hv. unfold Serialize.emit_u64, to_string. destruct (v =? 0); [done|]. unfold fits in Hv.
  by destruct (digits_ok 20 v) as (l & -> & _); [simpl; lia|].
Qed.

Lemma emit_u8_to_string v : 0 <= v <= 99 -> Serialize.emit_u8 v = to_string v.
Proof.
  intros Hv. assert (forallb (fun v => bool_decide (Serialize.emit_u8 v = to_string v)) (seqZ 0 100) = true) as H by by vm_compute.
  rewrite forallb_forall in H. apply (bool_decide_eq_true_1 _), H, list_elem_of_In, elem_of_seqZ. lia.
Qed.

Lemma message_object a t : Serialize.action_ok a -> Serialize.message a t = Some (object_text (action_fields a t)).
Proof.
  intros (Hp & Hq & Hid). unfold Serialize.message, action_fields. unfold fits in Hq.
  rewrite !emit_u64_to_string by (done || unfold fits; lia). rewrite emit_u8_to_string by done. cbn [mbind option_bind].
  destruct (Strategy.kind a); f_equal; unfold object_text, fields_text, field_text, val_text, quoted; cbn [fst snd];
    rewrite <- ?app_assoc; cbn; repeat (rewrite <- ?app_assoc; cbn); done.
Qed.

Lemma lit_plain s : forallb plain_char (lit s) = true -> plain (lit s).
Proof. intros H. apply Forall_forall. intros c Hc. rewrite forallb_forall in H. by apply H, list_elem_of_In. Qed.

Lemma action_fields_ok a t : Serialize.action_ok a -> plain t -> (length t <= 31)%nat -> object_ok (action_fields a t).
Proof.
  intros Ha Ht Hl. pose proof Ha as (Hp & Hq & Hid).
  assert (plain (Serialize.side_name (Strategy.act_side a))) as Hs by (destruct (Strategy.act_side a); by apply lit_plain).
  destruct (Serialize.message_ok a t Ha (plain_quote t Ht)) as (l & Hm & Hlen & _). rewrite message_object in Hm by done.
  injection Hm as <-. unfold fits in Hq. split_and!; [| |unfold strlen; lia].
  - unfold action_fields. destruct (Strategy.kind a);
      repeat (apply Forall_cons; split; [split; cbn [fst snd]; try done; try (by apply lit_plain); unfold fits in *; lia|]); done.
  - unfold action_fields. destruct (Strategy.kind a); cbn [fmap list_fmap fst]; apply (bool_decide_unpack _); by vm_compute.
Qed.

(** ** Reading the handler's answer *)
Definition read_number (before : bytes) (l : bytes) : option (Z * bytes) :=
  l ← Serialize.expect before l; Some (Serialize.read_num l 0).

Definition read_fill (l : bytes) : option (Fill * bytes) :=
  '(maker, l) ← read_number (lit "{'maker_order_id':") l;
  '(taker, l) ← read_number (lit ",'taker_order_id':") l;
  '(price, l) ← read_number (lit ",'price':") l;
  '(qty, l) ← read_number (lit ",'qty':") l;
  '(ts, l) ← read_number (lit ",'ts':") l;
  l ← Serialize.expect (lit "}") l;
  Some (mkFill maker taker price qty ts, l).

Fixpoint read_more_fills (fuel : nat) (l : bytes) : option (list Fill) :=
  match fuel with
  | O => None
  | S fuel =>
    match Serialize.expect (lit ",") l with
    | Some l => '(f, l) ← read_fill l; fs ← read_more_fills fuel l; Some (f :: fs)
    | None => if decide (l = lit "]}") then Some [] else None
    end
  end.

Definition read_fills (l : bytes) : option (list Fill) :=
  if decide (l = lit "]}") then Some []
  else '(f, l) ← read_fill l; fs ← read_more_fills (length l) l; Some (f :: fs).

Definition read_answer (l : bytes) : option PlaceResult :=
  '(id, l) ← read_number (lit "{'order_id':") l;
  '(rest, l) ← read_number (lit ",'qty_resting':") l;
  l ← Serialize.expect (lit ",'accepted':") l;
  '(acc, l) ← match Serialize.expect (lit "true") l with
              | Some l => Some (true, l)
              | None => l ← Serialize.expect (lit "false") l; Some (false, l)
              end;
  l ← Serialize.expect (lit ",'fills': [") l;
  fs ← read_fills l;
  Some (mkResult id fs rest acc).

Definition fill_ok (f : Fill) : Prop :=
  fits 64 (maker_order_id f) /\ fits 64 (taker_order_id f) /\ fits 64 (fill_price f) /\ fits 64 (fill_qty f) /\ fits 64 (fill_ts f).
Definition result_ok (r : PlaceResult) : Prop :=
  fits 64 (result_order_id r) /\ fits 64 (qty_resting r) /\ Forall fill_ok (fills r).

Lemma read_number_text before v s l :
  fits 64 v -> is_digit (hd 48 (lit s)) = false ->
  read_number before (before ++ to_string v ++ lit s ++ l) = Some (v, lit s ++ l).
Proof.
  intros Hv Hs. unfold read_number. rewrite Serialize.expect_app. cbn [mbind option_bind].
  destruct (to_string_ok v Hv) as (_ & Hd & Hval). by rewrite Serialize.read_num_lit, Hval.
Qed.

Lemma read_fill_text f l : fill_ok f -> read_fill (fill_json f ++ l) = Some (f, l).
Proof.
  intros (Hm & Ht & Hp & Hq & Hs). unfold read_fill, fill_json. rewrite <- !app_assoc.
  do 5 (rewrite read_number_text by done; cbn [mbind option_bind]).
  rewrite Serialize.expect_app. cbn [mbind option_bind]. by destruct f.
Qed.

Lemma read_more_fills_text fs : forall i fuel, Forall fill_ok fs -> (length fs < fuel)%nat ->
  read_more_fills fuel (fills_json (S i) fs ++ lit "]}") = Some fs.
Proof.
  induction fs as [|f fs IH]; intros i fuel Hok Hf; (destruct fuel as [|fuel]; [lia|]); [done|].
  apply Forall_cons in Hok as [Hok Hoks]. cbn [read_more_fills fills_json Nat.ltb Nat.leb length] in *.
  rewrite <- !app_assoc, Serialize.expect_app, read_fill_text by done. cbn [mbind option_bind].
  by rewrite IH by (done || lia).
Qed.

Lemma fill_json_length f : (1 <= length (fill_json f))%nat.
Proof. unfold fill_json. rewrite length_app. simpl. lia. Qed.

Lemma fills_json_length i fs : (length fs <= length (fills_json i fs))%nat.
Proof.
  revert i. induction fs as [|f fs IH]; intros i; [done|]. cbn [fills_json length]. rewrite !length_app.
  pose proof (fill_json_length f). specialize (IH (S i)). lia.
Qed.

Lemma read_fills_text fs : Forall fill_ok fs -> read_fills (fills_json 0 fs ++ lit "]}") = Some fs.
Proof.
  intros Hok. destruct fs as [|f fs]; [done|]. apply Forall_cons in Hok as [Hok Hoks].
  unfold read_fills. cbn [fills_json Nat.ltb Nat.leb]. rewrite app_nil_l, <- app_assoc, decide_False.
  - rewrite read_fill_text by done. cbn [mbind option_bind]. rewrite read_more_fills_text; [done..|].
    rewrite length_app. pose proof (fills_json_length 1 fs). simpl. lia.
  - intros E. apply (f_equal (hd 0)) in E. done.
Qed.

(** The answer of the handler determines the engine's result. *)
Lemma result_reads r : result_ok r -> read_answer (result_json r) = Some r.
Proof.
  intros (Hid & Hq & Hf). unfold read_answer, result_json.
  do 2 (rewrite read_number_text by done; cbn [mbind option_bind]).
  rewrite Serialize.expect_app. cbn [mbind option_bind].
  assert (forall l, match Serialize.expect (lit "true") (json_bool (accepted r) ++ l) with
    | Some l => Some (true, l)
    | None => l ← Serialize.expect (lit "false") (json_bool (accepted r) ++ l); Some (false, l)
    end = Some (accepted r, l)) as -> by (by destruct (accepted r)).
  cbn [mbind option_bind]. rewrite Serialize.expect_app. cbn [mbind option_bind].
  rewrite read_fills_text by done. cbn [mbind option_bind]. by destruct r.
Qed.

Lemma length_to_string v : fits 64 v -> (length (to_string v) <= 20)%nat.
Proof. intros Hv. by destruct (to_string_ok v Hv) as ([_ ?] & _). Qed.

Lemma fills_json_bound i fs : Forall fill_ok fs -> (length (fills_json i fs) <= 200 * length fs)%nat.
Proof.
  revert i. induction fs as [|f fs IH]; intros i Hok; [done|]. apply Forall_cons in Hok as [(Hm & Ht & Hp & Hq & Hs) Hoks].
  cbn [fills_json length]. unfold fill_json. rewrite !length_app.
  pose proof (length_to_string _ Hm). pose proof (length_to_string _ Ht). pose proof (length_to_string _ Hp).
  pose proof (length_to_string _ Hq). pose proof (length_to_string _ Hs). specialize (IH (S i) Hoks).
  destruct (0 <? i)%nat; simpl; lia.
Qed.

Lemma result_json_bound r : result_ok r -> (length (result_json r) <= 200 * length (fills r) + 200)%nat.
Proof.
  intros (Hid & Hq & Hf). unfold result_json. rewrite !length_app.
  pose proof (length_to_string _ Hid). pose proof (length_to_string _ Hq). pose proof (fills_json_bound 0 _ Hf).
  destruct (accepted r); simpl; lia.
Qed.

(** ** The results of the engine *)
Lemma implements_ids e s k o : implements (e : KalshiEngine) s -> o ∈ bk s k -> 1 <= o_id o < nid s.
Proof.
  intros (Q & fl & R & Hb & _ & <-) Ho. rewrite <- (Hb k) in Ho. unfold Rep.book_of in Ho.
  apply list_elem_of_fmap in Ho as ([a o'] & -> & Ho). by destruct (Rep.rep_ord _ _ _ _ R k a o' Ho).
Qed.

Lemma fill_le_sum fs f : Forall (fun f => 0 < fill_qty f) fs -> f ∈ fs -> fill_qty f <= sum_fills fs.
Proof.
  induction fs as [|g fs IH]; intros Hp Hf; [by apply not_elem_of_nil in Hf|]. apply Forall_cons in Hp as [Hg Hp]. cbn [sum_fills foldr].
  assert (0 <= sum_fills fs) by (clear - Hp; induction Hp; unfold sum_fills in *; simpl; lia).
  fold (sum_fills fs). apply elem_of_cons in Hf as [->|Hf]; [lia|]. specialize (IH Hp Hf). lia.
Qed.

Lemma count_le_sum fs : Forall (fun f => 0 < fill_qty f) fs -> Z.of_nat (length fs) <= sum_fills fs.
Proof. induction 1; [done|]. cbn [sum_fills foldr length]. fold (sum_fills l). lia. Qed.

Lemma submit_result e s ts client sd pr qty :
  implements (e : KalshiEngine) s -> fits 64 ts -> 1 <= qty < 2 ^ 32 -> nid s < 2 ^ 64 ->
  let r := (submit ts client sd pr qty s).1 in result_ok r /\ Z.of_nat (length (fills r)) <= qty.
Proof.
  intros Hi Hts Hq Hn. pose proof (implements_book e s Hi) as [Hpos _]. unfold submit.
  assert (1 <= nid s) as Hn1 by (destruct Hi as (Q & fl & R & _ & _ & <-); apply (Rep.rep_next _ _ _ _ R)).
  case_decide as Hd; cbn zeta; cycle 1.
  { cbn [rejected fst fills]. split; [|simpl; lia]. repeat split; try done; unfold fits; simpl; lia. }
  destruct (place _ _ _ _ _ _ _) as [[fs rem] b'] eqn:E. cbn [fst fills].
  pose proof E as E2. apply place_fills in E2 as (Hsum & Hrem & Hf & _); [|lia|done].
  assert (Forall (fun f => 0 < fill_qty f) fs) as Hfp by (eapply Forall_impl; [exact Hf|naive_solver]).
  split; [|pose proof (count_le_sum fs Hfp); lia]. split_and!; cbn [result_order_id qty_resting fills]; [unfold fits; lia| |].
  { assert (0 <= sum_fills fs) by (pose proof (count_le_sum fs Hfp); lia). unfold fits. lia. }
  apply Forall_forall. intros f Hin. rewrite Forall_forall in Hf. destruct (Hf f Hin) as (Hfq & Htk & Hft & Hfl).
  assert (1 <= maker_order_id f < nid s) as Hmk.
  { eapply (place_fifo _ _ _ _ _ _ _ _ _ _ (fill_price f)) in E as [n Hn']; [|lia|done].
    assert (maker_order_id f ∈ maker_order_id <$> filter (fun g => fill_price g = fill_price f) fs) as Hm.
    { apply list_elem_of_fmap. exists f. split; [done|]. by apply list_elem_of_filter. }
    rewrite Hn' in Hm. assert (maker_order_id f ∈ o_id <$> bk s (opposite sd, fill_price f)) as Hm2 by (eapply elem_of_subseteq; [|exact Hm]; apply subseteq_take).
    apply list_elem_of_fmap in Hm2 as (o & -> & Ho). by eapply implements_ids. }
  pose proof (fill_le_sum fs f Hfp Hin). unfold fill_ok. rewrite Htk, Hft. unfold fits in *.
  split_and!; try lia; destruct sd; lia.
Qed.

End Messages.
