(* ===== verification/Server.v ===== *)
(** * [sim/http/rest_server.cpp] and [sim/main.cpp]: connections and the event loop

    The callbacks of the server on the reactor of [Reactor.v], the handlers of
    [Gateway.v] and the messages of [Http.v], and the program [main] makes of them.
    Each callback takes the outcomes of its system calls from the list [inputs]. *)
From stdpp Require Import gmap list numbers strings sorting.
From S2P Require Import Prelude Interfaces MatchingEngine MatchSpec EngineRep Exchange Bytes Socket Http RestClient Reactor Gateway.
Open Scope Z_scope.

Module Server.
Import Bytes Socket Http Gateway.

Inductive callback := Listener | Connection.
Abbreviation reactor := (Reactor.Reactor callback).

(** [accept], the [fcntl] on the new descriptor, and its registration. *)
Inductive accept_result := Accepted (fd : Z) (nonblock add : bool) | AcceptAgain | AcceptError.

(** What the kernel answers during one callback: the time of a placed order and the
    outcome of the [EPOLL_CTL_DEL] of [close_connection_] are part of it. *)
Inductive input :=
| Accepts (l : list accept_result)
| Reads (rs : list read_result) (ws : list write_result) (now : Z) (del : bool).

Record RestServer := mkServer {
  connections_ : gmap Z bytes;
  registry : MarketRegistry;
  inputs : list input;
  (** the bytes written to each connection, in order *)
  sent : list (Z * bytes);
  listen_fd_ : Z;
  (** the descriptors of the process *)
  fds : table;
}.

Definition set_fds (t : table) (w : RestServer) : RestServer :=
  mkServer (connections_ w) (registry w) (inputs w) (sent w) (listen_fd_ w) t.

Section server.
  Context (routes_ : gmap bytes Handler).

Definition close_connection_ (del : bool) (fd : Z) (st : reactor * RestServer) : reactor * RestServer :=
  let '(r, w) := st in
  (Reactor.remove_fd del fd r,
   mkServer (delete fd (connections_ w)) (registry w) (inputs w) (sent w) (listen_fd_ w) (close fd (fds w))).

(** [write_response_]: the result is ignored by the caller. *)
Definition write_response_ (fd : Z) (resp : Response) (ws : list write_result) (w : RestServer) : outcome RestServer :=
  let '(out, ok) := write_loop ws (serialize_response resp) 0 [] in
  match ok with
  | None => Waiting
  | Some _ => Returned (mkServer (connections_ w) (registry w) (inputs w) (sent w ++ [(fd, out)]) (listen_fd_ w) (fds w))
  end.

Fixpoint on_connection_event_ (rs : list read_result) (ws : list write_result) (now : Z) (del : bool) (fd : Z)
    (st : reactor * RestServer) : outcome (reactor * RestServer) :=
  let '(r, w) := st in
  match rs with
  | [] => Waiting
  | Again :: _ => Returned st
  | ReadError :: _ | Eof :: _ => Returned (close_connection_ del fd st)
  | Chunk c :: rs =>
    let buffer := default [] (connections_ w !! fd) ++ c in
    let w := mkServer (<[fd := buffer]> (connections_ w)) (registry w) (inputs w) (sent w) (listen_fd_ w) (fds w) in
    match parse_request buffer with
    | Throw => Thrown
    | NoFuel => Waiting
    | Done None => on_connection_event_ rs ws now del fd (r, w)
    | Done (Some request) =>
      match dispatch_ routes_ now request (registry w) with
      | None => Undefined
      | Some (response, reg) =>
        let! w := write_response_ fd response ws (mkServer (connections_ w) reg (inputs w) (sent w) (listen_fd_ w) (fds w)) in
        Returned (close_connection_ del fd (r, mkServer (<[fd := []]> (connections_ w)) (registry w) (inputs w) (sent w) (listen_fd_ w) (fds w)))
      end
    end
  end.

Fixpoint on_listener_event_ (l : list accept_result) (st : reactor * RestServer) : outcome (reactor * RestServer) :=
  match l with
  | [] => Waiting
  | AcceptAgain :: _ => Returned st
  | AcceptError :: l => on_listener_event_ l st
  | Accepted fd nonblock add :: l =>
    let '(r, w) := st in
    let w := set_fds (open_fd fd (fds w)) w in
    if negb nonblock then on_listener_event_ l (r, set_fds (close fd (fds w)) w)
    else let '(ok, r) := Reactor.add_fd add fd Connection r in
         if negb ok then on_listener_event_ l (r, set_fds (close fd (fds w)) w) else on_listener_event_ l (r, w)
  end.

(** The callbacks registered with the reactor; an input of the other kind does not
    belong to the call. *)
Definition invoke (cb : callback) (fd ev : Z) (st : reactor * RestServer) : outcome (reactor * RestServer) :=
  let '(r, w) := st in
  match inputs w with
  | [] => Waiting
  | i :: rest =>
    let w := mkServer (connections_ w) (registry w) rest (sent w) (listen_fd_ w) (fds w) in
    match cb, i with
    | Listener, Accepts l => on_listener_event_ l (r, w)
    | Connection, Reads rs ws now del => on_connection_event_ rs ws now del fd (r, w)
    | _, _ => Waiting
    end
  end.

End server.

(** ** Setting up *)
(** The outcomes of the calls of [bind_and_listen_]. *)
Record setup := mkSetup { s_socket : option Z; s_fcntl : bool; s_setsockopt : bool; s_bind : bool; s_listen : bool }.

Definition bind_and_listen_ (s : setup) (w : RestServer) : bool * RestServer :=
  match s_socket s with
  | None => (false, mkServer (connections_ w) (registry w) (inputs w) (sent w) (-1) (fds w))
  | Some fd =>
    let w := mkServer (connections_ w) (registry w) (inputs w) (sent w) fd (open_fd fd (fds w)) in
    let failed := (false, set_fds (close (listen_fd_ w) (fds w)) w) in
    if negb (s_fcntl s) then failed
    else if negb (s_setsockopt s) then failed
    else if negb (s_bind s) then failed
    else if negb (s_listen s) then failed
    else (true, w)
  end.

Definition start (s : setup) (add : bool) (st : reactor * RestServer) : bool * (reactor * RestServer) :=
  let '(r, w) := st in
  let '(ok, w) := bind_and_listen_ s w in
  if negb ok then (false, (r, w)) else let '(ok, r) := Reactor.add_fd add (listen_fd_ w) Listener r in (ok, (r, w)).

(** The destructor. *)
Definition destroy (w : RestServer) : RestServer :=
  let t := if decide (listen_fd_ w = -1) then fds w else close (listen_fd_ w) (fds w) in
  set_fds (foldl (fun t fd => close fd t) t (fst <$> map_to_list (connections_ w))) w.

(** [main]: the exit status and the state in which the loop is left, or in which the
    script of waits ends; a server that could not start is destroyed at once. *)
Definition main {JS : Json} (base : Z) (s : setup) (add : bool) (t : table) (ins : list input) (waits : list Reactor.wait)
    : outcome (Z * (reactor * RestServer)) :=
  match main_registry base with
  | None => Undefined
  | Some reg =>
    let '(ok, (r, w)) := start s add (Reactor.make, mkServer ∅ reg ins [] (-1) t) in
    if negb ok then Returned (1, (r, destroy w))
    else let! st := Reactor.run (invoke main_routes) waits (r, w) in Returned (0, st)
  end.

(** ** The engines stay well-formed *)
Lemma dispatch_ok {JS : Json} ts req reg n :
  registry_ok n reg -> n < 2 ^ 64 - 1 ->
  exists resp reg', dispatch_ main_routes ts req reg = Some (resp, reg') /\ registry_ok (n + 1) reg'.
Proof.
  intros Hok Hn. assert (registry_ok (n + 1) reg) by (eapply registry_ok_mono; [done|lia]).
  unfold dispatch_. destruct (main_routes !! _) as [h|] eqn:Hh; [|eauto]. unfold main_routes, route in Hh.
  apply lookup_insert_Some in Hh as [[_ <-]|[_ Hh]].
  { destruct (handler_ok ts req reg n Hok Hn) as (resp & reg' & ? & ? & _). eauto. }
  apply lookup_insert_Some in Hh as [[_ <-]|[_ Hh]]; [eauto|].
  apply lookup_insert_Some in Hh as [[_ <-]|[_ Hh]]; [eauto|]. by rewrite lookup_empty in Hh.
Qed.

Section safety.
  Context (routes : gmap bytes Handler) (n : Z).
  Context (Hroutes : forall ts req reg, registry_ok n reg ->
    exists resp reg', dispatch_ routes ts req reg = Some (resp, reg') /\ registry_ok (n + 1) reg').

(** A callback that consumed one input. *)
Definition served (w : RestServer) (o : outcome (reactor * RestServer)) : Prop :=
  o ≠ Undefined /\ forall r' w', o = Returned (r', w') -> registry_ok (n + 1) (registry w') /\ inputs w' = inputs w.

Lemma connection_served rs ws now del fd : forall r w,
  registry_ok n (registry w) -> served w (on_connection_event_ routes rs ws now del fd (r, w)).
Proof.
  induction rs as [|x rs IH]; intros r w Hok; cbn [on_connection_event_]; [by split|].
  assert (registry_ok (n + 1) (registry w)) as Hok' by (eapply registry_ok_mono; [done|lia]).
  destruct x as [c| | |]; [|by split; [done|intros ? ? [= <- <-]]..].
  destruct (parse_request _) as [[req|]| |]; [|by apply (IH r (mkServer _ _ _ _ _ _))|by split|by split].
  destruct (Hroutes now req (registry w) Hok) as (resp & reg' & Hd & Hr). cbn [registry]. rewrite Hd.
  unfold write_response_. destruct (write_loop _ _ _ _) as [out [ok|]]; [|by split].
  split; [done|]. by intros ? ? [= <- <-].
Qed.

Lemma listener_served l : forall r w, registry_ok n (registry w) -> served w (on_listener_event_ l (r, w)).
Proof.
  induction l as [|x l IH]; intros r w Hok; cbn [on_listener_event_]; [by split|].
  destruct x as [fd nb add| |]; [|split; [done|]|by apply IH].
  - destruct nb, add; cbn [negb Reactor.add_fd]; exact (IH _ (set_fds _ (set_fds _ w)) Hok) || exact (IH _ (set_fds _ w) Hok).
  - intros ? ? [= <- <-]. split; [|done]. eapply registry_ok_mono; [done|lia].
Qed.
End safety.

(** Setting up touches neither the markets nor the inputs. *)
Lemma bind_registry s w : registry (bind_and_listen_ s w).2 = registry w /\ inputs (bind_and_listen_ s w).2 = inputs w.
Proof. unfold bind_and_listen_. destruct (s_socket s); [|done]. by destruct (s_fcntl s), (s_setsockopt s), (s_bind s), (s_listen s). Qed.

Lemma start_registry s add r w :
  exists ok r' w', start s add (r, w) = (ok, (r', w')) /\ registry w' = registry w /\ inputs w' = inputs w.
Proof.
  unfold start. destruct (bind_registry s w) as [Hr Hi]. destruct (bind_and_listen_ s w) as [ok w']. simpl in Hr, Hi.
  destruct ok; cbn [negb]; [destruct (Reactor.add_fd add (listen_fd_ w') Listener r)|]; eauto 10.
Qed.

(** C6. The whole program is safe: from [main] on, whatever descriptors, bytes, cuts and
    errors the kernel delivers and however the JSON parser reads the bodies, no engine
    is driven into undefined behaviour, and when the loop is left every market's engine
    is a well-formed one; the only way for a callback not to return is an exception. *)
Theorem main_safe {JS : Json} base s add t (ins : list input) waits
    (Hbase : 0 < base) (Hins : Z.of_nat (length ins) <= 2 ^ 64 - 3) :
  main base s add t ins waits ≠ Undefined /\
  forall st r w, main base s add t ins waits = Returned (st, (r, w)) -> registry_ok (2 ^ 64 - 2) (registry w).
Proof.
  set (N := Z.of_nat (length ins)) in *.
  set (P := fun (r : reactor) w => Z.of_nat (length (inputs w)) <= N /\ registry_ok (1 + N - Z.of_nat (length (inputs w))) (registry w)).
  destruct (add_market_ok 1 base (lit "DEMO-1") empty_registry Hbase) as (reg & Hadd & Hreg & _); [lia|intros ? ? Hx; unfold empty_registry in Hx; by rewrite lookup_empty in Hx|].
  unfold main, main_registry. rewrite Hadd. cbn [fmap option_fmap option_map snd].
  destruct (start_registry s add Reactor.make (mkServer ∅ reg ins [] (-1) t)) as (ok & r0 & w0 & -> & Hreg0 & Hins0). cbn [registry inputs] in Hreg0, Hins0.
  destruct ok; cbn [negb]; cycle 1.
  { split; [done|]. intros ? ? ? [= <- <- <-]. cbn [destroy set_fds registry]. rewrite Hreg0. eapply registry_ok_mono; [done|lia]. }
  assert (P r0 w0) as HP.
  { unfold P. rewrite Hreg0, Hins0. split; [lia|]. by replace (1 + N - Z.of_nat (length ins)) with 1 by lia. }
  destruct (Reactor.run_invariant (invoke main_routes) P) with (ws := waits) (r := r0) (w := w0) as [Hu Hr]; [|done|done|done|].
  - intros cb fd ev r w [Hl Hok] _. unfold invoke. destruct (inputs w) as [|i rest] eqn:Ei; [by split|]. cbn [length] in *.
    set (m := 1 + N - Z.of_nat (S (length rest))) in *. set (w' := mkServer _ _ _ _ _ _).
    assert (forall o, served m w' o -> o ≠ Undefined /\ forall r1 w1, o = Returned (r1, w1) -> P r1 w1) as Hserved.
    { intros o [Hu Hr]. split; [done|]. intros r1 w1 Ho. destruct (Hr _ _ Ho) as [Hok1 Hi1]. unfold P. rewrite Hi1. simpl.
      split; [lia|]. replace (1 + N - Z.of_nat (length rest)) with (m + 1) by lia. done. }
    destruct cb, i; try (by split); apply Hserved; [by apply listener_served|].
    apply connection_served; [|done]. intros. apply dispatch_ok; [done|lia].
  - destruct (Reactor.run _ _ _) as [[r1 w1]| | |]; [|done..]. split; [done|]. intros st r w [= <- <- <-].
    destruct (Hr _ _ eq_refl) as [Hl Hok]. eapply registry_ok_mono; [exact Hok|lia].
Qed.

Lemma main_safe_witness :
  let ins := [Accepts [Accepted 5 true true; AcceptAgain];
              Reads [Chunk (lit "GET /exchange/status HTTP/1.1" ++ CRLF ++ CRLF)] [Wrote 200] 0 true] in
  let waits := [Reactor.Batch [(4, 1)]; Reactor.Batch [(5, 1)]] in
  let s := mkSetup (Some 4) true true true true in
  @main demo_json 65536 s true (mkTable {[0; 1; 2; 3]} []) ins waits ≠ Undefined /\
  forall st r w, @main demo_json 65536 s true (mkTable {[0; 1; 2; 3]} []) ins waits = Returned (st, (r, w)) -> registry_ok (2 ^ 64 - 2) (registry w).
Proof. apply (@main_safe demo_json); [lia|simpl; lia]. Defined.

(** ** A request that arrives in pieces *)
Section arrival.
  Context (routes : gmap bytes Handler) (text : bytes) (req : Request).
  Context (Hpre : forall pre rest, text = pre ++ rest -> rest ≠ [] -> parse_request pre = Done None).
  Context (Hreq : parse_request text = Done (Some req)).

(** The buffer of a connection; an entry appears with the first byte. *)
Definition buffered (fd : Z) (b : bytes) (w : RestServer) : Prop := default [] (connections_ w !! fd) = b.

(** One more piece that does not complete the request. *)
Lemma connection_piece rs ws now del fd r w pre c rest :
  buffered fd pre w -> text = pre ++ c ++ rest -> rest ≠ [] ->
  on_connection_event_ routes (Chunk c :: rs) ws now del fd (r, w) =
    on_connection_event_ routes rs ws now del fd
      (r, mkServer (<[fd := pre ++ c]> (connections_ w)) (registry w) (inputs w) (sent w) (listen_fd_ w) (fds w)).
Proof.
  unfold buffered. intros Hb Ht Hr. cbn [on_connection_event_]. rewrite !Hb. rewrite (Hpre (pre ++ c) rest); [done| |done]. by rewrite <- app_assoc.
Qed.

(** Nothing but the buffer of [fd] differs. *)
Definition holding (fd : Z) (b : bytes) (w w' : RestServer) : Prop :=
  buffered fd b w' /\ delete fd (connections_ w') = delete fd (connections_ w) /\
  registry w' = registry w /\ inputs w' = inputs w /\ sent w' = sent w /\ listen_fd_ w' = listen_fd_ w /\ fds w' = fds w.

Lemma connection_pieces cs : forall ws now del fd r w pre rest,
  buffered fd pre w -> text = pre ++ concat cs ++ rest -> rest ≠ [] ->
  exists w', holding fd (pre ++ concat cs) w w' /\
    forall rs, on_connection_event_ routes ((Chunk <$> cs) ++ rs) ws now del fd (r, w) = on_connection_event_ routes rs ws now del fd (r, w').
Proof.
  induction cs as [|c cs IH]; intros ws now del fd r w pre rest Hb Ht Hr.
  - exists w. rewrite app_nil_r. split; [split_and!; done|]. intros rs. done.
  - cbn [concat] in *. rewrite <- app_assoc in Ht.
    destruct (IH ws now del fd r (mkServer (<[fd := pre ++ c]> (connections_ w)) (registry w) (inputs w) (sent w) (listen_fd_ w) (fds w)) (pre ++ c) rest)
      as (w' & (H1 & H2 & H3 & H4 & H5 & H6 & H7) & Hw'); [|by rewrite <- app_assoc|done|].
    { unfold buffered. simpl. by rewrite lookup_insert_eq. }
    exists w'. cbn [connections_ registry inputs sent listen_fd_ fds] in *. rewrite delete_insert_eq in H2. rewrite <- app_assoc in H1. split; [split_and!; done|].
    intros rs. rewrite fmap_cons, <- app_comm_cons.
    rewrite (connection_piece _ _ _ _ _ _ _ pre c (concat cs ++ rest)); [apply Hw'|done|done|by intros [_ ?]%app_eq_nil].
Qed.

(** The piece that completes it. *)
Lemma connection_complete rs ws now del fd r w pre c resp reg' out ok :
  buffered fd pre w -> text = pre ++ c -> dispatch_ routes now req (registry w) = Some (resp, reg') ->
  write_loop ws (serialize_response resp) 0 [] = (out, Some ok) ->
  on_connection_event_ routes (Chunk c :: rs) ws now del fd (r, w) =
    Returned (Reactor.remove_fd del fd r, mkServer (delete fd (connections_ w)) reg' (inputs w) (sent w ++ [(fd, out)]) (listen_fd_ w) (close fd (fds w))).
Proof.
  unfold buffered. intros Hb Ht Hd Hw. cbn [on_connection_event_]. rewrite !Hb, <- Ht, Hreq. cbn [registry]. rewrite Hd.
  unfold write_response_. rewrite Hw. cbn [obind close_connection_ connections_ registry inputs sent listen_fd_ fds].
  by rewrite insert_insert_eq, delete_insert_eq.
Qed.

(** The events of one connection, each with its reads. *)
Fixpoint connection_events (es : list (list bytes)) (now : Z) (fd : Z) (st : reactor * RestServer) : outcome (reactor * RestServer) :=
  match es with
  | [] => Returned st
  | cs :: es => let! st := on_connection_event_ routes ((Chunk <$> cs) ++ [Again]) [] now true fd st in connection_events es now fd st
  end.

Lemma connection_events_wait es : forall now fd r w pre rest,
  buffered fd pre w -> text = pre ++ concat (concat es) ++ rest -> rest ≠ [] ->
  exists w', connection_events es now fd (r, w) = Returned (r, w') /\ holding fd (pre ++ concat (concat es)) w w'.
Proof.
  induction es as [|cs es IH]; intros now fd r w pre rest Hb Ht Hr.
  - exists w. split; [done|]. rewrite app_nil_r. split_and!; done.
  - cbn [connection_events concat] in *. rewrite concat_app in *. rewrite <- app_assoc in Ht.
    destruct (connection_pieces cs [] now true fd r w pre (concat (concat es) ++ rest)) as (w1 & (H1 & H2 & H3 & H4 & H5 & H6 & H7) & Hw1);
      [done|done|by intros [_ ?]%app_eq_nil|].
    rewrite Hw1. cbn [on_connection_event_ obind].
    destruct (IH now fd r w1 (pre ++ concat cs) rest) as (w2 & Hw2 & (G1 & G2 & G3 & G4 & G5 & G6 & G7)); [done|by rewrite <- app_assoc|done|].
    exists w2. split; [done|]. rewrite <- app_assoc in G1. split_and!; [done|congruence..].
Qed.
End arrival.

Lemma served_once routes host m p body ct es cs c trailing now fd r w resp reg' ws out ok
    (Hhost : no_cr host) (Hm : no_cr m) (Hms : 32 ∉ m) (Hp : no_cr p) (Hps : 32 ∉ p) (Hct : no_cr ct)
    (Hbody : strlen body < 2 ^ 31)
    (Hlen : strlen (RestClient.format_request host m p body ct) < 2 ^ 63)
    (Hfresh : connections_ w !! fd = None) (Hc : c ≠ [])
    (Htext : RestClient.format_request host m p body ct = concat (concat es) ++ concat cs ++ c)
    (Hdisp : dispatch_ routes now (mkRequest m p (add_headers (RestClient.request_headers host body ct) ∅) body) (registry w) = Some (resp, reg'))
    (Hwrite : write_loop ws (serialize_response resp) 0 [] = (out, Some ok)) :
  exists w', connection_events routes es now fd (r, w) = Returned (r, w') /\
    registry w' = registry w /\ sent w' = sent w /\
    on_connection_event_ routes ((Chunk <$> cs ++ [c]) ++ trailing) ws now true fd (r, w') =
      Returned (Reactor.remove_fd true fd r,
        mkServer (connections_ w) reg' (inputs w) (sent w ++ [(fd, out)]) (listen_fd_ w) (close fd (fds w))) /\
    out `prefix_of` serialize_response resp /\ (WriteError ∉ ws -> out = serialize_response resp) /\
    (no_cr (content_type resp) -> fits 31 (Http.status resp) -> strlen (serialize_response resp) < 2 ^ 63 -> out = serialize_response resp ->
     forall rs, stream rs = Some out ->
       RestClient.recv_response_ rs =
         Returned (RestClient.mkResponse (Http.status resp) (add_headers (RestClient.response_headers resp) ∅) (resp_body resp))).
Proof.
  destruct (RestClient.request_reads host m p body ct Hhost Hm Hms Hp Hps Hct Hbody Hlen) as [Hreq Hpre].
  assert (buffered fd [] w) as Hb0 by (unfold buffered; by rewrite Hfresh).
  destruct (connection_events_wait routes _ Hpre es now fd r w [] (concat cs ++ c) Hb0 Htext) as (w1 & Hw1 & (H1 & H2 & H3 & H4 & H5 & H6 & H7)).
  { by intros [_ ?]%app_eq_nil. }
  pose proof (write_loop_prefix ws (serialize_response resp) 0 [] eq_refl) as Hout. rewrite Hwrite in Hout. destruct Hout as [Hpref Hout].
  exists w1. split_and!; [done..| |done| |].
  - destruct (connection_pieces routes _ Hpre cs ws now true fd r w1 (concat (concat es)) c H1 Htext Hc) as (w2 & (G1 & G2 & G3 & G4 & G5 & G6 & G7) & Hw2).
    rewrite fmap_app, <- app_assoc, Hw2. cbn [fmap list_fmap app].
    erewrite (connection_complete routes _ _ Hreq); [|exact G1|by rewrite <- app_assoc|rewrite G3, H3; exact Hdisp|exact Hwrite].
    rewrite G2, H2, G4, H4, G5, H5, G6, H6, G7, H7. by rewrite delete_id by done.
  - intros Hnoerr. apply Hout. destruct ok; [done|]. destruct Hnoerr. by eapply write_loop_fails.
  - intros Hcr Hst Hl -> rs Hrs. by apply RestClient.response_reads.
Qed.

(** C7. A client's request is served once, however the network cuts it: the events that
    bring a proper prefix only fill the connection's buffer; the event that completes
    the request dispatches it exactly once and, when the write loop has ended, closes the
    connection.  What has been written is a prefix of the serialised response: all of it
    if no write fails, but cut off where a write fails, and [EAGAIN] on the non-blocking
    socket counts as a failure (rest_server.cpp:217); the request is not dispatched
    again.  If all of it was written, the client that reads those bytes gets the handler's
    status and body.  The request is one of the client: no CR in host, method, path or
    content type, no space in method or path, a body below [2 ^ 31] bytes. *)
Theorem request_served_once routes host m p body ct es cs c trailing now fd r w resp reg' ws out ok
    (Hhost : no_cr host) (Hm : no_cr m) (Hms : 32 ∉ m) (Hp : no_cr p) (Hps : 32 ∉ p) (Hct : no_cr ct)
    (Hbody : strlen body < 2 ^ 31)
    (Hlen : strlen (RestClient.format_request host m p body ct) < 2 ^ 63)
    (Hfresh : connections_ w !! fd = None) (Hc : c ≠ [])
    (Htext : RestClient.format_request host m p body ct = concat (concat es) ++ concat cs ++ c)
    (Hdisp : dispatch_ routes now (mkRequest m p (add_headers (RestClient.request_headers host body ct) ∅) body) (registry w) = Some (resp, reg'))
    (Hwrite : write_loop ws (serialize_response resp) 0 [] = (out, Some ok)) :
  exists w', connection_events routes es now fd (r, w) = Returned (r, w') /\
    registry w' = registry w /\ sent w' = sent w /\
    on_connection_event_ routes ((Chunk <$> cs ++ [c]) ++ trailing) ws now true fd (r, w') =
      Returned (Reactor.remove_fd true fd r,
        mkServer (connections_ w) reg' (inputs w) (sent w ++ [(fd, out)]) (listen_fd_ w) (close fd (fds w))) /\
    out `prefix_of` serialize_response resp /\ (WriteError ∉ ws -> out = serialize_response resp) /\
    (no_cr (content_type resp) -> fits 31 (Http.status resp) -> strlen (serialize_response resp) < 2 ^ 63 -> out = serialize_response resp ->
     forall rs, stream rs = Some out ->
       RestClient.recv_response_ rs =
         Returned (RestClient.mkResponse (Http.status resp) (add_headers (RestClient.response_headers resp) ∅) (resp_body resp))).
Proof. by apply (served_once routes host m p body ct es cs c trailing now fd r w resp reg' ws out ok). Qed.

(** A status request in three reads of two events. *)
Definition demo_text : bytes := RestClient.format_request (lit "localhost") (lit "GET") (lit "/exchange/status") [] [].
Definition demo_server : RestServer := mkServer ∅ ∅ [] [] 4 (mkTable {[4; 5]} []).
Definition demo_response : Response := mkResponse 200 (lit "application/json") (lit "{'status': 'ok'}").

(** Written whole after an interruption. *)
Definition demo_event (ws : list write_result) (w' : RestServer) : outcome (reactor * RestServer) :=
  on_connection_event_ (@main_routes demo_json) ((Chunk <$> [take 5 (drop 10 demo_text)] ++ [drop 15 demo_text]) ++ []) ws 0 true 5 (Reactor.make, w').
Definition demo_closed (out : bytes) : reactor * RestServer :=
  (Reactor.remove_fd true 5 Reactor.make, mkServer ∅ ∅ [] ([] ++ [(5, out)]) 4 (close 5 (mkTable {[4; 5]} []))).

Lemma request_served_once_witness :
  exists w', connection_events (@main_routes demo_json) [[take 10 demo_text]] 0 5 (Reactor.make, demo_server) = Returned (Reactor.make, w') /\
    registry w' = ∅ /\ sent w' = [] /\
    demo_event [Interrupted; Wrote 100; Wrote 6] w' = Returned (demo_closed (serialize_response demo_response)) /\
    forall rs, stream rs = Some (serialize_response demo_response) ->
      RestClient.recv_response_ rs = Returned (RestClient.mkResponse 200 (add_headers (RestClient.response_headers demo_response) ∅) (lit "{'status': 'ok'}")).
Proof.
  destruct (request_served_once (@main_routes demo_json) (lit "localhost") (lit "GET") (lit "/exchange/status") [] []
    [[take 10 demo_text]] [take 5 (drop 10 demo_text)] (drop 15 demo_text) [] 0 5 Reactor.make demo_server demo_response ∅
    [Interrupted; Wrote 100; Wrote 6] (serialize_response demo_response) true) as (w' & H1 & H2 & H3 & H4 & _ & _ & H5);
    try (by apply lit_no_cr); try apply not_elem_of_nil; try (by apply RestClient.lit_free); try reflexivity; [discriminate|].
  exists w'. split; [exact H1|]. split; [exact H2|]. split; [exact H3|]. split; [exact H4|]. apply H5; try reflexivity; [by apply lit_no_cr|unfold fits; simpl; lia].
Defined.

(** ** Callbacks and registrations *)
Definition no_reuse (l : list accept_result) (r : reactor) : Prop :=
  Forall (fun a => match a with Accepted fd _ _ => fd ∉ Reactor.pending_removes_ r | _ => True end) l.

Lemma listener_sync l : forall r w r' w',
  Reactor.in_sync r -> no_reuse l r -> on_listener_event_ l (r, w) = Returned (r', w') -> Reactor.in_sync r'.
Proof.
  induction l as [|a l IH]; intros r w r' w' Hs Hn H; cbn [on_listener_event_] in H; [done|].
  apply Forall_cons in Hn as [Ha Hn]. destruct a as [fd nb add| |]; [|by simplify_eq|eauto].
  destruct nb; cbn [negb fst snd] in H; [|eauto].
  pose proof (Reactor.in_sync_add add fd Connection r Hs Ha) as Hs'. unfold Reactor.add_fd in *.
  destruct add; cbn [negb snd] in *; eapply IH; try exact H; try done.
Qed.

Lemma connection_sync routes rs ws now fd : forall r w r' w',
  Reactor.in_sync r -> on_connection_event_ routes rs ws now true fd (r, w) = Returned (r', w') -> Reactor.in_sync r'.
Proof.
  induction rs as [|x rs IH]; intros r w r' w' Hs H; cbn [on_connection_event_] in H; [done|].
  pose proof (Reactor.in_sync_remove fd r Hs) as Hs'.
  destruct x as [c| | |]; [|unfold close_connection_ in H; by simplify_eq..].
  destruct (parse_request _) as [[req|]| |]; [|eauto|done|done].
  destruct (dispatch_ _ _ _ _) as [[resp reg']|]; [|done]. unfold write_response_ in H.
  destruct (write_loop _ _ _ _) as [out [ok|]]; [|done]. cbn [obind] in H. unfold close_connection_ in H. by simplify_eq.
Qed.

(** Registrations and callbacks agree: when the kernel does not hand out, within a
    batch of events, a descriptor that was closed earlier in that batch, every callback
    keeps a descriptor registered with epoll exactly when it has a callback that stays,
    and after the batch the two sets are the same. *)
Theorem reactor_in_sync routes (cb : callback) fd ev (r r' : reactor) w w'
    (Hs : Reactor.in_sync r) (Hrun : invoke routes cb fd ev (r, w) = Returned (r', w'))
    (Hreuse : forall l rest, inputs w = Accepts l :: rest -> no_reuse l r)
    (Hdel : forall rs ws now del rest, inputs w = Reads rs ws now del :: rest -> del = true) :
  Reactor.in_sync r' /\ dom (Reactor.callbacks_ (Reactor.flush r')) = Reactor.interest (Reactor.flush r').
Proof.
  assert (Reactor.in_sync r') as Hs'.
  { unfold invoke in Hrun. destruct (inputs w) as [|[l|rs ws now del] rest]; [done|..]; destruct cb; try done.
    - eapply listener_sync; [exact Hs| |exact Hrun]. by eapply Hreuse.
    - rewrite (Hdel _ _ _ _ _ eq_refl) in Hrun. by eapply connection_sync. }
  split; [done|]. apply Reactor.in_sync_dom; [by apply Reactor.in_sync_flush|done].
Qed.

Lemma reactor_in_sync_witness :
  let r := (Reactor.add_fd true 4 Listener Reactor.make).2 in
  let w := mkServer ∅ ∅ [Accepts [Accepted 5 true true; AcceptAgain]] [] 4 (mkTable {[4]} []) in
  let r' := (Reactor.add_fd true 5 Connection r).2 in
  Reactor.in_sync r' /\ dom (Reactor.callbacks_ (Reactor.flush r')) = Reactor.interest (Reactor.flush r').
Proof.
  intros r w r'. apply (reactor_in_sync ∅ Listener 4 1 r r' w (mkServer ∅ ∅ [] [] 4 (open_fd 5 (mkTable {[4]} [])))).
  - apply Reactor.in_sync_add; [apply Reactor.in_sync_make|apply not_elem_of_nil].
  - reflexivity.
  - intros l rest [= <- <-]. repeat constructor. apply not_elem_of_nil.
  - discriminate.
Defined.

(** C30. Within a batch, a descriptor that was closed and is then accepted again for a new
    connection loses the new callback at the end of the batch: it stays registered, but
    no later event on it is handled, so that its client is never answered. *)
Theorem reactor_reuse_loses_callback routes fd ev (r : reactor) w del :
  let '(r1, w1) := close_connection_ del fd (r, w) in
  exists r2 w2, on_listener_event_ [Accepted fd true true; AcceptAgain] (r1, w1) = Returned (r2, w2) /\ fd ∈ opened (fds w2) /\
    fd ∈ Reactor.interest (Reactor.flush r2) /\ Reactor.callbacks_ (Reactor.flush r2) !! fd = None /\
    Reactor.handle (invoke routes) (fd, ev) (Reactor.flush r2, w2) = Returned (Reactor.flush r2, w2).
Proof.
  eexists _, _. split; [reflexivity|]. cbn [Reactor.add_fd negb fst]. set (r2 := Reactor.mkReactor _ _ _ _).
  assert (Reactor.callbacks_ (Reactor.flush r2) !! fd = None) as Hn.
  { rewrite Reactor.flush_lookup. rewrite decide_True; [done|]. simpl. apply elem_of_app. right. apply list_elem_of_here. }
  split_and!; [simpl; set_solver|simpl; set_solver|done|]. unfold Reactor.handle. cbn [fst]. by rewrite Hn.
Qed.

(** ** Descriptors *)
(** What is open is what is registered, and nothing was closed twice. *)
Definition fds_exact (r : reactor) (w : RestServer) : Prop := opened (fds w) = Reactor.interest r /\ misused (fds w) = [].

(** [accept] returns descriptors that are not open. *)
Fixpoint fresh_accepts (l : list accept_result) (o : gset Z) : Prop :=
  match l with
  | Accepted fd nonblock add :: l => (fd ∉ o) /\ fresh_accepts l (if nonblock && add then {[fd]} ∪ o else o)
  | _ :: l => fresh_accepts l o
  | [] => True
  end.

Lemma listener_exact l : forall r w r' w',
  fds_exact r w -> fresh_accepts l (opened (fds w)) -> on_listener_event_ l (r, w) = Returned (r', w') -> fds_exact r' w'.
Proof.
  induction l as [|a l IH]; intros r w r' w' He Hf H; cbn [on_listener_event_] in H; [done|].
  destruct a as [fd nb add| |]; cbn [fresh_accepts] in Hf; [|by simplify_eq|by eapply IH]. destruct Hf as [Hfd Hf].
  assert (fds (set_fds (close fd (fds (set_fds (open_fd fd (fds w)) w))) (set_fds (open_fd fd (fds w)) w)) = fds w) as Ec by (by apply close_open_fd).
  destruct nb, add; cbn [negb andb Reactor.add_fd] in *; eapply IH; try exact H; rewrite ?Ec; try exact Hf; unfold fds_exact in *; rewrite ?Ec; try done.
  destruct He as [E1 E2]. simpl. split; [by rewrite E1|done].
Qed.

Lemma connection_exact routes rs ws now fd : forall r w r' w',
  fds_exact r w -> fd ∈ Reactor.interest r -> on_connection_event_ routes rs ws now true fd (r, w) = Returned (r', w') -> fds_exact r' w'.
Proof.
  assert (forall r w, fds_exact r w -> fd ∈ Reactor.interest r -> fds_exact (Reactor.remove_fd true fd r) (set_fds (close fd (fds w)) w)) as Hclose.
  { intros r w [E1 E2] Hin. unfold fds_exact. simpl. rewrite close_opened by (by rewrite E1). simpl. by rewrite E1. }
  induction rs as [|x rs IH]; intros r w r' w' He Hin H; cbn [on_connection_event_] in H; [done|].
  pose proof (Hclose r w He Hin) as Hc. destruct x as [c| | |]; [|unfold close_connection_ in H; simplify_eq; first [exact Hc|exact He]..].
  destruct (parse_request _) as [[req|]| |]; [|by eapply IH; [| |exact H]|done|done].
  destruct (dispatch_ _ _ _ _) as [[resp reg']|]; [|done]. unfold write_response_ in H.
  destruct (write_loop _ _ _ _) as [out [ok|]]; [|done]. cbn [obind] in H. unfold close_connection_ in H. by simplify_eq.
Qed.

(** No descriptor leaks and none is closed twice: when [accept] returns descriptors
    that are not open and the event is for a registered one, after every callback the
    open descriptors are again exactly the registered ones, the connections whose setup
    failed, that ended or that were answered having been closed once. *)
Theorem descriptors_exact routes (cb : callback) fd ev (r r' : reactor) w w'
    (He : fds_exact r w) (Hin : fd ∈ Reactor.interest r) (Hrun : invoke routes cb fd ev (r, w) = Returned (r', w'))
    (Hfresh : forall l rest, inputs w = Accepts l :: rest -> fresh_accepts l (opened (fds w)))
    (Hdel : forall rs ws now del rest, inputs w = Reads rs ws now del :: rest -> del = true) :
  fds_exact r' w' /\ fds_exact (Reactor.flush r') w'.
Proof.
  assert (fds_exact r' w') as He'.
  { unfold invoke in Hrun. destruct (inputs w) as [|[l|rs ws now del] rest]; [done|..]; destruct cb; try done.
    - eapply listener_exact; [| |exact Hrun]; [done|by eapply Hfresh].
    - rewrite (Hdel _ _ _ _ _ eq_refl) in Hrun. eapply connection_exact; [| |exact Hrun]; done. }
  split; done.
Qed.

Lemma descriptors_exact_witness :
  let r := (Reactor.add_fd true 4 Listener Reactor.make).2 in
  let w := mkServer ∅ ∅ [Accepts [Accepted 5 false true; Accepted 5 true true; AcceptAgain]] [] 4 (mkTable {[4]} []) in
  exists r' w', invoke ∅ Listener 4 1 (r, w) = Returned (r', w') /\ fds_exact r' w' /\ fds_exact (Reactor.flush r') w'.
Proof.
  intros r w. eexists _, _. split; [reflexivity|].
  apply (descriptors_exact ∅ Listener 4 1 r _ w _).
  - split; vm_compute; reflexivity.
  - apply (bool_decide_unpack _). vm_compute. exact Logic.I.
  - reflexivity.
  - intros l rest [= <- <-]. split_and!; [..|done]; apply (bool_decide_unpack _); vm_compute; exact Logic.I.
  - discriminate.
Defined.

(** ** Setting up and tearing down *)
Definition set_up (s : setup) : bool := s_fcntl s && s_setsockopt s && s_bind s && s_listen s.

(** [start] on every branch, for a socket that was not open before: it succeeds exactly
    when every call does, and then the listener is open and registered; when only the
    registration fails the destructor closes the listener and the table of descriptors
    is as before; but when one of the calls in between fails, [bind_and_listen_] has
    already closed the descriptor it leaves in [listen_fd_], and the destructor closes
    that number a second time. *)
Theorem start_branches s add r w fd (Hs : s_socket s = Some fd) (Hfd : fd ∉ opened (fds w)) (Hneg : fd ≠ -1)
    (Hc : connections_ w = ∅) (Hm : misused (fds w) = []) :
  exists w', start s add (r, w) = (set_up s && add, (if set_up s && add then (Reactor.add_fd true fd Listener r).2 else r, w')) /\
    listen_fd_ w' = fd /\
    if set_up s then fds w' = open_fd fd (fds w) /\ fds (destroy w') = fds w
    else fds w' = fds w /\ opened (fds (destroy w')) = opened (fds w) /\ misused (fds (destroy w')) = [fd].
Proof.
  assert (forall w', listen_fd_ w' = fd -> connections_ w' = ∅ -> fds (destroy w') = close fd (fds w')) as Hdestroy.
  { intros w' E1 E2. unfold destroy. rewrite E1, E2, decide_False, map_to_list_empty by done. done. }
  unfold start, bind_and_listen_. rewrite Hs. set (w1 := mkServer _ _ _ _ fd _).
  assert (fds (destroy w1) = fds w) as Hok by (rewrite Hdestroy by done; by apply close_open_fd).
  assert (fds (set_fds (close (listen_fd_ w1) (fds w1)) w1) = fds w /\
    fds (destroy (set_fds (close (listen_fd_ w1) (fds w1)) w1)) = close fd (fds w)) as [Hf1 Hf2].
  { rewrite Hdestroy by done. simpl. by rewrite close_open_fd by done. }
  unfold set_up. destruct (s_fcntl s), (s_setsockopt s), (s_bind s), (s_listen s); cbn [negb andb];
    try (eexists; split; [reflexivity|]; split; [done|]; rewrite Hf1, Hf2, close_closed by done; by rewrite Hm).
  exists w1. split; [by destruct add|]. split; [done|]. by split.
Qed.

Lemma start_branches_witness :
  exists w', start (mkSetup (Some 4) true true false true) true (Reactor.make, mkServer ∅ ∅ [] [] (-1) (mkTable {[0; 1; 2; 3]} [])) =
      (false, (Reactor.make, w')) /\ listen_fd_ w' = 4 /\
    fds w' = mkTable {[0; 1; 2; 3]} [] /\ opened (fds (destroy w')) = {[0; 1; 2; 3]} /\ misused (fds (destroy w')) = [4].
Proof.
  destruct (start_branches (mkSetup (Some 4) true true false true) true Reactor.make (mkServer ∅ ∅ [] [] (-1) (mkTable {[0; 1; 2; 3]} [])) 4)
    as (w' & H1 & H2 & H3 & H4 & H5); try reflexivity; [|discriminate|exists w'; exact (conj H1 (conj H2 (conj H3 (conj H4 H5))))].
  apply (bool_decide_unpack _). vm_compute. exact Logic.I.
Defined.

End Server.
