(* ===== verification/Shutdown.v ===== *)
(** * The simulator's descriptors from its constructors to its destructors

    [Reactor] ([src/sim/reactor.cpp]) owns the epoll descriptor, [RestServer]
    ([src/sim/http/rest_server.cpp]) the listener and the connections.  The file follows
    the table of open descriptors from the constructors through any sequence of callbacks
    to the destructors, which [main] runs in the reverse order, and shows what is left
    open. *)
From stdpp Require Import gmap list numbers strings sorting.
From S2P Require Import Prelude Interfaces MatchingEngine MatchSpec EngineRep Exchange Bytes Socket Http RestClient Reactor Gateway Server.
Open Scope Z_scope.

Module Shutdown.
Import Bytes Socket Http Gateway Server.

(** [Reactor::Reactor()]: the value of [epfd_]; [rc] is what [epoll_create1] returns. *)
Definition reactor_construct (rc : option Z) (t : table) : Z * table :=
  match rc with Some fd => (fd, open_fd fd t) | None => (-1, t) end.

(** [Reactor::~Reactor()] *)
Definition reactor_destruct (epfd_ : Z) (t : table) : table := if decide (epfd_ = -1) then t else close epfd_ t.

(** The destructors of [server] and [reactor] at the end of [main]. *)
Definition tear_down (epfd_ : Z) (w : RestServer) : table := reactor_destruct epfd_ (fds (destroy w)).

(** ** What the program runs *)
Section running.
  Context (routes : gmap bytes Handler).

(** One callback of a registered descriptor, on what the kernel may answer, or the end of
    a batch. *)
Inductive happens : reactor * RestServer -> reactor * RestServer -> Prop :=
| happens_callback cb fd ev r w r' w' :
    fd ∈ Reactor.interest r -> cb = (if decide (fd = listen_fd_ w) then Listener else Connection) ->
    (forall l rest, inputs w = Accepts l :: rest -> fresh_accepts l (opened (fds w))) ->
    (forall rs ws now del rest, inputs w = Reads rs ws now del :: rest -> del = true) ->
    invoke routes cb fd ev (r, w) = Returned (r', w') -> happens (r, w) (r', w')
| happens_flush r w : happens (r, w) (Reactor.flush r, w).

(** The descriptors of the server are the registered ones, apart from the others; every
    connection with a buffer is one of them. *)
Record accounts (other : gset Z) (r : reactor) (w : RestServer) : Prop := {
  acc_opened : opened (fds w) = other ∪ Reactor.interest r;
  acc_apart : other ## Reactor.interest r;
  acc_misused : misused (fds w) = [];
  acc_listen : listen_fd_ w ∈ Reactor.interest r;
  acc_buffers fd : is_Some (connections_ w !! fd) -> fd ∈ Reactor.interest r /\ fd ≠ listen_fd_ w;
}.

Lemma accounts_accept other r w fd : accounts other r w -> fd ∉ opened (fds w) ->
  accounts other (Reactor.add_fd true fd Connection r).2 (set_fds (open_fd fd (fds w)) w).
Proof.
  intros [Ho Ha Hm Hl Hb] Hfd. rewrite Ho in Hfd. split; simpl; [|set_solver|done|set_solver|].
  - rewrite Ho. set_solver.
  - intros x Hx. destruct (Hb x Hx). set_solver.
Qed.

Lemma listener_accounts other l : forall r w r' w',
  accounts other r w -> fresh_accepts l (opened (fds w)) -> on_listener_event_ l (r, w) = Returned (r', w') -> accounts other r' w'.
Proof.
  induction l as [|a l IH]; intros r w r' w' HA Hf H; cbn [on_listener_event_] in H; [done|].
  destruct a as [fd nb add| |]; cbn [fresh_accepts] in Hf; [|by simplify_eq|by eapply IH]. destruct Hf as [Hfd Hf].
  assert (set_fds (close fd (fds (set_fds (open_fd fd (fds w)) w))) (set_fds (open_fd fd (fds w)) w) = w) as Ec.
  { unfold set_fds. cbn [fds connections_ registry inputs sent listen_fd_]. rewrite close_open_fd by done. by destruct w. }
  destruct nb, add; cbn [negb andb Reactor.add_fd] in *; rewrite ?Ec in H; try (by eapply IH).
  eapply IH; [exact (accounts_accept other r w fd HA Hfd)|exact Hf|exact H].
Qed.

Lemma accounts_buffer other r w fd b : accounts other r w -> fd ∈ Reactor.interest r -> fd ≠ listen_fd_ w ->
  accounts other r (mkServer (<[fd := b]> (connections_ w)) (registry w) (inputs w) (sent w) (listen_fd_ w) (fds w)).
Proof.
  intros [Ho Ha Hm Hl Hb] Hfd Hne. split; simpl; [done..|]. intros x Hx.
  destruct (decide (fd = x)) as [<-|Hx']; [done|]. rewrite lookup_insert_ne in Hx by done. by apply Hb.
Qed.

Lemma accounts_close other r w fd : accounts other r w -> fd ∈ Reactor.interest r -> fd ≠ listen_fd_ w ->
  accounts other (close_connection_ true fd (r, w)).1 (close_connection_ true fd (r, w)).2.
Proof.
  intros [Ho Ha Hm Hl Hb] Hfd Hne. cbn [close_connection_ fst snd].
  split; simpl; rewrite ?close_opened by (rewrite Ho; set_solver); simpl; [rewrite Ho; set_solver|set_solver|done|set_solver|].
  intros x Hx. destruct (decide (fd = x)) as [<-|Hx']; [rewrite lookup_delete_eq in Hx; by destruct Hx|].
  rewrite lookup_delete_ne in Hx by done. destruct (Hb x Hx). set_solver.
Qed.

(** The table, the registry's markets and what was sent do not matter. *)
Lemma accounts_same other r w w' : accounts other r w -> fds w' = fds w -> listen_fd_ w' = listen_fd_ w -> connections_ w' = connections_ w ->
  accounts other r w'.
Proof. intros [Ho Ha Hm Hl Hb] E1 E2 E3. split; rewrite ?E1, ?E2, ?E3; done. Qed.

Lemma connection_accounts other rs ws now fd : forall r w r' w',
  accounts other r w -> fd ∈ Reactor.interest r -> fd ≠ listen_fd_ w ->
  on_connection_event_ routes rs ws now true fd (r, w) = Returned (r', w') -> accounts other r' w'.
Proof.
  induction rs as [|x rs IH]; intros r w r' w' HA Hin Hne H; cbn [on_connection_event_] in H; [done|].
  destruct x as [c| | |]; [|by injection H as <- <-; apply (accounts_close other r w fd)|by simplify_eq|by injection H as <- <-; apply (accounts_close other r w fd)].
  set (b := default [] (connections_ w !! fd) ++ c) in *. pose proof (accounts_buffer other r w fd b HA Hin Hne) as HB.
  destruct (parse_request b) as [[req|]| |]; [|by eapply IH; [exact HB|..]|done|done].
  destruct (dispatch_ _ _ _ _) as [[resp reg']|]; [|done]. unfold write_response_ in H.
  destruct (write_loop _ _ _ _) as [out [ok|]]; [|done]. cbn [obind] in H. injection H as <- <-.
  pose proof (accounts_buffer other r _ fd [] HB Hin Hne) as HE. cbn [connections_ registry inputs sent listen_fd_ fds] in HE.
  eapply accounts_same; [exact (accounts_close other r _ fd HE Hin Hne)|done..].
Qed.

Lemma happens_accounts other st st' : happens st st' -> accounts other st.1 st.2 -> accounts other st'.1 st'.2.
Proof.
  intros H HA. destruct H as [cb fd ev r w r' w' Hin -> Hfresh Hdel Hrun|r w]; [|by destruct HA].
  cbn [fst snd] in *. unfold invoke in Hrun. destruct (inputs w) as [|i rest] eqn:Ei; [done|].
  set (w1 := mkServer _ _ rest _ _ _) in Hrun. assert (accounts other r w1) as HA1 by (by eapply accounts_same).
  case_decide as Hfd; destruct i as [l|rs ws now del]; try done.
  - eapply listener_accounts; [exact HA1|by eapply Hfresh|exact Hrun].
  - rewrite (Hdel _ _ _ _ _ eq_refl) in Hrun. eapply connection_accounts; [exact HA1|..|exact Hrun]; done.
Qed.

Lemma runs_accounts other st st' : rtc happens st st' -> accounts other st.1 st.2 -> accounts other st'.1 st'.2.
Proof. induction 1 as [|st1 st2 st3 H _ IH]; [done|]. intros HA. by apply IH, (happens_accounts other st1). Qed.

(** ** Tearing down *)
(** Connections that have not sent a byte: registered, but without a buffer. *)
Definition idle (r : reactor) (w : RestServer) : gset Z := Reactor.interest r ∖ {[listen_fd_ w]} ∖ dom (connections_ w).

Lemma close_all (l : list Z) : forall t, NoDup l -> (forall fd, fd ∈ l -> fd ∈ opened t) ->
  foldl (fun t fd => close fd t) t l = mkTable (opened t ∖ list_to_set l) (misused t).
Proof.
  induction l as [|fd l IH]; intros t Hnd Hl; cbn [foldl list_to_set].
  { destruct t as [o m]. simpl. f_equal. set_solver. }
  apply NoDup_cons in Hnd as [Hfd Hnd]. rewrite close_opened by (apply Hl; set_solver).
  rewrite IH; [|done|]; simpl; [f_equal; set_solver|]. intros x Hx. specialize (Hl x). set_solver.
Qed.

Lemma destroy_accounts other r w : accounts other r w -> -1 ∉ Reactor.interest r ->
  fds (destroy w) = mkTable (other ∪ idle r w) [].
Proof.
  intros [Ho Ha Hm Hl Hb] Hneg. unfold destroy. rewrite decide_False by (intros E; by rewrite E in Hl).
  rewrite close_opened by (rewrite Ho; set_solver). cbn [set_fds fds].
  assert (forall fd, fd ∈ (map_to_list (connections_ w)).*1 <-> is_Some (connections_ w !! fd)) as Hd.
  { intros fd. rewrite list_elem_of_fmap. split.
    - intros ([x b] & -> & Hx%elem_of_map_to_list). eauto.
    - intros [b Hx]. exists (fd, b). split; [done|]. by apply elem_of_map_to_list. }
  rewrite close_all; simpl; [|apply NoDup_fst_map_to_list|].
  - f_equal; [|done]. rewrite Ho. unfold idle. apply set_eq. intros x.
    rewrite !elem_of_difference, !elem_of_union, !elem_of_difference, elem_of_list_to_set, (Hd x), elem_of_dom, !elem_of_singleton.
    pose proof (Hb x). specialize (Ha x). destruct (decide (is_Some (connections_ w !! x))); intuition congruence.
  - intros fd Hfd%Hd. destruct (Hb fd Hfd). rewrite Ho. set_solver.
Qed.

(** C38. The destructors close what the constructors and callbacks opened, once, except
    for the connections that have not sent a byte: from the construction of the reactor
    and a successful start, after any callbacks, tearing down the server and the reactor
    leaves the descriptors there were before and those of the idle connections, which
    [connections_] does not list; without idle connections the table is as before.  When
    [epoll_create1] fails, so that the listener cannot be registered, everything is
    closed again. *)
Theorem shutdown_descriptors reg ins epfd lfd s t
    (Hs : s_socket s = Some lfd) (Hset : set_up s = true) (Hmis : misused t = [])
    (He : epfd ∉ opened t) (He1 : epfd ≠ -1) (Hl : lfd ∉ opened t) (Hl1 : lfd ≠ -1) (Hle : lfd ≠ epfd) :
  (let '(e, t1) := reactor_construct (Some epfd) t in
   exists r0 w0, start s true (Reactor.make, mkServer ∅ reg ins [] (-1) t1) = (true, (r0, w0)) /\
     forall r w, rtc happens (r0, w0) (r, w) -> -1 ∉ Reactor.interest r ->
       tear_down e w = mkTable (opened t ∪ idle r w) [] /\ idle r w ## {[epfd]} ∪ opened t) /\
  (let '(e, t1) := reactor_construct None t in
   exists w1, start s false (Reactor.make, mkServer ∅ reg ins [] (-1) t1) = (false, (Reactor.make, w1)) /\ tear_down e w1 = t).
Proof.
  assert (forall w, connections_ w = ∅ -> listen_fd_ w = lfd -> fds (destroy w) = close lfd (fds w)) as Hdestroy.
  { intros w E1 E2. unfold destroy. by rewrite E1, E2, decide_False, map_to_list_empty by done. }
  unfold set_up in Hset. rewrite !andb_true_iff in Hset. destruct Hset as [[[H1 H2] H3] H4].
  split; cbn [reactor_construct]; unfold start, bind_and_listen_; rewrite Hs, H1, H2, H3, H4; cbn [negb].
  - eexists _, _. split; [reflexivity|]. intros r w Hrun Hneg.
    assert (accounts ({[epfd]} ∪ opened t) r w) as HA.
    { eapply (runs_accounts _ (_, _) (r, w)); [exact Hrun|]. split; simpl; [set_solver|set_solver|done|set_solver|].
      intros fd [b Hb]. by rewrite lookup_empty in Hb. }
    unfold tear_down, reactor_destruct. rewrite decide_False by done. rewrite (destroy_accounts _ r w HA Hneg).
    assert (idle r w ## {[epfd]} ∪ opened t) as Hid by (pose proof (acc_apart _ _ _ HA); unfold idle; set_solver).
    split; [|done]. rewrite close_opened by (simpl; set_solver). simpl. f_equal. set_solver.
  - eexists. split; [reflexivity|]. unfold tear_down, reactor_destruct. rewrite decide_True by done.
    rewrite Hdestroy by done. cbn [fds]. by apply close_open_fd.
Qed.
End running.

(** A client that connects and says nothing. *)
Lemma shutdown_descriptors_witness :
  let t := mkTable {[0; 1; 2]} [] in
  let ins := [Accepts [Accepted 5 true true; AcceptAgain]] in
  exists r0 w0 r w, start (mkSetup (Some 4) true true true true) true (Reactor.make, mkServer ∅ ∅ ins [] (-1) (open_fd 3 t)) = (true, (r0, w0)) /\
    rtc (happens ∅) (r0, w0) (r, w) /\ tear_down 3 w = mkTable {[0; 1; 2; 5]} [].
Proof.
  intros t ins. destruct (shutdown_descriptors ∅ ∅ ins 3 4 (mkSetup (Some 4) true true true true) t) as [(r0 & w0 & Hst & H) _];
    [done|done|done|apply (bool_decide_unpack _); vm_compute; exact Logic.I|done|apply (bool_decide_unpack _); vm_compute; exact Logic.I|done|done|].
  cbn in Hst. injection Hst as <- <-.
  assert (exists r w, rtc (happens ∅) ((Reactor.add_fd true 4 Listener Reactor.make).2, mkServer ∅ ∅ ins [] 4 (open_fd 4 (open_fd 3 t))) (r, w) /\ (-1 ∉ Reactor.interest r) /\ mkTable (opened t ∪ idle r w) [] = mkTable {[0; 1; 2; 5]} []) as (r & w & Hrun & Hneg & E).
  { eexists _, _. split; [|split].
    - apply rtc_once, (happens_callback ∅ Listener 4 1); [apply (bool_decide_unpack _); vm_compute; exact Logic.I|done| |done|reflexivity].
      intros l rest [= <- <-]. split; [|done]. apply (bool_decide_unpack _). vm_compute. exact Logic.I.
    - apply (bool_decide_unpack _). vm_compute. exact Logic.I.
    - vm_compute. reflexivity. }
  eexists _, _, r, w. split; [reflexivity|]. split; [exact Hrun|]. rewrite <- E. by apply (H r w Hrun Hneg).
Defined.
End Shutdown.
