(* ===== verification/OrderPath.v ===== *)
(** * An order's path from the client to the engine and back

    The composition of the client ([serialize_action], [RestClient::post]), the server's
    event loop, the handler and the matching engine of a market: what the exchange does
    with the bytes a client posts, and what the client reads in return. *)
From stdpp Require Import gmap list numbers strings sorting.
From S2P Require Import Prelude Interfaces MatchingEngine MatchSpec EngineRep Exchange Bytes Socket Http Gateway Feed Strategy Serialize RestClient Reactor Server Messages.
Open Scope Z_scope.
Open Scope cpp_scope.

Module OrderPath.
Import Bytes Socket Http Engine Clob Exchange Gateway Server Messages.

(** The side names of the exchange. *)
Definition side_text (sd : Side) : bytes := match sd with YES => lit "YES" | NO => lit "NO" end.

Definition orders_path : bytes := lit "/portfolio/orders".

(** How the network delivers one request: the reads of the events before the last one,
    the reads of the last one, and what the kernel returns afterwards. *)
Record delivery := mkDelivery { before : list (list bytes); pieces : list bytes; last_piece : bytes; after : list read_result }.

Definition delivers (text : bytes) (dl : delivery) : Prop :=
  text = concat (concat (before dl)) ++ concat (pieces dl) ++ last_piece dl /\ last_piece dl ≠ [].

Section path.
  Context {JS : Json} {JL : JsonLaws JS}.

(** The server answers the request on connection [fd] with [resp], once, and closes the
    connection; its markets are [reg'] afterwards. *)
Definition answered (dl : delivery) (ws : list write_result) (now fd : Z) (r : reactor) (w : RestServer)
    (resp : Response) (reg' : MarketRegistry) : Prop :=
  exists w', connection_events main_routes (before dl) now fd (r, w) = Returned (r, w') /\
    registry w' = registry w /\ sent w' = sent w /\
    on_connection_event_ main_routes ((Chunk <$> pieces dl ++ [last_piece dl]) ++ after dl) ws now true fd (r, w') =
      Returned (Reactor.remove_fd true fd r,
        mkServer (connections_ w) reg' (inputs w) (sent w ++ [(fd, serialize_response resp)]) (listen_fd_ w) (close fd (fds w))).

(** What the client returns, however the response is cut. *)
Definition client_reads (resp : Response) (status : Z) (text : bytes) : Prop :=
  forall rs, stream rs = Some (serialize_response resp) ->
    exists hs, RestClient.recv_response_ rs = Returned (RestClient.mkResponse status hs text).

Lemma post_routed ts req reg :
  Http.method req = lit "POST" -> path req = orders_path ->
  dispatch_ main_routes ts req reg = handle_place_order ts req reg.
Proof. intros Hm Hp. unfold dispatch_, main_routes, route, orders_path in *. by rewrite Hm, Hp, lookup_insert_eq. Qed.

Lemma post_length host body ct :
  strlen host < 2 ^ 31 -> strlen ct < 2 ^ 31 -> strlen body < 2 ^ 31 ->
  strlen (RestClient.format_request host (lit "POST") orders_path body ct) < 2 ^ 63.
Proof.
  unfold strlen. intros Hh Hc Hb. unfold RestClient.format_request. rewrite !length_app.
  assert (fits 64 (strlen body)) as Hf by (unfold fits, strlen; lia). pose proof (length_to_string _ Hf).
  assert (length orders_path = 17%nat) as -> by done.
  case_decide; rewrite ?length_app; simpl; lia.
Qed.

(** One posted body: what the handler says is what the client reads. *)
Lemma posted host ct body dl ws out now fd r w resp reg' :
  no_cr host -> no_cr ct -> strlen host < 2 ^ 31 -> strlen ct < 2 ^ 31 -> strlen body < 2 ^ 31 ->
  connections_ w !! fd = None ->
  delivers (RestClient.format_request host (lit "POST") orders_path body ct) dl ->
  (forall req, Http.body req = body -> handle_place_order now req (registry w) = Some (resp, reg')) ->
  write_loop ws (serialize_response resp) 0 [] = (out, Some true) ->
  content_type resp = lit "application/json" -> fits 31 (Http.status resp) -> strlen (resp_body resp) < 2 ^ 31 ->
  answered dl ws now fd r w resp reg' /\ client_reads resp (Http.status resp) (resp_body resp).
Proof.
  intros Hhost Hct Hlh Hlc Hlb Hfresh [Htext Hc] Hh Hw Hcr Hst Hlr.
  destruct (served_once main_routes host (lit "POST") orders_path body ct (before dl) (pieces dl) (last_piece dl) (after dl) now fd r w resp reg' ws out true)
    as (w' & H1 & H2 & H3 & H4 & _ & _ & H5); try done; try (by apply RestClient.lit_free).
  { by apply post_length. }
  { rewrite post_routed by done. by apply Hh. }
  pose proof (write_loop_prefix ws (serialize_response resp) 0 [] eq_refl) as Hout. rewrite Hw in Hout. destruct Hout as [_ Hout]. rewrite (Hout eq_refl) in *.
  split; [exists w'; done|]. intros rs Hrs. eexists. apply H5; [rewrite Hcr; by apply RestClient.lit_free|done| |done|done].
  unfold serialize_response, strlen in *. rewrite !length_app, Hcr.
  pose proof (length_to_string (Http.status resp) ltac:(unfold fits in *; lia)).
  pose proof (length_to_string (Z.of_nat (length (resp_body resp))) ltac:(unfold fits in *; lia)).
  assert (length (reason_phrase (Http.status resp)) <= 40)%nat.
  { unfold reason_phrase. repeat case_match; simpl; lia. }
  simpl. lia.
Qed.

(** ** An order the exchange understands *)
Definition is_order (fs : fields) (t : bytes) (sd : Side) (pr qty : Z) : Prop :=
  object_ok fs /\ t ≠ [] /\ field (lit "ticker") fs = Some (JStr t) /\ field (lit "side") fs = Some (JStr (side_text sd)) /\
  field (lit "price") fs = Some (JNum pr) /\ field (lit "qty") fs = Some (JNum qty) /\
  1 <= pr <= 99 /\ 1 <= qty <= 1000000.

Definition placed (res : PlaceResult) : Response := mkResponse 200 (lit "application/json") (result_json res).

Lemma order_placed ts req reg n fs t sd pr qty e s :
  registry_ok n reg -> n < 2 ^ 64 - 1 -> reg !! t = Some e -> implements e s ->
  is_order fs t sd pr qty -> Http.body req = object_text fs ->
  exists e', handle_place_order ts req reg =
      Some (placed (submit ts 1 sd pr qty s).1, <[t := e']> reg) /\
    implements e' (submit ts 1 sd pr qty s).2.
Proof.
  intros Hok Hn He Hs (Ho & Ht & Ft & Fs & Fp & Fq & Hp & Hq) Hbody.
  destruct (iterate_object fs Ho) as (d0 & H0 & R0). destruct (get_string_found d0 fs _ _ R0 Ft) as (d1 & H1 & R1).
  destruct (get_string_found d1 fs _ _ R1 Fs) as (d2 & H2 & R2).
  destruct (get_int64_found d2 fs _ _ R2 Fp) as (d3 & H3 & R3); [lia|].
  destruct (get_int64_found d3 fs _ _ R3 Fq) as (d4 & H4 & R4); [lia|]. rewrite <- Hbody in H0.
  pose proof (handler_places ts req reg n t e s sd (side_text sd) pr qty d0 d1 d2 d3 d4) as H.
  destruct (submit ts 1 sd pr qty s) as [res s']. by apply H; try done; destruct sd.
Qed.

(** C8. An order travels from end to end: an object with a known ticker, a side, a price
    and a quantity in range, in any order and among any other fields, posted by the
    client and cut by the network in any way, is submitted exactly once to the market of
    its ticker; that market goes on as the abstract exchange says and the others do not
    change; the connection is answered once and closed; and the bytes the client reads
    decode to the result of the abstract exchange, fills included.  No write of the response
    is assumed to fail (hypothesis [Hw]; a failing one, [EAGAIN] included, cuts the response
    off). *)
Theorem order_end_to_end host ct fs t sd pr qty dl ws out now fd r w n e s
    (Hhost : no_cr host) (Hct : no_cr ct) (Hlh : strlen host < 2 ^ 31) (Hlc : strlen ct < 2 ^ 31)
    (Hord : is_order fs t sd pr qty) (Hnow : fits 64 now)
    (Hreg : registry_ok n (registry w)) (Hn : n < 2 ^ 64 - 1) (He : registry w !! t = Some e) (Hs : implements e s)
    (Hfresh : connections_ w !! fd = None)
    (Hdl : delivers (RestClient.format_request host (lit "POST") orders_path (object_text fs) ct) dl)
    (Hw : write_loop ws (serialize_response (placed (submit now 1 sd pr qty s).1)) 0 [] = (out, Some true)) :
  exists e', implements e' (submit now 1 sd pr qty s).2 /\
    answered dl ws now fd r w (placed (submit now 1 sd pr qty s).1) (<[t := e']> (registry w)) /\
    exists text, client_reads (placed (submit now 1 sd pr qty s).1) 200 text /\
      read_answer text = Some (submit now 1 sd pr qty s).1.
Proof.
  pose proof Hord as ((_ & _ & Hlb) & _ & _ & _ & _ & _ & _ & Hq).
  destruct (submit_result e s now 1 sd pr qty Hs Hnow) as [Hres Hcnt]; [lia| |].
  { destruct (Hreg t e He) as (? & _ & _ & ?). destruct Hs as (? & ? & _ & _ & _ & <-). lia. }
  destruct (order_placed now (mkRequest [] [] ∅ (object_text fs)) (registry w) n fs t sd pr qty e s) as (e' & Hh & Hi); try done.
  set (res := (submit now 1 sd pr qty s).1) in *.
  destruct (posted host ct (object_text fs) dl ws out now fd r w (placed res) (<[t := e']> (registry w))) as [H1 H2]; try done.
  - intros req Hb. rewrite <- Hh. unfold handle_place_order. cbn [body]. by rewrite Hb.
  - unfold strlen, placed. cbn [resp_body]. pose proof (result_json_bound res Hres). lia.
  - exists e'. split_and!; [done..|]. exists (result_json res). split; [exact H2|by apply result_reads].
Qed.

(** ** What the client's own serialiser sends *)
Definition refusal (k : Strategy.ActionKind) : bytes :=
  match k with
  | Strategy.PLACE => codes "side must be 'YES' or 'NO'"
  | Strategy.CANCEL => codes "missing or invalid 'side'"
  end.

Lemma serialized_refused ts req reg a t :
  Serialize.action_ok a -> plain t -> t ≠ [] -> (length t <= 31)%nat -> Http.body req = object_text (action_fields a t) ->
  handle_place_order ts req reg = Some (make_error 400 (refusal (Strategy.kind a)), reg).
Proof.
  intros Ha Hp Ht Hl Hb. unfold handle_place_order. rewrite Hb.
  destruct (iterate_object _ (action_fields_ok a t Ha Hp Hl)) as (d0 & -> & R0).
  assert (field (lit "ticker") (action_fields a t) = Some (JStr t)) as Ft by (unfold action_fields; by destruct (Strategy.kind a)).
  destruct (get_string_found d0 _ _ _ R0 Ft) as (d1 & -> & R1). rewrite decide_False by done.
  destruct (Strategy.kind a) eqn:Ek.
  - destruct (get_string_found d1 _ (lit "side") (Serialize.side_name (Strategy.act_side a)) R1) as (d2 & -> & _);
      [unfold action_fields; by rewrite Ek|]. by destruct (Strategy.act_side a).
  - pose proof (get_string_error d1 _ (lit "side") R1) as Hs. destruct (get_string d1 _) as [ss d2]. cbn [fst] in Hs.
    rewrite Hs; [done|]. intros s. unfold action_fields. by rewrite Ek.
Qed.

(** C12. No order of the trading client reaches a market of the simulator: whatever
    action of the strategy is serialised and posted, the bytes fit their buffer, the
    request is received and parsed, and the handler refuses it with status 400, because
    the serialiser writes the side as [yes] or [no] where the handler accepts only [YES]
    and [NO], and because a cancellation has no side; no market changes, and the client
    reads the refusal, provided no write of it fails. *)
Theorem client_actions_refused a t pad cap
    (Ha : Serialize.action_ok a) (Hp : plain t) (Ht : t ≠ []) (Hl : (length t <= 31)%nat) (Hcap : 256 <= cap) :
  exists n body, Serialize.serialize_action a (t ++ 0 :: pad) cap = Some (n, body) /\ n = strlen body /\
    forall host ct dl ws out now fd r w,
      no_cr host -> no_cr ct -> strlen host < 2 ^ 31 -> strlen ct < 2 ^ 31 -> connections_ w !! fd = None ->
      delivers (RestClient.format_request host (lit "POST") orders_path body ct) dl ->
      let resp := make_error 400 (refusal (Strategy.kind a)) in
      write_loop ws (serialize_response resp) 0 [] = (out, Some true) ->
      answered dl ws now fd r w resp (registry w) /\ client_reads resp 400 (resp_body resp).
Proof.
  pose proof (action_fields_ok a t Ha Hp Hl) as (_ & _ & Hlb).
  assert (0 ∉ t) as H0 by (intros Hin; unfold plain in Hp; rewrite Forall_forall in Hp; by specialize (Hp _ Hin)).
  destruct (Serialize.serialize_ok a t pad cap Ha (plain_quote t Hp) H0 Hl Hcap) as (n & body & Hser & Hn & _).
  exists n, body. split_and!; [done..|].
  assert (body = object_text (action_fields a t)) as ->.
  { unfold Serialize.serialize_action in Hser. rewrite (proj2 (Z.ltb_ge _ _)) in Hser by lia.
    rewrite Serialize.c_string_ok in Hser by done. cbn [mbind option_bind] in Hser. rewrite message_object in Hser by done.
    cbn [mbind option_bind] in Hser. case_match; [by injection Hser|done]. }
  intros host ct dl ws out now fd r w Hhost Hct Hlh Hlc Hfresh Hdl resp Hw.
  apply (posted host ct (object_text (action_fields a t)) dl ws out now fd r w resp (registry w)); try done.
  - intros req Hb. by apply (serialized_refused now req (registry w) a t).
  - subst resp. by destruct (Strategy.kind a).
Qed.
End path.

(** ** Examples *)
(** An order with its fields in another order and one more field, in two events. *)
Definition demo_fields : fields :=
  [(lit "qty", JNum 10); (lit "note", JStr (lit "rebalance")); (lit "side", JStr (lit "YES"));
   (lit "price", JNum 62); (lit "ticker", JStr (lit "DEMO-1"))].
Definition demo_post : bytes :=
  RestClient.format_request (lit "localhost") (lit "POST") orders_path (object_text demo_fields) (lit "application/json").
Definition demo_delivery : delivery := mkDelivery [[take 7 demo_post]; []] [take 90 (drop 7 demo_post)] (drop 97 demo_post) [Again].
Definition demo_markets : RestServer := mkServer ∅ demo_registry [] [] 4 (mkTable {[4; 5]} []).
Definition demo_answer : PlaceResult := (submit 9 1 YES 62 10 demo_state).1.

Lemma demo_order : is_order demo_fields (lit "DEMO-1") YES 62 10.
Proof.
  split_and!; try done. split_and!; [|apply (bool_decide_unpack _); by vm_compute|done].
  repeat (apply Forall_cons; split; [split; cbn [fst snd]; first [by apply lit_plain|unfold fits; lia]|]). by apply Forall_nil.
Qed.

Lemma order_end_to_end_witness :
  exists e', implements e' (submit 9 1 YES 62 10 demo_state).2 /\
    @answered flat_json demo_delivery [Interrupted; Wrote 100; Wrote (length (serialize_response (placed demo_answer)) - 100)] 9 5 Reactor.make demo_markets
      (placed demo_answer) (<[lit "DEMO-1" := e']> demo_registry) /\
    exists text, client_reads (placed demo_answer) 200 text /\ read_answer text = Some demo_answer.
Proof.
  apply (order_end_to_end (JL := flat_json_laws) (lit "localhost") (lit "application/json") demo_fields (lit "DEMO-1") YES 62 10 demo_delivery
    [Interrupted; Wrote 100; Wrote (length (serialize_response (placed demo_answer)) - 100)] (serialize_response (placed demo_answer))
    9 5 Reactor.make demo_markets 6 demo_engine demo_state).
  - by apply RestClient.lit_free.
  - by apply RestClient.lit_free.
  - reflexivity.
  - reflexivity.
  - exact demo_order.
  - unfold fits; lia.
  - exact demo_registry_ok.
  - reflexivity.
  - apply lookup_singleton_eq.
  - destruct demo_run as (rs & _ & Hi). exact Hi.
  - reflexivity.
  - split; [by vm_compute|discriminate].
  - vm_compute. reflexivity.
Defined.

Definition demo_action : Strategy.Action := Strategy.mkAction Strategy.PLACE Feed.YES 62 10 7.

Lemma client_actions_refused_witness :
  exists n body, Serialize.serialize_action demo_action (codes "DEMO-1" ++ 0 :: []) 256 = Some (n, body) /\
    let text := RestClient.format_request (lit "localhost") (lit "POST") orders_path body (lit "application/json") in
    let resp := make_error 400 (codes "side must be 'YES' or 'NO'") in
    @answered flat_json (mkDelivery [] [] text []) [Wrote (length (serialize_response resp))] 9 5 Reactor.make demo_markets resp demo_registry /\
    client_reads resp 400 (lit "{'error':'" ++ codes "side must be 'YES' or 'NO'" ++ lit "'}").
Proof.
  destruct (client_actions_refused (JL := flat_json_laws) demo_action (codes "DEMO-1") [] 256) as (n & body & Hser & Hn & H).
  - repeat split; vm_compute; congruence.
  - repeat (apply Forall_cons; split; [done|]). done.
  - discriminate.
  - vm_compute. lia.
  - lia.
  - exists n, body. split; [exact Hser|]. intros text resp.
    eapply (H (lit "localhost") (lit "application/json") (mkDelivery [] [] text []) _ (serialize_response resp) 9 5 Reactor.make demo_markets).
    + by apply RestClient.lit_free.
    + by apply RestClient.lit_free.
    + reflexivity.
    + reflexivity.
    + reflexivity.
    + split; [done|]. intros E. apply (f_equal length) in E. cbn [last_piece] in E. unfold text, RestClient.format_request in E.
      rewrite length_app in E. discriminate E.
    + vm_compute. reflexivity.
Defined.

End OrderPath.
