(* ===== verification/Shim.v ===== *)
(** * [sim/compat/epoll_shim.h]: epoll over kqueue

    [kqueue] and [kevent] are the system's: they are the class [Kqueue], with what the
    manual says of a list of changes: they are applied in order, a deletion fails for a
    filter that is not registered ([ENOENT]), an addition may fail ([EBADF], [ENOMEM]), and
    with no room for events the first change that fails ends the call.  The functions of
    the shim are over that interface, and the theorem says when they implement the interest
    list of [epoll(7)]. *)
From stdpp Require Import gmap list numbers sorting.
From S2P Require Import Prelude.
Open Scope Z_scope.

Module Shim.

(** ** The constants *)
Definition EPOLLIN : Z := 0x001.
Definition EPOLLOUT : Z := 0x004.
Definition EPOLLERR : Z := 0x008.
Definition EPOLLHUP : Z := 0x010.
Definition EPOLLRDHUP : Z := 0x2000.
Definition EPOLLET : Z := 0x80000000.
Definition EPOLL_CLOEXEC : Z := 0x80000.
Definition EPOLL_CTL_ADD : Z := 1.
Definition EPOLL_CTL_DEL : Z := 2.
Definition EPOLL_CTL_MOD : Z := 3.

(** Of [sys/event.h]. *)
Definition EV_ADD : Z := 0x1.
Definition EV_DELETE : Z := 0x2.
Definition EV_ENABLE : Z := 0x4.
Definition EV_CLEAR : Z := 0x20.
Definition EV_EOF : Z := 0x8000.
Definition EV_ERROR : Z := 0x4000.
Inductive filter := EVFILT_READ | EVFILT_WRITE.
Global Instance filter_eq_dec : EqDecision filter.
Proof. solve_decision. Defined.
Global Instance filter_countable : Countable filter.
Proof.
  refine (inj_countable' (fun f => match f with EVFILT_READ => true | EVFILT_WRITE => false end)
    (fun b => if (b : bool) then EVFILT_READ else EVFILT_WRITE) _). by intros [].
Defined.

(** [struct kevent], as far as it is used. *)
Record kevent := mkKevent { ident : Z; kfilter : filter; kflags : Z; udata : Z }.
Definition has (flags bit : Z) : bool := negb (Z.land flags bit =? 0).

(** ** The system *)
Abbreviation knotes := (gmap (Z * filter) (Z * Z)).

(** The effect of one change on the registered filters (flags and user data). *)
Definition change (c : kevent) (m : knotes) : option knotes :=
  if has (kflags c) EV_DELETE then
    match m !! (ident c, kfilter c) with Some _ => Some (delete (ident c, kfilter c) m) | None => None end
  else Some (<[(ident c, kfilter c) := (kflags c, udata c)]> m).

(** What a call with a list of changes and no room for events may do: the result and the
    filters afterwards. *)
Inductive changed : list kevent -> knotes -> Z -> knotes -> Prop :=
| changed_all m : changed [] m 0 m
| changed_next c cs m m' rc m'' : change c m = Some m' -> changed cs m' rc m'' -> changed (c :: cs) m rc m''
| changed_enoent c cs m : change c m = None -> changed (c :: cs) m (-1) m
| changed_refused c cs m : has (kflags c) EV_DELETE = false -> changed (c :: cs) m (-1) m.

Record timespec := mkTimespec { tv_sec : Z; tv_nsec : Z }.

(** A system: its queue, the call of [kevent] that changes it and the call that waits;
    the laws are the documented ones. *)
Class Kqueue (K : Type) := {
  registered : K -> knotes;
  kevent_change : list kevent -> K -> Z * K;
  kevent_wait : Z -> option timespec -> K -> option (list kevent);
}.
Class KqueueLaws (K : Type) `{!Kqueue K} := {
  kevent_change_law : forall cs k, changed cs (registered k) (kevent_change cs k).1 (registered (kevent_change cs k).2);
  kevent_wait_room : forall n ts k l, kevent_wait n ts k = Some l -> Z.of_nat (length l) <= n;
}.

Section shim.
  Context {K : Type} `{!Kqueue K}.

(** ** [epoll_create1] *)
(** [kq] is what [kqueue] returns; the result, and whether the descriptor is closed on
    [exec]. *)
Definition epoll_create1 (flags kq : Z) : Z * bool :=
  if kq <? 0 then (-1, false) else (kq, has flags EPOLL_CLOEXEC).

(** ** [epoll_ctl] *)
Definition deletions (fd : Z) : list kevent := [mkKevent fd EVFILT_READ EV_DELETE 0; mkKevent fd EVFILT_WRITE EV_DELETE 0].
Definition additions (fd events : Z) : list kevent :=
  let flags := Z.lor EV_ADD EV_ENABLE in
  let flags := if has events EPOLLET then Z.lor flags EV_CLEAR else flags in
  (if has events EPOLLIN then [mkKevent fd EVFILT_READ flags fd] else []) ++
  (if has events EPOLLOUT then [mkKevent fd EVFILT_WRITE flags fd] else []).

Definition epoll_ctl (op fd : Z) (ev : option Z) (k : K) : Z * K :=
  if op =? EPOLL_CTL_DEL then (0, (kevent_change (deletions fd) k).2)
  else match ev with
       | None => (-1, k)
       | Some events =>
         let k := if op =? EPOLL_CTL_MOD then (kevent_change (deletions fd) k).2 else k in
         match additions fd events with
         | [] => (0, k)
         | ch => kevent_change ch k
         end
       end.

(** ** [epoll_wait] *)
Definition KQ_MAX : Z := 1024.
Definition translate (e : kevent) : Z * Z :=
  let bits := 0 in
  let bits := match kfilter e with EVFILT_READ => Z.lor bits EPOLLIN | EVFILT_WRITE => bits end in
  let bits := match kfilter e with EVFILT_WRITE => Z.lor bits EPOLLOUT | EVFILT_READ => bits end in
  let bits := if has (kflags e) EV_EOF then Z.lor bits (Z.lor EPOLLHUP EPOLLIN) else bits in
  let bits := if has (kflags e) EV_ERROR then Z.lor bits EPOLLERR else bits in
  (udata e, bits).

(** A timeout in milliseconds; a negative one is a null pointer, to wait for ever. *)
Definition timeout_spec (timeout : Z) : option timespec :=
  if 0 <=? timeout then Some (mkTimespec (Z.quot timeout 1000) (Z.rem timeout 1000 * 1000000)) else None.

(** [events[i] = ...] for the events in [kev], undefined past the caller's array. *)
Fixpoint store_events (i : nat) (kev : list kevent) (events : list (Z * Z)) : option (list (Z * Z)) :=
  match kev with
  | [] => Some events
  | e :: kev => if (i <? length events)%nat then store_events (S i) kev (<[i := translate e]> events) else None
  end.

(** The result and the caller's array; [None] when the system writes past [kev[KQ_MAX]] or
    the loop past the caller's array. *)
Definition epoll_wait (events : list (Z * Z)) (maxevents timeout : Z) (k : K) : option (Z * list (Z * Z)) :=
  let pts := timeout_spec timeout in
  let maxevents := if KQ_MAX <? maxevents then KQ_MAX else maxevents in
  match kevent_wait maxevents pts k with
  | None => Some (-1, events)
  | Some kev =>
    if KQ_MAX <? Z.of_nat (length kev) then None
    else events ← store_events 0 kev events; Some (Z.of_nat (length kev), events)
  end.

End shim.

(** ** The interest list *)
Inductive ctl := Add (fd events : Z) | Mod (fd events : Z) | Del (fd : Z).

Definition ctl_epoll (c : ctl) (m : gmap Z Z) : gmap Z Z :=
  match c with Add fd e | Mod fd e => <[fd := e]> m | Del fd => delete fd m end.

Definition ctl_shim {K} `{!Kqueue K} (c : ctl) (k : K) : Z * K :=
  match c with
  | Add fd e => epoll_ctl EPOLL_CTL_ADD fd (Some e) k
  | Mod fd e => epoll_ctl EPOLL_CTL_MOD fd (Some e) k
  | Del fd => epoll_ctl EPOLL_CTL_DEL fd None k
  end.

(** What [epoll(7)] accepts, for descriptors that are read from. *)
Definition accepted (c : ctl) (m : gmap Z Z) : Prop :=
  match c with
  | Add fd e => m !! fd = None /\ has e EPOLLIN = true
  | Mod fd e => is_Some (m !! fd) /\ has e EPOLLIN = true
  | Del fd => is_Some (m !! fd)
  end.

(** The filters of an entry. *)
Definition wanted (f : filter) (events : Z) : bool :=
  match f with EVFILT_READ => has events EPOLLIN | EVFILT_WRITE => has events EPOLLOUT end.
Definition flags_of (events : Z) : Z :=
  let flags := Z.lor EV_ADD EV_ENABLE in if has events EPOLLET then Z.lor flags EV_CLEAR else flags.
Definition entry (fd : Z) (f : filter) (e : option Z) : option (Z * Z) :=
  match e with Some e => if wanted f e then Some (flags_of e, fd) else None | None => None end.

Definition represents (m : gmap Z Z) (n : knotes) : Prop := forall fd f, n !! (fd, f) = entry fd f (m !! fd).
(** Every entry is read from. *)
Definition readers (m : gmap Z Z) : Prop := map_Forall (fun _ e => has e EPOLLIN = true) m.

Lemma flags_add events : has (flags_of events) EV_DELETE = false.
Proof. unfold flags_of. by destruct (has events EPOLLET). Qed.

Lemma additions_flags fd e : additions fd e =
  (if has e EPOLLIN then [mkKevent fd EVFILT_READ (flags_of e) fd] else []) ++
  (if has e EPOLLOUT then [mkKevent fd EVFILT_WRITE (flags_of e) fd] else []).
Proof. done. Qed.

(** Adding filters of [e] for a descriptor without filters: those asked for, or an error
    with some of them. *)
Lemma changed_add fd e n rc n' : (forall f, n !! (fd, f) = None) -> changed (additions fd e) n rc n' ->
  (rc = 0 \/ rc = -1) /\ (forall fd' f, fd' ≠ fd -> n' !! (fd', f) = n !! (fd', f)) /\
  (forall f, n' !! (fd, f) = entry fd f (Some e) \/ rc = -1 /\ n' !! (fd, f) = None).
Proof.
  intros Hn. rewrite additions_flags. pose proof (flags_add e) as Hf. unfold entry, wanted.
  assert (forall fl u f0 m m', change (mkKevent fd f0 fl u) m = Some m' -> has fl EV_DELETE = false -> m' = <[(fd, f0) := (fl, u)]> m) as Hch.
  { intros fl u f0 m m' H Hd. unfold change in H. cbn [kflags ident kfilter udata] in H. rewrite Hd in H. by injection H. }
  assert (forall fl u f0 m, change (mkKevent fd f0 fl u) m = None -> has fl EV_DELETE = false -> False) as Hno.
  { intros fl u f0 m H Hd. unfold change in H. cbn [kflags] in H. by rewrite Hd in H. }
  destruct (has e EPOLLIN) eqn:E1, (has e EPOLLOUT) eqn:E2; cbn [app]; intros Hc;
    repeat match goal with
    | H : changed (_ :: _) _ _ _ |- _ => inversion H; subst; clear H
    | H : changed [] _ _ _ |- _ => inversion H; subst; clear H
    | H : change _ _ = None |- _ => destruct (Hno _ _ _ _ H Hf)
    | H : change _ _ = Some _ |- _ => apply Hch in H; [subst|exact Hf]
    end; (split; [lia|]); (split; [intros fd' f Hne; rewrite ?lookup_insert_ne by congruence; done|]);
    intros []; rewrite ?E1, ?E2; simplify_map_eq; rewrite ?Hn; auto.
Qed.

(** Deleting the filters of a descriptor that is read from. *)
Lemma changed_delete fd n rc n' : is_Some (n !! (fd, EVFILT_READ)) -> changed (deletions fd) n rc n' ->
  forall fd' f, n' !! (fd', f) = if decide (fd' = fd) then None else n !! (fd', f).
Proof.
  intros [x Hx] Hc fd' f. unfold deletions in Hc. inversion Hc as [|c cs m m1 rc1 m2 E1 Hc1|c cs m E1|c cs m E1]; subst; clear Hc; [|unfold change in E1; cbn [ident kfilter kflags] in E1; by rewrite Hx in E1|done].
  unfold change in E1. cbn [ident kfilter kflags] in E1. change (has EV_DELETE EV_DELETE) with true in E1. rewrite Hx in E1. injection E1 as <-.
  assert (n' = delete (fd, EVFILT_WRITE) (delete (fd, EVFILT_READ) n)) as ->.
  { inversion Hc1 as [|c cs m m1 rc1 m2 E2 Hc2|c cs m E2|c cs m E2]; subst; clear Hc1; [| |done]; unfold change in E2; cbn [ident kfilter kflags] in E2; change (has EV_DELETE EV_DELETE) with true in E2;
      destruct (delete (fd, EVFILT_READ) n !! (fd, EVFILT_WRITE)) eqn:Ew; simplify_eq; first [by inversion Hc2|by symmetry; apply delete_id]. }
  destruct (decide (fd' = fd)) as [->|Hne]; [destruct f; by simplify_map_eq|by rewrite !lookup_delete_ne by congruence].
Qed.

Lemma store_events_ok kev : forall done events, (length done + length kev <= length (done ++ events))%nat ->
  store_events (length done) kev (done ++ events) = Some (done ++ map translate kev ++ drop (length kev) events).
Proof.
  induction kev as [|e kev IH]; intros dn events Hl; cbn [store_events map length app]; [by rewrite drop_0|]. rewrite length_app in Hl. cbn [length] in Hl.
  rewrite (proj2 (Nat.ltb_lt _ _)) by (rewrite length_app; lia). destruct events as [|x events]; [simpl in Hl; lia|].
  rewrite insert_app_r_alt, Nat.sub_diag by lia. cbn [insert list_insert drop]. specialize (IH (dn ++ [translate e]) events). rewrite length_app in IH. cbn [length] in IH.
  rewrite Nat.add_1_r, <- !app_assoc in IH. apply IH. rewrite !length_app. simpl in *. lia.
Qed.

(** A control operation that the system refuses: the other descriptors keep their filters,
    and this one has some of those asked for and no others. *)
Definition refused (fd e : Z) (m : gmap Z Z) (n : knotes) : Prop :=
  (forall fd' f, fd' ≠ fd -> n !! (fd', f) = entry fd' f (m !! fd')) /\
  (forall f, n !! (fd, f) = entry fd f (Some e) \/ n !! (fd, f) = None).

Section refinement.
  Context {K : Type} `{!Kqueue K} `{!KqueueLaws K}.

Lemma add_represents fd e (k : K) m : represents m (registered k) -> m !! fd = None -> has e EPOLLIN = true ->
  exists rc k', epoll_ctl EPOLL_CTL_ADD fd (Some e) k = (rc, k') /\ (rc = 0 /\ represents (<[fd := e]> m) (registered k') \/ rc = -1 /\ refused fd e m (registered k')).
Proof.
  intros Hr Hm He. pose proof (kevent_change_law (additions fd e) k) as Hc. apply changed_add in Hc as (Hrc & Hne & Heq); [|intros f; by rewrite Hr, Hm].
  unfold epoll_ctl. cbn [EPOLL_CTL_ADD EPOLL_CTL_DEL EPOLL_CTL_MOD Z.eqb Pos.eqb].
  assert (exists c cs, additions fd e = c :: cs) as (c & cs & Ea) by (rewrite additions_flags, He; eauto). rewrite Ea in *.
  destruct (kevent_change (c :: cs) k) as [rc k']. cbn [fst snd] in *. exists rc, k'. split; [done|]. destruct Hrc as [->| ->]; [left|right]; (split; [done|]).
  - intros fd' f. destruct (decide (fd' = fd)) as [->|?]; [rewrite lookup_insert_eq; by destruct (Heq f) as [?|[? _]]|rewrite lookup_insert_ne by done; by rewrite Hne].
  - split; [intros fd' f ?; by rewrite Hne|]. intros f. destruct (Heq f) as [?|[_ ?]]; auto.
Qed.

Lemma delete_represents fd (k : K) m : represents m (registered k) -> readers m -> is_Some (m !! fd) ->
  represents (delete fd m) (registered (kevent_change (deletions fd) k).2).
Proof.
  intros Hr Hall [e He] fd' f. rewrite (changed_delete fd _ _ _ ltac:(rewrite Hr, He; simpl; rewrite (Hall fd e He); by eexists) (kevent_change_law (deletions fd) k)).
  destruct (decide (fd' = fd)) as [->|?]; [by rewrite lookup_delete_eq|by rewrite lookup_delete_ne].
Qed.

(** C39. The shim implements the interest list of [epoll] for descriptors that are read
    from.  Each [ADD], [MOD] and [DEL] that [epoll] accepts, with [EPOLLIN] among the
    events, returns 0 and leaves in the queue exactly the filters of the new interest list,
    edge-triggered where asked, each carrying its descriptor; or, when the system refuses
    an addition ([EBADF], [ENOMEM]), an [ADD] or [MOD] returns -1, the filters of the other
    descriptors are as they were, and this descriptor has some of the filters asked for and
    no others (so that after a [MOD] that fails the old entry is gone, which [epoll] would
    keep).  And [epoll_wait] with an array of at least [maxevents] entries writes neither
    past its own array of 1024 nor past the caller's, whatever the system returns: it
    stores the translated events from the start of the array and leaves the rest, or
    returns -1 and stores nothing. *)
Theorem shim_refines_epoll (c : ctl) (k : K) (m : gmap Z Z) (Hr : represents m (registered k)) (Hall : readers m) (Hc : accepted c m) :
  (exists rc k', ctl_shim c k = (rc, k') /\
     (rc = 0 /\ represents (ctl_epoll c m) (registered k') \/
      rc = -1 /\ match c with Add fd e | Mod fd e => refused fd e m (registered k') | Del _ => False end)) /\
  readers (ctl_epoll c m) /\
  forall events maxevents timeout, maxevents <= Z.of_nat (length events) ->
    match kevent_wait (Z.min KQ_MAX maxevents) (timeout_spec timeout) k with
    | None => epoll_wait events maxevents timeout k = Some (-1, events)
    | Some kev => epoll_wait events maxevents timeout k = Some (Z.of_nat (length kev), map translate kev ++ drop (length kev) events)
    end.
Proof.
  split; [|split].
  - destruct c as [fd e|fd e|fd]; cbn [ctl_shim ctl_epoll accepted] in *.
    + destruct Hc as [Hm He]. by apply add_represents.
    + destruct Hc as [Hm He]. pose proof (delete_represents fd k m Hr Hall Hm) as Hd.
      destruct (add_represents fd e _ _ Hd) as (rc & k' & H1 & H2); [apply lookup_delete_eq|done|]. rewrite insert_delete_eq in H2. exists rc, k'. split; [done|].
      destruct H2 as [?|[-> [Hne Hf]]]; [by left|right]. split; [done|]. split; [|done]. intros fd' f Hfd. rewrite Hne, lookup_delete_ne by done. done.
    + eexists 0, _. split; [done|]. left. split; [done|]. by apply delete_represents.
  - destruct c as [fd e|fd e|fd]; cbn [ctl_epoll accepted] in *; [apply map_Forall_insert_2; [apply Hc|done]..|by apply map_Forall_delete].
  - intros events mx tmo Hmx. unfold epoll_wait.
    assert ((if KQ_MAX <? mx then KQ_MAX else mx) = Z.min KQ_MAX mx) as -> by (destruct (Z.ltb_spec KQ_MAX mx); lia).
    destruct (kevent_wait _ _ k) as [kev|] eqn:E; [|done]. apply kevent_wait_room in E. rewrite (proj2 (Z.ltb_ge _ _)) by lia.
    pose proof (store_events_ok kev [] events ltac:(simpl; lia)) as Hst. cbn [length app] in Hst. by rewrite Hst.
Qed.

(** Without [EPOLLIN] it does not: the comment says that [ENOENT] is ignored for filters
    that are not set, but the first deletion that fails ends the call, so that a
    descriptor registered for writing alone stays registered after [DEL]. *)
Theorem shim_keeps_writer fd (k : K) x (Hw : registered k !! (fd, EVFILT_WRITE) = Some x) (Hr : registered k !! (fd, EVFILT_READ) = None) :
  exists k', epoll_ctl EPOLL_CTL_DEL fd None k = (0, k') /\ registered k' = registered k.
Proof.
  eexists. split; [done|]. pose proof (kevent_change_law (deletions fd) k) as Hc. unfold deletions in *.
  inversion Hc as [|c cs m m1 rc m2 E _|c cs m E|c cs m E]; [|done|done]. unfold change in E. cbn [kflags ident kfilter] in E. change (has EV_DELETE EV_DELETE) with true in E. by rewrite Hr in E.
Qed.
End refinement.

(** ** A system *)
(** A queue with the descriptors that are open: an addition for another one fails. *)
Record demo_queue := mkQueue { notes : knotes; open_fds : gset Z }.
Fixpoint demo_changes (open : gset Z) (cs : list kevent) (m : knotes) : Z * knotes :=
  match cs with
  | [] => (0, m)
  | c :: cs =>
    if negb (has (kflags c) EV_DELETE) && bool_decide (ident c ∉ open) then (-1, m)
    else match change c m with Some m => demo_changes open cs m | None => (-1, m) end
  end.
#[export] Instance demo_kqueue : Kqueue demo_queue := {|
  registered := notes;
  kevent_change cs q := let '(rc, m) := demo_changes (open_fds q) cs (notes q) in (rc, mkQueue m (open_fds q));
  kevent_wait n _ q := if n <? 0 then None else Some (take (Z.to_nat n) ((fun '((fd, f), (fl, u)) => mkKevent fd f fl u) <$> map_to_list (notes q)));
|}.
#[export] Instance demo_kqueue_laws : KqueueLaws demo_queue.
Proof.
  split.
  - intros cs [m open]. cbn [kevent_change demo_kqueue notes open_fds registered]. destruct (demo_changes open cs m) as [rc m'] eqn:E. cbn [fst snd notes].
    revert m E. induction cs as [|c cs IH]; intros m E; cbn [demo_changes] in E; [injection E as <- <-; constructor|].
    destruct (has (kflags c) EV_DELETE) eqn:Ed, (bool_decide (ident c ∉ open)); cbn [negb andb] in E; try (injection E as <- <-; by apply changed_refused).
    all: destruct (change c m) as [m1|] eqn:Ec; [eapply changed_next; [exact Ec|by apply IH]|injection E as <- <-; by apply changed_enoent].
  - intros n ts q l. cbn [kevent_wait demo_kqueue]. destruct (Z.ltb_spec n 0); [done|]. intros [= <-]. rewrite length_take. lia.
Qed.

(** The conversion of the timeout is exact and normalised, for every [int]. *)
Theorem shim_timeout (timeout : Z) : fits_i 32 timeout ->
  match timeout_spec timeout with
  | Some ts => 0 <= timeout /\ 0 <= tv_sec ts /\ 0 <= tv_nsec ts < 1000000000 /\ tv_sec ts * 1000000000 + tv_nsec ts = timeout * 1000000
  | None => timeout < 0
  end.
Proof.
  intros _. unfold timeout_spec. destruct (Z.leb_spec 0 timeout) as [H|H]; [|done]. cbn [tv_sec tv_nsec].
  pose proof (Z.quot_rem' timeout 1000). pose proof (Z.rem_bound_pos timeout 1000 H ltac:(lia)). pose proof (Z.quot_pos timeout 1000 H ltac:(lia)). lia.
Qed.

(** Registering an open descriptor. *)
Lemma shim_refines_epoll_witness :
  let k := mkQueue ∅ {[5]} in
  (exists k', ctl_shim (Add 5 (Z.lor EPOLLIN EPOLLET)) k = (0, k') /\ represents (ctl_epoll (Add 5 (Z.lor EPOLLIN EPOLLET)) ∅) (registered k')) /\
  epoll_wait [(7, 7); (8, 8)] 2 0 k = Some (0, [(7, 7); (8, 8)]).
Proof.
  intros k. destruct (shim_refines_epoll (K := demo_queue) (Add 5 (Z.lor EPOLLIN EPOLLET)) k ∅) as ((rc & k' & H & Hrc) & _ & Hw).
  - intros fd f. by rewrite !lookup_empty.
  - apply map_Forall_empty.
  - split; [apply lookup_empty|reflexivity].
  - split; [|exact (Hw [(7, 7); (8, 8)] 2 0 ltac:(simpl; lia))]. exists k'. assert (rc = 0) as -> by (vm_compute in H; congruence).
    destruct Hrc as [[_ Hrc]|[Hbad _]]; [exact (conj H Hrc)|discriminate Hbad].
Defined.

(** A descriptor that is not open is refused. *)
Lemma shim_refused_demo : (ctl_shim (Add 6 EPOLLIN) (mkQueue ∅ {[5]})).1 = -1.
Proof. reflexivity. Qed.

Lemma shim_keeps_writer_witness :
  exists k', epoll_ctl EPOLL_CTL_DEL 5 None (mkQueue {[(5, EVFILT_WRITE) := (5, 5)]} {[5]}) = (0, k') /\ notes k' = {[(5, EVFILT_WRITE) := (5, 5)]}.
Proof.
  destruct (shim_keeps_writer (K := demo_queue) 5 (mkQueue {[(5, EVFILT_WRITE) := (5, 5)]} {[5]}) (5, 5)) as (k' & H1 & H2); [reflexivity..|]. exists k'. exact (conj H1 H2).
Defined.

End Shim.
