(* ===== verification/Echo.v ===== *)
(** * [experiments/]: the echo servers and the raw client

    [tcp_echo_server.cpp] (one blocking client at a time), [tcp_echo_epoll.cpp]
    (level-triggered) and [tcp_echo_epollet.cpp] (edge-triggered) write back what they
    read; [tcp_client_raw.cpp] sends one request and prints the answer.  The kernel is a
    script, as in [Socket.v]; the descriptors of the process are its table. *)
From stdpp Require Import gmap list numbers strings sorting.
From S2P Require Import Prelude Bytes Socket.
Open Scope Z_scope.

Module Echo.
Import Bytes Socket.

(** ** Writing back *)
(** The inner loop: what is written of [buf], and the rest of the script; an interrupted
    write is an error like any other. *)
Fixpoint echo_write (ws : list write_result) (buf : bytes) (sent : nat) (out : bytes) : option (bytes * list write_result) :=
  if (sent <? length buf)%nat
  then match ws with
       | [] => None
       | (Interrupted | WriteError) :: ws => Some (out, ws)
       | Wrote n :: ws => echo_write ws buf (sent + n) (out ++ take n (drop sent buf))
       end
  else Some (out, ws).

(** ** The process *)
Record process := mkProcess { fds : table; interest : gset Z; echoed : list (Z * bytes) }.

Definition say (fd : Z) (out : bytes) (p : process) : process := mkProcess (fds p) (interest p) (echoed p ++ [(fd, out)]).
Definition with_fds (t : table) (p : process) : process := mkProcess t (interest p) (echoed p).
Definition register (fd : Z) (p : process) : process := mkProcess (fds p) ({[fd]} ∪ interest p) (echoed p).
Definition unregister (fd : Z) (p : process) : process := mkProcess (fds p) (interest p ∖ {[fd]}) (echoed p).

(** ** [tcp_echo_server.cpp] *)
(** The client that was accepted, until its end of stream or an error. *)
Fixpoint blocking_client (fd : Z) (rs : list read_result) (ws : list write_result) (p : process) : outcome process :=
  match rs with
  | [] => Waiting
  | Chunk c :: rs =>
    match echo_write ws c 0 [] with
    | None => Waiting
    | Some (out, ws) => blocking_client fd rs ws (say fd out p)
    end
  | (Eof | Again | ReadError) :: _ => Returned (with_fds (close fd (fds p)) p)
  end.

(** The loop over the clients; [None] is a failed [accept]. *)
Fixpoint blocking_server (clients : list (option (Z * list read_result * list write_result))) (p : process) : outcome process :=
  match clients with
  | [] => Returned p
  | None :: clients => blocking_server clients p
  | Some (fd, rs, ws) :: clients =>
    let! p := blocking_client fd rs ws (with_fds (open_fd fd (fds p)) p) in blocking_server clients p
  end.

(** ** [tcp_echo_epoll.cpp] *)
Inductive event :=
| Listen (client : option (Z * bool))
| Ready (fd : Z) (r : read_result) (ws : list write_result) (del : bool).

Definition level_event (e : event) (p : process) : outcome process :=
  match e with
  | Listen None => Returned p
  | Listen (Some (fd, add)) =>
    let p := with_fds (open_fd fd (fds p)) p in
    if negb add then Returned p else Returned (register fd p)
  | Ready fd r ws del =>
    match r with
    | Chunk c =>
      match echo_write ws c 0 [] with
      | None => Waiting
      | Some (out, _) => Returned (say fd out p)
      end
    | Eof | Again | ReadError =>
      if negb del then Returned p else let p := unregister fd p in Returned (with_fds (close fd (fds p)) p)
    end
  end.

Fixpoint level_server (es : list event) (p : process) : outcome process :=
  match es with [] => Returned p | e :: es => let! p := level_event e p in level_server es p end.

(** ** [tcp_echo_epollet.cpp] *)
(** [accept], [fcntl], [epoll_ctl]. *)
Inductive accepting := Accepted (fd : Z) (nonblock add : bool) | AcceptAgain | AcceptError.

Fixpoint edge_listener (l : list accepting) (p : process) : outcome process :=
  match l with
  | [] => Waiting
  | AcceptAgain :: _ => Returned p
  | AcceptError :: l => edge_listener l p
  | Accepted fd nonblock add :: l =>
    let p := with_fds (open_fd fd (fds p)) p in
    if negb nonblock then edge_listener l (with_fds (close fd (fds p)) p)
    else if negb add then edge_listener l (with_fds (close fd (fds p)) p)
    else edge_listener l (register fd p)
  end.

(** One readiness event: read until [EAGAIN]; after a failed [EPOLL_CTL_DEL] the loop
    goes on reading. *)
Fixpoint edge_client (fd : Z) (rs : list read_result) (ws : list write_result) (dels : list bool) (p : process) : outcome process :=
  match rs with
  | [] => Waiting
  | Chunk c :: rs =>
    match echo_write ws c 0 [] with
    | None => Waiting
    | Some (out, ws) => edge_client fd rs ws dels (say fd out p)
    end
  | Again :: _ => Returned p
  | (Eof | ReadError) :: rs =>
    match dels with
    | [] => Waiting
    | false :: dels => edge_client fd rs ws dels p
    | true :: _ => let p := unregister fd p in Returned (with_fds (close fd (fds p)) p)
    end
  end.

Inductive edge_event := EdgeListen (l : list accepting) | EdgeReady (fd : Z) (rs : list read_result) (ws : list write_result) (dels : list bool).

Fixpoint edge_server (es : list edge_event) (p : process) : outcome process :=
  match es with
  | [] => Returned p
  | EdgeListen l :: es => let! p := edge_listener l p in edge_server es p
  | EdgeReady fd rs ws dels :: es => let! p := edge_client fd rs ws dels p in edge_server es p
  end.

(** ** Setting up *)
(** The calls between [socket] and the loop: each that fails closes what is open and
    ends the program.  [calls] are those on the listener; the two [epoll] servers go on
    with [epoll_create1] and the registration. *)
Definition listener (sock : option Z) (calls : list bool) (t : table) : option Z * table :=
  match sock with
  | None => (None, t)
  | Some fd => let t := open_fd fd t in if forallb id calls then (Some fd, t) else (None, close fd t)
  end.

Definition epoll_listener (sock : option Z) (calls : list bool) (create : option Z) (add : bool) (t : table) : option (Z * Z) * table :=
  match listener sock calls t with
  | (None, t) => (None, t)
  | (Some fd, t) =>
    match create with
    | None => (None, close fd t)
    | Some epfd => let t := open_fd epfd t in if negb add then (None, close epfd (close fd t)) else (Some (fd, epfd), t)
    end
  end.

(** [main] of each: exit with status 1, or the loop, which does not end; its argument is
    what happens in it. *)
Inductive program := Exit1 (t : table) | Serving (p : process).

Definition blocking_main (sock : option Z) (reuse bound listening : bool) (clients : list (option (Z * list read_result * list write_result)))
    (t : table) : outcome program :=
  match listener sock [reuse; bound; listening] t with
  | (None, t) => Returned (Exit1 t)
  | (Some _, t) => let! p := blocking_server clients (mkProcess t ∅ []) in Returned (Serving p)
  end.

Definition level_main (sock : option Z) (reuse bound listening : bool) (create : option Z) (add : bool) (es : list event) (t : table) : outcome program :=
  match epoll_listener sock [reuse; bound; listening] create add t with
  | (None, t) => Returned (Exit1 t)
  | (Some (fd, _), t) => let! p := level_server es (mkProcess t {[fd]} []) in Returned (Serving p)
  end.

Definition edge_main (sock : option Z) (nonblock reuse bound listening : bool) (create : option Z) (add : bool) (es : list edge_event) (t : table)
    : outcome program :=
  match epoll_listener sock [nonblock; reuse; bound; listening] create add t with
  | (None, t) => Returned (Exit1 t)
  | (Some (fd, _), t) => let! p := edge_server es (mkProcess t {[fd]} []) in Returned (Serving p)
  end.

(** ** [tcp_client_raw.cpp] *)
Definition REQUEST_SIZE : nat := 1024.
(** [snprintf] keeps what fits with the terminating zero. *)
Definition raw_request (host path : bytes) : bytes :=
  take (REQUEST_SIZE - 1) (lit "GET " ++ path ++ lit " HTTP/1.0" ++ CRLF ++ lit "Host: " ++ host ++ CRLF ++ CRLF).

Fixpoint raw_receive (rs : list read_result) (out : bytes) : outcome (Z * bytes) :=
  match rs with
  | [] => Waiting
  | Chunk c :: rs => raw_receive rs (out ++ c)
  | Eof :: _ => Returned (0, out)
  | (Again | ReadError) :: _ => Returned (1, out)
  end.

(** After the connection: the exit status, what was sent and what was printed. *)
Definition raw_main (host path : bytes) (ws : list write_result) (rs : list read_result) : outcome (Z * bytes * bytes) :=
  let '(sent, ok) := write_loop ws (raw_request host path) 0 [] in
  match ok with
  | None => Waiting
  | Some false => Returned (1, sent, [])
  | Some true => let! r := raw_receive rs [] in Returned (r.1, sent, r.2)
  end.

(** The whole program: the exit status, what was sent and printed, the descriptors, and the
    number of address lists that are allocated. *)
Record raw_end := mkEnd { exit_status : Z; raw_sent : bytes; raw_printed : bytes; raw_fds : table; addrinfos : nat }.

Definition raw_program (argv : list bytes) (resolved : bool) (sock : option Z) (connected : bool) (ws : list write_result) (rs : list read_result)
    (t : table) : outcome raw_end :=
  match argv with
  | _ :: host :: path :: _ =>
    if negb resolved then Returned (mkEnd 1 [] [] t 0)
    else
      let result := 1%nat in
      match sock with
      | None => Returned (mkEnd 1 [] [] t (result - 1))
      | Some fd =>
        let t := open_fd fd t in
        if negb connected then Returned (mkEnd 1 [] [] (close fd t) (result - 1))
        else
          let result := (result - 1)%nat in
          let! r := raw_main host path ws rs in
          Returned (mkEnd r.1.1 r.1.2 r.2 (close fd t) result)
      end
  | _ => Returned (mkEnd 1 [] [] t 0)
  end.

(** ** What is written back is what was read *)
(** A kernel that takes at least a byte at each call. *)
Definition willing (ws : list write_result) : Prop := Forall (fun w => exists n, w = Wrote (S n)) ws.

Lemma echo_write_willing buf ws : forall sent out, willing ws -> out = take sent buf -> (length buf - sent <= length ws)%nat ->
  exists ws', echo_write ws buf sent out = Some (buf, ws') /\ willing ws' /\ (length ws <= length ws' + (length buf - sent))%nat.
Proof.
  induction ws as [|w ws IH]; intros sent out Hws -> Hlen; cbn [echo_write]; destruct (Nat.ltb_spec sent (length buf)) as [Hs|Hs].
  - simpl in Hlen. lia.
  - exists []. rewrite take_ge by done. split_and!; [done..|simpl; lia].
  - apply Forall_cons in Hws as [[n ->] Hws].
    destruct (IH (sent + S n)%nat (take sent buf ++ take (S n) (drop sent buf)) Hws) as (ws' & -> & ? & ?); [by rewrite take_take_drop|simpl in Hlen; lia|].
    exists ws'. split_and!; [done..|simpl; lia].
  - exists (w :: ws). rewrite take_ge by done. split_and!; [done..|lia].
Qed.

(** The process after the pieces [cs] were echoed to [fd]. *)
Definition after_echo (fd : Z) (cs : list bytes) (p : process) : process := mkProcess (fds p) (interest p) (echoed p ++ ((fun c => (fd, c)) <$> cs)).

Lemma after_echo_cons fd c cs p : after_echo fd cs (say fd c p) = after_echo fd (c :: cs) p.
Proof. unfold after_echo, say. cbn [fds interest echoed]. by rewrite <- app_assoc. Qed.

Lemma after_echo_nil fd p : after_echo fd [] p = p.
Proof. unfold after_echo. rewrite app_nil_r. by destruct p. Qed.

Lemma blocking_echo fd cs : forall rs ws p, willing ws -> (length (concat cs) <= length ws)%nat ->
  exists ws', blocking_client fd ((Chunk <$> cs) ++ rs) ws p = blocking_client fd rs ws' (after_echo fd cs p).
Proof.
  induction cs as [|c cs IH]; intros rs ws p Hws Hlen; [exists ws; by rewrite after_echo_nil|].
  cbn [concat] in Hlen. rewrite length_app in Hlen. rewrite fmap_cons, <- app_comm_cons. cbn [blocking_client].
  destruct (echo_write_willing c ws 0 [] Hws) as (ws1 & -> & Hws1 & Hl1); [done|lia|].
  destruct (IH rs ws1 (say fd c p) Hws1) as (ws2 & ->); [lia|]. exists ws2. by rewrite after_echo_cons.
Qed.

Lemma edge_echo fd cs : forall rs ws dels p, willing ws -> (length (concat cs) <= length ws)%nat ->
  exists ws', edge_client fd ((Chunk <$> cs) ++ rs) ws dels p = edge_client fd rs ws' dels (after_echo fd cs p).
Proof.
  induction cs as [|c cs IH]; intros rs ws dels p Hws Hlen; [exists ws; by rewrite after_echo_nil|].
  cbn [concat] in Hlen. rewrite length_app in Hlen. rewrite fmap_cons, <- app_comm_cons. cbn [edge_client].
  destruct (echo_write_willing c ws 0 [] Hws) as (ws1 & -> & Hws1 & Hl1); [done|lia|].
  destruct (IH rs ws1 dels (say fd c p) Hws1) as (ws2 & ->); [lia|]. exists ws2. by rewrite after_echo_cons.
Qed.

Lemma level_echo fd cs : forall es ws p, willing ws -> (length (concat cs) <= length ws)%nat ->
  level_server (((fun c => Ready fd (Chunk c) ws true) <$> cs) ++ es) p = level_server es (after_echo fd cs p).
Proof.
  induction cs as [|c cs IH]; intros es ws p Hws Hlen; [by rewrite after_echo_nil|].
  cbn [concat] in Hlen. rewrite length_app in Hlen. rewrite fmap_cons, <- app_comm_cons. cbn [level_server level_event].
  destruct (echo_write_willing c ws 0 [] Hws) as (ws1 & -> & _); [done|lia|]. cbn [obind]. rewrite IH by (done || lia). by rewrite after_echo_cons.
Qed.

Lemma edge_echo_events fd gs : forall es ws p, willing ws -> (length (concat (concat gs)) <= length ws)%nat ->
  edge_server (((fun g => EdgeReady fd ((Chunk <$> g) ++ [Again]) ws [true]) <$> gs) ++ es) p = edge_server es (after_echo fd (concat gs) p).
Proof.
  induction gs as [|g gs IH]; intros es ws p Hws Hlen; [by rewrite after_echo_nil|].
  cbn [concat] in Hlen |- *. rewrite concat_app, length_app in Hlen. rewrite fmap_cons, <- app_comm_cons. cbn [edge_server].
  destruct (edge_echo fd g [Again] ws [true] p Hws) as (ws1 & ->); [lia|]. cbn [edge_client obind]. rewrite IH by (done || lia).
  unfold after_echo. cbn [fds interest echoed]. by rewrite fmap_app, <- app_assoc.
Qed.

(** C40. The three echo servers do the same as long as no write fails ([willing]: every write
    takes at least one byte; a write that fails loses the rest of its piece, [echo_hole]):
    whatever pieces a client's bytes arrive in and however they are spread over readiness
    events, and whatever number of bytes each write takes, each server writes back exactly these pieces in order and closes the
    connection once at its end; all end, since the writes are bounded by the bytes. *)
Theorem echo_equivalence fd (gs : list (list bytes)) (ws : list write_result) (p : process)
    (Hws : willing ws) (Hlen : (length (concat (concat gs)) <= length ws)%nat) :
  let p' := after_echo fd (concat gs) p in
  blocking_client fd ((Chunk <$> concat gs) ++ [Eof]) ws p = Returned (with_fds (close fd (fds p)) p') /\
  level_server (((fun c => Ready fd (Chunk c) ws true) <$> concat gs) ++ [Ready fd Eof ws true]) p =
    Returned (with_fds (close fd (fds p)) (unregister fd p')) /\
  edge_server (((fun g => EdgeReady fd ((Chunk <$> g) ++ [Again]) ws [true]) <$> gs) ++ [EdgeReady fd [Eof] ws [true]]) p =
    Returned (with_fds (close fd (fds p)) (unregister fd p')).
Proof.
  cbv zeta. split_and!.
  - destruct (blocking_echo fd (concat gs) [Eof] ws p Hws Hlen) as (ws' & ->). done.
  - by rewrite level_echo.
  - by rewrite edge_echo_events.
Qed.

Lemma echo_equivalence_witness :
  let p := mkProcess (mkTable {[3; 4; 5]} []) {[3; 5]} [] in
  let gs := [[lit "he"; lit "llo"]; []; [lit " world"]] in
  blocking_client 5 ((Chunk <$> concat gs) ++ [Eof]) (replicate 11 (Wrote 2)) p =
    Returned (with_fds (close 5 (fds p)) (after_echo 5 (concat gs) p)).
Proof.
  intros p gs. destruct (echo_equivalence 5 gs (replicate 11 (Wrote 2)) p) as (H & _).
  - apply Forall_replicate. by exists 1%nat.
  - vm_compute. lia.
  - exact H.
Defined.

(** A write that fails, on a full socket for instance, loses the rest of its piece, and
    the following pieces are echoed all the same: the client's stream has a hole. *)
Theorem echo_hole fd a b rs ws p (Ha : a ≠ []) (Hb : b ≠ []) :
  edge_client fd (Chunk a :: Chunk b :: Again :: rs) (WriteError :: Wrote (length b) :: ws) [] p =
    Returned (say fd b (say fd [] p)).
Proof.
  assert (forall l : bytes, l ≠ [] -> (0 <? length l)%nat = true) as Hl by (intros [] ?; [done|by apply Nat.ltb_lt; simpl; lia]).
  cbn [edge_client echo_write]. rewrite (Hl a Ha). cbn [edge_client echo_write]. rewrite (Hl b Hb). rewrite drop_0, firstn_all. cbn [app Nat.add].
  destruct ws; cbn [echo_write]; rewrite Nat.ltb_irrefl; done.
Qed.

Lemma echo_hole_witness :
  edge_client 5 [Chunk [1; 2]; Chunk [3]; Again] [WriteError; Wrote 1] [] (mkProcess (mkTable {[5]} []) {[5]} []) =
    Returned (say 5 [3] (say 5 [] (mkProcess (mkTable {[5]} []) {[5]} []))).
Proof. apply (echo_hole 5 [1; 2] [3] [] [] (mkProcess (mkTable {[5]} []) {[5]} [])); discriminate. Defined.

(** ** Setting up *)
(** Each server that gives up before its loop has closed what it opened. *)
Theorem setup_clean sock calls create add t
    (Hs : forall fd, sock = Some fd -> fd ∉ opened t) (Hc : forall fd epfd, sock = Some fd -> create = Some epfd -> epfd ∉ {[fd]} ∪ opened t) :
  (forall t', listener sock calls t = (None, t') -> t' = t) /\
  forall t', epoll_listener sock calls create add t = (None, t') -> t' = t.
Proof.
  assert (forall t', listener sock calls t = (None, t') -> t' = t) as Hl.
  { intros t' H. unfold listener in H. destruct sock as [fd|]; [|by simplify_eq]. destruct (forallb id calls); simplify_eq. by rewrite close_open_fd by auto. }
  split; [done|]. intros t' H. unfold epoll_listener in H. destruct (listener sock calls t) as [[fd|] t1] eqn:E; [|simplify_eq; by apply Hl].
  unfold listener in E. destruct sock as [fd0|]; [|done]. destruct (forallb id calls); simplify_eq. specialize (Hs _ eq_refl).
  destruct create as [epfd|]; [|simplify_eq; by apply close_open_fd]. specialize (Hc _ _ eq_refl eq_refl). destruct add; simplify_eq/=.
  rewrite (close_opened fd) by (simpl; set_solver). rewrite close_opened by (simpl; set_solver). destruct t as [o m]. simpl in *. f_equal. set_solver.
Qed.

Lemma setup_clean_witness :
  forall t', epoll_listener (Some 3) [true; true; true] (Some 4) false (mkTable {[0; 1; 2]} []) = (None, t') -> t' = mkTable {[0; 1; 2]} [].
Proof.
  apply (setup_clean (Some 3) [true; true; true] (Some 4) false (mkTable {[0; 1; 2]} []));
    [intros fd [= <-]|intros fd epfd [= <-] [= <-]]; apply (bool_decide_unpack _); vm_compute; exact Logic.I.
Defined.

(** A server that exits leaves the descriptors as they were. *)
Theorem echo_mains sock nonblock reuse bound listening create add clients es es' t
    (Hs : forall fd, sock = Some fd -> fd ∉ opened t) (Hc : forall fd epfd, sock = Some fd -> create = Some epfd -> epfd ∉ {[fd]} ∪ opened t) :
  (forall t', blocking_main sock reuse bound listening clients t = Returned (Exit1 t') -> t' = t) /\
  (forall t', level_main sock reuse bound listening create add es t = Returned (Exit1 t') -> t' = t) /\
  (forall t', edge_main sock nonblock reuse bound listening create add es' t = Returned (Exit1 t') -> t' = t).
Proof.
  split_and!; intros t'.
  - unfold blocking_main. pose proof (proj1 (setup_clean sock [reuse; bound; listening] create add t Hs Hc)) as H. destruct (listener _ _ _) as [[fd|] t1].
    + destruct (blocking_server _ _); cbn [obind]; congruence.
    + intros [= <-]. by apply H.
  - unfold level_main. pose proof (proj2 (setup_clean sock [reuse; bound; listening] create add t Hs Hc)) as H. destruct (epoll_listener _ _ _ _ _) as [[[fd e]|] t1].
    + destruct (level_server _ _); cbn [obind]; congruence.
    + intros [= <-]. by apply H.
  - unfold edge_main. pose proof (proj2 (setup_clean sock [nonblock; reuse; bound; listening] create add t Hs Hc)) as H. destruct (epoll_listener _ _ _ _ _) as [[[fd e]|] t1].
    + destruct (edge_server _ _); cbn [obind]; congruence.
    + intros [= <-]. by apply H.
Qed.

(** The level-triggered server forgets the descriptor of a client it cannot register. *)
Theorem level_leak fd p (Hfd : fd ∉ interest p) :
  exists p', level_server [Listen (Some (fd, false))] p = Returned p' /\ fd ∈ opened (fds p') /\ (fd ∉ interest p').
Proof. eexists. split; [reflexivity|]. simpl. split; [set_solver|done]. Qed.

Lemma level_leak_witness :
  exists p', level_server [Listen (Some (5, false))] (mkProcess (mkTable {[3]} []) {[3]} []) = Returned p' /\ 5 ∈ opened (fds p') /\ (5 ∉ interest p').
Proof. apply (level_leak 5 (mkProcess (mkTable {[3]} []) {[3]} [])). apply (bool_decide_unpack _). vm_compute. exact Logic.I. Defined.

(** ** The raw client *)
Lemma raw_receive_stream rs : forall out text, stream rs = Some text -> (forall r, r ∈ rs -> r ≠ Again) -> raw_receive rs out = Returned (0, out ++ text).
Proof.
  induction rs as [|r rs IH]; intros out text Hs Hr; [done|]. pose proof (Hr r (list_elem_of_here _ _)) as Hr0.
  destruct r as [c| | |]; simpl in Hs; [| |done|done].
  - destruct (stream rs) as [t|]; [|done]. injection Hs as <-. cbn [raw_receive]. rewrite (IH _ t); [by rewrite app_assoc|done|].
    intros r' Hr'. apply Hr. by apply list_elem_of_further.
  - injection Hs as <-. cbn [raw_receive]. by rewrite app_nil_r.
Qed.

(** The client sends its whole request when it fits, and prints what the server sends
    until it closes. *)
Theorem raw_client_exact host path ws rs sent text
    (Hfit : (length path + length host <= 998)%nat)
    (Hw : write_loop ws (raw_request host path) 0 [] = (sent, Some true))
    (Hrs : stream rs = Some text) (Hr : forall r, r ∈ rs -> r ≠ Again) :
  raw_main host path ws rs =
    Returned (0, lit "GET " ++ path ++ lit " HTTP/1.0" ++ CRLF ++ lit "Host: " ++ host ++ CRLF ++ CRLF, text).
Proof.
  pose proof (write_loop_prefix ws (raw_request host path) 0 [] eq_refl) as Hout. rewrite Hw in Hout. destruct Hout as [_ Hout].
  unfold raw_main. rewrite Hw, (Hout eq_refl), (raw_receive_stream rs [] text Hrs Hr). cbn [obind fst snd app]. unfold raw_request.
  rewrite take_ge; [done|]. rewrite !length_app. unfold REQUEST_SIZE, CRLF. change (length (lit "GET ")) with 4%nat. change (length (lit " HTTP/1.0")) with 9%nat.
  change (length (lit "Host: ")) with 6%nat. cbn [length]. lia.
Qed.

(** On every path the client that ends has closed its socket, once, and freed the list of
    addresses, and it only reports success after the end of the server's answer. *)
Theorem raw_client_clean argv resolved sock connected ws rs t e (Hs : forall fd, sock = Some fd -> fd ∉ opened t) :
  raw_program argv resolved sock connected ws rs t = Returned e ->
  raw_fds e = t /\ addrinfos e = 0%nat /\ (exit_status e = 0 -> exists host path rest fd, argv = rest :: host :: path :: drop 3 argv /\ sock = Some fd /\ connected = true /\ Eof ∈ rs).
Proof.
  assert (forall rs out st out', raw_receive rs out = Returned (st, out') -> st = 0 -> Eof ∈ rs) as Heof.
  { induction rs0 as [|r rs0 IH]; intros out st out' H Hst; [done|]. destruct r; simpl in H; simplify_eq; [apply elem_of_cons; right; by eapply IH|apply elem_of_cons; by left]. }
  unfold raw_program. destruct argv as [|a [|host [|path argv]]]; try (intros [= <-]; done). destruct resolved; [|intros [= <-]; done]. cbn [negb].
  destruct sock as [fd|]; [|intros [= <-]; done]. specialize (Hs fd eq_refl). destruct connected; [|intros [= <-]; simpl; by rewrite close_open_fd]. cbn [negb].
  unfold raw_main. destruct (write_loop ws (raw_request host path) 0 []) as [sent [[]|]]; cbn [obind]; [|intros [= <-]; simpl; by rewrite close_open_fd|done].
  destruct (raw_receive rs []) as [[st out]| | |] eqn:Er; cbn [obind]; try done. intros [= <-]. cbn [raw_fds addrinfos exit_status fst snd]. rewrite close_open_fd by done.
  split; [done|]. split; [done|]. intros ->. exists host, path, a, fd. split_and!; [done..|]. by eapply Heof.
Qed.

Lemma raw_client_exact_witness :
  raw_main (lit "h") (lit "/") [Wrote 27] [Chunk (lit "HTTP/1.0 200 OK"); Eof] =
    Returned (0, lit "GET " ++ lit "/" ++ lit " HTTP/1.0" ++ CRLF ++ lit "Host: " ++ lit "h" ++ CRLF ++ CRLF, lit "HTTP/1.0 200 OK").
Proof.
  apply (raw_client_exact (lit "h") (lit "/") [Wrote 27] _ (raw_request (lit "h") (lit "/")));
    [vm_compute; lia|reflexivity|reflexivity|]. intros r [->|[->|[]%not_elem_of_nil]%elem_of_cons]%elem_of_cons; discriminate.
Defined.

End Echo.
