(* ===== verification/Parser.v ===== *)
(** * [src/feed/parser.cpp]: reading an order-book delta

    simdjson is a parameter: the class [DeltaJson] has the calls the parser makes,
    each with the state it leaves behind; a call that fails does not write its
    output.  [parse_orderbook_delta] takes the previous content of [out] and returns
    the new one, since a failure leaves the fields read so far in it. *)
From stdpp Require Import gmap list numbers strings sorting.
From S2P Require Import Prelude Feed Bytes Strategy Serialize.
Open Scope Z_scope.
Open Scope cpp_scope.

Module Parser.
Import Feed Bytes.

Class DeltaJson := {
  document : Type;
  object : Type;
  iterate : bytes -> option document;
  doc_uint64 : document -> bytes -> option Z * document;
  doc_object : document -> bytes -> option object;
  obj_string : object -> bytes -> option bytes * object;
  obj_uint64 : object -> bytes -> option Z * object;
  obj_int64 : object -> bytes -> option Z * object;
}.

(** Field updates of [out]. *)
Definition set_sid (x : Z) (d : OrderbookDelta) := mkDelta (ticker d) (ts d) x (seq d) (delta d) (price d) (side d).
Definition set_seq (x : Z) (d : OrderbookDelta) := mkDelta (ticker d) (ts d) (sid d) x (delta d) (price d) (side d).
Definition set_ticker (x : list Z) (d : OrderbookDelta) := mkDelta x (ts d) (sid d) (seq d) (delta d) (price d) (side d).
Definition set_price (x : Z) (d : OrderbookDelta) := mkDelta (ticker d) (ts d) (sid d) (seq d) (delta d) x (side d).
Definition set_delta (x : Z) (d : OrderbookDelta) := mkDelta (ticker d) (ts d) (sid d) (seq d) x (price d) (side d).
Definition set_ts (x : Z) (d : OrderbookDelta) := mkDelta (ticker d) x (sid d) (seq d) (delta d) (price d) (side d).
Definition set_side (x : Side) (d : OrderbookDelta) := mkDelta (ticker d) (ts d) (sid d) (seq d) (delta d) (price d) x.

(** [memcpy(out.ticker, s, n); out.ticker[n] = 0] on the array of 32 bytes. *)
Definition copy_ticker (s old : list Z) : list Z := s ++ 0 :: drop (S (length s)) old.

(** [static_cast<int32_t>] of a value in range. *)
Definition INT32_MIN : Z := - 2 ^ 31.
Definition INT32_MAX : Z := 2 ^ 31 - 1.

Section parser.
  Context {JS : DeltaJson}.

Definition parse_orderbook_delta (input : bytes) (out : OrderbookDelta) : bool * OrderbookDelta :=
  match iterate input with
  | None => (false, out)
  | Some doc =>
    let '(v, doc) := doc_uint64 doc (lit "sid") in
    match v with None => (false, out) | Some v =>
    let out := set_sid v out in
    let '(v, doc) := doc_uint64 doc (lit "seq") in
    match v with None => (false, out) | Some v =>
    let out := set_seq v out in
    match doc_object doc (lit "msg") with None => (false, out) | Some msg =>
    let '(ticker_sv, msg) := obj_string msg (lit "market_ticker") in
    match ticker_sv with None => (false, out) | Some ticker_sv =>
    if (31 <? length ticker_sv)%nat then (false, out) else
    let out := set_ticker (copy_ticker ticker_sv (ticker out)) out in
    let '(price_raw, msg) := obj_uint64 msg (lit "price") in
    match price_raw with None => (false, out) | Some price_raw =>
    if (price_raw <? 1) || (99 <? price_raw) then (false, out) else
    let out := set_price (u8 price_raw) out in
    let '(delta_raw, msg) := obj_int64 msg (lit "delta") in
    match delta_raw with None => (false, out) | Some delta_raw =>
    if (delta_raw <? INT32_MIN) || (INT32_MAX <? delta_raw) then (false, out) else
    let out := set_delta delta_raw out in
    let '(v, msg) := obj_int64 msg (lit "ts") in
    match v with None => (false, out) | Some v =>
    let out := set_ts v out in
    let '(side_sv, msg) := obj_string msg (lit "side") in
    match side_sv with None => (false, out) | Some side_sv =>
    if decide (side_sv = lit "yes") then (true, set_side YES out)
    else if decide (side_sv = lit "no") then (true, set_side NO out)
    else (false, out)
    end end end end end end end end
  end.

(** The fields the parser's calls read, in the order of the calls. *)
Definition message_fields (input : bytes) : option (Z * Z * bytes * Z * Z * Z * bytes) :=
  doc ← iterate input;
  let '(a, doc) := doc_uint64 doc (lit "sid") in sid ← a;
  let '(a, doc) := doc_uint64 doc (lit "seq") in seq ← a;
  msg ← doc_object doc (lit "msg");
  let '(a, msg) := obj_string msg (lit "market_ticker") in tk ← a;
  let '(a, msg) := obj_uint64 msg (lit "price") in pr ← a;
  let '(a, msg) := obj_int64 msg (lit "delta") in dl ← a;
  let '(a, msg) := obj_int64 msg (lit "ts") in ts ← a;
  let '(a, msg) := obj_string msg (lit "side") in sd ← a;
  Some (sid, seq, tk, pr, dl, ts, sd).

(** What a message must satisfy. *)
Definition side_of (s : bytes) : option Side :=
  if decide (s = lit "yes") then Some YES else if decide (s = lit "no") then Some NO else None.
Definition fields_ok (tk : bytes) (pr dl : Z) : Prop := (length tk <= 31)%nat /\ 1 <= pr <= 99 /\ fits_i 32 dl.

(** A field is missing; a value is out of range. *)
Ltac absent := split; [by repeat case_match|by intros (? & ? & ? & ? & ? & ? & ? & ? & ? & _)].
Ltac out_of_range :=
  split; [by repeat case_match|]; intros (? & ? & ? & ? & ? & ? & ? & ? & Hf & (? & ? & ?) & _); simplify_eq; lia.

Lemma parse_fields (input : bytes) (out out' : OrderbookDelta) :
  parse_orderbook_delta input out = (true, out') <->
  exists sid seq tk pr dl ts sd s, message_fields input = Some (sid, seq, tk, pr, dl, ts, sd) /\
    fields_ok tk pr dl /\ side_of sd = Some s /\
    out' = mkDelta (copy_ticker tk (ticker out)) ts sid seq dl pr s.
Proof.
  unfold parse_orderbook_delta, message_fields, fields_ok. cbn [mbind option_bind].
  destruct (iterate input) as [d|]; [|absent]. cbn [mbind option_bind].
  destruct (doc_uint64 d _) as [[sid0|] d1]; [|absent]. cbn [mbind option_bind].
  destruct (doc_uint64 d1 _) as [[seq0|] d2]; [|absent]. cbn [mbind option_bind].
  destruct (doc_object d2 _) as [m|]; [|absent]. cbn [mbind option_bind].
  destruct (obj_string m _) as [[tk|] m1]; [|absent]. cbn [mbind option_bind].
  destruct (obj_uint64 m1 _) as [[pr|] m2]; [|absent]. cbn [mbind option_bind].
  destruct (obj_int64 m2 _) as [[dl|] m3]; [|absent]. cbn [mbind option_bind].
  destruct (obj_int64 m3 _) as [[ts0|] m4]; [|absent]. cbn [mbind option_bind].
  destruct (obj_string m4 _) as [[sd|] m5]; [|absent]. cbn [mbind option_bind].
  unfold INT32_MIN, INT32_MAX, fits_i. change (32 - 1) with 31.
  destruct (Nat.ltb_spec 31 (length tk)); [out_of_range|].
  destruct (Z.ltb_spec pr 1), (Z.ltb_spec 99 pr); cbn [orb]; try out_of_range.
  destruct (Z.ltb_spec dl (- 2 ^ 31)), (Z.ltb_spec (2 ^ 31 - 1) dl); cbn [orb]; try out_of_range.
  rewrite wrap_small by (unfold fits; lia). split.
  - intros Hr. exists sid0, seq0, tk, pr, dl, ts0, sd. destruct (side_of sd) as [s|] eqn:Hs; unfold side_of in Hs.
    + exists s. split_and!; try done; try lia. repeat case_decide; by simplify_eq/=.
    + repeat case_decide; by simplify_eq/=.
  - intros (? & ? & ? & ? & ? & ? & ? & s & [= <- <- <- <- <- <- <-] & _ & Hs & ->). unfold side_of in Hs.
    repeat case_decide; by simplify_eq/=.
Qed.

(** C23. The parser accepts exactly the valid messages: it returns true if and only if
    every field is there, the ticker has at most 31 bytes, the price is 1 to 99, the
    delta fits 32 bits and the side is yes or no; and then [out] is exactly the
    message, its ticker terminated inside the 32-byte array, whatever [out] held. *)
Theorem parser_exact (input : bytes) (out out' : OrderbookDelta) :
  parse_orderbook_delta input out = (true, out') <->
  exists sid seq tk pr dl ts sd s, message_fields input = Some (sid, seq, tk, pr, dl, ts, sd) /\
    fields_ok tk pr dl /\ side_of sd = Some s /\
    out' = mkDelta (copy_ticker tk (ticker out)) ts sid seq dl pr s.
Proof. apply parse_fields. Qed.

(** Whatever happens, the ticker array keeps its 32 bytes. *)
Lemma copy_ticker_length tk old : length old = 32%nat -> (length tk <= 31)%nat -> length (copy_ticker tk old) = 32%nat.
Proof. intros Ho Ht. unfold copy_ticker. rewrite length_app. simpl. rewrite length_drop. lia. Qed.

Lemma parse_ticker_length input out :
  length (ticker out) = 32%nat -> length (ticker (parse_orderbook_delta input out).2) = 32%nat.
Proof.
  intros Ho. unfold parse_orderbook_delta. repeat (case_match; try done); simpl;
    (apply copy_ticker_length; [done|by apply Nat.ltb_ge]).
Qed.

(** The ticker copy stays in its array: for every input and whether or not the
    parse succeeds the array keeps its 32 bytes, and an accepted ticker without zero
    bytes is what the array holds as a C string. *)
Theorem parser_ticker (input : bytes) (out : OrderbookDelta) (Hout : length (ticker out) = 32%nat) :
  let '(ok, out') := parse_orderbook_delta input out in
  length (ticker out') = 32%nat /\
  (ok = true -> forall sid seq tk pr dl ts sd, message_fields input = Some (sid, seq, tk, pr, dl, ts, sd) ->
     0 ∉ tk -> Serialize.c_string (ticker out') = Some tk).
Proof.
  pose proof (parse_ticker_length input out Hout) as Hl. destruct (parse_orderbook_delta input out) as [ok out'] eqn:E.
  split; [done|]. intros -> sid0 seq0 tk pr dl ts0 sd Hf H0.
  apply parse_fields in E as (sid1 & seq1 & tk1 & pr1 & dl1 & ts1 & sd1 & s & Hf1 & _ & _ & ->).
  rewrite Hf in Hf1. simplify_eq. simpl. by apply Serialize.c_string_ok.
Qed.

(** A message whose last field is wrong is refused after everything else was
    written: the caller's record then holds the new ticker, price and delta with the
    old side. *)
Theorem parser_partial_write (input : bytes) (out : OrderbookDelta) sid seq tk pr dl ts sd
    (Hf : message_fields input = Some (sid, seq, tk, pr, dl, ts, sd)) (Hok : fields_ok tk pr dl)
    (Hs : side_of sd = None) :
  parse_orderbook_delta input out = (false, mkDelta (copy_ticker tk (ticker out)) ts sid seq dl pr (side out)).
Proof.
  destruct Hok as (Hl & Hp & Hd). unfold parse_orderbook_delta, message_fields, fits_i, side_of in *. change (32 - 1) with 31 in Hd.
  destruct (iterate input) as [d|]; [|done]. cbn [mbind option_bind] in Hf.
  destruct (doc_uint64 d _) as [[?|] d1]; [|done]. cbn [mbind option_bind] in Hf.
  destruct (doc_uint64 d1 _) as [[?|] d2]; [|done]. cbn [mbind option_bind] in Hf.
  destruct (doc_object d2 _) as [m|]; [|done]. cbn [mbind option_bind] in Hf.
  destruct (obj_string m _) as [[?|] m1]; [|done]. cbn [mbind option_bind] in Hf.
  destruct (obj_uint64 m1 _) as [[?|] m2]; [|done]. cbn [mbind option_bind] in Hf.
  destruct (obj_int64 m2 _) as [[?|] m3]; [|done]. cbn [mbind option_bind] in Hf.
  destruct (obj_int64 m3 _) as [[?|] m4]; [|done]. cbn [mbind option_bind] in Hf.
  destruct (obj_string m4 _) as [[?|] m5]; [|done]. cbn [mbind option_bind] in Hf. simplify_eq.
  rewrite (proj2 (Nat.ltb_ge 31 _)) by done. rewrite (proj2 (Z.ltb_ge pr 1)), (proj2 (Z.ltb_ge 99 pr)) by lia. cbn [orb].
  unfold INT32_MIN, INT32_MAX. rewrite (proj2 (Z.ltb_ge dl _)), (proj2 (Z.ltb_ge _ dl)) by lia. cbn [orb].
  rewrite wrap_small by (unfold fits; lia). by repeat case_decide.
Qed.

End parser.

(** A parser that reads one message, with the given side. *)
Definition one_message (sd : bytes) : DeltaJson := {|
  document := unit; object := unit;
  iterate _ := Some tt;
  doc_uint64 d k := (Some (if decide (k = lit "sid") then 1 else 7), d);
  doc_object _ _ := Some tt;
  obj_string o k := (Some (if decide (k = lit "side") then sd else lit "MKT-001"), o);
  obj_uint64 o _ := (Some 42, o);
  obj_int64 o k := (Some (if decide (k = lit "delta") then -5 else 1700), o);
|}.
Definition blank_delta : OrderbookDelta := mkDelta (replicate 32 0) 0 0 0 0 0 NO.

Lemma parser_ticker_witness :
  let '(ok, out') := @parse_orderbook_delta (one_message (lit "yes")) [] blank_delta in
  length (ticker out') = 32%nat /\
  (ok = true -> forall sid seq tk pr dl ts sd, @message_fields (one_message (lit "yes")) [] = Some (sid, seq, tk, pr, dl, ts, sd) ->
     0 ∉ tk -> Serialize.c_string (ticker out') = Some tk).
Proof. apply (@parser_ticker (one_message (lit "yes")) [] blank_delta). reflexivity. Defined.

Lemma parser_partial_write_witness :
  @parse_orderbook_delta (one_message (lit "maybe")) [] blank_delta =
    (false, mkDelta (copy_ticker (lit "MKT-001") (replicate 32 0)) 1700 1 7 (-5) 42 NO).
Proof.
  apply (@parser_partial_write (one_message (lit "maybe")) [] blank_delta 1 7 (lit "MKT-001") 42 (-5) 1700 (lit "maybe")).
  - reflexivity.
  - split; [vm_compute; lia|]. split; [lia|]. unfold fits_i. change (2 ^ (32 - 1)) with 2147483648. lia.
  - reflexivity.
Defined.

End Parser.
