(* ===== verification/Payload.v ===== *)
(** * The synthetic payloads of the benchmarks

    [Xorshift64] and [build_payload_pool] of [bench/bench_hotpath.cpp],
    [bench_hotpath_pipe.cpp] and [bench_hotpath_paced.cpp] (one ticker), and of
    [bench_hotpath_multi.cpp] (256 tickers).  The order in which the two operands of
    the product that makes a delta draw from the generator is the compiler's choice:
    it is the argument [lhs_first]. *)
From stdpp Require Import gmap list numbers strings sorting.
From S2P Require Import Prelude Feed Strategy Bytes Serialize Parser.
Open Scope Z_scope.
Open Scope cpp_scope.

Module Payload.
Import Bytes.

(** ** The random generator *)
Definition next (s : Z) : Z :=
  let s := Z.lxor s (u64 (Z.shiftl s 13)) in
  let s := Z.lxor s (Z.shiftr s 7) in
  Z.lxor s (u64 (Z.shiftl s 17)).
Definition range (lo hi s : Z) : Z * Z :=
  let s := next s in (lo +32 u32 (s mod (hi -32 lo +32 1)), s).

(** ** Fields and text *)
Record Payload := mkPayload { seq : Z; tk : bytes; price : Z; delta : Z; side : Feed.Side; ts : Z }.

(** [%d] and [%03u] *)
Definition signed (v : Z) : bytes := if v <? 0 then 45 :: to_string (- v) else to_string v.
Definition pad3 (v : Z) : bytes := replicate (3 - length (to_string v)) 48 ++ to_string v.

Definition render (p : Payload) : bytes :=
  lit "{'type':'orderbook_delta','sid':1,'seq':" ++ to_string (seq p) ++
  lit ",'msg':{'market_ticker':'" ++ tk p ++ lit "','price':" ++ to_string (price p) ++
  lit ",'delta':" ++ signed (delta p) ++ lit ",'side':'" ++ Serialize.side_name (side p) ++
  lit "','ts':" ++ to_string (ts p) ++ lit "}}".

(** ** Drawing *)
Definition sign (s : Z) : Z := if Z.land s 1 =? 0 then -1 else 1.

Definition draw_delta (lhs_first : bool) (s : Z) : Z * Z :=
  if lhs_first
  then let '(m, s) := range 1 50 s in let s := next s in (m * sign s, s)
  else let s1 := next s in let '(m, s) := range 1 50 s1 in (m * sign s1, s).

(** The statements of the loop body after the ticker. *)
Definition draw (lhs_first : bool) (i : nat) (ticker : bytes) (s : Z) : Payload * Z :=
  let '(pr, s) := range 1 99 s in
  let '(dl, s) := draw_delta lhs_first s in
  let s := next s in
  let sd := if Z.land s 1 =? 0 then Feed.NO else Feed.YES in
  let s := next s in
  let t := 1700000000000 +64 s mod 1000000 in
  (mkPayload (Z.of_nat i + 1) ticker pr dl sd t, s).

(** [snprintf] into [char buf[256]] and the copy of [n] bytes out of it; [None] when
    the copy would read past the text. *)
Definition BUF_SIZE : nat := 256.
Definition store_payload (p : Payload) : option bytes :=
  let text := render p in if (length text <? BUF_SIZE)%nat then Some text else None.

Fixpoint build_pool (one : nat -> Z -> Payload * Z) (n i : nat) (s : Z) : option (list bytes) :=
  match n with
  | O => Some []
  | S n =>
    let '(p, s) := one i s in
    text ← store_payload p; l ← build_pool one n (S i) s; Some (text :: l)
  end.

Definition SEED : Z := 0xDEADBEEFCAFEBABE.
Definition N_PAYLOADS : nat := 1024.
Definition N_TICKERS : Z := 256.

(** One ticker. *)
Definition draw_single (lhs_first : bool) (i : nat) (s : Z) : Payload * Z := draw lhs_first i (lit "DEMO-1") s.
Definition build_payload_pool (lhs_first : bool) : option (list bytes) := build_pool (draw_single lhs_first) N_PAYLOADS 0 SEED.

(** Many tickers. *)
Definition mkt_ticker (tid : Z) : bytes := lit "MKT-" ++ pad3 tid.
Definition draw_multi (lhs_first : bool) (i : nat) (s : Z) : Payload * Z :=
  let '(tid, s) := range 0 (N_TICKERS - 1) s in draw lhs_first i (mkt_ticker tid) s.
Definition build_payload_pool_multi (lhs_first : bool) : option (list bytes) := build_pool (draw_multi lhs_first) N_PAYLOADS 0 SEED.

(** ** The generator never reaches its fixed point zero *)
Lemma xor_shiftl_zero x k : 0 < k -> fits 64 x -> Z.lxor x (u64 (Z.shiftl x k)) = 0 -> x = 0.
Proof.
  intros Hk Hx E%Z.lxor_eq. unfold fits in Hx. apply Z.bits_inj_0. intros i.
  destruct (Z.lt_ge_cases i 0) as [Hi|Hi]; [by apply Z.testbit_neg_r|]. revert i Hi.
  apply (Z_lt_induction (fun i => Z.testbit x i = false)). intros i IH. destruct (Z.lt_ge_cases i 0); [by apply Z.testbit_neg_r|]. rewrite E. unfold wrap.
  destruct (Z.lt_ge_cases i 64) as [Hi|Hi]; [rewrite Z.mod_pow2_bits_low by lia|by apply Z.mod_pow2_bits_high; lia].
  rewrite Z.shiftl_spec by lia. destruct (Z.lt_ge_cases (i - k) 0); [by apply Z.testbit_neg_r|]. apply IH. lia.
Qed.

Lemma xor_shiftr_zero x k : 0 < k -> 0 <= x -> Z.lxor x (Z.shiftr x k) = 0 -> x = 0.
Proof.
  intros Hk Hx E%Z.lxor_eq. rewrite Z.shiftr_div_pow2 in E by lia. destruct (decide (x = 0)) as [|Hne]; [done|].
  pose proof (Z.div_lt x (2 ^ k) ltac:(lia)). pose proof (Z.pow_gt_1 2 k ltac:(lia)). lia.
Qed.

Lemma next_ok s : fits 64 s -> s ≠ 0 -> fits 64 (next s) /\ next s ≠ 0.
Proof.
  intros Hs Hne. unfold next. set (a := Z.lxor s (u64 (Z.shiftl s 13))). set (b := Z.lxor a (Z.shiftr a 7)).
  assert (fits 64 a) as Ha by (apply lxor_fits; [done|by apply wrap_fits]).
  assert (fits 64 b) as Hb by (apply lxor_fits; [done|by apply shiftr_fits]).
  assert (a ≠ 0) as Ha0 by (intros E; by apply xor_shiftl_zero in E).
  assert (b ≠ 0) as Hb0 by (intros E; apply xor_shiftr_zero in E; [done|lia|unfold fits in *; lia]).
  split; [apply lxor_fits; [done|by apply wrap_fits]|]. intros E. by apply xor_shiftl_zero in E.
Qed.

Lemma range_ok s lo hi : fits 64 s -> s ≠ 0 -> 0 <= lo <= hi -> hi < 2 ^ 32 - 1 ->
  exists v s', range lo hi s = (v, s') /\ lo <= v <= hi /\ fits 64 s' /\ s' ≠ 0.
Proof.
  intros Hs Hne Hlo Hhi. unfold range. destruct (next_ok s Hs Hne) as [Hf Hn]. eexists _, _. split; [done|]. split; [|done].
  rewrite (wrap_small 32 (hi - lo)), (wrap_small 32 (hi - lo + 1)) by (unfold fits; lia).
  pose proof (Z.mod_pos_bound (next s) (hi - lo + 1) ltac:(lia)). rewrite (wrap_small 32 (next s mod _)), wrap_small by (unfold fits; lia). lia.
Qed.

(** The payload generator is sound: from a non-zero seed the state stays a non-zero
    64-bit word, so that the generator never gets stuck, and [range] yields values in
    its bounds. *)
Theorem xorshift_range s lo hi (Hs : fits 64 s) (Hne : s ≠ 0) (Hlo : 0 <= lo <= hi) (Hhi : hi < 2 ^ 32 - 1) :
  let '(v, s') := range lo hi s in lo <= v <= hi /\ fits 64 s' /\ s' ≠ 0.
Proof. by destruct (range_ok s lo hi Hs Hne Hlo Hhi) as (v & s' & -> & ? & ? & ?). Qed.

Lemma xorshift_range_witness :
  let '(v, s') := range 1 99 0xDEADBEEFCAFEBABE in 1 <= v <= 99 /\ fits 64 s' /\ s' ≠ 0.
Proof. apply (xorshift_range 0xDEADBEEFCAFEBABE 1 99); [split; [discriminate|reflexivity]|discriminate|lia|lia]. Defined.

(** ** What a payload satisfies *)
Definition payload_ok (p : Payload) : Prop :=
  1 <= seq p <= Z.of_nat N_PAYLOADS /\ (QUOTE ∉ tk p) /\ (0 ∉ tk p) /\ (length (tk p) <= 31)%nat /\ 1 <= price p <= 99 /\
  1 <= Z.abs (delta p) <= 50 /\ 1700000000000 <= ts p < 1700001000000.

Lemma draw_ok first i ticker s :
  fits 64 s -> s ≠ 0 -> (i < N_PAYLOADS)%nat -> QUOTE ∉ ticker -> 0 ∉ ticker -> (length ticker <= 31)%nat ->
  exists p s', draw first i ticker s = (p, s') /\ payload_ok p /\ seq p = Z.of_nat i + 1 /\ tk p = ticker /\ fits 64 s' /\ s' ≠ 0.
Proof.
  intros Hs Hne Hi Hq H0 Hlen. unfold draw.
  destruct (range_ok s 1 99 Hs Hne) as (pr & s1 & -> & Hpr & Hs1 & Hn1); [lia..|].
  assert (exists dl s2, draw_delta first s1 = (dl, s2) /\ 1 <= Z.abs dl <= 50 /\ fits 64 s2 /\ s2 ≠ 0) as (dl & s2 & -> & Hdl & Hs2 & Hn2).
  { assert (forall x, sign x = 1 \/ sign x = -1) as Hsg by (intros x; unfold sign; case_match; auto). unfold draw_delta. destruct first.
    - destruct (range_ok s1 1 50 Hs1 Hn1) as (m & s2 & -> & Hm & Hs2 & Hn2); [lia..|]. destruct (next_ok s2 Hs2 Hn2).
      eexists _, _. split; [done|]. destruct (Hsg (next s2)) as [-> | ->]; (split; [lia|done]).
    - destruct (next_ok s1 Hs1 Hn1) as [Ha Hb]. destruct (range_ok (next s1) 1 50 Ha Hb) as (m & s2 & -> & Hm & Hs2 & Hn2); [lia..|].
      eexists _, _. split; [done|]. destruct (Hsg (next s1)) as [-> | ->]; (split; [lia|done]). }
  destruct (next_ok s2 Hs2 Hn2) as [Hs3 Hn3]. destruct (next_ok _ Hs3 Hn3) as [Hs4 Hn4].
  eexists _, _. split; [done|]. pose proof (Z.mod_pos_bound (next (next s2)) 1000000 ltac:(lia)).
  rewrite wrap_small by (unfold fits; lia). unfold payload_ok. cbn [seq tk price delta ts]. unfold N_PAYLOADS in *. split_and!; (done || lia).
Qed.

(** ** Reading a payload back *)
Definition read_int (l : bytes) : Z * bytes :=
  match l with
  | c :: l' => if c =? 45 then let '(v, r) := Serialize.read_num l' 0 in (- v, r) else Serialize.read_num l 0
  | [] => (0, [])
  end.

Definition read_payload (l : bytes) : option Payload :=
  l ← Serialize.expect (lit "{'type':'orderbook_delta','sid':1,'seq':") l;
  let '(sq, l) := Serialize.read_num l 0 in
  l ← Serialize.expect (lit ",'msg':{'market_ticker':'") l;
  let '(t, l) := Serialize.until_quote l in
  l ← Serialize.expect (lit "','price':") l;
  let '(pr, l) := Serialize.read_num l 0 in
  l ← Serialize.expect (lit ",'delta':") l;
  let '(dl, l) := read_int l in
  l ← Serialize.expect (lit ",'side':'") l;
  let '(sd, l) := Serialize.until_quote l in
  sd ← Parser.side_of sd;
  l ← Serialize.expect (lit "','ts':") l;
  let '(t0, l) := Serialize.read_num l 0 in
  if decide (l = lit "}}") then Some (mkPayload sq t pr dl sd t0) else None.

Lemma read_num_to_string v s l : fits 64 v -> is_digit (hd 48 (lit s)) = false ->
  Serialize.read_num (to_string v ++ lit s ++ l) 0 = (v, lit s ++ l).
Proof.
  intros Hv Hs. destruct (to_string_ok v Hv) as (_ & Hd & Hval). rewrite Serialize.read_num_lit by done. by rewrite Hval.
Qed.

Lemma read_int_signed v s l : - 2 ^ 63 <= v < 2 ^ 63 -> is_digit (hd 48 (lit s)) = false ->
  read_int (signed v ++ lit s ++ l) = (v, lit s ++ l).
Proof.
  intros Hv Hs. unfold signed. destruct (Z.ltb_spec v 0).
  - cbn [app read_int]. rewrite Z.eqb_refl. rewrite read_num_to_string by (done || unfold fits; lia). f_equal. lia.
  - assert (fits 64 v) as Hf by (unfold fits; lia). unfold read_int. pose proof (to_string_ok v Hf) as ([Hl _] & Hd & _).
    destruct (to_string v) as [|c ds] eqn:E; [simpl in Hl; lia|]. apply Forall_cons in Hd as [Hc _].
    apply digit_not_space in Hc as (_ & Hc & _). cbn [app]. rewrite Hc. rewrite app_comm_cons, <- E. by apply read_num_to_string.
Qed.

Lemma read_render p : payload_ok p -> read_payload (render p) = Some p.
Proof.
  intros (Hsq & Hq & H0 & Hlen & Hpr & Hdl & Hts). unfold read_payload, render.
  rewrite Serialize.expect_app. cbn [mbind option_bind].
  rewrite read_num_to_string by (done || unfold fits, N_PAYLOADS in *; lia). rewrite Serialize.expect_app. cbn [mbind option_bind].
  rewrite Serialize.until_quote_lit by done. rewrite Serialize.expect_app. cbn [mbind option_bind].
  rewrite read_num_to_string by (done || unfold fits; lia). rewrite Serialize.expect_app. cbn [mbind option_bind].
  rewrite read_int_signed by (done || lia). rewrite Serialize.expect_app. cbn [mbind option_bind].
  assert (QUOTE ∉ Serialize.side_name (side p)) as Hs by (destruct (side p); apply (bool_decide_unpack _); vm_compute; exact Logic.I).
  rewrite Serialize.until_quote_lit by done. rewrite Serialize.expect_app.
  assert (Parser.side_of (Serialize.side_name (side p)) = Some (side p)) as -> by (by destruct (side p)). cbn [mbind option_bind].
  pose proof (read_num_to_string (ts p) "}}" [] ltac:(unfold fits; lia) ltac:(done)) as Hr. rewrite app_nil_r in Hr. rewrite Hr.
  rewrite decide_True by done. by destruct p.
Qed.

Lemma signed_length v : Z.abs v < 2 ^ 64 -> (length (signed v) <= 21)%nat.
Proof.
  intros Hv. assert (forall x, fits 64 x -> (length (to_string x) <= 20)%nat) as Hl by (intros x Hx; by destruct (to_string_ok x Hx) as ([_ ?] & _)).
  unfold signed. destruct (Z.ltb_spec v 0); simpl; [specialize (Hl (- v))|specialize (Hl v)]; unfold fits in Hl; lia.
Qed.

Lemma render_length p : payload_ok p -> (length (render p) < BUF_SIZE)%nat.
Proof.
  intros (Hsq & _ & _ & Hlen & Hpr & Hdl & Hts). unfold render, BUF_SIZE. rewrite !length_app.
  assert (forall x, fits 64 x -> (length (to_string x) <= 20)%nat) as Hl by (intros x Hx; by destruct (to_string_ok x Hx) as ([_ ?] & _)).
  pose proof (Hl (seq p) ltac:(unfold fits, N_PAYLOADS in *; lia)). pose proof (Hl (price p) ltac:(unfold fits; lia)).
  pose proof (Hl (ts p) ltac:(unfold fits; lia)). pose proof (signed_length (delta p) ltac:(lia)).
  assert (length (Serialize.side_name (side p)) <= 3)%nat by (destruct (side p); vm_compute; lia).
  assert (length (lit "{'type':'orderbook_delta','sid':1,'seq':") = 40 /\ length (lit ",'msg':{'market_ticker':'") = 25 /\
    length (lit "','price':") = 10 /\ length (lit ",'delta':") = 9 /\ length (lit ",'side':'") = 9 /\
    length (lit "','ts':") = 7 /\ length (lit "}}") = 2)%nat as (-> & -> & -> & -> & -> & -> & ->) by done. lia.
Qed.

(** ** The pools *)
Section pool.
  Context (one : nat -> Z -> Payload * Z) (good : bytes -> Prop).
  Context (Hone : forall i s, fits 64 s -> s ≠ 0 -> (i < N_PAYLOADS)%nat ->
    exists p s', one i s = (p, s') /\ payload_ok p /\ seq p = Z.of_nat i + 1 /\ good (tk p) /\ fits 64 s' /\ s' ≠ 0).

Definition is_payload (i : nat) (text : bytes) : Prop :=
  exists p, payload_ok p /\ seq p = Z.of_nat i + 1 /\ good (tk p) /\ text = render p /\ read_payload text = Some p.

Lemma build_pool_ok n : forall i s, fits 64 s -> s ≠ 0 -> (i + n <= N_PAYLOADS)%nat ->
  exists l, build_pool one n i s = Some l /\ length l = n /\ forall j text, l !! j = Some text -> is_payload (i + j) text.
Proof.
  induction n as [|n IH]; intros i s Hs Hne Hi; cbn [build_pool]; [exists []; split_and!; done|].
  destruct (Hone i s Hs Hne) as (p & s' & -> & Hp & Hsq & Hg & Hs' & Hne'); [lia|].
  unfold store_payload. rewrite (proj2 (Nat.ltb_lt _ _)) by (by apply render_length). cbn [mbind option_bind].
  destruct (IH (S i) s' Hs' Hne') as (l & -> & Hl & Hall); [lia|]. cbn [mbind option_bind]. eexists. split; [done|].
  split; [simpl; lia|]. intros [|j] text Hj; simpl in Hj.
  - injection Hj as <-. rewrite Nat.add_0_r. exists p. split_and!; try done. by apply read_render.
  - replace (i + S j)%nat with (S i + j)%nat by lia. by apply Hall.
Qed.
End pool.

Lemma draw_single_ok first i s : fits 64 s -> s ≠ 0 -> (i < N_PAYLOADS)%nat ->
  exists p s', draw_single first i s = (p, s') /\ payload_ok p /\ seq p = Z.of_nat i + 1 /\ tk p = lit "DEMO-1" /\ fits 64 s' /\ s' ≠ 0.
Proof. intros Hs Hne Hi. apply draw_ok; try done; [apply (bool_decide_unpack _); vm_compute; exact Logic.I..|vm_compute; lia]. Qed.

Definition mkt_names : list bytes := (fun i => mkt_ticker (Z.of_nat i)) <$> List.seq 0 (Z.to_nat N_TICKERS).

(** Every ticker of the many is a short string without quotes or zeros. *)
Lemma mkt_names_ok : Forall (fun t => (QUOTE ∉ t) /\ (0 ∉ t) /\ (length t <= 31)%nat) mkt_names.
Proof. apply (bool_decide_unpack _). vm_compute. exact Logic.I. Qed.

Lemma mkt_ticker_name tid : 0 <= tid < N_TICKERS -> mkt_ticker tid ∈ mkt_names.
Proof.
  intros Ht. apply list_elem_of_fmap. exists (Z.to_nat tid). rewrite Z2Nat.id by lia. split; [done|]. apply elem_of_seq. lia.
Qed.

Lemma draw_multi_ok first i s : fits 64 s -> s ≠ 0 -> (i < N_PAYLOADS)%nat ->
  exists p s', draw_multi first i s = (p, s') /\ payload_ok p /\ seq p = Z.of_nat i + 1 /\ (tk p ∈ mkt_names) /\ fits 64 s' /\ s' ≠ 0.
Proof.
  intros Hs Hne Hi. unfold draw_multi. destruct (range_ok s 0 (N_TICKERS - 1) Hs Hne) as (tid & s1 & -> & Ht & Hs1 & Hn1); [unfold N_TICKERS; lia..|].
  assert (mkt_ticker tid ∈ mkt_names) as Hin by (apply mkt_ticker_name; unfold N_TICKERS in *; lia).
  pose proof mkt_names_ok as Hok. rewrite Forall_forall in Hok. destruct (Hok _ Hin) as (Hq & H0 & Hl).
  destruct (draw_ok first i (mkt_ticker tid) s1 Hs1 Hn1 Hi Hq H0 Hl) as (p & s2 & -> & ? & ? & Etk & ? & ?).
  exists p, s2. rewrite Etk. split_and!; done.
Qed.

Lemma seed_ok : fits 64 SEED /\ SEED ≠ 0.
Proof. split; [split; [discriminate|reflexivity]|discriminate]. Qed.

Lemma single_pool lhs_first : exists l, build_payload_pool lhs_first = Some l /\ length l = N_PAYLOADS /\
  forall i text, l !! i = Some text -> is_payload (fun t => t = lit "DEMO-1") i text.
Proof.
  destruct seed_ok as [Hs Hne].
  apply (build_pool_ok _ (fun t => t = lit "DEMO-1") (draw_single_ok lhs_first) N_PAYLOADS 0 SEED Hs Hne). lia.
Qed.

Lemma multi_pool lhs_first : exists l, build_payload_pool_multi lhs_first = Some l /\ length l = N_PAYLOADS /\
  forall i text, l !! i = Some text -> is_payload (fun t => t ∈ mkt_names) i text.
Proof.
  destruct seed_ok as [Hs Hne].
  apply (build_pool_ok _ (fun t => t ∈ mkt_names) (draw_multi_ok lhs_first) N_PAYLOADS 0 SEED Hs Hne). lia.
Qed.

(** C33. The payload pools are well formed, whichever order the compiler evaluates the
    operands in: 1024 texts, none truncated by the 256-byte buffer, the i-th one with
    sequence number [i + 1], a price of 1 to 99, a delta of -50 to 50 that is not zero,
    and one of the known tickers; each text reads back as its fields. *)
Theorem payload_pools (lhs_first : bool) :
  (exists l, build_payload_pool lhs_first = Some l /\ length l = N_PAYLOADS /\
     forall i text, l !! i = Some text -> is_payload (fun t => t = lit "DEMO-1") i text) /\
  (exists l, build_payload_pool_multi lhs_first = Some l /\ length l = N_PAYLOADS /\
     forall i text, l !! i = Some text -> is_payload (fun t => t ∈ mkt_names) i text).
Proof. split; [apply single_pool|apply multi_pool]. Qed.

(** ** What the delta parser makes of them *)
(** A JSON reader that finds the fields of these texts. *)
Definition reads_payloads (JS : Parser.DeltaJson) : Prop :=
  forall p, payload_ok p -> @Parser.message_fields JS (render p) =
    Some (1, seq p, tk p, price p, delta p, ts p, Serialize.side_name (side p)).

Definition delta_of (p : Payload) (old : list Z) : Feed.OrderbookDelta :=
  Feed.mkDelta (Parser.copy_ticker (tk p) old) (ts p) 1 (seq p) (delta p) (price p) (side p).

Lemma payload_parsed (JS : Parser.DeltaJson) p out :
  reads_payloads JS -> payload_ok p ->
  @Parser.parse_orderbook_delta JS (render p) out = (true, delta_of p (Feed.ticker out)).
Proof.
  intros HJ Hp. apply Parser.parse_fields. exists 1, (seq p), (tk p), (price p), (delta p), (ts p), (Serialize.side_name (side p)), (side p).
  destruct Hp as (? & ? & ? & ? & ? & ? & ?). split_and!; [by apply HJ| |by destruct (side p)|done].
  split_and!; [done|lia|lia|unfold fits_i; change (32 - 1) with 31; lia..].
Qed.

(** The reader above as such a parser. *)
Definition reference_json : Parser.DeltaJson := {|
  Parser.document := Payload; Parser.object := Payload;
  Parser.iterate := read_payload;
  Parser.doc_uint64 p k := (Some (if decide (k = lit "sid") then 1 else seq p), p);
  Parser.doc_object p _ := Some p;
  Parser.obj_string p k := (Some (if decide (k = lit "side") then Serialize.side_name (side p) else tk p), p);
  Parser.obj_uint64 p _ := (Some (price p), p);
  Parser.obj_int64 p k := (Some (if decide (k = lit "delta") then delta p else ts p), p);
|}.

Lemma reference_reads : reads_payloads reference_json.
Proof. intros p Hp. unfold Parser.message_fields. cbn [Parser.iterate reference_json]. rewrite (read_render p Hp). done. Qed.

End Payload.
