(* ===== verification/HotPath.v ===== *)
(** * The hot path of [bench/bench_hotpath_multi.cpp]

    Ticker hashing and dispatch, the registration of the markets, one iteration of
    the consumer (dispatch, book, signal, order manager, serialiser) and the
    latency histogram.  The pool and the index are
    reached through the classes of [Interfaces.v]. *)
From stdpp Require Import gmap list numbers strings sorting.
From S2P Require Import Prelude Interfaces FlatHashMap Pool Feed Strategy Bytes Serialize Parser Payload.
Open Scope Z_scope.
Open Scope cpp_scope.

Module HotPath.
Import Feed Strategy Bytes.

(** ** The data *)
(** [Signal] has no state. *)
Record MarketState := mkMarket { book : Book; om : OrderManager }.
Definition new_market : MarketState := mkMarket empty_book new_manager.

Record HotMsg := mkMsg { msg_delta : OrderbookDelta; produce_tsc : Z }.

(** ** Hashing *)
(** FNV-1a over the first [len] bytes; the sentinel of the map is avoided. *)
Fixpoint fnv (h : Z) (s : bytes) : Z :=
  match s with
  | [] => h
  | c :: s => fnv (Z.lxor h (u8 c) *64 0x100000001b3) s
  end.
Definition hash_ticker (s : bytes) (len : nat) : Z :=
  let h := fnv 0xcbf29ce484222325 (take len s) in
  if h =? 2 ^ 64 - 1 then Z.lxor h 1 else h.

Fixpoint ticker_strnlen (s : bytes) (max_len : nat) : nat :=
  match max_len, s with
  | S max_len, c :: s => if c =? 0 then 0%nat else S (ticker_strnlen s max_len)
  | _, _ => 0%nat
  end.

(** ** The histogram *)
Definition N_BUCKETS : nat := 24.

(** [while (v >>= 1) ++b], for a [v] of at most [fuel] bits. *)
Fixpoint log_loop (fuel : nat) (v b : Z) : option Z :=
  match fuel with
  | O => None
  | S fuel => let v := Z.shiftr v 1 in if v =? 0 then Some b else log_loop fuel v (b + 1)
  end.
Definition bucket (c : Z) : option Z :=
  b ← log_loop 64 (Z.shiftr c 7) 0;
  Some (if Z.of_nat N_BUCKETS <=? b then Z.of_nat N_BUCKETS - 1 else b).
Fixpoint histogram (cycles : list Z) (buckets : list Z) : option (list Z) :=
  match cycles with
  | [] => Some buckets
  | c :: cycles =>
    b ← bucket c; n ← buckets !! Z.to_nat b;
    histogram cycles (<[Z.to_nat b := n +64 1]> buckets)
  end.

(** ** One tick of a market *)
(** The serialised actions [k = 0 .. cnt - 1] of a bundle. *)
Fixpoint serialize_all (l : list Action) (tk : bytes) : option (list (Z * bytes)) :=
  match l with
  | [] => Some []
  | a :: l => x ← Serialize.serialize_action a tk 256; xs ← serialize_all l tk; Some (x :: xs)
  end.

(** What a consumer does with a delta once it has the market: book, signal, order
    manager, serialiser.  [tk] is the ticker text given to the serialiser. *)
Definition tick (d : OrderbookDelta) (tk : bytes) (ms : MarketState) : option (list (Z * bytes) * MarketState) :=
  bk ← apply d (book ms);
  let tq := evaluate bk in
  '(bundle, om') ← reconcile tq (om ms);
  outs ← serialize_all (emitted bundle) tk;
  Some (outs, mkMarket bk om').

(** ** Markets *)
Section markets.
  Context {P I : Type} `{!PoolOps P MarketState} `{!IndexOps I Z}.

(** The shared tables: the memory of the pool, [g_market_pool], [g_markets]. *)
Record Tables := mkTables { mem : gmap Z MarketState; g_market_pool : P; g_markets : I }.

(** [None] is [std::abort] or undefined behaviour. *)
Definition register_market (name : bytes) (t : Tables) : option Tables :=
  let key := hash_ticker name (length name) in
  '(m, pool) ← pool_allocate (mem t) (g_market_pool t);
  if m =? 0 then None else
  let memory := <[m := new_market]> (mem t) in
  '(ok, idx) ← idx_insert (g_markets t) key m;
  if (ok : bool) then Some (mkTables memory pool idx) else None.

(** ["MKT-%03d"] *)
Definition market_name (i : nat) : bytes := Payload.mkt_ticker (Z.of_nat i).
Fixpoint register_names (names : list bytes) (t : Tables) : option Tables :=
  match names with
  | [] => Some t
  | name :: names => t ← register_market name t; register_names names t
  end.
Definition N_TICKERS : nat := 256.
Definition register_markets (t : Tables) : option Tables := register_names (market_name <$> List.seq 0 N_TICKERS) t.

(** The body of the consumer's loop after the pop. *)
Definition consume (d : OrderbookDelta) (t : Tables) : option (list (Z * bytes) * Tables) :=
  let tlen := ticker_strnlen (ticker d) 32 in
  let key := hash_ticker (ticker d) tlen in
  slot ← idx_find (g_markets t) key;
  m ← (slot : option Z);
  ms ← mem t !! m;
  '(outs, ms') ← tick d (ticker d) ms;
  Some (outs, mkTables (<[m := ms']> (mem t)) (g_market_pool t) (g_markets t)).

End markets.
(** ** Words *)
Lemma fnv_fits s : forall h, fits 64 h -> fits 64 (fnv h s).
Proof. induction s as [|c s IH]; intros h Hh; simpl; [done|]. apply IH. by apply wrap_fits. Qed.

Lemma hash_ticker_range s n : 0 <= hash_ticker s n < 2 ^ 64 - 1.
Proof.
  unfold hash_ticker. pose proof (fnv_fits (take n s) 0xcbf29ce484222325 ltac:(unfold fits; lia)) as Hf.
  destruct (Z.eqb_spec (fnv 0xcbf29ce484222325 (take n s)) (2 ^ 64 - 1)) as [->|]; [vm_compute; split; [discriminate|reflexivity]|].
  unfold fits in Hf. lia.
Qed.

Lemma strnlen_c_string s : forall n t, Serialize.c_string s = Some t -> (length t < n)%nat -> take (ticker_strnlen s n) s = t.
Proof.
  induction s as [|c s IH]; intros n t Hs Hn; simpl in Hs; [done|]. destruct n as [|n]; [lia|]. cbn [ticker_strnlen].
  destruct (c =? 0); [by simplify_eq|]. destruct (Serialize.c_string s) as [t'|] eqn:E; simplify_eq/=. f_equal. apply IH; [done|lia].
Qed.

(** The hash of a ticker array is the hash of the string it holds. *)
Lemma hash_ticker_array s t : Serialize.c_string s = Some t -> (length t <= 31)%nat ->
  hash_ticker s (ticker_strnlen s 32) = hash_ticker t (length t).
Proof. intros Hs Ht. unfold hash_ticker. rewrite (strnlen_c_string s 32 t Hs) by lia. by rewrite firstn_all. Qed.

(** ** The histogram *)
Lemma log_loop_ok fuel : forall v b, 0 <= v < 2 ^ Z.of_nat fuel -> (0 < fuel)%nat -> log_loop fuel v b = Some (b + Z.log2 v).
Proof.
  induction fuel as [|fuel IH]; intros v b Hv Hf; [lia|]. cbn [log_loop]. cbv zeta.
  rewrite Nat2Z.inj_succ, Z.pow_succ_r in Hv by lia.
  assert (Z.shiftr v 1 = v / 2) as E by (rewrite Z.shiftr_div_pow2 by lia; done).
  destruct (Z.eqb_spec (Z.shiftr v 1) 0) as [H0|H0].
  - rewrite E in H0. apply Z.div_small_iff in H0 as [?|?]; [|lia|lia]. rewrite (proj2 (Z.log2_null v)) by lia. f_equal. lia.
  - assert (2 <= v) as H2 by (rewrite E in H0; destruct (Z.lt_ge_cases v 2); [rewrite Z.div_small in H0; lia|lia]).
    destruct fuel as [|fuel']; [simpl in Hv; lia|]. rewrite IH; [|rewrite E; split; [apply Z.div_pos; lia|apply Z.div_lt_upper_bound; lia]|lia].
    rewrite Z.log2_shiftr by lia. pose proof (Z.log2_le_mono 2 v H2). change (Z.log2 2) with 1 in *. f_equal. lia.
Qed.

Lemma bucket_ok c : fits 64 c -> bucket c = Some (Z.min 23 (Z.log2 (Z.shiftr c 7))).
Proof.
  intros Hc. unfold bucket. rewrite log_loop_ok; [|apply (shiftr_fits c 7 ltac:(lia) Hc)|lia].
  cbn [mbind option_bind]. change (Z.of_nat N_BUCKETS) with 24. f_equal. destruct (Z.leb_spec 24 (0 + Z.log2 (Z.shiftr c 7))); lia.
Qed.

Lemma bucket_bounds c :
  fits 64 c -> exists b, bucket c = Some b /\ 0 <= b < 24 /\ (128 <= c -> 128 * 2 ^ b <= c) /\ (b < 23 -> c < 256 * 2 ^ b).
Proof.
  intros Hc. rewrite bucket_ok by done. eexists. split; [done|]. unfold fits in Hc.
  rewrite Z.shiftr_div_pow2 by lia. change (2 ^ 7) with 128. pose proof (Z.log2_nonneg (c / 128)). split; [lia|].
  pose proof (Z.div_mod c 128). pose proof (Z.mod_pos_bound c 128).
  destruct (Z.lt_ge_cases c 128) as [Hs|Hs].
  - rewrite Z.div_small by lia. change (Z.log2 0) with 0. split; [lia|]. simpl. lia.
  - assert (0 < c / 128) as Hv by (apply Z.div_str_pos; lia). pose proof (Z.log2_spec _ Hv) as [L1 L2]. split.
    + intros _. pose proof (Z.pow_le_mono_r 2 (Z.min 23 (Z.log2 (c / 128))) (Z.log2 (c / 128))). lia.
    + intros Hb. rewrite Z.min_r by lia. rewrite Z.pow_succ_r in L2 by done. lia.
Qed.

Lemma sum_bump (l : list Z) i n : l !! i = Some n -> foldr Z.add 0 (<[i := n + 1]> l) = foldr Z.add 0 l + 1.
Proof. revert i. induction l as [|x l IH]; intros [|i] Hi; simplify_eq/=; [lia|]. rewrite IH by done. lia. Qed.

Lemma sum_nonneg (l : list Z) : Forall (Z.le 0) l -> 0 <= foldr Z.add 0 l.
Proof. induction 1; simpl; lia. Qed.

Lemma sum_bound (l : list Z) i n : Forall (Z.le 0) l -> l !! i = Some n -> 0 <= n <= foldr Z.add 0 l.
Proof.
  intros Hl. revert i. induction Hl as [|x l Hx Hl IH]; intros [|i] Hi; simplify_eq/=.
  - pose proof (sum_nonneg l Hl). lia.
  - specialize (IH i Hi). lia.
Qed.

Lemma histogram_sum cycles : forall bs,
  Forall (fits 64) cycles -> length bs = N_BUCKETS -> Forall (Z.le 0) bs ->
  foldr Z.add 0 bs + Z.of_nat (length cycles) < 2 ^ 64 ->
  exists bs', histogram cycles bs = Some bs' /\ length bs' = N_BUCKETS /\
    foldr Z.add 0 bs' = foldr Z.add 0 bs + Z.of_nat (length cycles).
Proof.
  induction cycles as [|c cycles IH]; intros bs Hc Hl Hp Hs; cbn [histogram].
  { exists bs. simpl. split_and!; [done..|lia]. }
  apply Forall_cons in Hc as [Hc1 Hc]. destruct (bucket_bounds c Hc1) as (b & -> & Hb & _). cbn [mbind option_bind length] in *.
  destruct (lookup_lt_is_Some_2 bs (Z.to_nat b)) as [n Hn]; [rewrite Hl; unfold N_BUCKETS; lia|]. rewrite Hn. cbn [mbind option_bind].
  pose proof (sum_bound bs _ _ Hp Hn). rewrite wrap_small by (unfold fits; lia).
  destruct (IH (<[Z.to_nat b := n + 1]> bs)) as (bs' & Hr & Hl' & Hs').
  - done.
  - by rewrite length_insert.
  - apply Forall_insert; [done|lia].
  - rewrite (sum_bump _ _ _ Hn). lia.
  - exists bs'. split_and!; [done..|]. rewrite Hs', (sum_bump _ _ _ Hn). lia.
Qed.

(** Every latency lands in the bucket whose printed bounds contain it, and none is
    lost: a value of at least 128 cycles below the last bucket lies between [128 << b] and
    [256 << b], smaller values are in the first bucket and larger ones in the last, and
    the counts add up to the number of values. *)
Theorem histogram_exact (cycles : list Z) (Hc : Forall (fits 64) cycles) (Hn : Z.of_nat (length cycles) < 2 ^ 64) :
  (exists bs, histogram cycles (replicate N_BUCKETS 0) = Some bs /\ length bs = N_BUCKETS /\
     foldr Z.add 0 bs = Z.of_nat (length cycles)) /\
  Forall (fun c => exists b, bucket c = Some b /\ 0 <= b < 24 /\ (128 <= c -> 128 * 2 ^ b <= c) /\
    (b < 23 -> c < 256 * 2 ^ b)) cycles.
Proof.
  split.
  - destruct (histogram_sum cycles (replicate N_BUCKETS 0)) as (bs & H1 & H2 & H3); [done|done|by repeat constructor|simpl; lia|].
    exists bs. split_and!; [done..|]. rewrite H3. simpl. lia.
  - eapply Forall_impl; [exact Hc|]. apply bucket_bounds.
Qed.

Lemma histogram_exact_witness :
  (exists bs, histogram [90; 300; 128; 5000000000] (replicate N_BUCKETS 0) = Some bs /\ length bs = N_BUCKETS /\
     foldr Z.add 0 bs = 4) /\
  Forall (fun c => exists b, bucket c = Some b /\ 0 <= b < 24 /\ (128 <= c -> 128 * 2 ^ b <= c) /\
    (b < 23 -> c < 256 * 2 ^ b)) [90; 300; 128; 5000000000].
Proof. apply (histogram_exact [90; 300; 128; 5000000000]); [|simpl; lia]. repeat constructor; unfold fits; try discriminate; reflexivity. Defined.

(** ** A tick is defined and does what the specification says *)
(** An order manager whose ids are 64-bit words with room for one more step. *)
Definition om_ok (o : OrderManager) : Prop :=
  0 <= next_client_id_ o < 2 ^ 64 - 3 /\ fits 64 (os_client_id (yes_open_ o)) /\ fits 64 (os_client_id (no_open_ o)).

Lemma evaluate_small b : (forall s, 0 <= best s b <= 99) ->
  0 <= yes_price (evaluate b) <= 99 /\ 0 <= no_price (evaluate b) <= 99 /\ fits 32 (tq_qty (evaluate b)).
Proof.
  intros Hi. pose proof (Hi YES) as Hy. pose proof (Hi NO) as Hn. simpl in Hy, Hn.
  unfold evaluate, best_yes_bid, best_no_bid, no_quote, MIN_SPREAD, DEFAULT_QTY. cbv zeta.
  repeat case_match; simpl; unfold fits; try lia.
  match goal with E : (_ <? _) = false |- _ => apply Z.ltb_ge in E end.
  match goal with E : (_ || _) = false |- _ => apply orb_false_iff in E as [?%Z.eqb_neq ?%Z.eqb_neq] end.
  rewrite !wrap_small by (unfold fits; lia). lia.
Qed.

Lemma wanted_ok cur s want p q next :
  0 <= p <= 99 -> fits 32 q -> fits 64 next -> fits 64 (os_client_id cur) ->
  Forall Serialize.action_ok (wanted_actions cur s want p q next).
Proof.
  intros Hp Hq Hn Hc. assert (fits 32 0) by (unfold fits; lia). unfold wanted_actions, Serialize.action_ok.
  destruct (open cur), want; [destruct (_ =? _)|..]; rewrite ?Forall_cons, ?Forall_nil; simpl; split_and?; (done || lia).
Qed.

Lemma serialize_all_ok l tk pad :
  Forall Serialize.action_ok l -> QUOTE ∉ tk -> 0 ∉ tk -> (length tk <= 31)%nat ->
  exists outs, serialize_all l (tk ++ 0 :: pad) = Some outs /\
    Forall2 (fun a o => Serialize.decode o.2 = Some (Serialize.wire_of a tk)) l outs.
Proof.
  intros Hl Hq H0 Hlen. induction Hl as [|a l Ha _ IH]; [by exists []|]. cbn [serialize_all].
  destruct (Serialize.serialize_ok a tk pad 256 Ha Hq H0 Hlen) as (n & out & -> & _ & _ & Hd); [lia|].
  destruct IH as (outs & -> & IH). cbn [mbind option_bind]. eexists. split; [done|]. by constructor.
Qed.

(** The effect of a tick on the order manager: ids advance by at most two. *)
Definition om_step (o o' : OrderManager) : Prop :=
  next_client_id_ o <= next_client_id_ o' <= next_client_id_ o + 2 /\ yes_open_ o' = yes_open_ o /\ no_open_ o' = no_open_ o.

(** What the bytes of a tick say. *)
Definition outs_decode (tk : bytes) (o : OrderManager) (bk : Book) (outs : list (Z * bytes)) : Prop :=
  Forall2 (fun a x => Serialize.decode x.2 = Some (Serialize.wire_of a tk))
    (yes_actions (evaluate bk) o ++ no_actions (evaluate bk) o) outs.

(** Everything after the update of the book. *)
Lemma tick_after d tk pad ms bk :
  QUOTE ∉ tk -> 0 ∉ tk -> (length tk <= 31)%nat -> apply d (book ms) = Some bk -> (forall s, 0 <= best s bk <= 99) -> om_ok (om ms) ->
  exists outs om', tick d (tk ++ 0 :: pad) ms = Some (outs, mkMarket bk om') /\ om_step (om ms) om' /\ outs_decode tk (om ms) bk outs.
Proof.
  intros Hq H0 Hlen Hb Hbst (Hn & Hy & Hno). unfold tick. rewrite Hb. cbn [mbind option_bind].
  destruct (reconcile_holds (evaluate bk) (om ms) Hn) as (bundle & -> & (_ & _ & He)). cbn [mbind option_bind]. rewrite He.
  destruct (evaluate_small bk Hbst) as (Hp1 & Hp2 & Hq3).
  pose proof (places_length (yes_open_ (om ms)) YES (active (evaluate bk)) (yes_price (evaluate bk)) (tq_qty (evaluate bk)) (next_client_id_ (om ms))) as Hpl.
  fold (yes_actions (evaluate bk) (om ms)) in Hpl.
  pose proof (places_length (no_open_ (om ms)) NO (active (evaluate bk)) (no_price (evaluate bk)) (tq_qty (evaluate bk))
    (next_client_id_ (om ms) + Z.of_nat (length (places (yes_actions (evaluate bk) (om ms)))))) as Hpl2.
  fold (no_actions (evaluate bk) (om ms)) in Hpl2.
  destruct (serialize_all_ok (yes_actions (evaluate bk) (om ms) ++ no_actions (evaluate bk) (om ms)) tk pad) as (outs & -> & Hdec); [|done..|].
  { apply Forall_app. split; apply wanted_ok; (done || unfold fits in *; lia). }
  cbn [mbind option_bind]. eexists _, _. split; [done|]. split; [|done].
  split_and!; [| |done|done]; cbn [next_client_id_]; [lia|]. rewrite places_app, length_app. lia.
Qed.

Lemma tick_ok d tk pad ms f :
  QUOTE ∉ tk -> 0 ∉ tk -> (length tk <= 31)%nat -> implements (book ms) f -> om_ok (om ms) ->
  0 <= price d <= 99 -> 0 <= f (side d) (price d) + delta d < 2 ^ 31 ->
  exists outs bk om', tick d (tk ++ 0 :: pad) ms = Some (outs, mkMarket bk om') /\ implements bk (bump d f) /\
    om_step (om ms) om' /\ outs_decode tk (om ms) bk outs.
Proof.
  intros Hq H0 Hlen Hb Hom Hp Hqty. destruct (apply_implements d (book ms) f Hb Hp Hqty) as (bk & Ha & Hbk).
  destruct (tick_after d tk pad ms bk Hq H0 Hlen Ha) as (outs & om' & ? & ? & ?); [intros s; by destruct (Hbk s) as (_ & _ & ? & _)|done|].
  by exists outs, bk, om'.
Qed.

(** Whatever the deltas, as long as they are small. *)
Lemma tick_bounded K D d tk pad ms :
  QUOTE ∉ tk -> 0 ∉ tk -> (length tk <= 31)%nat -> bounded K (book ms) -> om_ok (om ms) ->
  0 <= D -> 0 <= price d <= 99 -> Z.abs (delta d) <= D -> K + D < 2 ^ 31 ->
  exists outs bk om', tick d (tk ++ 0 :: pad) ms = Some (outs, mkMarket bk om') /\ bounded (K + D) bk /\
    om_step (om ms) om' /\ outs_decode tk (om ms) bk outs.
Proof.
  intros Hq H0 Hlen Hb Hom HD Hp Hd HK. destruct (apply_bounded K D d (book ms) Hb HD Hp Hd HK) as (bk & Ha & Hbk).
  destruct (tick_after d tk pad ms bk Hq H0 Hlen Ha) as (outs & om' & ? & ? & ?); [intros s; by destruct (Hbk s) as (_ & _ & ?)|done|].
  by exists outs, bk, om'.
Qed.

(** ** Registration and dispatch *)
Section dispatch.
  Context {P I : Type} `{!PoolOps P MarketState} `{!IndexOps I Z} `{!PoolLaws P MarketState} `{!IndexLaws I Z}.
  Context `{!IndexRoom I Z 256}.
  Implicit Types t : Tables (P := P) (I := I).

Definition key_of (name : bytes) : Z := hash_ticker name (length name).

(** [registered t R]: the index sends the keys of [R] to distinct live blocks, and
    nothing else. *)
Record registered t (R : gmap Z Z) (fl : list Z) : Prop := {
  reg_inv : idx_inv (g_markets t);
  reg_view : idx_view (g_markets t) = R;
  reg_free : pool_free (mem t) (g_market_pool t) fl;
  reg_nodup : NoDup fl;
  reg_inj : forall k k' m, R !! k = Some m -> R !! k' = Some m -> k = k';
  reg_live : forall k m, R !! k = Some m -> (m ∉ fl) /\ is_Some (mem t !! m);
}.

Lemma register_market_ok t R a fl name :
  registered t R (a :: fl) -> R !! key_of name = None -> Z.of_nat (size R) < 256 ->
  exists t', register_market name t = Some t' /\ registered t' (<[key_of name := a]> R) fl /\
    mem t' = <[a := new_market]> (mem t).
Proof.
  intros [Hi Hv Hf Hnd Hinj Hl] Hk Hsz. unfold register_market. fold (key_of name).
  destruct (pool_allocate_cons _ _ _ _ Hf) as (p' & Hal & Hf'). rewrite Hal. cbn [mbind option_bind].
  destruct (pool_free_ok _ _ _ a Hf (list_elem_of_here _ _)) as [Ha0 Ham]. rewrite (proj2 (Z.eqb_neq _ _)) by done.
  apply NoDup_cons in Hnd as [Hafl Hnd].
  destruct (idx_insert_ok (g_markets t) (key_of name) a Hi) as (i' & Hins & Hi' & Hv').
  { apply room_key. apply hash_ticker_range. }
  { right. rewrite Hv. pose proof (room_capacity (T := I) (V := Z) (n := 256)). lia. }
  rewrite Hins. cbn [mbind option_bind]. eexists. split; [done|]. split; [|done]. split; cbn [mem g_market_pool g_markets].
  - done.
  - by rewrite Hv', Hv.
  - eapply pool_free_frame; [exact Hf'|]. intros b Hb. rewrite lookup_insert_ne; [done|]. by intros ->.
  - done.
  - intros k k' m. rewrite !lookup_insert_Some. intros [[<- <-]|[? Hm]] [[<- ?]|[? Hm']]; try done.
    + apply Hl in Hm' as [Hm' _]. destruct Hm'. apply list_elem_of_here.
    + simplify_eq. apply Hl in Hm as [Hm _]. destruct Hm. apply list_elem_of_here.
    + by eapply Hinj.
  - intros k m. rewrite lookup_insert_Some. intros [[<- <-]|[_ Hm]].
    + split; [done|]. rewrite lookup_insert_eq. eauto.
    + destruct (Hl k m Hm) as [Hm1 Hm2]. apply not_elem_of_cons in Hm1 as [? Hm1]. split; [done|]. by rewrite lookup_insert_ne.
Qed.

Lemma register_names_ok names : forall t R fl,
  registered t R fl -> NoDup (key_of <$> names) -> (forall n, n ∈ names -> R !! key_of n = None) ->
  (length names <= length fl)%nat -> Z.of_nat (size R + length names) <= 256 ->
  exists t' R', register_names names t = Some t' /\ registered t' R' (drop (length names) fl) /\
    (forall k m, R !! k = Some m -> R' !! k = Some m /\ mem t' !! m = mem t !! m) /\
    forall n, n ∈ names -> exists m, R' !! key_of n = Some m /\ mem t' !! m = Some new_market.
Proof.
  induction names as [|n names IH]; intros t R fl Hr Hnd Hnew Hlen Hsz; cbn [register_names].
  { exists t, R. rewrite drop_0. split_and!; [done..|eauto|]. intros n Hn. by apply not_elem_of_nil in Hn. }
  destruct fl as [|a fl]; [simpl in Hlen; lia|]. apply NoDup_cons in Hnd as [Hn Hnd]. simpl in Hlen, Hsz.
  destruct (register_market_ok t R a fl n Hr) as (t1 & H1 & Hr1 & Hm1); [apply Hnew, list_elem_of_here|lia|].
  rewrite H1. cbn [mbind option_bind].
  assert (R !! key_of n = None) as HRn by (apply Hnew, list_elem_of_here).
  destruct (IH t1 (<[key_of n := a]> R) fl Hr1 Hnd) as (t2 & R2 & H2 & Hr2 & Hold & Hnames).
  - intros n' Hn'. rewrite lookup_insert_ne; [by apply Hnew, list_elem_of_further|].
    intros E. apply Hn. rewrite E. by apply list_elem_of_fmap_2.
  - lia.
  - rewrite map_size_insert_None by done. lia.
  - exists t2, R2. split_and!; [done|done| |].
    + intros k m Hk. destruct (Hold k m) as [H3 H4].
      { rewrite lookup_insert_ne; [done|]. intros <-. congruence. }
      split; [done|]. rewrite H4, Hm1. rewrite lookup_insert_ne; [done|]. intros <-.
      destruct (reg_live _ _ _ Hr k a Hk) as [Hx _]. destruct Hx. apply list_elem_of_here.
    + intros n' [->|Hn']%elem_of_cons; [|by apply Hnames].
      destruct (Hold (key_of n) a) as [H3 H4]; [apply lookup_insert_eq|]. exists a. split; [done|]. by rewrite H4, Hm1, lookup_insert_eq.
Qed.

(** The dispatch: a tick of the market of the ticker, and of no other. *)
Lemma consume_tick t R fl d tk m ms outs ms' :
  registered t R fl -> Serialize.c_string (ticker d) = Some tk -> (length tk <= 31)%nat ->
  R !! key_of tk = Some m -> mem t !! m = Some ms -> tick d (ticker d) ms = Some (outs, ms') ->
  exists t', consume d t = Some (outs, t') /\ registered t' R fl /\ mem t' = <[m := ms']> (mem t).
Proof.
  intros Hr Hc Hlen Hk Hm Htk. unfold consume.
  rewrite (hash_ticker_array _ _ Hc Hlen). fold (key_of tk). destruct Hr as [Hi Hv Hf Hnd Hinj Hl].
  rewrite (idx_find_ok _ (key_of tk) Hi (room_key _ (hash_ticker_range tk (length tk)))), Hv, Hk. cbn [mbind option_bind].
  rewrite Hm. cbn [mbind option_bind]. rewrite Htk. cbn [mbind option_bind].
  eexists. split; [done|]. split; [|done]. split; cbn [mem g_market_pool g_markets]; try done.
  - eapply pool_free_frame; [exact Hf|]. intros a Ha. rewrite lookup_insert_ne; [done|]. intros <-. by apply (Hl _ _ Hk).
  - intros k m' Hm'. destruct (Hl k m' Hm') as [? ?]. split; [done|]. destruct (decide (m = m')) as [<-|Hne].
    + rewrite lookup_insert_eq. eauto.
    + by rewrite lookup_insert_ne.
Qed.

Lemma consume_ok t R fl d tk pad m ms f :
  registered t R fl -> ticker d = tk ++ 0 :: pad -> QUOTE ∉ tk -> 0 ∉ tk -> (length tk <= 31)%nat ->
  R !! key_of tk = Some m -> mem t !! m = Some ms -> implements (book ms) f -> om_ok (om ms) ->
  0 <= price d <= 99 -> 0 <= f (side d) (price d) + delta d < 2 ^ 31 ->
  exists outs t' bk om', consume d t = Some (outs, t') /\ registered t' R fl /\
    mem t' = <[m := mkMarket bk om']> (mem t) /\ implements bk (bump d f) /\ om_step (om ms) om' /\ outs_decode tk (om ms) bk outs.
Proof.
  intros Hr Ht Hq H0 Hlen Hk Hm Hb Hom Hp Hqty.
  destruct (tick_ok d tk pad ms f Hq H0 Hlen Hb Hom Hp Hqty) as (outs & bk & om' & Htk & Hbk & Hst & Hdec).
  destruct (consume_tick t R fl d tk m ms outs (mkMarket bk om') Hr) as (t' & ? & ? & ?); [rewrite Ht; by apply Serialize.c_string_ok|done..|by rewrite Ht|].
  by exists outs, t', bk, om'.
Qed.

(** The same without a condition on the quantities but their size. *)
Lemma consume_bounded K D t R fl d tk pad m ms :
  registered t R fl -> ticker d = tk ++ 0 :: pad -> QUOTE ∉ tk -> 0 ∉ tk -> (length tk <= 31)%nat ->
  R !! key_of tk = Some m -> mem t !! m = Some ms -> bounded K (book ms) -> om_ok (om ms) ->
  0 <= D -> 0 <= price d <= 99 -> Z.abs (delta d) <= D -> K + D < 2 ^ 31 ->
  exists outs t' bk om', consume d t = Some (outs, t') /\ registered t' R fl /\
    mem t' = <[m := mkMarket bk om']> (mem t) /\ bounded (K + D) bk /\ om_step (om ms) om'.
Proof.
  intros Hr Ht Hq H0 Hlen Hk Hm Hb Hom HD Hp Hd HK.
  destruct (tick_bounded K D d tk pad ms Hq H0 Hlen Hb Hom HD Hp Hd HK) as (outs & bk & om' & Htk & Hbk & Hst & Hdec).
  destruct (consume_tick t R fl d tk m ms outs (mkMarket bk om') Hr) as (t' & ? & ? & ?); [rewrite Ht; by apply Serialize.c_string_ok|done..|by rewrite Ht|].
  by exists outs, t', bk, om'.
Qed.

End dispatch.

(** ** The program's tables: [Pool<MarketState, 256>] and [FlatHashMap<uint64_t, MarketState*, 1024>] *)
(** The first word of a [MarketState] is made of the first two levels of its book. *)
#[export] Instance market_overlay : Overlay MarketState.
Proof.
  refine {| link_get x := default 0 (yes_levels_ (book x) !! 0%nat) + 2 ^ 32 * default 0 (yes_levels_ (book x) !! 1%nat);
            link_set p x := let b := book x in
              mkMarket (mkBook (p mod 2 ^ 32 :: p / 2 ^ 32 :: drop 2 (yes_levels_ b)) (no_levels_ b) (best_yes_bid_ b) (best_no_bid_ b)) (om x) |}.
  intros p x. cbn -[Z.pow Z.modulo Z.div]. pose proof (Z.div_mod p (2 ^ 32)). lia.
Defined.
#[export] Instance market_pool_ops : PoolOps Pool.Pool MarketState := Pool.pool_ops.
#[export] Instance market_pool_laws : PoolLaws Pool.Pool MarketState := Pool.pool_laws.
Definition zeroed_market : Inhabited Z := populate 0.
#[export] Instance markets_ops : IndexOps (Fhm.FlatHashMap Z) Z := @Fhm.index_ops Z zeroed_market 10.
#[export] Instance markets_laws : IndexLaws (Fhm.FlatHashMap Z) Z := @Fhm.index_laws Z zeroed_market 10 ltac:(lia).
#[export] Instance markets_room : IndexRoom (Fhm.FlatHashMap Z) Z 256.
Proof. split; [|done]. intros k Hk. simpl. unfold Fhm.EMPTY. lia. Qed.

Abbreviation HotTables := (Tables (P := Pool.Pool) (I := Fhm.FlatHashMap Z)).

(** [sizeof(MarketState)]; the pool's memory is zero-filled. *)
Definition MARKET_SIZE : Z := 848.
Definition market_blocks (base : Z) : list Z := Pool.blocks MARKET_SIZE N_TICKERS base.
Definition zeroed (base : Z) : gmap Z MarketState :=
  list_to_map ((fun a => (a, mkMarket empty_book (mkManager no_order no_order 0))) <$> market_blocks base).
Definition make_tables (base : Z) : option HotTables :=
  '(m, p) ← Pool.make MARKET_SIZE N_TICKERS base (zeroed base);
  Some (mkTables m p idx_make).

Lemma zeroed_market_mapped base a : a ∈ market_blocks base -> is_Some (zeroed base !! a).
Proof.
  intros Ha. unfold zeroed. generalize dependent (market_blocks base). intros l Ha.
  induction l as [|b l IH]; [set_solver|]. csimpl. destruct (decide (b = a)) as [->|Hne].
  - rewrite lookup_insert_eq. eauto.
  - rewrite lookup_insert_ne by done. apply IH. set_solver.
Qed.

Lemma make_registered base : 0 < base -> exists t fl, make_tables base = Some t /\ registered t ∅ fl /\ length fl = N_TICKERS.
Proof.
  intros Hb. destruct (Pool.make_free_list MARKET_SIZE N_TICKERS base) with (m := zeroed base)
    as (m & p & Hmk & fl & Hfl & Hperm & Hmap); [unfold N_TICKERS; lia|done|done|apply zeroed_market_mapped|].
  destruct (idx_make_ok (T := Fhm.FlatHashMap Z) (V := Z)) as [Hi Hv].
  unfold make_tables. rewrite Hmk. cbn [mbind option_bind]. eexists _, fl. split; [done|]. split.
  - split; cbn [mem g_market_pool g_markets]; [exact Hi|exact Hv|exact Hfl|apply Hfl|..].
    + intros k k' m'. by rewrite lookup_empty.
    + intros k m'. by rewrite lookup_empty.
  - rewrite app_nil_l in Hperm. rewrite Hperm. unfold Pool.blocks. by rewrite length_fmap, length_seq.
Qed.

(** The 256 names have 256 keys. *)
Lemma names_distinct : NoDup (key_of <$> (market_name <$> List.seq 0 N_TICKERS)).
Proof. apply (bool_decide_unpack _). vm_compute. exact Logic.I. Qed.

(** [register_markets] from the constructors. *)
Lemma registration base : 0 < base ->
  exists t t' (R : gmap Z Z), make_tables base = Some t /\ register_markets t = Some t' /\ registered t' R [] /\
    forall n, n ∈ market_name <$> List.seq 0 N_TICKERS -> exists m, R !! key_of n = Some m /\ mem t' !! m = Some new_market.
Proof.
  intros Hbase. destruct (make_registered base Hbase) as (t & fl & Ht & Hr & Hfl). exists t. unfold register_markets.
  destruct (register_names_ok (market_name <$> List.seq 0 N_TICKERS) t ∅ fl Hr names_distinct) as (t' & R & Hreg & Hr' & _ & Hall).
  - intros. apply lookup_empty.
  - rewrite length_fmap, length_seq, Hfl. lia.
  - rewrite length_fmap, length_seq. vm_compute. discriminate.
  - exists t', R. rewrite drop_ge in Hr' by (rewrite length_fmap, length_seq, Hfl; lia). split_and!; done.
Qed.

(** Every market is registered: starting from the constructors of the pool and of the
    hash map, [register_markets] neither aborts nor fails to insert, and afterwards the
    256 ticker names lead, through their FNV hashes, to 256 different blocks, each a
    fresh market. *)
Theorem markets_registered (base : Z) (Hbase : 0 < base) :
  exists t t' (R : gmap Z Z), make_tables base = Some t /\ register_markets t = Some t' /\ registered t' R [] /\
    forall i, (i < N_TICKERS)%nat -> exists m, R !! key_of (market_name i) = Some m /\ mem t' !! m = Some new_market /\
      forall j, (j < N_TICKERS)%nat -> R !! key_of (market_name j) = Some m -> j = i.
Proof.
  destruct (registration base Hbase) as (t & t' & R & Ht & Hreg & Hr' & Hall). exists t, t', R. split_and!; [done..|].
  intros i Hi. destruct (Hall (market_name i)) as (m & Hm & Hn).
  { apply list_elem_of_fmap_2, elem_of_seq. lia. }
  exists m. split_and!; [done..|]. intros j Hj Hmj. pose proof (reg_inj _ _ _ Hr' _ _ _ Hmj Hm) as E.
  eapply (NoDup_lookup _ j i _ names_distinct); rewrite !list_lookup_fmap, lookup_seq_lt by lia; simpl; [reflexivity|]. by rewrite E.
Qed.

Lemma markets_registered_witness :
  exists t t' (R : gmap Z Z), make_tables 65536 = Some t /\ register_markets t = Some t' /\ registered t' R [] /\
    forall i, (i < N_TICKERS)%nat -> exists m, R !! key_of (market_name i) = Some m /\ mem t' !! m = Some new_market /\
      forall j, (j < N_TICKERS)%nat -> R !! key_of (market_name j) = Some m -> j = i.
Proof. apply (markets_registered 65536). lia. Defined.

(** C10. One iteration of the consumer updates one market and no other: for a delta of a
    registered ticker whose quantity stays a quantity, the dispatch finds the market, its
    book becomes the book of the updated ladder, the bytes produced decode to the actions
    that move the open orders to the new quote, and every other market keeps its state. *)
Theorem hotpath_step (t : HotTables) (R : gmap Z Z) fl d tk pad m ms f
    (Hr : registered t R fl) (Ht : ticker d = tk ++ 0 :: pad) (Hq : QUOTE ∉ tk) (H0 : 0 ∉ tk) (Hlen : (length tk <= 31)%nat)
    (Hk : R !! key_of tk = Some m) (Hm : mem t !! m = Some ms) (Hb : implements (book ms) f) (Hom : om_ok (om ms))
    (Hp : 0 <= price d <= 99) (Hqty : 0 <= f (side d) (price d) + delta d < 2 ^ 31) :
  exists outs t' bk om', consume d t = Some (outs, t') /\ registered t' R fl /\
    mem t' !! m = Some (mkMarket bk om') /\ implements bk (bump d f) /\
    (forall m', m' ≠ m -> mem t' !! m' = mem t !! m') /\ outs_decode tk (om ms) bk outs.
Proof.
  destruct (consume_ok t R fl d tk pad m ms f Hr Ht Hq H0 Hlen Hk Hm Hb Hom Hp Hqty) as (outs & t' & bk & om' & H1 & H2 & H3 & H4 & _ & H5).
  exists outs, t', bk, om'. rewrite H3. split_and!; [done|done|apply lookup_insert_eq|done| |done].
  intros m' Hm'. by rewrite lookup_insert_ne.
Qed.

(** A table with one market. *)
Definition demo_name : bytes := market_name 0.
Definition demo_delta : OrderbookDelta := mkDelta (demo_name ++ 0 :: replicate 24 0) 1 1 1 10 42 YES.

Lemma demo_tables : exists t R fl m, registered (t : HotTables) R fl /\ R !! key_of demo_name = Some m /\ mem t !! m = Some new_market.
Proof.
  destruct (make_registered 65536) as (t & fl & Ht & Hr & Hfl); [lia|].
  destruct (register_names_ok [demo_name] t ∅ fl Hr) as (t' & R & _ & Hr' & _ & Hall).
  - apply NoDup_singleton.
  - intros. apply lookup_empty.
  - rewrite Hfl. unfold N_TICKERS. simpl. lia.
  - vm_compute. discriminate.
  - destruct (Hall demo_name (list_elem_of_here _ _)) as (m & ? & ?). eauto 10.
Qed.

Lemma empty_book_implements : implements empty_book (fun _ _ => 0).
Proof.
  intros []; (split; [done|]); (split; [intros p Hp|split_and!; simpl; [lia|lia|done|by left]]);
    (split; [apply lookup_replicate_2|]; lia).
Qed.

Lemma hotpath_step_witness :
  exists (t : HotTables) outs t' m bk om', consume demo_delta t = Some (outs, t') /\
    mem t' !! m = Some (mkMarket bk om') /\ implements bk (bump demo_delta (fun _ _ => 0)) /\
    outs_decode demo_name new_manager bk outs.
Proof.
  destruct demo_tables as (t & R & fl & m & Hr & Hk & Hm).
  destruct (hotpath_step t R fl demo_delta demo_name (replicate 24 0) m new_market (fun _ _ => 0)) as (outs & t' & bk & om' & H1 & _ & H2 & H3 & _ & H4).
  - exact Hr.
  - reflexivity.
  - apply (bool_decide_unpack _). vm_compute. exact Logic.I.
  - apply (bool_decide_unpack _). vm_compute. exact Logic.I.
  - vm_compute. lia.
  - exact Hk.
  - exact Hm.
  - exact empty_book_implements.
  - split; [simpl; lia|]. split; simpl; unfold fits; lia.
  - simpl. lia.
  - simpl. lia.
  - exists t, outs, t', m, bk, om'. exact (conj H1 (conj H2 (conj H3 H4))).
Defined.

End HotPath.
