(* ===== verification/Pipeline.v ===== *)
(** * The two-thread pipeline of the hot-path benchmarks

    [bench/bench_hotpath_pipe.cpp], [bench_hotpath_multi.cpp] and
    [bench_hotpath_paced.cpp] are the same program around different bodies: a producer
    thread parses payloads and pushes the deltas into the ring of [Spsc.v]; a consumer
    thread pops them and works on them; the main thread releases both from a barrier
    after their warm-up and joins them.  What differs is a record, [program]:
    [Benches.v] has one for each of the three.  Here are the threads, and what holds
    for every such program.

    One call of [try_push] or [try_pop] is one step: [Spsc.v] proves that the calls of
    the two threads are linearizable.  A schedule is a list of labels, and the label of
    a thread carries the time stamp the thread reads. *)
From stdpp Require Import gmap list numbers strings sorting.
From S2P Require Import Prelude Feed Strategy Bytes Serialize Spsc Parser Payload HotPath.
Open Scope Z_scope.
Open Scope cpp_scope.

Module Pipeline.
Import Feed Strategy Bytes HotPath.

(** [QUEUE_CAP = 1024] *)
Definition QUEUE_LOG : Z := 10.

(** ** What differs between the programs *)
(** What reading the clock before a message leads to. *)
Inductive pace (Clk : Type) := Wait | Go (stamp : Z) (c : Clk).
Arguments Wait {Clk}.
Arguments Go {Clk} stamp c.

Record program (St Clk : Type) := mkProgram {
  (** The consumer's work on one delta: the buffers written, the new state. *)
  work : OrderbookDelta -> St -> option (list (Z * bytes) * St);
  (** The payload index of the k-th message, warm-up included. *)
  pick : nat -> nat;
  (** The producer's clock variables when it leaves the barrier, before each message,
      and when it ends. *)
  anchor : Z -> Clk -> Clk;
  gate : nat -> Z -> Clk -> option (pace Clk);
  finish : Clk -> Clk;
  (** Whether the consumer stores [g_throughput_start_tsc]. *)
  keeps_start : bool;
}.
Arguments work {St Clk}. Arguments pick {St Clk}. Arguments anchor {St Clk}. Arguments gate {St Clk}.
Arguments finish {St Clk}. Arguments keeps_start {St Clk}. Arguments mkProgram {St Clk}.

(** ** The state *)
Inductive producer := PLoop (i : nat) | PSpin (i : nat) | PDue (i : nat) | PPush (i : nat) | PDone.
Inductive consumer := CLoop (i : nat) | CSpin (i : nat) | CPop (i : nat) | CDone.
Inductive main_thread := MWait | MJoin | MDone.
Inductive label := Prod (now : Z) | Cons (now : Z) | Main.
#[export] Instance main_thread_eq_dec : EqDecision main_thread.
Proof. solve_decision. Defined.

(** The slots of the ring are static data. *)
Definition blank_msg : HotMsg := mkMsg (mkDelta (replicate 32 0) 0 0 0 0 0 YES) 0.
#[export] Instance HotMsg_inhabited : Inhabited HotMsg := populate blank_msg.

(** [g_latencies[k] = v] *)
Definition store (k : nat) (v : Z) (l : list Z) : option (list Z) := if (k <? length l)%nat then Some (<[k := v]> l) else None.

Section pipeline.
  (** The program, the payloads, the numbers of iterations; the consumer's data and the
      producer's clock variables at the start, and the content of the producer's message
      before it is written. *)
  Context {JS : Parser.DeltaJson} {St Clk : Type} (prog : program St Clk) (g_pool : list bytes) (N_WARMUP N_TOTAL : nat).
  Context (st0 : St) (clk0 : Clk) (msg0 : HotMsg).

Record producer_state := mkProducer { p_pc : producer; p_msg : HotMsg; p_clock : Clk }.
(** The buffers written and the results are kept for the statements. *)
Record consumer_state := mkConsumer {
  c_pc : consumer;
  market : St;
  written : list (Z * bytes);
  g_latencies : list Z;
  g_throughput_start_tsc : Z;
  g_throughput_end_tsc : Z;
}.
Record pipe := mkPipe {
  g_queue : Spsc.SPSCQueue HotMsg;
  prod : producer_state;
  cons : consumer_state;
  g_threads_ready : Z;
  g_alloc_armed : bool;
  main_pc : main_thread;
}.

(** ** The producer *)
(** [g_pool[i & (N_PAYLOADS - 1)]] *)
Definition payload_at (i : nat) : option bytes := g_pool !! Z.to_nat (Z.land (Z.of_nat i) (Z.of_nat Payload.N_PAYLOADS - 1)).

(** From the clock to the push: parse and stamp; the result of the parser is not
    looked at. *)
Definition produce (i : nat) (now : Z) (p : producer_state) : option producer_state :=
  g ← gate prog i now (p_clock p);
  match g with
  | Wait => Some p
  | Go stamp c =>
    text ← payload_at (pick prog i);
    Some (mkProducer (PPush i) (mkMsg (Parser.parse_orderbook_delta text (msg_delta (p_msg p))).2 stamp) c)
  end.

Definition producer_step (now : Z) (st : pipe) : option pipe :=
  let '(mkPipe q p c ready armed m) := st in
  match p_pc p with
  | PLoop i =>
    if decide (i = N_TOTAL) then Some (mkPipe q (mkProducer PDone (p_msg p) (finish prog (p_clock p))) c ready armed m)
    else if decide (i = N_WARMUP) then Some (mkPipe q (mkProducer (PSpin i) (p_msg p) (p_clock p)) c (ready + 1) armed m)
    else Some (mkPipe q (mkProducer (PDue i) (p_msg p) (p_clock p)) c ready armed m)
  | PSpin i =>
    if armed then Some (mkPipe q (mkProducer (PDue i) (p_msg p) (anchor prog now (p_clock p))) c ready armed m) else Some st
  | PDue i => p ← produce i now p; Some (mkPipe q p c ready armed m)
  | PPush i =>
    let '(ok, q) := Spsc.try_push QUEUE_LOG (p_msg p) q in
    Some (mkPipe q (mkProducer (if (ok : bool) then PLoop (S i) else PPush i) (p_msg p) (p_clock p)) c ready armed m)
  | PDone => Some st
  end.

(** ** The consumer *)
Definition at_pc (pc : consumer) (c : consumer_state) : consumer_state :=
  mkConsumer pc (market c) (written c) (g_latencies c) (g_throughput_start_tsc c) (g_throughput_end_tsc c).

(** From the pop to the end of the loop's body. *)
Definition process (i : nat) (now : Z) (msg : HotMsg) (c : consumer_state) : option consumer_state :=
  '(outs, ms) ← work prog (msg_delta msg) (market c);
  ls ← (if (N_WARMUP <=? i)%nat then store (i - N_WARMUP) (now -64 produce_tsc msg) (g_latencies c) else Some (g_latencies c));
  Some (mkConsumer (CLoop (S i)) ms (written c ++ outs) ls (g_throughput_start_tsc c) (g_throughput_end_tsc c)).

Definition consumer_step (now : Z) (st : pipe) : option pipe :=
  let '(mkPipe q p c ready armed m) := st in
  match c_pc c with
  | CLoop i =>
    if decide (i = N_TOTAL)
    then Some (mkPipe q p (mkConsumer CDone (market c) (written c) (g_latencies c) (g_throughput_start_tsc c) now) ready armed m)
    else if decide (i = N_WARMUP) then Some (mkPipe q p (at_pc (CSpin i) c) (ready + 1) armed m)
    else Some (mkPipe q p (at_pc (CPop i) c) ready armed m)
  | CSpin i =>
    if armed
    then Some (mkPipe q p (mkConsumer (CPop i) (market c) (written c) (g_latencies c)
                 (if keeps_start prog then now else g_throughput_start_tsc c) (g_throughput_end_tsc c)) ready armed m)
    else Some st
  | CPop i =>
    match Spsc.try_pop QUEUE_LOG q with
    | (None, q) => Some (mkPipe q p c ready armed m)
    | (Some msg, q) => c ← process i now msg c; Some (mkPipe q p c ready armed m)
    end
  | CDone => Some st
  end.

(** ** The main thread *)
Definition threads_done (p : producer) (c : consumer) : bool := match p, c with PDone, CDone => true | _, _ => false end.

Definition main_step (st : pipe) : pipe :=
  let '(mkPipe q p c ready armed m) := st in
  match m with
  | MWait => if ready <? 2 then st else mkPipe q p c ready true MJoin
  | MJoin => if threads_done (p_pc p) (c_pc c) then mkPipe q p c ready false MDone else st
  | MDone => st
  end.

Definition step (l : label) (st : pipe) : option pipe :=
  match l with
  | Prod now => producer_step now st
  | Cons now => consumer_step now st
  | Main => Some (main_step st)
  end.

Fixpoint exec (ls : list label) (st : pipe) : option pipe :=
  match ls with [] => Some st | l :: ls => st ← step l st; exec ls st end.

Definition init : pipe :=
  mkPipe (Spsc.make QUEUE_LOG) (mkProducer (PLoop 0) msg0 clk0)
    (mkConsumer (CLoop 0) st0 [] (replicate (N_TOTAL - N_WARMUP) 0) 0 0) 0 false MWait.

(** ** The same work on one thread *)
(** The record the parser writes into, after [n] messages. *)
Fixpoint record_after (n : nat) : OrderbookDelta :=
  match n with
  | O => msg_delta msg0
  | S n => match payload_at (pick prog n) with
           | Some text => (Parser.parse_orderbook_delta text (record_after n)).2
           | None => record_after n
           end
  end.

(** The first [n] messages. *)
Fixpoint sequential (n : nat) : option (list (Z * bytes) * St) :=
  match n with
  | O => Some ([], st0)
  | S n => '(outs, ms) ← sequential n; '(outs', ms') ← work prog (record_after (S n)) ms; Some (outs ++ outs', ms')
  end.

(** ** Where the threads are *)
Definition sent (p : producer) : nat := match p with PLoop i | PSpin i | PDue i | PPush i => i | PDone => N_TOTAL end.
Definition taken (c : consumer) : nat := match c with CLoop i | CSpin i | CPop i => i | CDone => N_TOTAL end.
Definition p_past (p : producer) : bool :=
  match p with PLoop i => (N_WARMUP <? i)%nat | PSpin _ => false | PDue i | PPush i => (N_WARMUP <=? i)%nat | PDone => true end.
Definition c_past (c : consumer) : bool :=
  match c with CLoop i => (N_WARMUP <? i)%nat | CSpin _ => false | CPop i => (N_WARMUP <=? i)%nat | CDone => true end.
Definition p_waits (p : producer) : bool := match p with PSpin _ => true | _ => false end.
Definition c_waits (c : consumer) : bool := match c with CSpin _ => true | _ => false end.
Definition p_range (p : producer) : Prop :=
  match p with PLoop i => (i <= N_TOTAL)%nat | PSpin i => i = N_WARMUP | PDue i | PPush i => (i < N_TOTAL)%nat | PDone => True end.
Definition c_range (c : consumer) : Prop :=
  match c with CLoop i => (i <= N_TOTAL)%nat | CSpin i => i = N_WARMUP | CPop i => (i < N_TOTAL)%nat | CDone => True end.
Definition p_record (p : producer) : nat := match p with PLoop i | PSpin i | PDue i => i | PPush i => S i | PDone => N_TOTAL end.

(** ** The invariant *)
Record inv (st : pipe) : Prop := {
  inv_p : p_range (p_pc (prod st));
  inv_c : c_range (c_pc (cons st));
  inv_msg : msg_delta (p_msg (prod st)) = record_after (p_record (p_pc (prod st)));
  inv_queue : exists l, Spsc.holds QUEUE_LOG (g_queue st) l /\
    msg_delta <$> l = (fun i => record_after (S i)) <$> List.seq (taken (c_pc (cons st))) (length l) /\
    sent (p_pc (prod st)) = (taken (c_pc (cons st)) + length l)%nat;
  inv_out : sequential (taken (c_pc (cons st))) = Some (written (cons st), market (cons st));
  inv_lat : length (g_latencies (cons st)) = (N_TOTAL - N_WARMUP)%nat;
  inv_ready : g_threads_ready st =
    Z.b2z (p_past (p_pc (prod st)) || p_waits (p_pc (prod st))) + Z.b2z (c_past (c_pc (cons st)) || c_waits (c_pc (cons st)));
  inv_main : match main_pc st with
    | MWait => g_alloc_armed st = false /\ p_past (p_pc (prod st)) = false /\ c_past (c_pc (cons st)) = false
    | MJoin => g_alloc_armed st = true /\ g_threads_ready st = 2
    | MDone => g_alloc_armed st = false /\ g_threads_ready st = 2 /\ threads_done (p_pc (prod st)) (c_pc (cons st)) = true
    end;
}.

(** ** Enabledness and the measure *)
Definition can (l : label) (st : pipe) : Prop :=
  match l with
  | Prod now => match p_pc (prod st) with
              | PLoop _ => True
              | PSpin _ => g_alloc_armed st = true
              | PDue i => gate prog i now (p_clock (prod st)) ≠ Some Wait
              | PDone => False
              | PPush i => (i < taken (c_pc (cons st)) + 1024)%nat
              end
  | Cons _ => match c_pc (cons st) with
              | CLoop _ => True
              | CSpin _ => g_alloc_armed st = true
              | CPop i => (i < sent (p_pc (prod st)))%nat
              | CDone => False
              end
  | Main => match main_pc st with
            | MWait => 2 <= g_threads_ready st
            | MJoin => threads_done (p_pc (prod st)) (c_pc (cons st)) = true
            | MDone => False
            end
  end.

Definition p_left (p : producer) : nat :=
  match p with PLoop i => 4 * (N_TOTAL - i) + 1 | PSpin i => 4 * (N_TOTAL - i) | PDue i => 4 * (N_TOTAL - i) - 1 | PPush i => 4 * (N_TOTAL - i) - 2 | PDone => 0 end.
Definition c_left (c : consumer) : nat :=
  match c with CLoop i => 3 * (N_TOTAL - i) + 1 | CSpin i => 3 * (N_TOTAL - i) | CPop i => 3 * (N_TOTAL - i) - 1 | CDone => 0 end.
Definition m_left (m : main_thread) : nat := match m with MWait => 2 | MJoin => 1 | MDone => 0 end.
Definition left (st : pipe) : nat := p_left (p_pc (prod st)) + c_left (c_pc (cons st)) + m_left (main_pc st).

(** Same control state: only the cached indices of the ring may differ. *)
Definition same_control (st st' : pipe) : Prop :=
  p_pc (prod st') = p_pc (prod st) /\ p_clock (prod st') = p_clock (prod st) /\ c_pc (cons st') = c_pc (cons st) /\ g_threads_ready st' = g_threads_ready st /\
  g_alloc_armed st' = g_alloc_armed st /\ main_pc st' = main_pc st.

(** What a step does: defined, keeps the invariant, and makes progress if it can. *)
Definition good_step (l : label) (st : pipe) : Prop :=
  exists st', step l st = Some st' /\ inv st' /\ ((left st' < left st)%nat \/ ~ can l st /\ same_control st st').

(** ** Every step is good *)
Lemma payload_at_pool i : length g_pool = Payload.N_PAYLOADS -> is_Some (payload_at i).
Proof.
  intros Hpool. unfold payload_at. apply lookup_lt_is_Some_2. rewrite Hpool. change (Z.of_nat Payload.N_PAYLOADS - 1) with (Z.ones 10).
  rewrite Z.land_ones by lia. pose proof (Z.mod_pos_bound (Z.of_nat i) (2 ^ 10) ltac:(lia)). change (2 ^ 10) with 1024 in *.
  unfold Payload.N_PAYLOADS. lia.
Qed.

Section steps.
  Context (Hpool : length g_pool = Payload.N_PAYLOADS) (Hw : (N_WARMUP < N_TOTAL)%nat) (Hseq : is_Some (sequential N_TOTAL)).
  Context (Hgate : forall i now c, (i < N_TOTAL)%nat -> is_Some (gate prog i now c)).

Lemma sequential_prefix n : (n <= N_TOTAL)%nat -> is_Some (sequential n).
Proof.
  intros Hn. remember (N_TOTAL - n)%nat as k eqn:Ek. revert n Hn Ek. induction k as [|k IH]; intros n Hn Ek.
  - by replace n with N_TOTAL by lia.
  - destruct (IH (S n)) as [x Hx]; [lia..|]. cbn [sequential] in Hx. destruct (sequential n); [by eexists|done].
Qed.

(** Parsing the next payload. *)
Lemma produce_record i now p : (i < N_TOTAL)%nat -> msg_delta (p_msg p) = record_after i ->
  exists p', produce i now p = Some p' /\
    (gate prog i now (p_clock p) = Some Wait /\ p' = p \/ p_pc p' = PPush i /\ msg_delta (p_msg p') = record_after (S i)).
Proof.
  intros Hi Hm. unfold produce. destruct (Hgate i now (p_clock p) Hi) as [g Hg]. rewrite Hg. cbn [mbind option_bind].
  destruct g as [|stamp c]; [eexists; split; [done|by left]|]. cbn [record_after].
  destruct (payload_at_pool (pick prog i) Hpool) as [text ->]. cbn [mbind option_bind].
  eexists. split; [done|]. right. split; [done|]. cbn [p_msg msg_delta]. by rewrite Hm.
Qed.

(** Processing the message at the front of the queue. *)
Lemma process_next i now msg c : (i < N_TOTAL)%nat -> msg_delta msg = record_after (S i) ->
  sequential i = Some (written c, market c) -> length (g_latencies c) = (N_TOTAL - N_WARMUP)%nat ->
  exists c', process i now msg c = Some c' /\ c_pc c' = CLoop (S i) /\ sequential (S i) = Some (written c', market c') /\
    length (g_latencies c') = (N_TOTAL - N_WARMUP)%nat.
Proof.
  intros Hi Hm Hs Hl. destruct (sequential_prefix (S i)) as [x Hx]; [lia|]. pose proof Hx as Hx'. cbn [sequential] in Hx'.
  rewrite Hs in Hx'. cbn [mbind option_bind] in Hx'. unfold process. rewrite Hm.
  destruct (work prog (record_after (S i)) (market c)) as [[outs ms]|]; [|done]. cbn [mbind option_bind] in *. rewrite Hx.
  unfold store. rewrite Hl. destruct (Nat.leb_spec N_WARMUP i).
  - rewrite (proj2 (Nat.ltb_lt _ _)) by lia. cbn [mbind option_bind]. eexists. split; [done|]. simpl. by rewrite length_insert.
  - cbn [mbind option_bind]. by eexists.
Qed.

Lemma producer_good now st : inv st -> good_step (Prod now) st.
Proof.
  intros [Hp Hc Hm Hq Ho Hl Hr Hmain]. destruct st as [q [pp msg ck] c r a m]. unfold good_step, step, producer_step. simpl in *.
  assert (~ threads_done PDone (c_pc c) = true \/ pp = PDone \/ m ≠ MDone) as Hlive.
  { destruct m; [auto..|]. destruct Hmain as (_ & _ & Hd). destruct pp; auto; by destruct (c_pc c). }
  destruct pp as [i|i|i|i|]; simpl in *.
  - destruct (decide (i = N_TOTAL)) as [->|Hn].
    { eexists. split; [done|]. split; [|left; unfold left; simpl; lia]. rewrite (proj2 (Nat.ltb_lt _ _) Hw) in *. split; simpl; try done.
      destruct m; [done..|]. naive_solver. }
    destruct (decide (i = N_WARMUP)) as [->|Hn'].
    + eexists. split; [done|]. split; [|left; unfold left; simpl; lia]. rewrite Nat.ltb_irrefl in *. split; simpl; try done.
      * rewrite Hr. simpl. lia.
      * destruct m; simpl in *; [naive_solver|..]; destruct (c_past (c_pc c) || c_waits (c_pc c)); simpl in Hr; lia.
    + eexists. split; [done|]. split; [|left; unfold left; simpl; lia]. split; simpl; try done; [lia|..].
      * rewrite Hr. f_equal. f_equal. destruct (Nat.ltb_spec N_WARMUP i), (Nat.leb_spec N_WARMUP i); (done || lia).
      * destruct m; [|done|naive_solver]. split_and!; try apply Hmain. destruct Hmain as (_ & Hlt & _).
        apply Nat.ltb_ge in Hlt. apply Nat.leb_gt. lia.
  - subst i. destruct a.
    + eexists. split; [done|]. split; [|left; unfold left; simpl; lia]. split; simpl; try done.
      * by rewrite Hr, Nat.leb_refl.
      * destruct m; [naive_solver|done|naive_solver].
    + eexists. split; [done|]. split; [by split|]. right. split; [done|done].
  - destruct (produce_record i now (mkProducer (PDue i) msg ck) Hp Hm) as (p' & -> & [[Hg ->]|[Hpc Hm']]); cbn [mbind option_bind].
    + eexists. split; [done|]. split; [by split|]. right. split; [simpl in *; naive_solver|done].
    + eexists. split; [done|]. split; [|left; unfold left; simpl; rewrite Hpc; simpl; lia]. split; simpl; rewrite ?Hpc; done.
  - destruct Hq as (l & Hq & Hmsgs & Hsent). pose proof (Spsc.push_holds QUEUE_LOG ltac:(unfold QUEUE_LOG; lia) q l msg Hq) as Hpush.
    change (Spsc.Capacity QUEUE_LOG) with 1024 in Hpush. case_decide.
    + destruct Hpush as (q' & -> & Hq'). eexists. split; [done|]. split; [|left; unfold left; simpl; lia]. split; simpl in *; try done.
      exists (l ++ [msg]). split; [done|]. rewrite length_app. simpl. split; [|lia]. rewrite seq_app, !fmap_app, Hmsgs. simpl.
      rewrite <- Hsent. by rewrite Hm.
    + destruct Hpush as (q' & -> & Hq'). eexists. split; [done|]. split; [|right; split; [simpl in *; lia|done]]. split; simpl in *; try done.
      by exists l.
  - eexists. split; [done|]. split; [by split|]. right. split; [simpl; tauto|done].
Qed.

Lemma consumer_good now st : inv st -> good_step (Cons now) st.
Proof.
  intros [Hp Hc Hm Hq Ho Hl Hr Hmain]. destruct st as [q p c r a m]. unfold good_step, step, consumer_step. simpl in *.
  destruct (c_pc c) as [i|i|i|] eqn:Ec; simpl in *.
  - destruct (decide (i = N_TOTAL)) as [->|Hn].
    { eexists. split; [done|]. split; [|left; unfold left; simpl; rewrite Ec; simpl; lia]. split; simpl; try done.
      - rewrite Hr. rewrite (proj2 (Nat.ltb_lt _ _) Hw). done.
      - destruct m; [|done|]; rewrite (proj2 (Nat.ltb_lt _ _) Hw) in *; [naive_solver|].
        destruct Hmain as (_ & _ & Hd). by destruct (p_pc p). }
    destruct (decide (i = N_WARMUP)) as [->|Hn'].
    + eexists. split; [done|]. split; [|left; unfold left; simpl; rewrite Ec; simpl; lia]. split; simpl; try done.
      * rewrite Hr, Nat.ltb_irrefl. simpl. lia.
      * rewrite Nat.ltb_irrefl in Hr. simpl in Hr. destruct m; simpl in *; [naive_solver|..];
          destruct (p_past (p_pc p) || p_waits (p_pc p)); simpl in Hr; lia.
    + eexists. split; [done|]. split; [|left; unfold left; simpl; rewrite Ec; simpl; lia]. split; simpl; try done; [lia|..].
      * rewrite Hr. f_equal. f_equal. destruct (Nat.ltb_spec N_WARMUP i), (Nat.leb_spec N_WARMUP i); (done || lia).
      * destruct m; [|done|]; [|destruct Hmain as (_ & _ & ?); by destruct (p_pc p)].
        split_and!; try apply Hmain. destruct Hmain as (_ & _ & Hlt). apply Nat.ltb_ge in Hlt. apply Nat.leb_gt. lia.
  - subst i. destruct a.
    + eexists. split; [done|]. split; [|left; unfold left; simpl; rewrite Ec; simpl; lia]. split; simpl; try done.
      * by rewrite Hr, Nat.leb_refl.
      * destruct m; [naive_solver|done|naive_solver].
    + eexists. split; [done|]. split; [split; simpl; by rewrite ?Ec|]. right. split; [simpl; by rewrite ?Ec|done].
  - destruct Hq as (l & Hq & Hmsgs & Hsent). pose proof (Spsc.pop_holds QUEUE_LOG ltac:(unfold QUEUE_LOG; lia) q l Hq) as Hpop.
    destruct l as [|msg l].
    + destruct Hpop as (q' & -> & _ & _ & Hq'). eexists. split; [done|].
      split; [|right; split; [simpl; rewrite ?Ec; simpl in *; lia|done]]. split; simpl; rewrite ?Ec; try done. by exists [].
    + destruct Hpop as (q' & _ & _ & -> & _ & Hq' & _). simpl in Hmsgs. injection Hmsgs as Hmsg Hmsgs.
      destruct (process_next i now msg c Hc Hmsg Ho Hl) as (c' & -> & Ec' & Ho' & Hl'). cbn [mbind option_bind].
      eexists. split; [done|]. split; [|left; unfold left; simpl; rewrite Ec, Ec'; simpl; lia]. split; simpl; rewrite ?Ec'; try done.
      exists l. split; [done|]. split; [done|]. simpl in *. lia.
  - eexists. split; [done|]. split; [split; simpl; rewrite ?Ec; done|]. right. split; [simpl; rewrite ?Ec; tauto|done].
Qed.

Lemma main_good st : inv st -> good_step Main st.
Proof.
  intros [Hp Hc Hm Hq Ho Hl Hr Hmain]. destruct st as [q p c r a m]. unfold good_step, step, main_step. simpl in *. eexists. split; [done|].
  destruct m; simpl in *.
  - destruct (Z.ltb_spec r 2).
    + split; [by split|]. right. split; [simpl; lia|done].
    + split; [|left; unfold left; simpl; lia]. split; simpl; try done. split; [done|].
      destruct (p_past (p_pc p) || p_waits (p_pc p)), (c_past (c_pc c) || c_waits (c_pc c)); simpl in Hr; lia.
  - destruct (threads_done (p_pc p) (c_pc c)) eqn:Hd.
    + split; [|left; unfold left; simpl; lia]. split; simpl; try done. split_and!; try done. apply Hmain.
    + split; [by split|]. right. split; [simpl; by rewrite ?Hd|done].
  - split; [by split|]. right. split; [simpl; tauto|done].
Qed.

Lemma all_good l st : inv st -> good_step l st.
Proof. destruct l; [apply producer_good|apply consumer_good|apply main_good]. Qed.

Lemma inv_init : inv init.
Proof.
  split; simpl; try done; try lia.
  - exists []. split; [apply Spsc.make_holds; unfold QUEUE_LOG; lia|done].
  - by rewrite length_replicate.
Qed.

Lemma exec_inv ls : forall st, inv st -> exists st', exec ls st = Some st' /\ inv st' /\ (left st' <= left st)%nat.
Proof.
  induction ls as [|l ls IH]; intros st Hi; cbn [exec]; [by exists st|].
  destruct (all_good l st Hi) as (st1 & -> & Hi1 & Hle). cbn [mbind option_bind].
  destruct (IH st1 Hi1) as (st2 & ? & ? & ?). exists st2. split_and!; [done..|].
  destruct Hle as [?|(_ & E1 & _ & E2 & _ & _ & E3)]; [lia|]. unfold left in *. rewrite E1, E2, E3 in *. lia.
Qed.

(** ** The barrier *)
Lemma p_arrived p : p_range p -> p_past p || p_waits p = true -> (N_WARMUP <= sent p)%nat.
Proof. destruct p; simpl; rewrite ?orb_false_r, ?Nat.ltb_lt, ?Nat.leb_le; lia. Qed.

Lemma c_arrived c : c_range c -> c_past c || c_waits c = true -> (N_WARMUP <= taken c)%nat.
Proof. destruct c; simpl; rewrite ?orb_false_r, ?Nat.ltb_lt, ?Nat.leb_le; lia. Qed.

Lemma barrier st : inv st ->
  0 <= g_threads_ready st <= 2 /\ (g_alloc_armed st = true -> g_threads_ready st = 2) /\
  (p_past (p_pc (prod st)) = true \/ c_past (c_pc (cons st)) = true ->
   g_threads_ready st = 2 /\ (N_WARMUP <= sent (p_pc (prod st)))%nat /\ (N_WARMUP <= taken (c_pc (cons st)))%nat).
Proof.
  intros [Hp Hc _ _ _ _ Hr Hm]. pose proof (p_arrived _ Hp) as Hap. pose proof (c_arrived _ Hc) as Hac.
  assert (0 <= g_threads_ready st <= 2 /\ (g_threads_ready st = 2 ->
    (N_WARMUP <= sent (p_pc (prod st)))%nat /\ (N_WARMUP <= taken (c_pc (cons st)))%nat)) as [Hb H2].
  { destruct (_ || _), (_ || _); simpl in Hr; split; (lia || auto). }
  split; [done|]. destruct (main_pc st).
  - destruct Hm as (-> & -> & ->). split; [done|]. by intros [].
  - destruct Hm as (_ & E). auto.
  - destruct Hm as (_ & E & _). auto.
Qed.

(** ** Some thread can always move *)
(** Past the barrier on one side means released. *)
Lemma past_armed st : inv st -> main_pc st ≠ MDone -> p_past (p_pc (prod st)) = true \/ c_past (c_pc (cons st)) = true ->
  g_alloc_armed st = true.
Proof. intros [_ _ _ _ _ _ _ Hmain] Hnd Hpast. destruct (main_pc st); [|tauto|done]. destruct Hmain as (_ & E1 & E2). rewrite E1, E2 in Hpast. by destruct Hpast. Qed.

(** The times the producer reads in [ls] do not make it wait. *)
Definition clear (ls : list label) (st : pipe) : Prop :=
  forall i now, p_pc (prod st) = PDue i -> Prod now ∈ ls -> gate prog i now (p_clock (prod st)) ≠ Some Wait.

Lemma some_can ls st : inv st -> main_pc st ≠ MDone -> clear ls st ->
  (forall now, Prod now ∈ ls -> can (Prod now) st) \/ (forall now, can (Cons now) st) \/ can Main st.
Proof.
  intros Hi Hnd Hclear. pose proof (past_armed st Hi Hnd) as Harm. destruct Hi as [Hp Hc Hm (l & Hq & _ & Hs) Ho Hl Hr Hmain].
  unfold can, clear in *. destruct st as [q [pp msg ck] c r a m]. simpl in *.
  destruct pp as [i|i|i|i|], (c_pc c) as [j|j|j|] eqn:Ec; simpl in *; try tauto; try (left; intros now Hnow; by apply Hclear).
  - destruct m; [|tauto|done]. right; right. lia.
  - destruct (decide (j < N_WARMUP)%nat); [right; left; lia|]. left. intros _ _. apply Harm. right. apply Nat.leb_le. lia.
  - destruct (decide (i < j + 1024)%nat); [tauto|]. right; left. intros _. apply Harm. left. apply Nat.leb_le. lia.
  - destruct l; simpl in *; [left|right; left]; lia.
  - left. intros _ _. lia.
  - destruct m; [|tauto|done]. by destruct Hmain as (_ & ? & _).
Qed.

(** ** Fair schedules finish *)
(** The thread of a label. *)
Definition same_thread (l l' : label) : Prop :=
  match l, l' with Prod _, Prod _ | Cons _, Cons _ | Main, Main => True | _, _ => False end.

Lemma can_same_control l st st' : same_control st st' -> can l st -> can l st'.
Proof. intros (E1 & E0 & E2 & E3 & E4 & E5). unfold can. destruct l; by rewrite ?E1, ?E0, ?E2, ?E3, ?E4, ?E5. Qed.

(** A list of labels in which a thread appears that can move whenever it appears makes
    progress. *)
Lemma exec_progress l0 ls : forall st, inv st -> (forall l, l ∈ ls -> same_thread l0 l -> can l st) -> Exists (same_thread l0) ls ->
  exists st', exec ls st = Some st' /\ inv st' /\ (left st' < left st)%nat.
Proof.
  induction ls as [|l ls IH]; intros st Hi Hcan Hex; [by apply Exists_nil in Hex|]. cbn [exec].
  destruct (all_good l st Hi) as (st1 & -> & Hi1 & [Hlt|[Hno Hsame]]); cbn [mbind option_bind].
  - destruct (exec_inv ls st1 Hi1) as (st2 & ? & ? & ?). exists st2. split_and!; [done..|lia].
  - apply Exists_cons in Hex as [Hl|Hex]; [destruct Hno; apply Hcan; [apply list_elem_of_here|done]|].
    destruct (IH st1 Hi1) as (st2 & ? & ? & ?); [|done|].
    { intros l' Hl' Hsame'. eapply can_same_control; [done|]. apply Hcan; [by apply list_elem_of_further|done]. }
    exists st2. split_and!; [done..|]. destruct Hsame as (E1 & _ & E2 & _ & _ & E3). unfold left in *. by rewrite E1, E2, E3 in *.
Qed.

(** A round lets every thread run at least once. *)
Definition round (ls : list label) : Prop :=
  Exists (same_thread (Prod 0)) ls /\ Exists (same_thread (Cons 0)) ls /\ Exists (same_thread Main) ls.

Lemma exec_app ls1 : forall ls2 st, exec (ls1 ++ ls2) st = (st ← exec ls1 st; exec ls2 st).
Proof. induction ls1 as [|l ls1 IH]; intros ls2 st; [done|]. cbn [exec app]. destruct (step l st); [|done]. apply IH. Qed.

Lemma round_progress ls st : inv st -> main_pc st ≠ MDone -> clear ls st -> round ls ->
  exists st', exec ls st = Some st' /\ inv st' /\ (left st' < left st)%nat.
Proof.
  intros Hi Hnd Hclear (H1 & H2 & H3). destruct (some_can ls st Hi Hnd Hclear) as [Hc|[Hc|Hc]].
  - apply (exec_progress (Prod 0)); [done| |done]. intros [] Hl Hs; (done || by apply Hc).
  - apply (exec_progress (Cons 0)); [done| |done]. intros [] Hl Hs; (done || by apply Hc).
  - apply (exec_progress Main); [done| |done]. by intros [] Hl Hs.
Qed.

Lemma done_stays ls : forall st st', inv st -> main_pc st = MDone -> exec ls st = Some st' -> main_pc st' = MDone.
Proof.
  induction ls as [|l ls IH]; intros st st' Hi Hd He; cbn [exec] in He; [by simplify_eq|].
  destruct (all_good l st Hi) as (st1 & E & Hi1 & _). rewrite E in He. apply (IH st1 st' Hi1); [|done].
  destruct st as [q p c r a m]. simpl in Hd. subst m. unfold step, producer_step, consumer_step, main_step, produce, process in E.
  repeat (case_match; simplify_option_eq); done.
Qed.

(** What steps with allowed labels keep, a run keeps. *)
Lemma exec_keeps (allowed : label -> Prop) (J : pipe -> Prop) :
  (forall l st st', allowed l -> inv st -> J st -> step l st = Some st' -> J st') ->
  forall ls st st', Forall allowed ls -> inv st -> J st -> exec ls st = Some st' -> J st'.
Proof.
  intros HJ ls. induction ls as [|l ls IH]; intros st st' Hall Hi Hst He; cbn [exec] in He; [by simplify_eq|]. apply Forall_cons_1 in Hall as [Hl Hall].
  destruct (all_good l st Hi) as (st1 & E & Hi1 & _). rewrite E in He. cbn [mbind option_bind] in He. eapply IH; [done|exact Hi1| |exact He]. exact (HJ l st st1 Hl Hi Hst E).
Qed.

Section until.
  (** [J] is kept by the labels of the schedule, [Q] by all; while [J] holds and [Q] does
      not, the producer does not have to wait. *)
  Context (allowed : label -> Prop) (J Q : pipe -> Prop) `{!forall st, Decision (Q st)}.
  Context (HJ : forall l st st', allowed l -> inv st -> J st -> step l st = Some st' -> J st').
  Context (HQ : forall l st st', inv st -> Q st -> step l st = Some st' -> Q st').
  Context (Hclear : forall ls st, Forall allowed ls -> inv st -> J st -> ~ Q st -> clear ls st).

(** Enough rounds reach the end or [Q]. *)
Lemma rounds_until rs : Forall (fun ls => round ls /\ Forall allowed ls) rs -> forall st, inv st -> J st -> (left st <= length rs)%nat ->
  exists st', exec (concat rs) st = Some st' /\ inv st' /\ J st' /\ (main_pc st' = MDone \/ Q st').
Proof.
  induction 1 as [|ls rs [Hr Hal] Hrs IH]; intros st Hi HJs Hleft; cbn [concat].
  - exists st. split_and!; [done..|]. left. unfold left in Hleft. simpl in Hleft. destruct (main_pc st); simpl in Hleft; (done || lia).
  - destruct (exec_inv (ls ++ concat rs) st Hi) as (st' & He & Hi' & _).
    assert (J st') as HJ'.
    { eapply (exec_keeps allowed J HJ); [|exact Hi|done|exact He]. apply Forall_app. split; [done|]. apply Forall_concat.
      eapply Forall_impl; [exact Hrs|]. by intros ? [_ ?]. }
    destruct (decide (Q st)) as [Hq|Hq].
    { exists st'. split_and!; [done..|]. right. eapply (exec_keeps (fun _ => True) Q); [|by apply Forall_true|exact Hi|done|exact He]. intros. by eapply HQ. }
    destruct (decide (main_pc st = MDone)) as [Em|Em].
    { exists st'. split_and!; [done..|]. left. exact (done_stays _ _ _ Hi Em He). }
    rewrite exec_app. destruct (round_progress ls st Hi Em (Hclear ls st Hal Hi HJs Hq) Hr) as (st1 & E & Hi1 & Hlt). rewrite E. cbn [mbind option_bind].
    apply IH; [done| |simpl in Hleft; lia]. exact (exec_keeps allowed J HJ ls st st1 Hal Hi HJs E).
Qed.
End until.

(** A program that never waits. *)
Lemma rounds_finish (Hopen : forall i now c, gate prog i now c ≠ Some Wait) rs : Forall round rs -> forall st, inv st -> (left st <= length rs)%nat ->
  exists st', exec (concat rs) st = Some st' /\ inv st' /\ main_pc st' = MDone.
Proof.
  intros Hrs st Hi Hl. destruct (rounds_until (fun _ => True) (fun _ => True) (fun _ => False)) with (rs := rs) (st := st) as (st' & ? & ? & _ & [?|[]]); try done.
  - intros ls st1 _ _ _ _ i now _ _. apply Hopen.
  - eapply Forall_impl; [exact Hrs|]. intros ls Hls. split; [done|]. by apply Forall_true.
  - by exists st'.
Qed.

(** At the end everything has gone through. *)
Lemma done_sequential st : inv st -> main_pc st = MDone ->
  sequential N_TOTAL = Some (written (cons st), market (cons st)) /\ Spsc.holds QUEUE_LOG (g_queue st) [].
Proof.
  intros [Hp Hc Hm (l & Hq & _ & Hs) Ho Hl Hr Hmain] Hd. rewrite Hd in Hmain. destruct Hmain as (_ & _ & Hdone).
  unfold threads_done in Hdone. destruct (p_pc (prod st)), (c_pc (cons st)); try done. simpl in *.
  split; [done|]. by destruct l; [|simpl in Hs; lia].
Qed.


Lemma done_taken st : inv st -> main_pc st = MDone -> taken (c_pc (cons st)) = N_TOTAL.
Proof.
  intros [_ _ _ _ _ _ _ Hmain] Hd. rewrite Hd in Hmain. destruct Hmain as (_ & _ & Hdone). unfold threads_done in Hdone.
  by destruct (p_pc (prod st)), (c_pc (cons st)).
Qed.
End steps.

(** ** What a run reads from the clock *)
(** The reading of a step. *)
Definition reading (l : label) : list Z := match l with Prod now | Cons now => [now] | Main => [] end.

(** The readings of the steps of a run in which something happens, told from the states
    before and after the step. *)
Fixpoint readings (happens : pipe -> pipe -> bool) (ls : list label) (st : pipe) : list Z :=
  match ls with
  | [] => []
  | l :: ls =>
    match step l st with
    | Some st' => (if happens st st' then reading l else []) ++ readings happens ls st'
    | None => []
    end
  end.

(** The consumer is through with one more message; the producer has one more ready to be
    pushed; the producer leaves the barrier. *)
Definition finishes (st st' : pipe) : bool := (taken (c_pc (cons st)) <? taken (c_pc (cons st')))%nat.
Definition readies (st st' : pipe) : bool := (p_record (p_pc (prod st)) <? p_record (p_pc (prod st')))%nat.
Definition released (st st' : pipe) : bool := negb (p_past (p_pc (prod st))) && p_past (p_pc (prod st')).

(** The k-th entry is the time of the k-th message, warm-up included. *)
Definition finish_times (ls : list label) : list Z := readings finishes ls init.
Definition ready_times (ls : list label) : list Z := readings readies ls init.
Definition release_times (ls : list label) : list Z := readings released ls init.

(** What there is to measure if a message is stamped when it is made ready. *)
Definition measured (ls : list label) : list Z := zip_with Z.sub (drop N_WARMUP (finish_times ls)) (drop N_WARMUP (ready_times ls)).

(** ** The latencies *)
Section timing.
  (** What the stamp of the k-th message is, given the time at which it was made ready, and
      the laws of the clock variables for it. *)
  Context (stamp_ok : nat -> Z -> Z -> Clk -> Prop).
  Context (Hgo : forall i now c s c', gate prog i now c = Some (Go s c') -> fits 64 now -> fits 64 s /\ s <= now /\ stamp_ok i now s c').
  Context (Hkeep : forall i now c s c' k r t, gate prog i now c = Some (Go s c') -> stamp_ok k r t c -> stamp_ok k r t c').
  Context (Hanchor : forall now c k r t, (k < N_WARMUP)%nat -> stamp_ok k r t c -> stamp_ok k r t (anchor prog now c)).
  Context (Hfinish : forall c k r t, stamp_ok k r t c -> stamp_ok k r t (finish prog c)).

(** A schedule whose time stamps never go back. *)
Fixpoint timed (T : Z) (ls : list label) : Prop :=
  match ls with
  | [] => True
  | (Prod now | Cons now) :: ls => T <= now < 2 ^ 64 /\ timed now ls
  | Main :: ls => timed T ls
  end.

Lemma readings_fit happens ls : forall T st, 0 <= T -> timed T ls -> Forall (fits 64) (readings happens ls st).
Proof.
  induction ls as [|l ls IH]; intros T st HT Ht; cbn [readings]; [constructor|]. destruct (step l st) as [st'|]; [|constructor]. apply Forall_app.
  destruct l as [now|now|]; cbn [timed reading] in *; (split; [destruct (happens st st'); repeat constructor; lia|]); [apply (IH now); [lia|tauto]..|by apply (IH T)].
Qed.

Definition stamped (T : Z) (R : list Z) (c : Clk) (k : nat) (s : Z) : Prop :=
  0 <= s <= T /\ exists r, R !! k = Some r /\ stamp_ok k r s c.

(** With the finishing times [F] and the times [R] at which messages were made ready so far:
    the messages under way carry their stamps, the latencies are exact differences. *)
Record tinv (T : Z) (F R : list Z) (st : pipe) : Prop := {
  tinv_now : fits 64 T;
  tinv_taken : length F = taken (c_pc (cons st));
  tinv_ready : length R = p_record (p_pc (prod st));
  tinv_queue : exists l, Spsc.holds QUEUE_LOG (g_queue st) l /\ sent (p_pc (prod st)) = (taken (c_pc (cons st)) + length l)%nat /\
    forall j msg, l !! j = Some msg -> stamped T R (p_clock (prod st)) (taken (c_pc (cons st)) + j) (produce_tsc msg);
  tinv_msg : forall i, p_pc (prod st) = PPush i -> stamped T R (p_clock (prod st)) i (produce_tsc (p_msg (prod st)));
  tinv_lat : forall k, (N_WARMUP <= k < taken (c_pc (cons st)))%nat ->
    exists e s, F !! k = Some e /\ g_latencies (cons st) !! (k - N_WARMUP)%nat = Some (e - s) /\ s <= e <= T /\ stamped T R (p_clock (prod st)) k s;
}.

Lemma stamped_mono T T' R R' c k s : T <= T' -> stamped T R c k s -> stamped T' (R ++ R') c k s.
Proof. intros ? [? (r & Hr & ?)]. split; [lia|]. exists r. split; [by apply lookup_app_l_Some|done]. Qed.

Lemma tinv_mono T T' F R st : fits 64 T' -> T <= T' -> tinv T F R st -> tinv T' F R st.
Proof.
  intros HT' HT [? ? ? (l & ? & ? & Hl) Hmsg Hlat].
  assert (forall c k s, stamped T R c k s -> stamped T' R c k s) as Hm by (intros c k s Hst; rewrite <- (app_nil_r R); by eapply stamped_mono).
  split; [done..|exists l; eauto|eauto|].
  intros k Hk. destruct (Hlat k Hk) as (e & s & ? & ? & ? & ?). exists e, s. split_and!; [done|done|lia..|by apply Hm].
Qed.

(** A step of the producer that changes only its own state and keeps the stamps. *)
Lemma tinv_producer T F R R' q p c r a m p' r' : tinv T F R (mkPipe q p c r a m) -> sent (p_pc p') = sent (p_pc p) ->
  length (R ++ R') = p_record (p_pc p') ->
  (forall k t s, (k < sent (p_pc p))%nat -> stamp_ok k t s (p_clock p) -> stamp_ok k t s (p_clock p')) ->
  (forall i, p_pc p' = PPush i -> stamped T (R ++ R') (p_clock p') i (produce_tsc (p_msg p'))) ->
  (taken (c_pc c) <= sent (p_pc p))%nat -> tinv T F (R ++ R') (mkPipe q p' c r' a m).
Proof.
  intros [? ? ? (l & Hq & Hs & Hl) Hmsg Hlat] Hsent HR Hst Hm Hle. simpl in *.
  assert (forall k s, (k < sent (p_pc p))%nat -> stamped T R (p_clock p) k s -> stamped T (R ++ R') (p_clock p') k s) as Hk.
  { intros k s Hk Hks. apply (stamped_mono T T R R') in Hks as [? (t & ? & ?)]; [|lia]. split; [done|]. exists t. split; [done|by apply Hst]. }
  split; simpl; [done|done|done| |done|].
  - exists l. split; [done|]. split; [by rewrite Hsent|]. intros j msg Hj. apply Hk; [|by apply Hl].
    apply lookup_lt_Some in Hj. lia.
  - intros k Hk'. destruct (Hlat k Hk') as (e & s & ? & ? & ? & ?). exists e, s. split_and!; [done|done|lia|lia|]. apply Hk; [lia|done].
Qed.

Abbreviation more happens l st st' := (if happens st st' : bool then reading l else []).

Lemma producer_timed T F R now st st' : inv st -> tinv T F R st -> T <= now -> fits 64 now -> step (Prod now) st = Some st' ->
  tinv now F (R ++ more readies (Prod now) st st') st' /\ finishes st st' = false.
Proof.
  intros [Hp _ _ (l0 & _ & _ & Hs0) _ _ _ _] Ht HT Hnow. apply (tinv_mono T now) in Ht; [|done..]. clear HT T.
  intros Hstep. split.
  2: { unfold finishes. apply Nat.ltb_ge. destruct st as [q [pp msg ck] c r a m]. unfold step, producer_step in Hstep. repeat (case_match; simplify_option_eq); done. }
  revert Hstep. pose proof (tinv_ready _ _ _ _ Ht) as HR. unfold readies. rewrite <- HR.
  destruct st as [q [pp msg ck] c r a m]. unfold step, producer_step. simpl in *.
  assert (taken (c_pc c) <= sent pp)%nat as Hle by lia.
  assert (length R = length (R ++ [])) as HR0 by (by rewrite app_nil_r).
  destruct pp as [i|i|i|i|]; simpl in *.
  - destruct (decide (i = N_TOTAL)) as [->|?]; [|destruct (decide _)]; intros [= <-]; simpl; rewrite HR, Nat.ltb_irrefl; (eapply tinv_producer; [done|..]); simpl; try done; try lia; auto.
  - subst i. destruct a; intros [= <-]; simpl; rewrite HR, Nat.ltb_irrefl; [|by rewrite app_nil_r]. eapply tinv_producer; [done|..]; simpl; try done; try lia. auto.
  - unfold produce. destruct (gate prog i now ck) as [[|s c']|] eqn:Eg; cbn [mbind option_bind p_clock]; [rewrite Eg; intros [= <-]; simpl; by rewrite HR, Nat.ltb_irrefl, app_nil_r| |by rewrite Eg].
    rewrite Eg. cbn [mbind option_bind]. destruct (payload_at (pick prog i)); [|done]. cbn [mbind option_bind]. intros [= <-]. simpl. rewrite HR, (proj2 (Nat.ltb_lt _ _)) by lia.
    destruct (Hgo _ _ _ _ _ Eg Hnow) as (Hf & ? & ?). eapply tinv_producer; [done|..]; simpl; try done; [rewrite length_app; simpl; lia|eauto|].
    intros ? [= <-]. split; [unfold fits in Hf; simpl; lia|]. exists now. split; [by rewrite lookup_app_r, HR, Nat.sub_diag by lia|done].
  - destruct Ht as [Hf HF _ (l & Hq & Hs & Hl) Hmsg Hlat]. simpl in *.
    pose proof (Spsc.push_holds QUEUE_LOG ltac:(unfold QUEUE_LOG; lia) q l msg Hq) as Hpush. case_decide.
    + destruct Hpush as (q' & -> & Hq'). intros [= <-]. simpl. rewrite HR, Nat.ltb_irrefl, app_nil_r. split; simpl in *; try done. exists (l ++ [msg]). split; [done|].
      rewrite length_app. simpl. split; [lia|]. intros j x Hj. apply lookup_snoc_Some in Hj as [[_ Hj]|[-> <-]]; [by apply Hl|].
      rewrite <- Hs. by apply Hmsg.
    + destruct Hpush as (q' & -> & Hq'). intros [= <-]. simpl. rewrite HR, Nat.ltb_irrefl, app_nil_r. split; simpl in *; try done. by exists l.
  - intros [= <-]. simpl. by rewrite HR, Nat.ltb_irrefl, app_nil_r.
Qed.

Lemma tinv_consumer T F R q p c r a m c' r' a' m' : tinv T F R (mkPipe q p c r a m) -> taken (c_pc c') = taken (c_pc c) ->
  g_latencies c' = g_latencies c -> tinv T F R (mkPipe q p c' r' a' m').
Proof. intros [? ? ? Hq Hmsg Hlat] Ht Hl. simpl in *. split; simpl; rewrite ?Ht, ?Hl; done. Qed.

Lemma consumer_timed T F R now st st' : inv st -> tinv T F R st -> T <= now -> fits 64 now -> step (Cons now) st = Some st' ->
  tinv now (F ++ more finishes (Cons now) st st') R st' /\ readies st st' = false.
Proof.
  intros [_ Hc _ _ _ Hlen _ _] Ht HT Hnow. apply (tinv_mono T now) in Ht; [|done..]. clear HT T.
  intros Hstep. split.
  2: { unfold readies. apply Nat.ltb_ge. destruct st as [q [pp msg ck] c r a m]. unfold step, consumer_step in Hstep. repeat (case_match; simplify_option_eq); done. }
  revert Hstep. pose proof (tinv_taken _ _ _ _ Ht) as HF. unfold finishes. rewrite <- HF.
  destruct st as [q p c r a m]. unfold step, consumer_step. simpl in *.
  destruct (c_pc c) as [i|i|i|] eqn:Ec; simpl in *.
  - destruct (decide (i = N_TOTAL)) as [->|?]; [|destruct (decide _)]; intros [= <-]; simpl; rewrite HF, Nat.ltb_irrefl, app_nil_r; eapply tinv_consumer; try done; simpl; by rewrite Ec.
  - destruct a; intros [= <-]; simpl; rewrite ?Ec; simpl; rewrite HF, Nat.ltb_irrefl, app_nil_r; [|done]. eapply tinv_consumer; try done. simpl. by rewrite Ec.
  - destruct Ht as [Hf _ HR (l & Hq & Hs & Hl) Hmsg Hlat]. simpl in *. rewrite Ec in Hs, Hl, Hlat. simpl in *.
    pose proof (Spsc.pop_holds QUEUE_LOG ltac:(unfold QUEUE_LOG; lia) q l Hq) as Hpop. destruct l as [|msg l].
    { destruct Hpop as (q' & -> & _ & _ & Hq'). intros [= <-]. simpl. rewrite Ec. simpl. rewrite HF, Nat.ltb_irrefl, app_nil_r. split; simpl; rewrite ?Ec; try done. by exists []. }
    destruct Hpop as (q' & _ & _ & -> & _ & Hq' & _). unfold process.
    destruct (work prog (msg_delta msg) (market c)) as [[outs ms]|]; [|done]. cbn [mbind option_bind].
    destruct (Hl 0%nat msg eq_refl) as [Hst Hok]. rewrite Nat.add_0_r in Hok.
    assert (now -64 produce_tsc msg = now - produce_tsc msg) as Esub by (rewrite wrap_small; [done|unfold fits in *; lia]).
    assert (forall ls, (forall k, (N_WARMUP <= k < S i)%nat -> exists e s, (F ++ [now]) !! k = Some e /\ ls !! (k - N_WARMUP)%nat = Some (e - s) /\ s <= e <= now /\ stamped now R (p_clock p) k s) ->
      tinv now (F ++ [now]) R (mkPipe q' p (mkConsumer (CLoop (S i)) ms (written c ++ outs) ls (g_throughput_start_tsc c) (g_throughput_end_tsc c)) r a m)) as Hfin.
    { intros ls Hls. split; simpl; try done; [rewrite length_app; simpl; lia|]. exists l. split; [done|]. split; [simpl in *; lia|]. intros j x Hj.
      replace (S (i + j)) with (i + S j)%nat by lia. by apply (Hl (S j) x). }
    destruct (Nat.leb_spec N_WARMUP i) as [Hi|Hi].
    + unfold store. rewrite Hlen, (proj2 (Nat.ltb_lt _ _)) by lia. cbn [mbind option_bind]. intros [= <-]. simpl. rewrite HF, (proj2 (Nat.ltb_lt _ _)) by lia. apply Hfin. rewrite Esub.
      intros k Hk. destruct (decide (k = i)) as [->|Hne].
      * exists now, (produce_tsc msg). rewrite list_lookup_insert_eq by lia. split_and!; [by rewrite lookup_app_r, HF, Nat.sub_diag by lia|done|lia..|done].
      * rewrite list_lookup_insert_ne by lia. rewrite lookup_app_l by lia. apply Hlat. lia.
    + cbn [mbind option_bind]. intros [= <-]. simpl. rewrite HF, (proj2 (Nat.ltb_lt _ _)) by lia. apply Hfin. intros k Hk. lia.
  - intros [= <-]. simpl. rewrite Ec. simpl. by rewrite HF, Nat.ltb_irrefl, app_nil_r.
Qed.

Lemma main_timed T F R st : tinv T F R st -> tinv T F R (main_step st).
Proof.
  intros Ht. destruct st as [q p c r a m]. unfold main_step. destruct m; simpl; [destruct (_ <? _)|destruct (threads_done _ _)|]; try done;
    by eapply tinv_consumer.
Qed.

Lemma tinv_init : tinv 0 [] [] init.
Proof.
  split; simpl; [unfold fits; lia|done|done| |done|lia]. exists []. split; [apply Spsc.make_holds; unfold QUEUE_LOG; lia|done].
Qed.

Section timed_runs.
  Context (Hpool : length g_pool = Payload.N_PAYLOADS) (Hw : (N_WARMUP < N_TOTAL)%nat) (Hseq : is_Some (sequential N_TOTAL)).
  Context (Hgate : forall i now c, (i < N_TOTAL)%nat -> is_Some (gate prog i now c)).

Lemma exec_timed_from ls : forall T F R st, inv st -> tinv T F R st -> timed T ls ->
  exists st' T', exec ls st = Some st' /\ inv st' /\ tinv T' (F ++ readings finishes ls st) (R ++ readings readies ls st) st'.
Proof.
  induction ls as [|l ls IH]; intros T F R st Hi Ht Hls; cbn [exec readings]; [exists st, T; by rewrite !app_nil_r|].
  destruct (all_good Hpool Hw Hseq Hgate l st Hi) as (st1 & E & Hi1 & _). rewrite E. cbn [mbind option_bind].
  pose proof (tinv_now _ _ _ _ Ht) as HfT. destruct l as [now|now|]; simpl in Hls; rewrite !app_assoc.
  - destruct Hls as [HT Hls]. assert (fits 64 now) by (unfold fits in *; lia). destruct (producer_timed T F R now st st1 Hi Ht ltac:(lia) ltac:(done) E) as [Ht1 Hf].
    rewrite Hf, app_nil_r. by apply (IH now).
  - destruct Hls as [HT Hls]. assert (fits 64 now) by (unfold fits in *; lia). destruct (consumer_timed T F R now st st1 Hi Ht ltac:(lia) ltac:(done) E) as [Ht1 Hf].
    rewrite Hf, (app_nil_r R). by apply (IH now).
  - cbn [reading]. assert (forall b : bool, (if b then @nil Z else []) = []) as Eb by (by intros []). rewrite !Eb, !app_nil_r. apply (IH T); [done| |done]. injection E as <-. by apply main_timed.
Qed.

(** From the start: everything the run leaves in the array of latencies is the difference of
    a finishing time of this run and the stamp of the message. *)
Lemma exec_timed ls : timed 0 ls -> exists st T, exec ls init = Some st /\ inv st /\ tinv T (finish_times ls) (ready_times ls) st.
Proof. intros Hls. apply (exec_timed_from ls 0 [] [] init); [by apply inv_init|apply tinv_init|done]. Qed.
End timed_runs.

End timing.
End pipeline.

End Pipeline.
