(* ===== verification/Benches.v ===== *)
(** * The hot-path benchmarks

    The programs [bench/bench_hotpath_pipe.cpp], [bench_hotpath_multi.cpp] and
    [bench_hotpath_paced.cpp] as instances of [Pipeline.v], and
    [bench/bench_hotpath.cpp], the loop on one thread.  The payloads are those of
    [Payload.v].  A JSON parser is any one that reads these payloads. *)
From stdpp Require Import gmap list numbers strings sorting.
From S2P Require Import Prelude Interfaces FlatHashMap Pool Feed Strategy Bytes Serialize Spsc Parser Payload HotPath Pipeline.
Open Scope Z_scope.
Open Scope cpp_scope.

Module Benches.
Import Feed Strategy Bytes HotPath Pipeline.

Definition kTicker : bytes := lit "DEMO-1" ++ [0].

(** ** [bench_hotpath_pipe.cpp] *)
Definition pipe_program : program MarketState unit := {|
  work d ms := tick d kTicker ms;
  pick i := i;
  anchor _ c := c;
  gate _ now c := Some (Go now c);
  finish c := c;
  keeps_start := true;
|}.

(** ** [bench_hotpath_multi.cpp] *)
Definition multi_program : program HotTables unit := {|
  work d t := consume d t;
  pick i := i;
  anchor _ c := c;
  gate _ now c := Some (Go now c);
  finish c := c;
  keeps_start := true;
|}.

(** ** [bench_hotpath_paced.cpp] *)
Record paced_clock := mkPaced { t0 : Z; max_late : Z; g_t0 : Z; g_max_lateness_cycles : Z }.
Definition paced_clock0 : paced_clock := mkPaced 0 0 0 0.

Section paced.
  Context (N_WARMUP : nat) (g_offsets : list Z).

(** The loops of the warm-up and of the measurement both count from zero. *)
Definition restart (i : nat) : nat := if (i <? N_WARMUP)%nat then i else i - N_WARMUP.

Definition paced_anchor (now : Z) (c : paced_clock) : paced_clock :=
  let t := now +64 10000 in mkPaced t 0 t (g_max_lateness_cycles c).

(** Spin until the message is due; the stamp is the time at which it was due. *)
Definition paced_gate (i : nat) (now : Z) (c : paced_clock) : option (pace paced_clock) :=
  if (i <? N_WARMUP)%nat then Some (Go now c)
  else
    off ← g_offsets !! restart i;
    let deadline := t0 c +64 off in
    if now <? deadline then Some Wait
    else
      let late := now -64 deadline in
      Some (Go deadline (mkPaced (t0 c) (if max_late c <? late then late else max_late c) (g_t0 c) (g_max_lateness_cycles c))).

Definition paced_finish (c : paced_clock) : paced_clock := mkPaced (t0 c) (max_late c) (g_t0 c) (max_late c).

Definition paced_program : program MarketState paced_clock := {|
  work d ms := tick d kTicker ms;
  pick := restart;
  anchor := paced_anchor;
  gate := paced_gate;
  finish := paced_finish;
  keeps_start := false;
|}.
End paced.

(** ** The threads of each program under a schedule *)
Section runs.
  Context {JS : Parser.DeltaJson} (g_pool : list bytes) (N_WARMUP N_TOTAL : nat) (msg0 : HotMsg).

Definition run_pipe (ls : list label) : option pipe :=
  exec pipe_program g_pool N_WARMUP N_TOTAL ls (init N_WARMUP N_TOTAL new_market tt msg0).
Definition run_multi (tables : HotTables) (ls : list label) : option pipe :=
  exec multi_program g_pool N_WARMUP N_TOTAL ls (init N_WARMUP N_TOTAL tables tt msg0).
Definition run_paced (g_offsets : list Z) (ls : list label) : option pipe :=
  exec (paced_program N_WARMUP g_offsets) g_pool N_WARMUP N_TOTAL ls (init N_WARMUP N_TOTAL new_market paced_clock0 msg0).
End runs.

(** ** [bench_hotpath.cpp] *)
Section single.
  Context {JS : Parser.DeltaJson} (g_pool : list bytes).

(** One iteration; [junk] is the content of the fresh record. *)
Definition hot_iteration (junk : OrderbookDelta) (i : nat) (ms : MarketState) : option (list (Z * bytes) * MarketState) :=
  text ← payload_at g_pool i;
  let delta := (Parser.parse_orderbook_delta text junk).2 in
  tick delta kTicker ms.

Fixpoint hot_warmup (junk : nat -> OrderbookDelta) (n i : nat) (outs : list (Z * bytes)) (ms : MarketState) : option (list (Z * bytes) * MarketState) :=
  match n with
  | O => Some (outs, ms)
  | S n => '(o, ms) ← hot_iteration (junk i) i ms; hot_warmup junk n (S i) (outs ++ o) ms
  end.

(** The measured loop; [now i] are the two times read in iteration [i]. *)
Fixpoint hot_measure (junk : nat -> OrderbookDelta) (now : nat -> Z * Z) (n i : nat) (outs : list (Z * bytes)) (ms : MarketState) (cycles : list Z)
    : option (list (Z * bytes) * MarketState * list Z) :=
  match n with
  | O => Some (outs, ms, cycles)
  | S n =>
    '(o, ms) ← hot_iteration (junk i) i ms;
    cycles ← store i ((now i).2 -64 (now i).1) cycles;
    hot_measure junk now n (S i) (outs ++ o) ms cycles
  end.

Definition hot_main (junk junk' : nat -> OrderbookDelta) (now : nat -> Z * Z) (N_WARMUP N_MEASURE : nat)
    : option (list (Z * bytes) * MarketState * list Z) :=
  '(outs, ms) ← hot_warmup junk N_WARMUP 0 [] new_market;
  hot_measure junk' now N_MEASURE 0 outs ms (replicate N_MEASURE 0).
End single.

(** ** The anchor of the schedule *)
Section anchored.
  Context {JS : Parser.DeltaJson} (g_pool : list bytes) (N_WARMUP N_TOTAL : nat) (Hw : (N_WARMUP < N_TOTAL)%nat) (g_offsets : list Z).
  Abbreviation pstep := (step (paced_program N_WARMUP g_offsets) g_pool N_WARMUP N_TOTAL).

(** Passing the barrier sets [t0]; nothing else does, and nobody goes back. *)
Lemma paced_step_anchor (l : label) (st st' : @pipe MarketState paced_clock) : p_range N_WARMUP N_TOTAL (p_pc (prod st)) -> pstep l st = Some st' ->
  (p_past N_WARMUP (p_pc (prod st)) = true -> p_past N_WARMUP (p_pc (prod st')) = true /\ t0 (p_clock (prod st')) = t0 (p_clock (prod st))) /\
  (p_past N_WARMUP (p_pc (prod st)) = false -> p_past N_WARMUP (p_pc (prod st')) = true ->
    exists now, l = Prod now /\ t0 (p_clock (prod st')) = now +64 10000).
Proof.
  intros Hp H. destruct st as [q [pp msg ck] c r a m]. destruct l as [now|now|]; unfold step in H; simpl in *.
  - destruct pp as [i|i|i|i|]; simpl in *.
    + destruct (decide (i = N_TOTAL)) as [->|?]; [simplify_eq/=; rewrite (proj2 (Nat.ltb_lt _ _) Hw); done|]. destruct (decide (i = N_WARMUP)) as [->|?]; simplify_eq/=.
      * rewrite Nat.ltb_irrefl. (split; [done|congruence]).
      * split; [intros E%Nat.ltb_lt; split; [apply Nat.leb_le; lia|done]|]. intros E%Nat.ltb_ge E'%Nat.leb_le. lia.
    + destruct a; simplify_eq/=; split; try done; intros _ _; by exists now.
    + unfold produce, paced_gate in H. simpl in H. unfold paced_gate in H.
      repeat (case_match; simplify_option_eq); simplify_eq/=; (split; [done|congruence]).
    + destruct (Spsc.try_push _ _ _) as [ok q'] eqn:E. simplify_eq/=. destruct ok; simpl; [|(split; [done|congruence])].
      split; [intros E'%Nat.leb_le; split; [apply Nat.ltb_lt; lia|done]|]. intros E1%Nat.leb_gt E2%Nat.ltb_lt. lia.
    + simplify_eq/=. (split; [done|congruence]).
  - unfold process in H. repeat (case_match; simplify_option_eq); simpl; (split; [done|congruence]).
  - simplify_eq. unfold main_step. repeat case_match; simplify_eq/=; (split; [done|congruence]).
Qed.

(** The anchor that is published is the one that is used. *)
Definition t0_published (st : @pipe MarketState paced_clock) : Prop := g_t0 (p_clock (prod st)) = t0 (p_clock (prod st)).

Lemma published_kept l st st' : t0_published st -> pstep l st = Some st' -> t0_published st'.
Proof.
  intros Hp H. destruct st as [q [pp msg ck] c r a m]. unfold t0_published in *. destruct l; unfold step in H; simpl in *.
  - unfold produce, paced_gate in H. simpl in H. unfold paced_gate in H. repeat (case_match; simplify_option_eq); simplify_eq/=; done.
  - unfold process in H. repeat (case_match; simplify_option_eq); done.
  - simplify_eq. unfold main_step. repeat case_match; done.
Qed.

Lemma published_run ls : forall st st', t0_published st -> exec (paced_program N_WARMUP g_offsets) g_pool N_WARMUP N_TOTAL ls st = Some st' -> t0_published st'.
Proof.
  induction ls as [|l ls IH]; intros st st' Hp H; cbn [exec] in H; [by simplify_eq|]. destruct (pstep l st) as [st1|] eqn:E; [|done]. cbn [mbind option_bind] in H.
  eapply IH; [|exact H]. by eapply published_kept.
Qed.
End anchored.

(** ** The clock of the paced producer *)
Section paced_clock_laws.
  Context (N_WARMUP : nat) (g_offsets : list Z).

(** The stamp of a measured message is the time at which it is due, whatever the time at
    which it is made ready. *)
Definition due (k : nat) (ready s : Z) (c : paced_clock) : Prop :=
  (N_WARMUP <= k)%nat -> exists off, g_offsets !! (k - N_WARMUP)%nat = Some off /\ s = t0 c +64 off.

Lemma paced_go i now c s c' : paced_gate N_WARMUP g_offsets i now c = Some (Go s c') -> fits 64 now -> fits 64 s /\ s <= now /\ due i now s c'.
Proof.
  unfold paced_gate, due, restart. intros Hg Hnow. destruct (Nat.ltb_spec i N_WARMUP); [simplify_eq; split_and!; (done || lia)|].
  destruct (g_offsets !! (i - N_WARMUP)%nat) as [off|] eqn:Eo; [|done]. cbn [mbind option_bind] in Hg.
  destruct (Z.ltb_spec now (t0 c +64 off)); simplify_eq. split_and!; [by apply wrap_fits|lia|]. intros _. by exists off.
Qed.

Lemma paced_keeps i now c s c' k r t : paced_gate N_WARMUP g_offsets i now c = Some (Go s c') -> due k r t c -> due k r t c'.
Proof. unfold paced_gate, due. intros Hg Hd Hk. repeat (case_match; simplify_option_eq); by apply Hd. Qed.

Lemma paced_gate_defined i now c : (i < N_WARMUP + length g_offsets)%nat -> is_Some (paced_gate N_WARMUP g_offsets i now c).
Proof.
  intros Hi. unfold paced_gate, restart. destruct (Nat.ltb_spec i N_WARMUP); [by eexists|].
  destruct (lookup_lt_is_Some_2 g_offsets (i - N_WARMUP)) as [off ->]; [lia|]. cbn [mbind option_bind]. case_match; by eexists.
Qed.
End paced_clock_laws.

(** ** One ticker: the work is defined *)
Section bench.
  Context {JS : Parser.DeltaJson} (HJ : Payload.reads_payloads JS) (lhs_first : bool) (g_pool : list bytes).
  Context (Hp : Payload.build_payload_pool lhs_first = Some g_pool).

Lemma bench_pool_length : length g_pool = Payload.N_PAYLOADS.
Proof. destruct (Payload.single_pool lhs_first) as (l & E & Hl & _). by rewrite Hp in E; simplify_eq. Qed.

(** What is parsed from a payload of the pool, whatever was in the record. *)
Lemma parsed_payload n : exists text p, payload_at g_pool n = Some text /\ Payload.payload_ok p /\
  forall old, (Parser.parse_orderbook_delta text old).2 = Payload.delta_of p (ticker old).
Proof.
  destruct (payload_at_pool g_pool n bench_pool_length) as [text Ht]. exists text.
  destruct (Payload.single_pool lhs_first) as (l & E & _ & Hall). rewrite Hp in E. simplify_eq.
  destruct (Hall _ _ Ht) as (p & Hpo & _ & _ & -> & _). exists p. split_and!; [done..|]. intros old. by rewrite (Payload.payload_parsed JS p _ HJ Hpo).
Qed.

(** How far a market has come after [n] messages. *)
Definition after (n : nat) (ms : MarketState) : Prop :=
  bounded (50 * Z.of_nat n) (book ms) /\ 0 <= next_client_id_ (om ms) <= 1 + 2 * Z.of_nat n /\
  fits 64 (os_client_id (yes_open_ (om ms))) /\ fits 64 (os_client_id (no_open_ (om ms))).

Lemma after_new : after 0 new_market.
Proof.
  split; [|vm_compute; by split_and!]. intros s. split_and!; [by destruct s| |by destruct s..].
  assert (levels s (book new_market) = replicate 100 0) as -> by (by destruct s). by apply Forall_replicate.
Qed.

Lemma after_om n ms : Z.of_nat n <= 42000000 -> after n ms -> om_ok (om ms).
Proof. intros Hn (_ & ? & ? & ?). split_and!; (done || lia). Qed.

Lemma after_succ n ms bk om' : after n ms -> bounded (50 * Z.of_nat n + 50) bk -> om_step (om ms) om' -> after (S n) (mkMarket bk om').
Proof.
  intros (_ & ? & ? & ?) Hb (? & Ey & En). split_and!; cbn [book om]; rewrite ?Ey, ?En; try done; [|lia..].
  by replace (50 * Z.of_nat (S n)) with (50 * Z.of_nat n + 50) by lia.
Qed.

Lemma tick_payload n p old ms : Z.of_nat n < 42000000 -> Payload.payload_ok p -> after n ms ->
  exists outs ms', tick (Payload.delta_of p old) kTicker ms = Some (outs, ms') /\ after (S n) ms'.
Proof.
  intros Hn (_ & _ & _ & _ & Hpr & Hdl & _) Ha.
  destruct (tick_bounded (50 * Z.of_nat n) 50 (Payload.delta_of p old) (lit "DEMO-1") [] ms) as (outs & bk & om' & Ht & Hb & Hst & _); cbn [price delta Payload.delta_of].
  - apply (bool_decide_unpack _). vm_compute. exact Logic.I.
  - apply (bool_decide_unpack _). vm_compute. exact Logic.I.
  - vm_compute. lia.
  - apply Ha.
  - eapply after_om; [|done]. lia.
  - lia.
  - lia.
  - lia.
  - lia.
  - exists outs, (mkMarket bk om'). split; [exact Ht|]. by eapply after_succ.
Qed.

Section single_ticker.
  Context {Clk : Type} (prog : program MarketState Clk) (msg0 : HotMsg) (Hwork : forall d ms, work prog d ms = tick d kTicker ms).

(** The one-thread program is defined, and its quantities and ids stay small. *)
Lemma sequential_ok n : Z.of_nat n <= 42000000 ->
  exists outs ms, sequential prog g_pool new_market msg0 n = Some (outs, ms) /\ after n ms.
Proof.
  induction n as [|n IH]; intros Hn; [exists [], new_market; split; [done|apply after_new]|].
  destruct IH as (outs & ms & Hs & Ha); [lia|]. destruct (parsed_payload (pick prog n)) as (text & p & Ht & Hpo & Hparse).
  cbn [sequential record_after]. rewrite Hs, Ht, Hparse. cbn [mbind option_bind]. rewrite Hwork.
  destruct (tick_payload n p (ticker (record_after prog g_pool msg0 n)) ms) as (outs' & ms' & -> & Ha'); [lia|done..|].
  cbn [mbind option_bind]. by eexists _, _.
Qed.

Lemma sequential_some n : Z.of_nat n <= 42000000 -> is_Some (sequential prog g_pool new_market msg0 n).
Proof. intros Hn. destruct (sequential_ok n Hn) as (outs & ms & E & _). by eexists. Qed.
End single_ticker.

(** ** One thread or two *)
Section one_thread.
  Context (N_WARMUP N_MEASURE : nat) (g_offsets : list Z) (msg0 : HotMsg) (Hn : Z.of_nat (N_WARMUP + N_MEASURE) <= 42000000).

Definition paced_sequential : nat -> option (list (Z * bytes) * MarketState) :=
  sequential (paced_program N_WARMUP g_offsets) g_pool new_market msg0.

(** An iteration is the next message of the two-thread program. *)
Lemma iteration_next k i junk outs ms : restart N_WARMUP k = i -> (k < N_WARMUP + N_MEASURE)%nat -> paced_sequential k = Some (outs, ms) ->
  exists o ms', hot_iteration g_pool junk i ms = Some (o, ms') /\ paced_sequential (S k) = Some (outs ++ o, ms').
Proof.
  intros <- Hk Hs. unfold paced_sequential in *. cbn [sequential record_after]. rewrite Hs.
  destruct (parsed_payload (restart N_WARMUP k)) as (text & p & Ht & Hpo & Hparse). unfold hot_iteration.
  assert (after k ms) as Ha.
  { destruct (sequential_ok (paced_program N_WARMUP g_offsets) msg0 ltac:(done) k) as (o & ms' & E & Ha); [lia|]. rewrite Hs in E. by simplify_eq. }
  destruct (tick_payload k p (ticker junk) ms) as (o & ms' & E & _); [lia|done..|].
  exists o, ms'. rewrite Ht. cbn [mbind option_bind]. rewrite Hparse. split; [exact E|]. cbn [mbind option_bind pick work paced_program]. rewrite Ht, Hparse.
  change (tick (Payload.delta_of p (ticker (record_after (paced_program N_WARMUP g_offsets) g_pool msg0 k))) kTicker ms)
    with (tick (Payload.delta_of p (ticker junk)) kTicker ms). by rewrite E.
Qed.

Lemma warmup_sequential junk n : forall i outs ms, (i + n = N_WARMUP)%nat -> paced_sequential i = Some (outs, ms) ->
  exists outs' ms', hot_warmup g_pool junk n i outs ms = Some (outs', ms') /\ paced_sequential N_WARMUP = Some (outs', ms').
Proof.
  induction n as [|n IH]; intros i outs ms Hi Hs; cbn [hot_warmup].
  { replace N_WARMUP with i by lia. eauto. }
  destruct (iteration_next i i (junk i) outs ms) as (o & ms' & -> & Hs'); [|lia|done|].
  { unfold restart. by rewrite (proj2 (Nat.ltb_lt _ _)) by lia. }
  cbn [mbind option_bind]. apply (IH (S i)); [lia|done].
Qed.

Definition elapsed (now : nat -> Z * Z) (i : nat) : Z := (now i).2 -64 (now i).1.

Lemma measure_sequential junk now n : forall i outs ms, (i + n = N_MEASURE)%nat -> paced_sequential (N_WARMUP + i) = Some (outs, ms) ->
  exists outs' ms', hot_measure g_pool junk now n i outs ms ((elapsed now <$> List.seq 0 i) ++ replicate n 0) =
      Some (outs', ms', elapsed now <$> List.seq 0 N_MEASURE) /\
    paced_sequential (N_WARMUP + N_MEASURE) = Some (outs', ms').
Proof.
  induction n as [|n IH]; intros i outs ms Hi Hs; cbn [hot_measure].
  { rewrite app_nil_r. replace N_MEASURE with i by lia. eauto. }
  destruct (iteration_next (N_WARMUP + i) i (junk i) outs ms) as (o & ms' & -> & Hs'); [|lia|done|].
  { unfold restart. rewrite (proj2 (Nat.ltb_ge _ _)) by lia. lia. }
  cbn [mbind option_bind]. unfold store. rewrite length_app, length_fmap, length_seq, length_replicate, (proj2 (Nat.ltb_lt _ _)) by lia.
  cbn [mbind option_bind]. replace (S (N_WARMUP + i)) with (N_WARMUP + S i)%nat in Hs' by lia.
  destruct (IH (S i) (outs ++ o) ms') as (outs' & ms'' & E & ?); [lia|done|]. exists outs', ms''. split; [|done]. rewrite <- E. f_equal.
  rewrite insert_app_r_alt by (rewrite length_fmap, length_seq; lia). rewrite length_fmap, length_seq, Nat.sub_diag. cbn [replicate insert list_insert].
  rewrite seq_S, fmap_app, <- app_assoc. done.
Qed.

Lemma hot_main_sequential junk junk' now :
  exists outs ms, hot_main g_pool junk junk' now N_WARMUP N_MEASURE = Some (outs, ms, elapsed now <$> List.seq 0 N_MEASURE) /\
    paced_sequential (N_WARMUP + N_MEASURE) = Some (outs, ms).
Proof.
  unfold hot_main. destruct (warmup_sequential junk N_WARMUP 0 [] new_market) as (outs & ms & -> & Hs); [lia|done|].
  cbn [mbind option_bind]. apply (measure_sequential junk' now N_MEASURE 0); [lia|by rewrite Nat.add_0_r].
Qed.
End one_thread.
End bench.

(** ** Many tickers: the work is defined *)
Section many.
  Context {JS : Parser.DeltaJson} (HJ : Payload.reads_payloads JS) (lhs_first : bool) (g_pool : list bytes).
  Context (Hp : Payload.build_payload_pool_multi lhs_first = Some g_pool) (msg0 : HotMsg) (R : gmap Z Z) (tables : HotTables).

Lemma multi_pool_length : length g_pool = Payload.N_PAYLOADS.
Proof. destruct (Payload.multi_pool lhs_first) as (l & E & Hl & _). by rewrite Hp in E; simplify_eq. Qed.

Lemma parsed_multi n : exists text p, payload_at g_pool n = Some text /\ Payload.payload_ok p /\ Payload.tk p ∈ Payload.mkt_names /\
  forall old, (Parser.parse_orderbook_delta text old).2 = Payload.delta_of p (ticker old).
Proof.
  destruct (payload_at_pool g_pool n multi_pool_length) as [text Ht]. exists text.
  destruct (Payload.multi_pool lhs_first) as (l & E & _ & Hall). rewrite Hp in E. simplify_eq.
  destruct (Hall _ _ Ht) as (p & Hpo & _ & Htk & -> & _). exists p. split_and!; [done..|]. intros old. by rewrite (Payload.payload_parsed JS p _ HJ Hpo).
Qed.

(** Every market is registered and has come at most as far as [n] messages. *)
Definition all_after (n : nat) (t : HotTables) : Prop :=
  registered t R [] /\ forall name, name ∈ Payload.mkt_names ->
    exists m ms, R !! key_of name = Some m /\ mem t !! m = Some ms /\ after n ms.

Lemma after_mono n ms : after n ms -> after (S n) ms.
Proof.
  intros (Hb & ? & ? & ?). split_and!; try done; [|lia..]. intros s. destruct (Hb s) as (? & HF & ?). split_and!; [done| |lia..].
  eapply Forall_impl; [exact HF|]. simpl. lia.
Qed.

Lemma consume_payload n p old t : Z.of_nat n < 42000000 -> Payload.payload_ok p -> Payload.tk p ∈ Payload.mkt_names -> all_after n t ->
  exists outs t', consume (Payload.delta_of p old) t = Some (outs, t') /\ all_after (S n) t'.
Proof.
  intros Hn Hpo Htk [Hr Hall]. destruct (Hall _ Htk) as (m & ms & Hm & Hms & Ha). destruct Hpo as (_ & Hq & H0 & Hlen & Hpr & Hdl & _).
  destruct (consume_bounded (50 * Z.of_nat n) 50 t R [] (Payload.delta_of p old) (Payload.tk p) (drop (S (length (Payload.tk p))) old) m ms Hr)
    as (outs & t' & bk & om' & Hc & Hr' & Hmem & Hb & Hst); cbn [price delta ticker Payload.delta_of]; try done; [apply Ha|eapply after_om; [|done]; lia|lia..|].
  exists outs, t'. split; [done|]. split; [done|]. intros name Hin. destruct (Hall name Hin) as (m' & ms' & Hm' & Hms' & Ha').
  exists m'. rewrite Hmem. destruct (decide (m = m')) as [<-|Hne].
  - eexists. rewrite lookup_insert_eq. split_and!; [done..|exact (after_succ n ms bk om' Ha Hb Hst)].
  - exists ms'. rewrite lookup_insert_ne by done. split_and!; [done..|by apply after_mono].
Qed.

Lemma multi_ok n : all_after 0 tables -> Z.of_nat n <= 42000000 ->
  exists outs t, sequential multi_program g_pool tables msg0 n = Some (outs, t) /\ all_after n t.
Proof.
  intros H0. induction n as [|n IH]; intros Hn; [by exists [], tables|].
  destruct IH as (outs & t & Hs & Ha); [lia|]. destruct (parsed_multi n) as (text & p & Ht & Hpo & Htk & Hparse).
  cbn [sequential record_after]. rewrite Hs. cbn [mbind option_bind pick work multi_program]. rewrite Ht, Hparse.
  destruct (consume_payload n p (ticker (record_after multi_program g_pool msg0 n)) t) as (outs' & t' & E & Ha'); [lia|done..|].
  rewrite E. cbn [mbind option_bind]. by eexists _, _.
Qed.
End many.

(** The tables the program starts its threads with. *)
Lemma tables_ready base t t' : 0 < base -> make_tables base = Some t -> register_markets t = Some t' -> exists R, all_after R 0 t'.
Proof.
  intros Hb Ht Ht'. destruct (registration base Hb) as (t1 & t2 & R & E1 & E2 & Hr & Hall). simplify_eq. exists R. split; [done|].
  intros name Hin. destruct (Hall name Hin) as (m & ? & ?). exists m, new_market. split_and!; [done..|apply after_new].
Qed.

(** ** The programs *)
(** What the consumer has done is what one thread does with as many messages. *)
Definition agrees {JS : Parser.DeltaJson} {St Clk} (prog : program St Clk) g_pool N_TOTAL st0 msg0 (st : @pipe St Clk) : Prop :=
  sequential prog g_pool st0 msg0 (taken N_TOTAL (c_pc (cons st))) = Some (written (cons st), market (cons st)) /\
  (main_pc st = MDone ->
     sequential prog g_pool st0 msg0 N_TOTAL = Some (written (cons st), market (cons st)) /\ Spsc.holds QUEUE_LOG (g_queue st) []).

Lemma inv_agrees {JS : Parser.DeltaJson} {St Clk} (prog : program St Clk) g_pool W N st0 msg0 st :
  length g_pool = Payload.N_PAYLOADS -> (W < N)%nat -> inv prog g_pool W N st0 msg0 st -> agrees prog g_pool N st0 msg0 st.
Proof. intros Hl Hw Hi. split; [apply (inv_out _ _ _ _ _ _ _ Hi)|intros Hd; by eapply done_sequential]. Qed.

(** A program that never waits for the clock and stamps a message when it makes it ready:
    enough rounds bring it to its end, and if the times do not go back its latencies are, one
    by one, the time at which this run finished the message minus the time at which it made
    it ready, without wrap-around. *)
Lemma closed_finishes {JS : Parser.DeltaJson} {St Clk} (prog : program St Clk) g_pool W N st0 clk0 msg0 (rs : list (list label)) :
  length g_pool = Payload.N_PAYLOADS -> (W < N)%nat -> is_Some (sequential prog g_pool st0 msg0 N) ->
  (forall i now c, gate prog i now c = Some (Go now c)) -> Forall round rs -> (7 * N + 4 <= length rs)%nat -> timed 0 (concat rs) ->
  exists st, exec prog g_pool W N (concat rs) (init W N st0 clk0 msg0) = Some st /\ main_pc st = MDone /\
    length (g_latencies (cons st)) = (N - W)%nat /\ Forall (fits 64) (g_latencies (cons st)) /\
    g_latencies (cons st) = measured prog g_pool W N st0 clk0 msg0 (concat rs) /\
    sequential prog g_pool st0 msg0 N = Some (written (cons st), market (cons st)).
Proof.
  intros Hl Hw Hs Hgate Hrs Hlen Htimed. assert (forall i now c, (i < N)%nat -> is_Some (gate prog i now c)) as Hg by (intros i now c _; rewrite Hgate; by eexists).
  pose proof (inv_init prog g_pool W N st0 clk0 msg0 Hl Hw) as Hi0.
  destruct (rounds_finish prog g_pool W N st0 msg0 Hl Hw Hs Hg ltac:(intros i now c; by rewrite Hgate) rs Hrs _ Hi0) as (st & Hst & Hi & Hd); [unfold left; simpl; lia|].
  destruct (exec_timed prog g_pool W N st0 clk0 msg0 (fun _ ready stamp _ => stamp = ready)) with (ls := concat rs) as (st' & T & Hst' & _ & Ht); try done.
  { intros i now c s c' Hgo Hnow. rewrite Hgate in Hgo. simplify_eq. done. }
  rewrite Hst in Hst'. injection Hst' as <-. pose proof (inv_lat _ _ _ _ _ _ _ Hi) as Hll.
  assert (taken N (c_pc (cons st)) = N) as Htk by (by eapply done_taken).
  assert (forall k x, g_latencies (cons st) !! k = Some x -> exists e s, finish_times prog g_pool W N st0 clk0 msg0 (concat rs) !! (W + k)%nat = Some e /\
    ready_times prog g_pool W N st0 clk0 msg0 (concat rs) !! (W + k)%nat = Some s /\ x = e - s /\ fits 64 x) as Hx.
  { intros k x Hk. apply lookup_lt_Some in Hk as Hkl. destruct (tinv_lat _ _ _ _ _ _ _ Ht (W + k)) as (e & s & Hf & He & Hse & [Hs0 (r & Hr & ->)]); [lia|].
    replace (W + k - W)%nat with k in He by lia. rewrite Hk in He. injection He as ->. pose proof (tinv_now _ _ _ _ _ _ _ Ht) as HT. exists e, r.
    split_and!; [done..|]. unfold fits in *. lia. }
  exists st. split_and!; [done|done|done| | |by eapply inv_agrees].
  - apply Forall_lookup. intros k x Hk. by destruct (Hx k x Hk) as (e & s & _ & _ & _ & ?).
  - pose proof (tinv_taken _ _ _ _ _ _ _ Ht) as HF. pose proof (tinv_ready _ _ _ _ _ _ _ Ht) as HR.
    assert (p_record N (p_pc (prod st)) = N) as Hrec.
    { destruct Hi as [_ _ _ _ _ _ _ Hmain]. rewrite Hd in Hmain. destruct Hmain as (_ & _ & Hdone). unfold threads_done in Hdone. by destruct (p_pc (prod st)). }
    apply (list_eq_same_length _ _ (N - W)); [unfold measured; rewrite length_zip_with, !length_drop; lia|done|].
    intros k x y _ Hk. destruct (Hx k x Hk) as (e & s & He & Hs' & -> & _). unfold measured. rewrite lookup_zip_with, !lookup_drop, He, Hs'. cbn. congruence.
Qed.

Section programs.
  Context {JS : Parser.DeltaJson} (HJ : Payload.reads_payloads JS) (lhs_first : bool) (g_pool : list bytes).
  Context (N_WARMUP N_TOTAL : nat) (Hw : (N_WARMUP < N_TOTAL)%nat) (Hn : Z.of_nat N_TOTAL <= 42000000) (msg0 : HotMsg).

Section one_ticker.
  Context (Hp : Payload.build_payload_pool lhs_first = Some g_pool).

Lemma pipe_runs ls : exists st, run_pipe g_pool N_WARMUP N_TOTAL msg0 ls = Some st /\
  inv pipe_program g_pool N_WARMUP N_TOTAL new_market msg0 st.
Proof.
  pose proof (bench_pool_length lhs_first g_pool Hp) as Hl.
  pose proof (sequential_some HJ lhs_first g_pool Hp pipe_program msg0 (fun d ms => eq_refl) N_TOTAL Hn) as Hs.
  destruct (exec_inv pipe_program g_pool N_WARMUP N_TOTAL new_market msg0 Hl Hw Hs (fun i now c _ => ex_intro _ _ eq_refl)
    ls _ (inv_init pipe_program g_pool N_WARMUP N_TOTAL new_market tt msg0 Hl Hw)) as (st & ? & ? & _).
  by exists st.
Qed.

(** C31. The two-thread pipeline computes what one thread computes: whatever the schedule
    and the time stamps, no step is undefined (no quantity overflows, no index leaves
    its array), what the consumer has written and its market are those of the one-thread
    loop after as many messages, and when the program has joined its threads they are
    those of the whole loop and the queue is empty. *)
Theorem pipeline_equivalence (ls : list label) :
  exists st, run_pipe g_pool N_WARMUP N_TOTAL msg0 ls = Some st /\ agrees pipe_program g_pool N_TOTAL new_market msg0 st.
Proof. destruct (pipe_runs ls) as (st & ? & ?). exists st. split; [done|eapply inv_agrees; eauto using bench_pool_length]. Qed.

(** The barrier holds: in every reachable state, if a thread is in its measured
    iterations then both threads have completed their warm-up, and if the counter is
    armed then both have arrived; the counter never exceeds two. *)
Theorem pipeline_barrier (ls : list label) (st : pipe) (Hst : run_pipe g_pool N_WARMUP N_TOTAL msg0 ls = Some st) :
  0 <= g_threads_ready st <= 2 /\ (g_alloc_armed st = true -> g_threads_ready st = 2) /\
  (p_past N_WARMUP (p_pc (prod st)) = true \/ c_past N_WARMUP (c_pc (cons st)) = true ->
   g_threads_ready st = 2 /\ (N_WARMUP <= sent N_TOTAL (p_pc (prod st)))%nat /\ (N_WARMUP <= taken N_TOTAL (c_pc (cons st)))%nat).
Proof.
  destruct (pipe_runs ls) as (st' & Hst' & Hi). rewrite Hst in Hst'. simplify_eq. eapply barrier; eauto using bench_pool_length.
Qed.

(** Every fair schedule finishes: a schedule made of [7 * N_TOTAL + 4] rounds, in each
    of which every thread runs at least once, brings the program to its end, with the
    result of the one-thread loop; no barrier and no full or empty queue can stop the
    three threads for good. *)
Theorem pipeline_terminates (rs : list (list label)) (Hrs : Forall round rs) (Hlen : (7 * N_TOTAL + 4 <= length rs)%nat) :
  exists st, run_pipe g_pool N_WARMUP N_TOTAL msg0 (concat rs) = Some st /\ main_pc st = MDone /\
    sequential pipe_program g_pool new_market msg0 N_TOTAL = Some (written (cons st), market (cons st)).
Proof.
  pose proof (bench_pool_length lhs_first g_pool Hp) as Hl.
  pose proof (sequential_some HJ lhs_first g_pool Hp pipe_program msg0 (fun d ms => eq_refl) N_TOTAL Hn) as Hs.
  destruct (rounds_finish pipe_program g_pool N_WARMUP N_TOTAL new_market msg0 Hl Hw Hs (fun i now c _ => ex_intro _ _ eq_refl)
    (fun i now c => ltac:(discriminate)) rs Hrs _ (inv_init pipe_program g_pool N_WARMUP N_TOTAL new_market tt msg0 Hl Hw)) as (st & ? & Hi & Hd).
  - unfold left. simpl. lia.
  - exists st. split; [done|]. split; [done|]. by eapply inv_agrees.
Qed.

(** Once past the barrier the schedule is anchored, at the one time at which the producer
    left it. *)
Abbreviation paced_readings g_offsets happens := (readings (paced_program N_WARMUP g_offsets) g_pool N_WARMUP N_TOTAL happens).
Lemma paced_release (g_offsets : list Z) (Hoff : (N_WARMUP + length g_offsets)%nat = N_TOTAL) ls : forall st st',
  inv (paced_program N_WARMUP g_offsets) g_pool N_WARMUP N_TOTAL new_market msg0 st ->
  exec (paced_program N_WARMUP g_offsets) g_pool N_WARMUP N_TOTAL ls st = Some st' -> p_past N_WARMUP (p_pc (prod st')) = true ->
  if p_past N_WARMUP (p_pc (prod st)) then paced_readings g_offsets (released N_WARMUP) ls st = [] /\ t0 (p_clock (prod st')) = t0 (p_clock (prod st))
  else exists a, paced_readings g_offsets (released N_WARMUP) ls st = [a] /\ t0 (p_clock (prod st')) = a +64 10000.
Proof.
  pose proof (bench_pool_length lhs_first g_pool Hp) as Hl.
  pose proof (sequential_some HJ lhs_first g_pool Hp (paced_program N_WARMUP g_offsets) msg0 (fun d ms => eq_refl) N_TOTAL Hn) as Hs.
  induction ls as [|l ls IH]; intros st st' Hi He Hp'; cbn [exec readings] in *; [simplify_eq; by rewrite Hp'|].
  destruct (all_good (paced_program N_WARMUP g_offsets) g_pool N_WARMUP N_TOTAL new_market msg0 Hl Hw Hs ltac:(intros i now c ?; apply paced_gate_defined; lia) l st Hi) as (st1 & E & Hi1 & _).
  rewrite E in *. cbn [mbind option_bind] in He. specialize (IH st1 st' Hi1 He Hp').
  destruct (paced_step_anchor g_pool N_WARMUP N_TOTAL Hw g_offsets l st st1 (inv_p _ _ _ _ _ _ _ Hi) E) as [Hkeep Hset].
  unfold released at 1 3. destruct (p_past N_WARMUP (p_pc (prod st))) eqn:E0; cbn [negb andb app].
  - destruct (Hkeep eq_refl) as [E1 Et]. rewrite E1, Et in IH. exact IH.
  - destruct (p_past N_WARMUP (p_pc (prod st1))) eqn:E1; cbn [app]; [|exact IH]. destruct (Hset eq_refl eq_refl) as (now & -> & Et).
    destruct IH as [-> ->]. rewrite Et. by exists now.
Qed.

(** The state and the latencies under every schedule with times that do not go back. *)
Abbreviation paced_finish_times g_offsets := (finish_times (paced_program N_WARMUP g_offsets) g_pool N_WARMUP N_TOTAL new_market paced_clock0 msg0).
Abbreviation paced_release_times g_offsets := (release_times (paced_program N_WARMUP g_offsets) g_pool N_WARMUP N_TOTAL new_market paced_clock0 msg0).
Lemma paced_timed (g_offsets : list Z) (Hoff : (N_WARMUP + length g_offsets)%nat = N_TOTAL) (ls : list label) (Hls : timed 0 ls) :
  exists st, run_paced g_pool N_WARMUP N_TOTAL msg0 g_offsets ls = Some st /\ length (g_latencies (cons st)) = (N_TOTAL - N_WARMUP)%nat /\
    agrees (paced_program N_WARMUP g_offsets) g_pool N_TOTAL new_market msg0 st /\
    (p_past N_WARMUP (p_pc (prod st)) = true -> exists a, paced_release_times g_offsets ls = [a] /\ t0 (p_clock (prod st)) = a +64 10000) /\
    length (paced_finish_times g_offsets ls) = taken N_TOTAL (c_pc (cons st)) /\
    forall k e, (N_WARMUP <= k)%nat -> paced_finish_times g_offsets ls !! k = Some e -> exists off,
      g_offsets !! (k - N_WARMUP)%nat = Some off /\ 0 <= t0 (p_clock (prod st)) +64 off <= e /\
      g_latencies (cons st) !! (k - N_WARMUP)%nat = Some (e - (t0 (p_clock (prod st)) +64 off)).
Proof.
  pose proof (bench_pool_length lhs_first g_pool Hp) as Hl.
  pose proof (sequential_some HJ lhs_first g_pool Hp (paced_program N_WARMUP g_offsets) msg0 (fun d ms => eq_refl) N_TOTAL Hn) as Hs.
  destruct (exec_timed (paced_program N_WARMUP g_offsets) g_pool N_WARMUP N_TOTAL new_market paced_clock0 msg0 (due N_WARMUP g_offsets)) with
    (ls := ls) as (st & T & He & Hi & Ht); try done.
  - apply paced_go.
  - apply paced_keeps.
  - intros now c k r t Hk _ Hk'. lia.
  - intros i now c Hi. apply paced_gate_defined. lia.
  - exists st. split; [done|]. split; [apply (inv_lat _ _ _ _ _ _ _ Hi)|]. split; [by eapply inv_agrees|]. split.
    { intros Hpast. apply (paced_release g_offsets Hoff ls _ st (inv_init _ _ _ _ _ _ _ Hl Hw) He Hpast). }
    split; [apply (tinv_taken _ _ _ _ _ _ _ Ht)|]. intros k e Hk Hek. pose proof (lookup_lt_Some _ _ _ Hek) as Hlt. rewrite (tinv_taken _ _ _ _ _ _ _ Ht) in Hlt.
    destruct (tinv_lat _ _ _ _ _ _ _ Ht k ltac:(lia)) as (e' & s & Hf & Hlat & Hse & [Hs0 (r & _ & Hdue)]). rewrite Hek in Hf. injection Hf as <-. destruct Hdue as (off & Hoff' & ->); [lia|].
    exists off. split_and!; [done|lia|lia|done].
Qed.

(** The paced benchmark measures from the scheduled arrival: under every schedule of
    the threads whose time stamps do not go back, each latency recorded is exactly the
    time at which this run finished the message minus the time at which it was due, without
    wrap-around, even if it was sent late; and what is computed is again what one thread
    computes. *)
Theorem paced_latencies (g_offsets : list Z) (Hoff : (N_WARMUP + length g_offsets)%nat = N_TOTAL) (ls : list label) (Hls : timed 0 ls) :
  exists st, run_paced g_pool N_WARMUP N_TOTAL msg0 g_offsets ls = Some st /\
    agrees (paced_program N_WARMUP g_offsets) g_pool N_TOTAL new_market msg0 st /\
    forall k e, (N_WARMUP <= k)%nat -> paced_finish_times g_offsets ls !! k = Some e -> exists off,
      g_offsets !! (k - N_WARMUP)%nat = Some off /\ 0 <= t0 (p_clock (prod st)) +64 off <= e /\
      g_latencies (cons st) !! (k - N_WARMUP)%nat = Some (e - (t0 (p_clock (prod st)) +64 off)).
Proof. destruct (paced_timed g_offsets Hoff ls Hls) as (st & H1 & _ & H2 & _ & _ & H3). by exists st. Qed.

(** The times of the producer are at most [T], or at least. *)
Definition early (T : Z) (l : label) : Prop := match l with Prod now => 0 <= now <= T | _ => True end.
Definition late (T : Z) (l : label) : Prop := match l with Prod now => T <= now | _ => True end.

(** Once [t0] is set, at a time of at most [T], later times than [T + 10000] and the last
    offset make no message wait. *)
Definition anchored_by (T : Z) (st : @pipe MarketState paced_clock) : Prop :=
  p_past N_WARMUP (p_pc (prod st)) = true -> 10000 <= t0 (p_clock (prod st)) <= T + 10000.

Lemma anchored_kept g_offsets T l st st' : T + 10000 < 2 ^ 64 -> early T l -> inv (paced_program N_WARMUP g_offsets) g_pool N_WARMUP N_TOTAL new_market msg0 st ->
  anchored_by T st -> step (paced_program N_WARMUP g_offsets) g_pool N_WARMUP N_TOTAL l st = Some st' -> anchored_by T st'.
Proof.
  intros HT Hl Hi Ha H Hp'. destruct (paced_step_anchor g_pool N_WARMUP N_TOTAL Hw g_offsets l st st' (inv_p _ _ _ _ _ _ _ Hi) H) as [Hkeep Hset].
  destruct (p_past N_WARMUP (p_pc (prod st))) eqn:E.
  - destruct (Hkeep eq_refl) as [_ ->]. by apply Ha.
  - destruct (Hset eq_refl Hp') as (now & -> & ->). simpl in Hl. rewrite wrap_small by (unfold fits; lia). lia.
Qed.

Lemma paced_due_open g_offsets T m i now c : Forall (fun o => 0 <= o <= m) g_offsets -> 0 <= t0 c <= T + 10000 -> T + 10000 + m < 2 ^ 64 -> T + 10000 + m <= now ->
  paced_gate N_WARMUP g_offsets i now c ≠ Some Wait.
Proof.
  intros Hm Ht HT Hnow. unfold paced_gate. destruct (_ <? _)%nat; [done|]. destruct (g_offsets !! _) as [o|] eqn:Eo; [|done]. cbn [mbind option_bind].
  apply (proj1 (Forall_lookup _ _) Hm) in Eo. simpl in Eo. rewrite wrap_small by (unfold fits; lia). destruct (Z.ltb_spec now (t0 c + o)); [lia|done].
Qed.

(** The paced benchmark ends too, although it waits for the clock: after enough rounds of the
    three threads both are past the barrier and the schedule is anchored; and after as many
    rounds at times later than the last arrival, every message has been sent and processed
    and the threads are joined, with the result of one thread. *)
Lemma paced_finishes (g_offsets : list Z) (Hoff : (N_WARMUP + length g_offsets)%nat = N_TOTAL) (T m : Z) (rs1 rs2 : list (list label))
    (Hm : Forall (fun o => 0 <= o <= m) g_offsets) (HT : 0 <= T /\ 0 <= m /\ T + 10000 + m < 2 ^ 64)
    (H1 : Forall (fun ls => round ls /\ Forall (early T) ls) rs1) (H2 : Forall (fun ls => round ls /\ Forall (late (T + 10000 + m)) ls) rs2)
    (Hl1 : (7 * N_TOTAL + 4 <= length rs1)%nat) (Hl2 : (7 * N_TOTAL + 4 <= length rs2)%nat) :
  exists st, run_paced g_pool N_WARMUP N_TOTAL msg0 g_offsets (concat rs1 ++ concat rs2) = Some st /\ main_pc st = MDone /\ taken N_TOTAL (c_pc (cons st)) = N_TOTAL /\
    p_past N_WARMUP (p_pc (prod st)) = true /\ 10000 <= t0 (p_clock (prod st)) <= T + 10000 /\
    sequential (paced_program N_WARMUP g_offsets) g_pool new_market msg0 N_TOTAL = Some (written (cons st), market (cons st)).
Proof.
  pose proof (bench_pool_length lhs_first g_pool Hp) as Hl. set (prog := paced_program N_WARMUP g_offsets).
  pose proof (sequential_some HJ lhs_first g_pool Hp prog msg0 (fun d ms => eq_refl) N_TOTAL Hn) as Hs.
  assert (forall i now c, (i < N_TOTAL)%nat -> is_Some (gate prog i now c)) as Hgate by (intros i now c Hi; apply paced_gate_defined; lia).
  set (past := fun st : @pipe MarketState paced_clock => p_past N_WARMUP (p_pc (prod st)) = true).
  assert (forall l st st', inv prog g_pool N_WARMUP N_TOTAL new_market msg0 st -> past st -> step prog g_pool N_WARMUP N_TOTAL l st = Some st' -> past st') as Hpast.
  { intros l st st' Hi Hst H. destruct (paced_step_anchor g_pool N_WARMUP N_TOTAL Hw g_offsets l st st' (inv_p _ _ _ _ _ _ _ Hi) H) as [Hk _]. by apply Hk. }
  pose proof (inv_init prog g_pool N_WARMUP N_TOTAL new_market paced_clock0 msg0 Hl Hw) as Hi0.
  destruct (rounds_until prog g_pool N_WARMUP N_TOTAL new_market msg0 Hl Hw Hs Hgate (early T) (anchored_by T) past) with
    (rs := rs1) (st := init N_WARMUP N_TOTAL new_market paced_clock0 msg0) as (st1 & E1 & Hi1 & Ha1 & Hend1); try done.
  { intros l st st' Hal Hi Ha H. exact (anchored_kept g_offsets T l st st' ltac:(lia) Hal Hi Ha H). }
  { intros ls st _ _ _ Hnot i now Hpc _. unfold past in Hnot. rewrite Hpc in Hnot. simpl in *. apply not_true_iff_false, Nat.leb_gt in Hnot.
    unfold paced_gate. by rewrite (proj2 (Nat.ltb_lt _ _) Hnot). }
  { unfold left. simpl. lia. }
  assert (past st1) as Hq.
  { destruct Hend1 as [Hd|Hq]; [|done]. destruct Hi1 as [_ _ _ _ _ _ _ Hmain]. rewrite Hd in Hmain. destruct Hmain as (_ & _ & Hdone).
    unfold threads_done in Hdone. unfold past. by destruct (p_pc (prod st1)). }
  destruct (rounds_until prog g_pool N_WARMUP N_TOTAL new_market msg0 Hl Hw Hs Hgate (late (T + 10000 + m)) (fun st => past st /\ anchored_by T st) (fun _ => False)) with
    (rs := rs2) (st := st1) as (st2 & E2 & Hi2 & [Hq2 Ha2] & [Hd2|[]]); try done.
  - intros l st st' _ Hi [Hst Ha] H. split; [by eapply Hpast|]. intros Hp'.
    destruct (paced_step_anchor g_pool N_WARMUP N_TOTAL Hw g_offsets l st st' (inv_p _ _ _ _ _ _ _ Hi) H) as [Hk _]. destruct (Hk Hst) as [_ ->]. by apply Ha.
  - intros ls st Hal Hi [Hst Ha] _ i now Hpc Hin. rewrite Forall_forall in Hal. specialize (Hal _ Hin). simpl in Hal.
    apply (paced_due_open g_offsets T m); [done|specialize (Ha Hst); lia|lia|done].
  - destruct (exec_inv prog g_pool N_WARMUP N_TOTAL new_market msg0 Hl Hw Hs Hgate (concat rs1) _ Hi0) as (st' & E & _ & Hle). rewrite E1 in E. simplify_eq.
    unfold left in *. simpl in *. lia.
  - exists st2. unfold run_paced. fold prog. rewrite exec_app, E1. cbn [mbind option_bind]. split_and!; [done|done|by eapply done_taken|done|by apply Ha2..|]. by eapply inv_agrees.
Qed.

(** One thread or two, the same result: when the paced two-thread benchmark has joined
    its threads, what its consumer has written and its market are what
    [bench_hotpath.cpp] computes on one thread with the same numbers of iterations,
    whatever the schedule, the pacing and the uninitialised records; and that program
    fills every slot of its array of measurements. *)
Theorem one_thread_equivalence (g_offsets : list Z) (Hoff : (N_WARMUP + length g_offsets)%nat = N_TOTAL) (ls : list label) (st : pipe)
    (Hst : run_paced g_pool N_WARMUP N_TOTAL msg0 g_offsets ls = Some st) (Hd : main_pc st = MDone)
    (junk junk' : nat -> OrderbookDelta) (now : nat -> Z * Z) :
  hot_main g_pool junk junk' now N_WARMUP (length g_offsets) =
    Some (written (cons st), market (cons st), (fun i => (now i).2 -64 (now i).1) <$> List.seq 0 (length g_offsets)).
Proof.
  pose proof (bench_pool_length lhs_first g_pool Hp) as Hl.
  pose proof (sequential_some HJ lhs_first g_pool Hp (paced_program N_WARMUP g_offsets) msg0 (fun d ms => eq_refl) N_TOTAL Hn) as Hs.
  destruct (exec_inv (paced_program N_WARMUP g_offsets) g_pool N_WARMUP N_TOTAL new_market msg0 Hl Hw Hs) with
    (ls := ls) (st := init N_WARMUP N_TOTAL new_market paced_clock0 msg0) as (st' & He & Hi & _).
  { intros i t c Hi. apply paced_gate_defined. lia. }
  { by apply inv_init. }
  unfold run_paced in Hst. rewrite Hst in He. simplify_eq.
  destruct (inv_agrees _ _ _ _ _ _ _ Hl Hw Hi) as [_ Hfin]. destruct (Hfin Hd) as [Hfin' _].
  destruct (hot_main_sequential HJ lhs_first g_pool Hp N_WARMUP (length g_offsets) g_offsets msg0 Hn junk junk' now) as (outs & ms & -> & E).
  unfold paced_sequential in E. rewrite E in Hfin'. by simplify_eq.
Qed.

End one_ticker.

(** C32. The many-market pipeline never aborts: with the tables as the constructors and
    [register_markets] leave them, every delta finds its market under every schedule, no
    step is undefined, and the tables and the bytes written are those of the one-thread
    loop after as many messages. *)
Theorem multi_pipeline (Hp : Payload.build_payload_pool_multi lhs_first = Some g_pool) (base : Z) (Hbase : 0 < base) :
  exists t t', make_tables base = Some t /\ register_markets t = Some t' /\
    forall ls, exists st, run_multi g_pool N_WARMUP N_TOTAL msg0 t' ls = Some st /\ agrees multi_program g_pool N_TOTAL t' msg0 st.
Proof.
  destruct (registration base Hbase) as (t & t' & _ & Ht & Ht' & _). exists t, t'. split; [done|]. split; [done|]. intros ls.
  pose proof (multi_pool_length lhs_first g_pool Hp) as Hl. destruct (tables_ready base t t' Hbase Ht Ht') as [R HR].
  destruct (multi_ok HJ lhs_first g_pool Hp msg0 R t' N_TOTAL HR Hn) as (outs & t2 & Hs & _).
  destruct (exec_inv multi_program g_pool N_WARMUP N_TOTAL t' msg0 Hl Hw (ex_intro _ _ Hs) (fun i now c _ => ex_intro _ _ eq_refl)
    ls _ (inv_init multi_program g_pool N_WARMUP N_TOTAL t' tt msg0 Hl Hw)) as (st & ? & Hi & _).
  exists st. split; [done|]. by eapply inv_agrees.
Qed.

End programs.

(** ** Witnesses *)
Definition fair_rounds (n : nat) : list (list label) := (fun k => [Prod (20000 * Z.of_nat k); Cons (20000 * Z.of_nat k); Main]) <$> List.seq 0 n.

Lemma fair_rounds_ok n : Forall round (fair_rounds n).
Proof.
  apply Forall_fmap, Forall_forall. intros k _.
  split_and!; [apply Exists_cons_hd|apply Exists_cons_tl, Exists_cons_hd|do 2 apply Exists_cons_tl; apply Exists_cons_hd]; exact Logic.I.
Qed.

(** A run of the paced program to its end. *)
Definition demo_offsets : list Z := [0; 5].
Definition all_at (t : Z) : list label := [Prod t; Cons t; Main].
Definition demo_schedule : list label := concat (replicate 25 (all_at 0)) ++ concat (replicate 25 (all_at 20000)).

Lemma all_at_round t (Q : label -> Prop) n : Q (Prod t) -> Q (Cons t) -> Q Main -> Forall (fun ls => round ls /\ Forall Q ls) (replicate n (all_at t)).
Proof.
  intros H1 H2 H3. apply Forall_replicate. split; [|by repeat constructor].
  split_and!; [apply Exists_cons_hd|apply Exists_cons_tl, Exists_cons_hd|do 2 apply Exists_cons_tl; apply Exists_cons_hd]; exact Logic.I.
Qed.

Lemma paced_demo_run : exists g_pool st, Payload.build_payload_pool true = Some g_pool /\
  run_paced (JS := Payload.reference_json) g_pool 1 3 blank_msg demo_offsets demo_schedule = Some st /\ main_pc st = MDone.
Proof.
  destruct (Payload.single_pool true) as (l & Hl & _). exists l.
  destruct (paced_finishes (JS := Payload.reference_json) Payload.reference_reads true l 1 3 ltac:(lia) ltac:(lia) blank_msg Hl demo_offsets eq_refl 0 5
    (replicate 25 (all_at 0)) (replicate 25 (all_at 20000))) as (st & Hst & Hd & _).
  - repeat constructor; lia.
  - lia.
  - apply all_at_round; simpl; lia.
  - apply all_at_round; simpl; lia.
  - rewrite length_replicate. lia.
  - rewrite length_replicate. lia.
  - exists st. exact (conj Hl (conj Hst Hd)).
Qed.

Lemma pipeline_equivalence_witness :
  exists g_pool st, run_pipe (JS := Payload.reference_json) g_pool 1 2 blank_msg (concat (fair_rounds 20)) = Some st /\
    agrees (JS := Payload.reference_json) pipe_program g_pool 2 new_market blank_msg st.
Proof.
  destruct (Payload.single_pool true) as (l & Hl & _). exists l.
  exact (pipeline_equivalence (JS := Payload.reference_json) Payload.reference_reads true l 1 2 ltac:(lia) ltac:(lia) blank_msg Hl (concat (fair_rounds 20))).
Defined.

Lemma pipeline_barrier_witness :
  exists g_pool st, run_pipe (JS := Payload.reference_json) g_pool 1 2 blank_msg (concat (fair_rounds 20)) = Some st /\
    0 <= g_threads_ready st <= 2 /\ (g_alloc_armed st = true -> g_threads_ready st = 2).
Proof.
  destruct (Payload.single_pool true) as (l & Hl & _). exists l.
  destruct (pipe_runs (JS := Payload.reference_json) Payload.reference_reads true l 1 2 ltac:(lia) ltac:(lia) blank_msg Hl (concat (fair_rounds 20))) as (st & Hst & _).
  exists st.
  destruct (pipeline_barrier (JS := Payload.reference_json) Payload.reference_reads true l 1 2 ltac:(lia) ltac:(lia) blank_msg Hl _ st Hst) as (H1 & H2 & _).
  exact (conj Hst (conj H1 H2)).
Defined.

Lemma pipeline_terminates_witness :
  exists g_pool st, run_pipe (JS := Payload.reference_json) g_pool 1 2 blank_msg (concat (fair_rounds 20)) = Some st /\ main_pc st = MDone.
Proof.
  destruct (Payload.single_pool true) as (l & Hl & _). exists l.
  destruct (pipeline_terminates (JS := Payload.reference_json) Payload.reference_reads true l 1 2 ltac:(lia) ltac:(lia) blank_msg Hl (fair_rounds 20)
    (fair_rounds_ok 20)) as (st & H1 & H2 & _).
  - unfold fair_rounds. rewrite length_fmap, length_seq. lia.
  - exists st. exact (conj H1 H2).
Defined.

Lemma paced_latencies_witness :
  exists g_pool st, run_paced (JS := Payload.reference_json) g_pool 1 3 blank_msg demo_offsets (concat (fair_rounds 20)) = Some st /\
    agrees (JS := Payload.reference_json) (paced_program 1 demo_offsets) g_pool 3 new_market blank_msg st.
Proof.
  destruct (Payload.single_pool true) as (l & Hl & _). exists l.
  destruct (paced_latencies (JS := Payload.reference_json) Payload.reference_reads true l 1 3 ltac:(lia) ltac:(lia) blank_msg Hl demo_offsets eq_refl
    (concat (fair_rounds 20))) as (st & H1 & H2 & _).
  - cbn -[Z.pow]. lia.
  - exists st. exact (conj H1 H2).
Defined.

Lemma one_thread_equivalence_witness :
  exists g_pool outs ms, hot_main (JS := Payload.reference_json) g_pool (fun _ => msg_delta blank_msg) (fun _ => msg_delta blank_msg)
    (fun i => (Z.of_nat i, Z.of_nat i + 3)) 1 2 = Some (outs, ms, (fun i => (Z.of_nat i + 3) -64 Z.of_nat i) <$> List.seq 0 2).
Proof.
  destruct paced_demo_run as (l & st & Hl & Hst & Hd). exists l, (written (cons st)), (market (cons st)).
  exact (one_thread_equivalence (JS := Payload.reference_json) Payload.reference_reads true l 1 3 ltac:(lia) ltac:(lia) blank_msg Hl demo_offsets eq_refl
    demo_schedule st Hst Hd _ _ (fun i => (Z.of_nat i, Z.of_nat i + 3))).
Defined.

Lemma multi_pipeline_witness :
  exists g_pool t t', make_tables 65536 = Some t /\ register_markets t = Some t' /\
    exists st, run_multi (JS := Payload.reference_json) g_pool 1 2 blank_msg t' (concat (fair_rounds 20)) = Some st.
Proof.
  destruct (Payload.multi_pool true) as (l & Hl & _). exists l.
  destruct (multi_pipeline (JS := Payload.reference_json) Payload.reference_reads true l 1 2 ltac:(lia) ltac:(lia) blank_msg Hl 65536 ltac:(lia)) as (t & t' & H1 & H2 & H3).
  exists t, t'. split; [exact H1|]. split; [exact H2|]. destruct (H3 (concat (fair_rounds 20))) as (st & Hst & _). by exists st.
Defined.

End Benches.
