(* ===== verification/Workloads.v ===== *)
(** * The microbenchmarks as clients

    The bodies of [bench/bench_flat_hash_map.cpp], [bench_pool.cpp] and
    [bench_spsc.cpp].  The map workloads are written once over the operations of
    [Interfaces.v]: [BM_FlatMap_*] runs them on the table of [FlatHashMap.v] and
    [BM_UnorderedMap_*] on a finite map with the [insert] of [std::unordered_map], which
    keeps an entry that is there.  The number of iterations is the framework's choice
    and an argument. *)
From stdpp Require Import gmap list numbers sorting.
From S2P Require Import Prelude Interfaces FlatHashMap Pool Spsc.
Open Scope Z_scope.
Open Scope cpp_scope.

Module Workloads.

(** ** Maps *)
Section map_workloads.
  Context {T : Type} `{!IndexOps T Z}.

(** [for (i = 0; i < n; ++i) map.insert(i, f(i))] *)
Fixpoint fill (f : Z -> Z) (n : nat) (i : Z) (t : T) : option T :=
  match n with O => Some t | S n => '(_, t) ← idx_insert t i (f i); fill f n (i +64 1) t end.

(** [BM_*_FillDrain] *)
Definition FILL_N : nat := 4096.
Definition fill_drain : option T := fill (fun i => i) FILL_N 0 idx_make.

(** [BM_*_FindHit]: the values found, in order. *)
Definition seven (i : Z) : Z := u64 (i * 7).
Fixpoint find_cycle (live : Z) (n : nat) (k : Z) (t : T) : option (list (option Z)) :=
  match n with O => Some [] | S n => v ← idx_find t k; vs ← find_cycle live n ((k +64 1) mod live) t; Some (v :: vs) end.
Definition find_hit (live : nat) (n : nat) : option (list (option Z)) :=
  t ← fill seven live 0 idx_make; find_cycle (Z.of_nat live) n 0 t.

(** [BM_*_FindMiss] *)
Fixpoint find_up (n : nat) (k : Z) (t : T) : option (list (option Z)) :=
  match n with O => Some [] | S n => v ← idx_find t k; vs ← find_up n (k +64 1) t; Some (v :: vs) end.
Definition find_miss (live : nat) (n : nat) : option (list (option Z)) :=
  t ← fill seven live 0 idx_make; find_up n (Z.of_nat live) t.

(** [BM_*_FindHit_Random] and [BM_*_FindMiss_Random]: the keys are a shuffled vector. *)
Fixpoint find_keys (keys : list Z) (n idx : nat) (t : T) : option (list (option Z)) :=
  match n with
  | O => Some []
  | S n => k ← keys !! idx; v ← idx_find t k; vs ← find_keys keys n ((idx + 1) mod length keys) t; Some (v :: vs)
  end.
Definition find_random (live : nat) (keys : list Z) (n : nat) : option (list (option Z)) :=
  t ← fill seven live 0 idx_make; find_keys keys n 0 t.

(** [BM_*_Churning]: what each [erase] and [insert] returned. *)
Fixpoint churn (n : nat) (old_id new_id : Z) (t : T) : option (list (bool * bool) * T) :=
  match n with
  | O => Some ([], t)
  | S n =>
    '(e, t) ← idx_erase t old_id;
    '(i, t) ← idx_insert t new_id new_id;
    '(rs, t) ← churn n (old_id +64 1) (new_id +64 1) t;
    Some ((e, i) :: rs, t)
  end.
Definition churning (L n : nat) : option (list (bool * bool) * T) :=
  t ← fill (fun i => i) L 0 idx_make; churn n 0 (Z.of_nat L) t.

(** [BM_*_MixedWorkload]: what each iteration saw. *)
Inductive seen := Found (v : option Z) | Replaced (erased inserted : bool).
Fixpoint mix (live : Z) (n : nat) (k oldest next_id : Z) (t : T) : option (list seen * T) :=
  match n with
  | O => Some ([], t)
  | S n =>
    if k mod 20 <? 19 then
      v ← idx_find t (oldest +64 (k mod live));
      '(rs, t) ← mix live n (k +64 1) oldest next_id t;
      Some (Found v :: rs, t)
    else
      '(e, t) ← idx_erase t oldest;
      '(i, t) ← idx_insert t next_id next_id;
      '(rs, t) ← mix live n (k +64 1) (oldest +64 1) (next_id +64 1) t;
      Some (Replaced e i :: rs, t)
  end.
Definition mixed (live n : nat) : option (list seen * T) :=
  t ← fill (fun i => i) live 0 idx_make; mix (Z.of_nat live) n 0 0 (Z.of_nat live) t.

(** [BM_*_DrainAll]: what each [erase] returned. *)
Fixpoint drain (n : nat) (i : Z) (t : T) : option (list bool * T) :=
  match n with
  | O => Some ([], t)
  | S n => '(e, t) ← idx_erase t i; '(rs, t) ← drain n (i +64 1) t; Some (e :: rs, t)
  end.
Definition drain_all (N : nat) : option (list bool * T) := t ← fill (fun i => i) N 0 idx_make; drain N 0 t.
End map_workloads.

(** ** What the workloads need of a map *)
(** [insert] is only called with keys that are not there. *)
Class FreshIndex (T : Type) `{!IndexOps T Z} := {
  fr_capacity : Z;
  fr_view : T -> gmap Z Z;
  fr_inv : T -> Prop;
  fr_make : fr_inv idx_make /\ fr_view idx_make = ∅;
  fr_insert t k v :
    fr_inv t -> 0 <= k < 2 ^ 64 - 1 -> fr_view t !! k = None -> Z.of_nat (size (fr_view t)) < fr_capacity ->
    exists t', idx_insert t k v = Some (true, t') /\ fr_inv t' /\ fr_view t' = <[k := v]> (fr_view t);
  fr_find t k : fr_inv t -> 0 <= k < 2 ^ 64 - 1 -> idx_find t k = Some (fr_view t !! k);
  fr_erase t k :
    fr_inv t -> 0 <= k < 2 ^ 64 - 1 ->
    exists t', idx_erase t k = Some (bool_decide (is_Some (fr_view t !! k)), t') /\ fr_inv t' /\ fr_view t' = delete k (fr_view t);
}.

(** ** The window of live keys *)
Record is_window (f : Z -> Z) (lo hi : Z) (m : gmap Z Z) : Prop := {
  win_lookup k : m !! k = if decide (lo <= k < hi) then Some (f k) else None;
  win_size : Z.of_nat (size m) = hi - lo;
}.

Lemma window_empty f lo : is_window f lo lo ∅.
Proof. split; [|rewrite map_size_empty; lia]. intros k. rewrite decide_False by lia. apply lookup_empty. Qed.

Lemma window_insert f lo hi m : lo <= hi -> is_window f lo hi m -> is_window f lo (hi + 1) (<[hi := f hi]> m).
Proof.
  intros Hle [Hm Hs]. split.
  - intros k. destruct (decide (k = hi)) as [->|Hne]; [by rewrite lookup_insert_eq, decide_True by lia|].
    rewrite lookup_insert_ne, Hm by done. destruct (decide (lo <= k < hi)), (decide (lo <= k < hi + 1)); (done || lia).
  - rewrite map_size_insert_None; [lia|]. rewrite Hm. by rewrite decide_False by lia.
Qed.

Lemma window_delete f lo hi m : lo < hi -> is_window f lo hi m -> is_window f (lo + 1) hi (delete lo m).
Proof.
  intros Hlt [Hm Hs]. split.
  - intros k. destruct (decide (k = lo)) as [->|Hne]; [by rewrite lookup_delete_eq, decide_False by lia|].
    rewrite lookup_delete_ne, Hm by done. destruct (decide (lo <= k < hi)), (decide (lo + 1 <= k < hi)); (done || lia).
  - assert (m !! lo = Some (f lo)) as Hlo by (rewrite Hm; by rewrite decide_True by lia).
    assert (size m ≠ 0%nat) by (intros E; apply map_size_empty_inv in E; subst m; by rewrite lookup_empty in Hlo).
    rewrite map_size_delete, Hlo. lia.
Qed.

Lemma window_nil f lo m : is_window f lo lo m -> m = ∅.
Proof. intros [Hm _]. apply map_eq. intros k. rewrite Hm, lookup_empty. by rewrite decide_False by lia. Qed.

Section on_any_map.
  Context {T : Type} `{!IndexOps T Z} `{!FreshIndex T}.
  Implicit Types t : T.

Definition live_window (f : Z -> Z) (lo hi : Z) t : Prop := fr_inv t /\ is_window f lo hi (fr_view t).

Lemma succ64 k : 0 <= k < 2 ^ 64 - 1 -> k +64 1 = k + 1.
Proof. intros H. apply wrap_small. unfold fits. lia. Qed.

(** The two moves of every workload. *)
Lemma insert_next f lo hi t : live_window f lo hi t -> 0 <= lo <= hi -> hi < 2 ^ 64 - 1 -> hi - lo < fr_capacity ->
  exists t', idx_insert t hi (f hi) = Some (true, t') /\ live_window f lo (hi + 1) t'.
Proof.
  intros [Hi Hm] Hlo Hhi Hcap. destruct (fr_insert t hi (f hi) Hi) as (t' & -> & Hi' & Hv); [lia| | |].
  - rewrite (win_lookup _ _ _ _ Hm). by rewrite decide_False by lia.
  - rewrite (win_size _ _ _ _ Hm). lia.
  - exists t'. split; [done|]. split; [done|]. rewrite Hv. apply window_insert; [lia|done].
Qed.

Lemma erase_oldest f lo hi t : live_window f lo hi t -> 0 <= lo < hi -> hi <= 2 ^ 64 - 1 ->
  exists t', idx_erase t lo = Some (true, t') /\ live_window f (lo + 1) hi t'.
Proof.
  intros [Hi Hm] Hlo Hhi. destruct (fr_erase t lo Hi) as (t' & -> & Hi' & Hv); [lia|]. exists t'.
  rewrite (win_lookup _ _ _ _ Hm), decide_True, bool_decide_true by (lia || by eexists). split; [done|]. split; [done|]. rewrite Hv. apply window_delete; [lia|done].
Qed.

Lemma find_window f lo hi t k : live_window f lo hi t -> 0 <= k < 2 ^ 64 - 1 ->
  idx_find t k = Some (if decide (lo <= k < hi) then Some (f k) else None).
Proof. intros [Hi Hm] Hk. by rewrite (fr_find t k Hi Hk), (win_lookup _ _ _ _ Hm). Qed.

Lemma fill_window f n : forall i t, live_window f 0 i t -> 0 <= i -> i + Z.of_nat n <= fr_capacity -> i + Z.of_nat n <= 2 ^ 64 - 1 ->
  exists t', fill f n i t = Some t' /\ live_window f 0 (i + Z.of_nat n) t'.
Proof.
  induction n as [|n IH]; intros i t Hw Hi Hcap Hmax; cbn [fill].
  { exists t. by rewrite Z.add_0_r. }
  destruct (insert_next f 0 i t Hw) as (t1 & -> & Hw1); [lia..|]. cbn [mbind option_bind]. rewrite succ64 by lia.
  destruct (IH (i + 1) t1 Hw1) as (t2 & -> & Hw2); [lia..|]. exists t2. split; [done|].
  by replace (i + Z.of_nat (S n)) with (i + 1 + Z.of_nat n) by lia.
Qed.

Lemma filled f n : Z.of_nat n <= fr_capacity -> Z.of_nat n <= 2 ^ 64 - 1 ->
  exists t, fill f n 0 (idx_make : T) = Some t /\ live_window f 0 (Z.of_nat n) t.
Proof.
  intros Hc Hm. destruct fr_make as [Hi Hv]. apply (fill_window f n 0 idx_make); [|lia..]. split; [done|]. rewrite Hv. apply window_empty.
Qed.

Lemma churn_window n : forall lo hi t, live_window (fun i => i) lo hi t -> 0 <= lo < hi -> hi - lo <= fr_capacity -> hi + Z.of_nat n <= 2 ^ 64 - 1 ->
  exists t', churn n lo hi t = Some (replicate n (true, true), t') /\ live_window (fun i => i) (lo + Z.of_nat n) (hi + Z.of_nat n) t'.
Proof.
  induction n as [|n IH]; intros lo hi t Hw Hlo Hcap Hmax; cbn [churn].
  { exists t. by rewrite !Z.add_0_r. }
  destruct (erase_oldest _ lo hi t Hw) as (t1 & -> & Hw1); [lia..|]. cbn [mbind option_bind].
  destruct (insert_next _ (lo + 1) hi t1 Hw1) as (t2 & -> & Hw2); [lia..|]. cbn [mbind option_bind]. rewrite !succ64 by lia.
  destruct (IH (lo + 1) (hi + 1) t2 Hw2) as (t3 & -> & Hw3); [lia..|]. cbn [mbind option_bind]. exists t3. split; [done|].
  replace (lo + Z.of_nat (S n)) with (lo + 1 + Z.of_nat n) by lia. by replace (hi + Z.of_nat (S n)) with (hi + 1 + Z.of_nat n) by lia.
Qed.

(** What the mixed workload sees on a map that always has the keys from [oldest] on. *)
Fixpoint mix_seen (live : Z) (n : nat) (k oldest : Z) : list seen :=
  match n with
  | O => []
  | S n => if k mod 20 <? 19 then Found (Some (oldest + k mod live)) :: mix_seen live n (k + 1) oldest
           else Replaced true true :: mix_seen live n (k + 1) (oldest + 1)
  end.

Lemma mix_window live n : forall k lo t, live_window (fun i => i) lo (lo + live) t -> 0 < live <= fr_capacity -> 0 <= lo -> 0 <= k ->
  lo + live + Z.of_nat n <= 2 ^ 64 - 1 -> k + Z.of_nat n <= 2 ^ 64 - 1 ->
  exists t' lo', mix live n k lo (lo + live) t = Some (mix_seen live n k lo, t') /\ live_window (fun i => i) lo' (lo' + live) t'.
Proof.
  induction n as [|n IH]; intros k lo t Hw Hl Hlo Hk Hmax Hkmax; cbn [mix mix_seen]; [by exists t, lo|].
  pose proof (Z.mod_pos_bound k live ltac:(lia)) as Hmod. destruct (k mod 20 <? 19).
  - rewrite (wrap_small 64 (lo + k mod live)) by (unfold fits; lia). rewrite (find_window _ _ _ _ _ Hw), decide_True by lia. cbn [mbind option_bind].
    rewrite succ64 by lia. destruct (IH (k + 1) lo t Hw) as (t' & lo' & -> & Hw'); [lia..|]. cbn [mbind option_bind]. by exists t', lo'.
  - destruct (erase_oldest _ lo _ t Hw) as (t1 & -> & Hw1); [lia..|]. cbn [mbind option_bind].
    destruct (insert_next _ (lo + 1) _ t1 Hw1) as (t2 & -> & Hw2); [lia..|]. cbn [mbind option_bind]. rewrite !succ64 by lia.
    replace (lo + live + 1) with (lo + 1 + live) in * by lia.
    destruct (IH (k + 1) (lo + 1) t2 Hw2) as (t' & lo' & -> & Hw'); [lia..|]. cbn [mbind option_bind]. by exists t', lo'.
Qed.

Lemma drain_window f n : forall i t, live_window f i (i + Z.of_nat n) t -> 0 <= i -> i + Z.of_nat n <= 2 ^ 64 - 1 ->
  exists t', drain n i t = Some (replicate n true, t') /\ fr_view t' = ∅.
Proof.
  induction n as [|n IH]; intros i t Hw Hi Hmax; cbn [drain].
  { exists t. split; [done|]. rewrite Z.add_0_r in Hw. by eapply window_nil, Hw. }
  destruct (erase_oldest f i _ t Hw) as (t1 & -> & Hw1); [lia..|]. cbn [mbind option_bind]. rewrite succ64 by lia.
  replace (i + Z.of_nat (S n)) with (i + 1 + Z.of_nat n) in Hw1 by lia.
  destruct (IH (i + 1) t1 Hw1) as (t2 & -> & ?); [lia..|]. cbn [mbind option_bind]. by exists t2.
Qed.

Lemma find_cycle_window f live n : forall k t, live_window f 0 live t -> 0 <= k < live -> live <= 2 ^ 64 - 1 ->
  find_cycle live n k t = Some ((fun j => Some (f ((k + Z.of_nat j) mod live))) <$> List.seq 0 n).
Proof.
  induction n as [|n IH]; intros k t Hw Hk Hl; cbn [find_cycle List.seq fmap list_fmap]; [done|].
  rewrite (find_window _ _ _ _ _ Hw), decide_True by lia. cbn [mbind option_bind]. rewrite succ64 by lia.
  pose proof (Z.mod_pos_bound (k + 1) live ltac:(lia)). rewrite IH by (done || lia). cbn [mbind option_bind].
  rewrite Z.add_0_r, (Z.mod_small k) by lia. do 2 f_equal. rewrite <- seq_shift, <- list_fmap_compose. apply list_fmap_ext. intros j x _. simpl.
  rewrite Z.add_mod_idemp_l by lia. do 3 f_equal. lia.
Qed.

Lemma find_up_window f live n : forall k t, live_window f 0 live t -> 0 <= live <= k -> k + Z.of_nat n <= 2 ^ 64 - 1 ->
  find_up n k t = Some (replicate n None).
Proof.
  induction n as [|n IH]; intros k t Hw Hk Hmax; cbn [find_up]; [done|]. rewrite (find_window _ _ _ _ _ Hw), decide_False by lia.
  cbn [mbind option_bind]. rewrite succ64 by lia. by rewrite IH by (done || lia).
Qed.

Lemma find_keys_window f live keys n : forall idx t, live_window f 0 live t -> Forall (fun k => 0 <= k < 2 ^ 64 - 1) keys -> (idx < length keys)%nat ->
  find_keys keys n idx t = Some ((fun j => k ← keys !! ((idx + j) mod length keys)%nat; if decide (0 <= k < live) then Some (f k) else None) <$> List.seq 0 n).
Proof.
  induction n as [|n IH]; intros idx t Hw Hks Hidx; cbn [find_keys List.seq fmap list_fmap]; [done|].
  destruct (lookup_lt_is_Some_2 keys idx Hidx) as [k Hk]. rewrite Hk. cbn [mbind option_bind].
  rewrite (find_window _ _ _ _ _ Hw) by (by apply (proj1 (Forall_lookup _ _) Hks idx)). cbn [mbind option_bind].
  rewrite IH; [|done|done|apply Nat.mod_upper_bound; lia]. cbn [mbind option_bind].
  rewrite Nat.add_0_r, (Nat.mod_small idx) by lia. rewrite Hk. cbn [mbind option_bind]. do 2 f_equal.
  rewrite <- seq_shift, <- list_fmap_compose. apply list_fmap_ext. intros j x _. simpl. rewrite Nat.Div0.add_mod_idemp_l.
  by replace (idx + S x)%nat with (idx + 1 + x)%nat by lia.
Qed.

End on_any_map.

(** ** The two maps *)
(** [std::unordered_map]: [insert] keeps an entry that is there. *)
Definition std_insert (m : gmap Z Z) (k v : Z) : option (bool * gmap Z Z) :=
  match m !! k with Some _ => Some (false, m) | None => Some (true, <[k := v]> m) end.
#[export] Instance std_ops : IndexOps (gmap Z Z) Z := {|
  idx_make := ∅;
  idx_insert := std_insert;
  idx_find m k := Some (m !! k);
  idx_erase m k := Some (bool_decide (is_Some (m !! k)), delete k m);
|}.
#[export] Instance std_fresh : FreshIndex (gmap Z Z).
Proof.
  refine {| fr_capacity := 2 ^ 64; fr_view := fun m => m; fr_inv := fun _ => True |}; try done.
  - intros t k v _ _ Hk _. simpl. unfold std_insert. rewrite Hk. eauto.
  - intros t k _ _. simpl. eauto.
Defined.

(** [FlatHashMap<uint64_t, uint64_t, 2 ^ cap_log>] *)
Definition zero_value : Inhabited Z := populate 0.
Definition flat_ops (cap_log : Z) : IndexOps (Fhm.FlatHashMap Z) Z := @Fhm.index_ops Z zero_value cap_log.
Definition flat_fresh (cap_log : Z) (H : 0 <= cap_log <= 63) : @FreshIndex (Fhm.FlatHashMap Z) (flat_ops cap_log).
Proof.
  pose (L := @Fhm.index_laws Z zero_value cap_log H).
  refine (@Build_FreshIndex _ (flat_ops cap_log) (@idx_capacity _ _ _ L) (@idx_view _ _ _ L) (@idx_inv _ _ _ L) (@idx_make_ok _ _ _ L) _ _ _).
  - intros t k v Hi Hk _ Hs. apply (@idx_insert_ok _ _ _ L); [done| |by right]. simpl. unfold Fhm.EMPTY. lia.
  - intros t k Hi Hk. apply (@idx_find_ok _ _ _ L); [done|]. simpl. unfold Fhm.EMPTY. lia.
  - intros t k Hi Hk. apply (@idx_erase_ok _ _ _ L); [done|]. simpl. unfold Fhm.EMPTY. lia.
Defined.

(** The map benchmarks measure what they mean to, on the flat map and on
    [std::unordered_map] alike: whatever the number of iterations, every erasure and
    insertion of the churning and mixed workloads succeeds and the live keys are always
    a window of the same size, every lookup for a hit finds its value, every lookup for
    a miss finds nothing, and draining erases every key and empties the map. *)
Theorem map_workloads {T : Type} `{!IndexOps T Z} `{!FreshIndex T} (L n : nat) (keys : list Z)
    (HL : 0 < Z.of_nat L <= fr_capacity) (Hn : Z.of_nat L + Z.of_nat n <= 2 ^ 64 - 1)
    (Hkeys : Forall (fun k => 0 <= k < 2 ^ 64 - 1) keys) (Hne : (0 < length keys)%nat) :
  (exists t : T, churning L n = Some (replicate n (true, true), t) /\ is_window (fun i => i) (Z.of_nat n) (Z.of_nat L + Z.of_nat n) (fr_view t)) /\
  (exists (t : T) lo, mixed L n = Some (mix_seen (Z.of_nat L) n 0 0, t) /\ is_window (fun i => i) lo (lo + Z.of_nat L) (fr_view t)) /\
  find_hit (T := T) L n = Some ((fun j => Some (seven (Z.of_nat j mod Z.of_nat L))) <$> List.seq 0 n) /\
  find_miss (T := T) L n = Some (replicate n None) /\
  find_random (T := T) L keys n = Some ((fun j => k ← keys !! (j mod length keys)%nat;
    if decide (0 <= k < Z.of_nat L) then Some (seven k) else None) <$> List.seq 0 n) /\
  exists t : T, drain_all L = Some (replicate L true, t) /\ fr_view t = ∅.
Proof.
  destruct (filled (T := T) (fun i => i) L) as (t & Hf & Hw); [lia..|]. destruct (filled (T := T) seven L) as (t7 & Hf7 & Hw7); [lia..|].
  unfold churning, mixed, find_hit, find_miss, find_random, drain_all. rewrite Hf, Hf7. cbn [mbind option_bind]. split_and!.
  - destruct (churn_window n 0 (Z.of_nat L) t Hw) as (t' & -> & _ & Hw'); [lia..|]. by exists t'.
  - destruct (mix_window (Z.of_nat L) n 0 0 t Hw) as (t' & lo & E & _ & Hw'); [lia..|]. rewrite Z.add_0_l in E. by exists t', lo.
  - by rewrite (find_cycle_window _ _ n 0 t7 Hw7) by lia.
  - by rewrite (find_up_window _ _ n _ t7 Hw7) by lia.
  - by rewrite (find_keys_window _ _ keys n 0 t7 Hw7 Hkeys Hne).
  - destruct (drain_window _ L 0 t Hw) as (t' & -> & ?); [lia..|]. by exists t'.
Qed.

Definition flat_4096 : @FreshIndex (Fhm.FlatHashMap Z) (flat_ops 12) := flat_fresh 12 ltac:(lia).

Lemma map_workloads_witness :
  (exists t, @churning _ (flat_ops 12) 1024 5000 = Some (replicate 5000 (true, true), t)) /\
  (exists t, @churning _ std_ops 1024 5000 = Some (replicate 5000 (true, true), t)).
Proof.
  split.
  - destruct (@map_workloads _ (flat_ops 12) flat_4096 1024 5000 [3]) as ((t & H & _) & _); [|lia| |simpl; lia|exists t; exact H].
    + assert (@fr_capacity _ _ flat_4096 = 4096) as -> by reflexivity. lia.
    + repeat constructor; lia.
  - destruct (@map_workloads _ std_ops std_fresh 1024 5000 [3]) as ((t & H & _) & _); [|lia| |simpl; lia|exists t; exact H].
    + assert (@fr_capacity _ _ std_fresh = 2 ^ 64) as -> by reflexivity. lia.
    + repeat constructor; lia.
Defined.

(** ** Pools *)
(** The order of [bench_pool.cpp]; a free block keeps the pool's link in its first word. *)
Record Order := mkOrder { id : Z; timestamp : Z; price : Z; qty : Z; side : Z; status : Z; ticker : list Z }.
#[export] Instance order_overlay : Overlay Order :=
  {| link_get := id; link_set p o := mkOrder p (timestamp o) (price o) (qty o) (side o) (status o) (ticker o); link_get_set _ _ := eq_refl |}.

(** The fields [BM_Pool_RealisticUsage] writes. *)
Definition use_order (next_id : Z) (o : Order) : Order := mkOrder next_id (u64 (next_id * 1000)) 4200 100 1 0 (ticker o).

Section pool_workloads.
  Context {P T : Type} `{!PoolOps P T}.
  Abbreviation state := (gmap Z T * P)%type.

(** [BM_Pool_AllocDealloc]: the blocks handed out. *)
Fixpoint alloc_dealloc (n : nat) (st : state) : option (list Z * state) :=
  match n with
  | O => Some ([], st)
  | S n =>
    '(o, p) ← pool_allocate st.1 st.2;
    st ← pool_deallocate st.1 p o;
    '(os, st) ← alloc_dealloc n st;
    Some (o :: os, st)
  end.

(** [BM_Pool_RealisticUsage]: [use] writes the fields of the order; writing through a
    null or unmapped pointer is undefined. *)
Fixpoint realistic (use : Z -> T -> T) (n : nat) (next_id : Z) (st : state) : option (list Z * state) :=
  match n with
  | O => Some ([], st)
  | S n =>
    '(o, p) ← pool_allocate st.1 st.2;
    x ← st.1 !! o;
    let id := next_id +64 1 in
    st ← pool_deallocate (<[o := use id x]> st.1) p o;
    '(os, st) ← realistic use n id st;
    Some (o :: os, st)
  end.

(** [BM_Pool_FillDrain], one iteration: [ptrs], and the pool afterwards. *)
Fixpoint allocate_many (n : nat) (st : state) : option (list Z * state) :=
  match n with
  | O => Some ([], st)
  | S n => '(o, p) ← pool_allocate st.1 st.2; '(os, st) ← allocate_many n (st.1, p); Some (o :: os, st)
  end.
Fixpoint deallocate_all (ptrs : list Z) (st : state) : option state :=
  match ptrs with [] => Some st | o :: ptrs => st ← pool_deallocate st.1 st.2 o; deallocate_all ptrs st end.
Definition pool_fill_drain (N : nat) (st : state) : option (list Z * state) :=
  '(ptrs, st) ← allocate_many N st; st ← deallocate_all ptrs st; Some (ptrs, st).

(** [BM_Pool_Churning] *)
Fixpoint pool_churn (n idx : nat) (live : list Z) (st : state) : option (list Z * state) :=
  match n with
  | O => Some (live, st)
  | S n =>
    o ← live !! idx;
    '(m, p) ← pool_deallocate st.1 st.2 o;
    '(o, p) ← pool_allocate m p;
    pool_churn n (Z.to_nat (Z.land (Z.of_nat idx + 1) (Z.of_nat (length live) - 1))) (<[idx := o]> live) (m, p)
  end.
Definition pool_churning (LIVE n : nat) (st : state) : option (list Z * state) :=
  '(live, st) ← allocate_many LIVE st; '(live, st) ← pool_churn n 0 live st; st ← deallocate_all live st; Some (live, st).

Context `{!PoolLaws P T}.
Implicit Types st : state.

(** The blocks [fl] are free, in this order. *)
Definition free st (fl : list Z) : Prop := pool_free st.1 st.2 fl /\ NoDup fl.

(** Giving a block back that was just taken. *)
Lemma give_back m p a fl : pool_free m p fl -> NoDup (a :: fl) -> a ≠ 0 -> is_Some (m !! a) ->
  exists st', pool_deallocate m p a = Some st' /\ free st' (a :: fl).
Proof.
  intros Hf Hnd Ha Hm. pose proof Hnd as [Hin _]%NoDup_cons. destruct (pool_deallocate_ok m p fl a Hf Ha Hin Hm) as (m' & p' & -> & Hf' & _).
  by exists (m', p').
Qed.

Lemma alloc_dealloc_free n : forall st a fl, free st (a :: fl) ->
  exists st', alloc_dealloc n st = Some (replicate n a, st') /\ free st' (a :: fl).
Proof.
  induction n as [|n IH]; intros [m p] a fl [Hf Hnd]; cbn [alloc_dealloc fst snd]; [by exists (m, p)|]. simpl in Hf.
  destruct (pool_allocate_cons m p a fl Hf) as (p1 & -> & Hf1). cbn [mbind option_bind fst snd].
  destruct (pool_free_ok m p _ a Hf (list_elem_of_here _ _)) as [Ha Hma].
  destruct (give_back m p1 a fl Hf1 Hnd Ha Hma) as (st1 & -> & Hst1). cbn [mbind option_bind].
  destruct (IH st1 a fl Hst1) as (st2 & -> & ?). cbn [mbind option_bind]. by exists st2.
Qed.

Lemma realistic_free use n : forall k st a fl, free st (a :: fl) ->
  exists st', realistic use n k st = Some (replicate n a, st') /\ free st' (a :: fl).
Proof.
  induction n as [|n IH]; intros k [m p] a fl [Hf Hnd]; cbn [realistic fst snd]; [by exists (m, p)|]. simpl in Hf.
  destruct (pool_allocate_cons m p a fl Hf) as (p1 & -> & Hf1). cbn [mbind option_bind fst snd].
  destruct (pool_free_ok m p _ a Hf (list_elem_of_here _ _)) as [Ha [x Hx]]. rewrite Hx. cbn [mbind option_bind].
  destruct (give_back (<[a := use (k +64 1) x]> m) p1 a fl) as (st1 & -> & Hst1); [|done..|rewrite lookup_insert_eq; eauto|].
  { eapply pool_free_frame; [exact Hf1|]. intros b Hb. apply lookup_insert_ne. intros <-. by apply NoDup_cons in Hnd as [? _]. }
  cbn [mbind option_bind]. destruct (IH (k +64 1) st1 a fl Hst1) as (st2 & -> & ?). cbn [mbind option_bind]. by exists st2.
Qed.

(** Taking all of [os]: they are mapped, and the rest stays free. *)
Lemma allocate_many_free os : forall st fl, free st (os ++ fl) ->
  exists p, allocate_many (length os) st = Some (os, (st.1, p)) /\ free (st.1, p) fl /\ Forall (fun a => a ≠ 0 /\ is_Some (st.1 !! a)) os.
Proof.
  induction os as [|a os IH]; intros [m p] fl [Hf Hnd]; cbn [allocate_many length fst snd]; [by exists p|]. simpl in Hf, Hnd.
  destruct (pool_allocate_cons m p a (os ++ fl) Hf) as (p1 & -> & Hf1). cbn [mbind option_bind].
  destruct (IH (m, p1) fl) as (p2 & -> & Hfl & Hos); [split; [done|by apply NoDup_cons in Hnd as [_ ?]]|]. cbn [mbind option_bind fst]. exists p2.
  split_and!; [done..|]. apply Forall_cons. split; [|done]. apply (pool_free_ok m p _ a Hf). apply list_elem_of_here.
Qed.

Lemma deallocate_all_free os : forall st fl, free st fl -> NoDup os -> (forall a, a ∈ os -> a ∉ fl) -> Forall (fun a => a ≠ 0 /\ is_Some (st.1 !! a)) os ->
  exists st', deallocate_all os st = Some st' /\ free st' (reverse os ++ fl).
Proof.
  induction os as [|a os IH]; intros [m p] fl [Hf Hnd] Hos Hdis Hall; cbn [deallocate_all]; [by exists (m, p)|].
  apply NoDup_cons in Hos as [Ha Hos]. apply Forall_cons in Hall as [[Ha0 Hma] Hall]. pose proof (Hdis a (list_elem_of_here _ _)) as Hafl.
  destruct (pool_deallocate_ok m p fl a Hf Ha0 Hafl Hma) as (m' & p' & Hd & Hf' & Hma' & Hm'). cbn [fst snd]. rewrite Hd. cbn [mbind option_bind].
  destruct (IH (m', p') (a :: fl)) as (st' & -> & Hst').
  - split; [done|]. by apply NoDup_cons.
  - done.
  - intros b Hb. apply not_elem_of_cons. split; [by intros ->|]. apply Hdis. by apply list_elem_of_further.
  - rewrite Forall_forall in Hall |- *. intros b Hb. cbn [fst]. rewrite Hm' by (by intros ->). by apply Hall.
  - exists st'. split; [done|]. rewrite reverse_cons, <- app_assoc. done.
Qed.

Lemma fill_drain_free os fl st : free st (os ++ fl) ->
  exists st', pool_fill_drain (length os) st = Some (os, st') /\ free st' (reverse os ++ fl).
Proof.
  intros Hst. pose proof Hst as [_ Hnd]. apply NoDup_app in Hnd as (Hl & Hdis & Hfl).
  destruct (allocate_many_free os st fl Hst) as (p & Hm & Hf & Hall). unfold pool_fill_drain. rewrite Hm. cbn [mbind option_bind].
  destruct (deallocate_all_free os (st.1, p) fl Hf Hl Hdis Hall) as (st' & -> & ?). by exists st'.
Qed.

(** The block given back is the next one handed out: the live ones never change. *)
Lemma pool_churn_free n : forall idx live st fl, free st fl -> NoDup live -> (forall a, a ∈ live -> a ∉ fl) ->
  Forall (fun a => a ≠ 0 /\ is_Some (st.1 !! a)) live -> (idx < length live)%nat -> length live = 1024%nat ->
  exists st', pool_churn n idx live st = Some (live, st') /\ free st' fl /\ Forall (fun a => a ≠ 0 /\ is_Some (st'.1 !! a)) live.
Proof.
  induction n as [|n IH]; intros idx live [m p] fl [Hf Hnd] Hlive Hdis Hall Hidx Hlen; cbn [pool_churn fst snd]; [by exists (m, p)|].
  destruct (lookup_lt_is_Some_2 live idx Hidx) as [a Ha]. rewrite Ha. cbn [mbind option_bind].
  destruct (proj1 (Forall_lookup _ _) Hall idx a Ha) as [Ha0 Hma]. pose proof (Hdis a (list_elem_of_lookup_2 _ _ _ Ha)) as Hafl.
  destruct (pool_deallocate_ok m p fl a Hf Ha0 Hafl Hma) as (m' & p' & Hd & Hf' & Hma' & Hm'). rewrite Hd. cbn [mbind option_bind].
  destruct (pool_allocate_cons m' p' a fl Hf') as (p2 & -> & Hf2). cbn [mbind option_bind]. rewrite (list_insert_id _ _ _ Ha).
  apply IH; [done|done|done| | |done].
  - rewrite Forall_forall in Hall |- *. intros b Hb. split; [by apply Hall|]. cbn [fst]. destruct (decide (b = a)) as [->|Hne]; [done|].
    rewrite Hm' by done. by apply Hall.
  - rewrite Hlen. change (Z.of_nat 1024 - 1) with (Z.ones 10). rewrite Z.land_ones by lia.
    pose proof (Z.mod_pos_bound (Z.of_nat idx + 1) (2 ^ 10) ltac:(lia)). change (2 ^ 10) with 1024 in *. lia.
Qed.

(** The pool benchmarks: no allocation fails, the blocks held together are different, a
    block given back is the next one handed out, and each benchmark leaves every block
    free again. *)
Theorem pool_workload_blocks st (a : Z) (live fl : list Z) (use : Z -> T -> T) (n : nat) (next_id : Z)
    (Ha : head (live ++ fl) = Some a) (Hst : free st (live ++ fl)) (Hlen : length live = 1024%nat) :
  (exists st', alloc_dealloc n st = Some (replicate n a, st') /\ free st' (live ++ fl)) /\
  (exists st', realistic use n next_id st = Some (replicate n a, st') /\ free st' (live ++ fl)) /\
  (forall ptrs rest, live ++ fl = ptrs ++ rest ->
    exists st', pool_fill_drain (length ptrs) st = Some (ptrs, st') /\ free st' (reverse ptrs ++ rest)) /\
  (exists st', pool_churning 1024 n st = Some (live, st') /\ free st' (reverse live ++ fl)) /\ NoDup live /\ 0 ∉ live.
Proof.
  pose proof (fun ptrs rest => fill_drain_free ptrs rest st) as Hfd. pose proof Hst as [_ Hnd]. apply NoDup_app in Hnd as (Hl & Hdis & Hfl).
  destruct (allocate_many_free live st fl Hst) as (p & Hm & Hf & Hall).
  destruct (live ++ fl) as [|a0 rest] eqn:E; [done|]. injection Ha as ->. split_and!.
  - destruct (alloc_dealloc_free n st a rest Hst) as (st' & ? & ?). by eexists.
  - destruct (realistic_free use n next_id st a rest Hst) as (st' & ? & ?). by eexists.
  - intros ptrs rest' E'. apply Hfd. by rewrite <- E'.
  - unfold pool_churning. rewrite <- Hlen, Hm. cbn [mbind option_bind].
    destruct (pool_churn_free n 0 live (st.1, p) fl Hf Hl Hdis Hall) as (st1 & -> & Hf1 & Hall1); [lia|done|]. cbn [mbind option_bind].
    destruct (deallocate_all_free live st1 fl Hf1 Hl Hdis Hall1) as (st' & -> & ?). by exists st'.
  - done.
  - intros H0. rewrite Forall_forall in Hall. by destruct (Hall 0 H0).
Qed.
End pool_workloads.

#[local] Existing Instances Pool.pool_ops Pool.pool_laws.

(** On [Pool<Order, 4096>] from its constructor on: the blocks are those of the mapping. *)
Theorem pool_benchmarks (base : Z) (m : gmap Z Order) (n : nat) :
  0 < base -> (forall a, a ∈ Pool.blocks 64 4096 base -> is_Some (m !! a)) ->
  exists m' p a live ptrs, Pool.make 64 4096 base m = Some (m', p) /\
    fst <$> alloc_dealloc n (m', p) = Some (replicate n a) /\
    fst <$> realistic use_order n 0 (m', p) = Some (replicate n a) /\
    fst <$> pool_churning 1024 n (m', p) = Some live /\ NoDup live /\ live ⊆ Pool.blocks 64 4096 base /\
    fst <$> pool_fill_drain 4096 (m', p) = Some ptrs /\ ptrs ≡ₚ Pool.blocks 64 4096 base.
Proof.
  intros Hb Hm. destruct (Pool.make_free_list 64 4096 base ltac:(lia) ltac:(lia) Hb m Hm) as (m' & p & Hmk & fl & Hf & Hperm & _).
  cbn [Pool.mem Pool.pool Pool.held] in *. rewrite app_nil_l in Hperm. pose proof (Permutation_length Hperm) as Hlen.
  unfold Pool.blocks in Hlen at 1. rewrite length_fmap, length_seq in Hlen.
  assert (free (m', p) (take 1024 fl ++ drop 1024 fl)) as Hfree by (rewrite take_drop; split; [done|apply Hf]).
  destruct fl as [|a fl]; [discriminate Hlen|].
  destruct (pool_workload_blocks (m', p) a (take 1024 (a :: fl)) (drop 1024 (a :: fl)) use_order n 0) as
    ((s1 & E1 & _) & (s2 & E2 & _) & Hfd & (s3 & E3 & _) & Hnd & _); [by rewrite take_drop|done|rewrite length_take; lia|].
  destruct (Hfd (a :: fl) []) as (s4 & E4 & _); [by rewrite take_drop, app_nil_r|]. rewrite Hlen in E4.
  exists m', p, a, (take 1024 (a :: fl)), (a :: fl). rewrite E1, E2, E3, E4. split_and!; try done.
  rewrite <- Hperm. intros x Hx. rewrite <- (take_drop 1024 (a :: fl)). apply elem_of_app. by left.
Qed.

(** ** Queues *)
(** [SPSCQueue<int, 1024>] *)
Definition QCAP_LOG : Z := 10.
Lemma qcap_ok : 0 <= QCAP_LOG <= 63.
Proof. unfold QCAP_LOG. lia. Qed.

Section queue_workloads.
  Context {T : Type} `{!Inhabited T}.
  Abbreviation queue := (Spsc.SPSCQueue T).
  Implicit Types q : queue.

(** [BM_PushPop], [BM_Emplace], [BM_PushPopFat]: what each iteration pushed and popped. *)
Fixpoint push_pop (n : nat) (x : T) q : list (bool * option T) * queue :=
  match n with
  | O => ([], q)
  | S n =>
    let '(ok, q) := Spsc.try_push QCAP_LOG x q in
    let '(out, q) := Spsc.try_pop QCAP_LOG q in
    let '(rs, q) := push_pop n x q in ((ok, out) :: rs, q)
  end.

(** [while (q.try_pop(out)) {}]; the fuel is more than the ring holds. *)
Fixpoint drain_queue (fuel : nat) q : option queue :=
  match fuel with
  | O => None
  | S fuel => match Spsc.try_pop QCAP_LOG q with (Some _, q) => drain_queue fuel q | (None, q) => Some q end
  end.

(** [BM_Push]: whether an iteration stored a value. *)
Fixpoint push_only (value : Z -> T) (n : nat) (i : Z) q : option (list bool * queue) :=
  match n with
  | O => Some ([], q)
  | S n =>
    let '(ok, q) := Spsc.try_push QCAP_LOG (value i) q in
    if (ok : bool) then '(rs, q) ← push_only value n (i + 1) q; Some (true :: rs, q)
    else
      q ← drain_queue 1025 q;
      let '(ok, q) := Spsc.try_push QCAP_LOG (value (i + 1)) q in
      '(rs, q) ← push_only value n (i + 2) q;
      Some (ok :: rs, q)
  end.

(** [for (i = 0; i < 1024; ++i) q.try_push(i)] *)
Fixpoint refill (value : Z -> T) (n : nat) (i : Z) q : queue :=
  match n with O => q | S n => refill value n (i + 1) (Spsc.try_push QCAP_LOG (value i) q).2 end.

(** [BM_Pop]: what an iteration popped. *)
Fixpoint pop_only (value : Z -> T) (n : nat) q : list (option T) * queue :=
  match n with
  | O => ([], q)
  | S n =>
    let '(out, q) := Spsc.try_pop QCAP_LOG q in
    let '(out, q) := match out with
                     | Some _ => (out, q)
                     | None => Spsc.try_pop QCAP_LOG (refill value 1024 0 q)
                     end in
    let '(rs, q) := pop_only value n q in (out :: rs, q)
  end.

Lemma push_room q l x : Spsc.holds QCAP_LOG q l -> (length l < 1024)%nat ->
  exists q', Spsc.try_push QCAP_LOG x q = (true, q') /\ Spsc.holds QCAP_LOG q' (l ++ [x]).
Proof.
  intros Hq Hl. pose proof (Spsc.push_holds QCAP_LOG qcap_ok q l x Hq) as H. change (Spsc.Capacity QCAP_LOG) with 1024 in H.
  rewrite decide_True in H by lia. done.
Qed.

Lemma push_full q l x : Spsc.holds QCAP_LOG q l -> (1024 <= length l)%nat ->
  exists q', Spsc.try_push QCAP_LOG x q = (false, q') /\ Spsc.holds QCAP_LOG q' l.
Proof.
  intros Hq Hl. pose proof (Spsc.push_holds QCAP_LOG qcap_ok q l x Hq) as H. change (Spsc.Capacity QCAP_LOG) with 1024 in H.
  rewrite decide_False in H by lia. done.
Qed.

Lemma pop_cons q x l : Spsc.holds QCAP_LOG q (x :: l) -> exists q', Spsc.try_pop QCAP_LOG q = (Some x, q') /\ Spsc.holds QCAP_LOG q' l.
Proof. intros Hq. destruct (Spsc.pop_holds QCAP_LOG qcap_ok q _ Hq) as (q' & _ & _ & ? & _ & ? & _). by exists q'. Qed.

Lemma pop_nil q : Spsc.holds QCAP_LOG q [] -> exists q', Spsc.try_pop QCAP_LOG q = (None, q') /\ Spsc.holds QCAP_LOG q' [].
Proof. intros Hq. destruct (Spsc.pop_holds QCAP_LOG qcap_ok q _ Hq) as (q' & ? & _ & _ & ?). by exists q'. Qed.

Lemma push_pop_holds n x : forall q, Spsc.holds QCAP_LOG q [] ->
  exists q', push_pop n x q = (replicate n (true, Some x), q') /\ Spsc.holds QCAP_LOG q' [].
Proof.
  induction n as [|n IH]; intros q Hq; cbn [push_pop]; [by exists q|]. destruct (push_room q [] x Hq) as (q1 & -> & H1); [simpl; lia|].
  destruct (pop_cons q1 x [] H1) as (q2 & -> & H2). destruct (IH q2 H2) as (q3 & -> & ?). by exists q3.
Qed.

Lemma drain_queue_holds fuel : forall q l, Spsc.holds QCAP_LOG q l -> (length l < fuel)%nat ->
  exists q', drain_queue fuel q = Some q' /\ Spsc.holds QCAP_LOG q' [].
Proof.
  induction fuel as [|fuel IH]; intros q l Hq Hl; [lia|]. cbn [drain_queue]. destruct l as [|x l].
  - destruct (pop_nil q Hq) as (q' & -> & ?). by exists q'.
  - destruct (pop_cons q x l Hq) as (q' & -> & Hq'). apply (IH q' l Hq'). simpl in Hl. lia.
Qed.

Lemma push_only_holds value n : forall i q l, Spsc.holds QCAP_LOG q l -> (length l <= 1024)%nat ->
  exists q' l', push_only value n i q = Some (replicate n true, q') /\ Spsc.holds QCAP_LOG q' l' /\ (length l' <= 1024)%nat.
Proof.
  induction n as [|n IH]; intros i q l Hq Hl; cbn [push_only]; [by exists q, l|]. destruct (decide (length l < 1024)%nat) as [Hlt|Hge].
  - destruct (push_room q l (value i) Hq Hlt) as (q1 & -> & H1). destruct (IH (i + 1) q1 _ H1) as (q' & l' & -> & ? & ?).
    + rewrite length_app. simpl. lia.
    + cbn [mbind option_bind]. by exists q', l'.
  - destruct (push_full q l (value i) Hq) as (q1 & -> & H1); [lia|]. destruct (drain_queue_holds 1025 q1 l H1) as (q2 & -> & H2); [lia|].
    cbn [mbind option_bind]. destruct (push_room q2 [] (value (i + 1)) H2) as (q3 & -> & H3); [simpl; lia|].
    destruct (IH (i + 2) q3 _ H3) as (q' & l' & -> & ? & ?); [simpl; lia|]. cbn [mbind option_bind]. by exists q', l'.
Qed.

Lemma refill_holds value n : forall i q l, Spsc.holds QCAP_LOG q l -> (length l + n <= 1024)%nat ->
  Spsc.holds QCAP_LOG (refill value n i q) (l ++ ((fun j => value (i + Z.of_nat j)) <$> List.seq 0 n)).
Proof.
  induction n as [|n IH]; intros i q l Hq Hl; cbn [refill]; [by rewrite app_nil_r|].
  destruct (push_room q l (value i) Hq) as (q1 & -> & H1); [lia|]. cbn [snd].
  specialize (IH (i + 1) q1 _ H1 ltac:(rewrite length_app; simpl; lia)). rewrite <- app_assoc in IH.
  replace (l ++ ((fun j => value (i + Z.of_nat j)) <$> List.seq 0 (S n))) with (l ++ [value i] ++ ((fun j => value (i + 1 + Z.of_nat j)) <$> List.seq 0 n)); [done|].
  f_equal. cbn [List.seq fmap list_fmap app]. rewrite Z.add_0_r. f_equal. rewrite <- seq_shift, <- list_fmap_compose.
  apply list_fmap_ext. intros j x _. simpl. f_equal. lia.
Qed.

Lemma pop_only_holds value n : forall q l, Spsc.holds QCAP_LOG q l ->
  exists rs q' l', pop_only value n q = (Some <$> rs, q') /\ length rs = n /\ Spsc.holds QCAP_LOG q' l'.
Proof.
  induction n as [|n IH]; intros q l Hq; cbn [pop_only]; [by exists [], q, l|]. destruct l as [|x l].
  - destruct (pop_nil q Hq) as (q1 & -> & H1). pose proof (refill_holds value 1024 0 q1 [] H1 ltac:(simpl; lia)) as H2.
    rewrite app_nil_l in H2. pose proof (length_fmap (fun j => value (0 + Z.of_nat j)) (List.seq 0 1024)) as Hlen. rewrite length_seq in Hlen.
    destruct (_ <$> _) as [|y ys] in H2, Hlen; [discriminate Hlen|]. destruct (pop_cons _ _ _ H2) as (q3 & -> & H3). destruct (IH q3 _ H3) as (rs & q' & l' & -> & ? & ?).
    eexists (_ :: rs), q', l'. split_and!; [done|simpl; lia|done].
  - destruct (pop_cons q x l Hq) as (q1 & -> & H1). destruct (IH q1 l H1) as (rs & q' & l' & -> & ? & ?).
    exists (x :: rs), q', l'. split_and!; [done|simpl; lia|done].
Qed.

(** The single-thread queue benchmarks, from an empty queue: every push of a pair succeeds
    and the pop after it returns that value; filling up, every iteration ends with a
    stored value; and on the pre-filled queue every iteration pops one. *)
Theorem queue_workloads_exact value n x q : Spsc.holds QCAP_LOG q [] ->
  fst (push_pop n x q) = replicate n (true, Some x) /\
  fst <$> push_only value n 0 q = Some (replicate n true) /\
  exists rs, fst (pop_only value n (refill value 1024 0 q)) = Some <$> rs /\ length rs = n.
Proof.
  intros Hq. split_and!.
  - by destruct (push_pop_holds n x q Hq) as (q' & -> & _).
  - destruct (push_only_holds value n 0 q [] Hq) as (q' & l' & -> & _); [simpl; lia|done].
  - pose proof (refill_holds value 1024 0 q [] Hq ltac:(simpl; lia)) as H. destruct (pop_only_holds value n _ _ H) as (rs & q' & l' & -> & ? & _). by exists rs.
Qed.
End queue_workloads.

End Workloads.
