(* ===== verification/CrossThread.v ===== *)
(** * The two-thread queue benchmarks

    [bench/bench_spsc.cpp] sends integers between two threads: one way through the ring
    ([BM_CrossThread_Throughput]) or through a [std::queue] under a mutex
    ([BM_StdQueueMutex_CrossThread]), and to and fro through two rings
    ([BM_CrossThread_RTT]).  One step is one call of [try_push] or [try_pop], which
    [Spsc.v] proves linearizable, or one critical section of the mutex.  The one-way
    program is written against a class of channels, of which the ring and the locked
    queue are instances.

    A schedule is a list of threads; a round is one in which both threads run. *)
From stdpp Require Import list numbers.
From S2P Require Import Prelude Spsc.
Open Scope Z_scope.

Module CrossThread.

Inductive thread := A | B.

(** ** Fair schedules
    For a program that keeps an invariant, in which a step either makes progress or was
    not able to and disables nobody, and in which somebody is able to move until the end. *)
Section fair.
  Context {St : Type} (step : thread -> St -> St) (inv : St -> Prop) (left : St -> nat) (can : thread -> St -> Prop).

Definition exec (ls : list thread) (s : St) : St := foldl (fun s t => step t s) s ls.
Definition round (ls : list thread) : Prop := A ∈ ls /\ B ∈ ls.

(** What a step may do. *)
Definition good (t : thread) (s : St) : Prop :=
  inv (step t s) /\
  ((left (step t s) < left s)%nat \/ ~ can t s /\ left (step t s) = left s /\ forall t', can t' s -> can t' (step t s)).

  Context (Hgood : forall t s, inv s -> good t s) (Hsome : forall s, inv s -> (0 < left s)%nat -> exists t, can t s).

Lemma fair_inv ls : forall s, inv s -> inv (exec ls s) /\ (left (exec ls s) <= left s)%nat.
Proof.
  induction ls as [|t ls IH]; intros s Hs; [done|]. destruct (Hgood t s Hs) as [Hi Hl]. destruct (IH _ Hi). split; [done|].
  change (exec (t :: ls) s) with (exec ls (step t s)). lia.
Qed.

Lemma fair_progress t ls : forall s, inv s -> can t s -> t ∈ ls -> (left (exec ls s) < left s)%nat.
Proof.
  induction ls as [|t' ls IH]; intros s Hs Hc Hin; [by apply not_elem_of_nil in Hin|].
  change (exec (t' :: ls) s) with (exec ls (step t' s)). destruct (Hgood t' s Hs) as [Hi [Hlt|(Hno & Heq & Hkeep)]].
  - pose proof (proj2 (fair_inv ls _ Hi)). lia.
  - apply elem_of_cons in Hin as [->|Hin]; [done|]. rewrite <- Heq. auto.
Qed.

Lemma rounds_end rs : Forall round rs -> forall s, inv s -> (left s <= length rs)%nat -> left (exec (concat rs) s) = 0%nat.
Proof.
  induction 1 as [|ls rs [HA HB] _ IH]; intros s Hs Hl; [simpl in *; lia|]. cbn [concat]. unfold exec. rewrite foldl_app.
  apply IH; [by apply (fair_inv ls)|]. destruct (decide (left s = 0%nat)) as [E|E].
  - pose proof (proj2 (fair_inv ls s Hs)). unfold exec in *. lia.
  - destruct (Hsome s Hs) as [t Ht]; [lia|]. simpl in Hl. pose proof (fair_progress t ls s Hs Ht ltac:(by destruct t)). unfold exec in *. lia.
Qed.
End fair.

(** ** Channels *)
Class Channel (Q : Type) := {
  try_push : Z -> Q -> bool * Q;
  try_pop : Q -> option Z * Q;
}.

#[global] Arguments try_push {Q _} v q : simpl never, rename.
#[global] Arguments try_pop {Q _} q : simpl never, rename.

(** What the programs rely on: a queue that refuses only values it has no room for. *)
Class ChannelSpec (Q : Type) `{!Channel Q} (room : nat -> bool) := {
  contains : Q -> list Z -> Prop;
  room_zero : room 0%nat = true;
  push_spec q l v : contains q l -> exists q', try_push v q = (room (length l), q') /\ contains q' (if room (length l) then l ++ [v] else l);
  pop_spec q l : contains q l -> exists q', try_pop q = (head l, q') /\ contains q' (tail l);
}.

(** [SPSCQueue<int64_t, 1024>] *)
Definition ring : Type := Spsc.SPSCQueue Z.
#[export] Instance ring_channel : Channel ring := {| try_push := Spsc.try_push 10; try_pop := Spsc.try_pop 10 |}.

#[export] Instance ring_spec : ChannelSpec ring (fun n => (n <? 1024)%nat).
Proof.
  refine {| contains := Spsc.holds 10 |}; [done|..].
  - intros q l v Hq. pose proof (Spsc.push_holds 10 ltac:(lia) q l v Hq) as H. change (Spsc.Capacity 10) with 1024 in H.
    cbn [try_push ring_channel]. destruct (Nat.ltb_spec (length l) 1024); [rewrite decide_True in H by lia|rewrite decide_False in H by lia]; done.
  - intros q l Hq. pose proof (Spsc.pop_holds 10 ltac:(lia) q l Hq) as H. cbn [try_pop ring_channel]. destruct l as [|x l].
    + destruct H as (q' & ? & _ & _ & ?). by exists q'.
    + destruct H as (q' & _ & _ & ? & _ & ? & _). by exists q'.
Defined.

(** [std::queue<int64_t>] with [std::mutex]: each critical section. *)
Definition locked_queue : Type := list Z.
#[export] Instance locked_channel : Channel locked_queue := {|
  try_push v q := (true, q ++ [v]);
  try_pop q := match q with [] => (None, []) | v :: q => (Some v, q) end;
|}.

#[export] Instance locked_spec : ChannelSpec locked_queue (fun _ => true).
Proof. refine {| contains q l := q = l |}; [done|intros q l v ->; by eexists|intros q [|v l] ->; by eexists]. Defined.

(** ** One way *)
Section one_way.
  Context {Q : Type} `{Channel Q} (items_per_iter : nat).

(** The producer's [i], the consumer's [count] and [out]; what it received is kept for
    the statements. *)
Record flow := mkFlow { fl_queue : Q; fl_i : nat; fl_count : nat; fl_out : Z; fl_received : list Z }.

(** The body of [for (i…) while (!q.try_push(i)) {}]. *)
Definition producer (s : flow) : flow :=
  if (fl_i s <? items_per_iter)%nat then
    let '(ok, q) := try_push (Z.of_nat (fl_i s)) (fl_queue s) in
    mkFlow q (if (ok : bool) then S (fl_i s) else fl_i s) (fl_count s) (fl_out s) (fl_received s)
  else s.

(** The body of [while (count < items_per_iter)]. *)
Definition consumer (s : flow) : flow :=
  if (fl_count s <? items_per_iter)%nat then
    match try_pop (fl_queue s) with
    | (Some v, q) => mkFlow q (fl_i s) (S (fl_count s)) v (fl_received s ++ [v])
    | (None, q) => mkFlow q (fl_i s) (fl_count s) (fl_out s) (fl_received s)
    end
  else s.

Definition flow_step (t : thread) (s : flow) : flow := match t with A => producer s | B => consumer s end.

(** [consumer.join()] returns. *)
Definition joined (s : flow) : bool := (items_per_iter <=? fl_i s)%nat && (items_per_iter <=? fl_count s)%nat.

(** One iteration of the benchmark under a schedule: what was received, and the queue. *)
Definition throughput (ls : list thread) (q : Q) : option (list Z * Q) :=
  let s := exec flow_step ls (mkFlow q 0 0 0 []) in
  if joined s then Some (fl_received s, fl_queue s) else None.

(** [for (auto _ : state)]: the queue is the same one throughout. *)
Fixpoint throughputs (its : list (list thread)) (q : Q) : option (list (list Z) * Q) :=
  match its with
  | [] => Some ([], q)
  | ls :: its => '(r, q) ← throughput ls q; '(rs, q) ← throughputs its q; Some (r :: rs, q)
  end.

(** The values an iteration sends. *)
Definition values (n : nat) : list Z := Z.of_nat <$> List.seq 0 n.

Lemma values_S n : values (S n) = values n ++ [Z.of_nat n].
Proof. unfold values. by rewrite seq_S, fmap_app. Qed.

Lemma values_length n : length (values n) = n.
Proof. unfold values. by rewrite length_fmap, length_seq. Qed.

  Context `{!ChannelSpec Q room}.

(** Received and queued together are what was sent. *)
Record flow_inv (s : flow) : Prop := {
  flow_queue : exists l, contains (fl_queue s) l /\ fl_received s ++ l = values (fl_i s);
  flow_count : length (fl_received s) = fl_count s;
  flow_bound : (fl_i s <= items_per_iter)%nat;
}.

Definition flow_left (s : flow) : nat := (items_per_iter - fl_i s) + (items_per_iter - fl_count s).
Definition flow_can (t : thread) (s : flow) : Prop :=
  match t with
  | A => (fl_i s < items_per_iter)%nat /\ room (fl_i s - fl_count s) = true
  | B => (fl_count s < fl_i s)%nat
  end.

Lemma flow_length s l : fl_received s ++ l = values (fl_i s) -> length (fl_received s) = fl_count s ->
  length l = (fl_i s - fl_count s)%nat /\ (fl_count s <= fl_i s)%nat.
Proof. intros Hl Hc. apply (f_equal length) in Hl. rewrite length_app, values_length in Hl. lia. Qed.

Lemma send_good s : flow_inv s -> good flow_step flow_inv flow_left flow_can A s.
Proof.
  intros [(l & Hq & Hl) Hc Hb]. destruct (flow_length s l Hl Hc) as [Hn Hle]. unfold good, flow_left, flow_can. cbn [flow_step]. unfold producer.
  destruct (Nat.ltb_spec (fl_i s) items_per_iter); cycle 1.
  { split; [split; eauto|]. right. split; [lia|done]. }
  destruct (push_spec _ _ (Z.of_nat (fl_i s)) Hq) as (q' & -> & Hq'). rewrite Hn in *. destruct (room _) eqn:Hr; simpl.
  - split; [|left; lia]. split; simpl; [|done|lia]. eexists. split; [done|]. by rewrite app_assoc, Hl, values_S.
  - split; [split; simpl; eauto|]. right. split; [intros [_ ?]; congruence|]. split; [done|]. intros []; simpl; rewrite ?Hr; done.
Qed.

Lemma receive_good s : flow_inv s -> good flow_step flow_inv flow_left flow_can B s.
Proof.
  intros [(l & Hq & Hl) Hc Hb]. destruct (flow_length s l Hl Hc) as [Hn Hle]. unfold good, flow_left, flow_can. cbn [flow_step]. unfold consumer.
  destruct (Nat.ltb_spec (fl_count s) items_per_iter); cycle 1.
  { split; [split; eauto|]. right. split; [lia|done]. }
  destruct (pop_spec _ _ Hq) as (q' & -> & Hq'). destruct l as [|v l]; simpl in *.
  - split; [split; simpl; eauto|]. right. split; [lia|]. split; [done|]. by intros [].
  - split; [|left; lia]. split; simpl; [|rewrite length_app; simpl; lia|done]. exists l. by rewrite <- app_assoc.
Qed.

Lemma flow_good t s : flow_inv s -> good flow_step flow_inv flow_left flow_can t s.
Proof. destruct t; [apply send_good|apply receive_good]. Qed.

Lemma flow_some s : flow_inv s -> (0 < flow_left s)%nat -> exists t, flow_can t s.
Proof.
  intros [(l & Hq & Hl) Hc Hb] Hleft. destruct (flow_length s l Hl Hc) as [_ Hle]. unfold flow_left in Hleft. unfold flow_can.
  destruct (decide (fl_count s < fl_i s)%nat); [by exists B|]. exists A. split; [lia|].
  replace (fl_i s - fl_count s)%nat with 0%nat by lia. apply room_zero.
Qed.

Lemma flow_init q : contains q [] -> flow_inv (mkFlow q 0 0 0 []).
Proof. intros Hq. split; simpl; [by exists []|done|lia]. Qed.

Lemma throughput_exact q ls r q' : contains q [] -> throughput ls q = Some (r, q') ->
  r = values items_per_iter /\ contains q' [].
Proof.
  intros Hq. unfold throughput. pose proof (proj1 (fair_inv _ _ _ _ flow_good ls _ (flow_init q Hq))) as Hi.
  destruct (joined _) eqn:Hj; [|done]. intros [= <- <-]. destruct Hi as [(l & Hl & E) Hc Hb].
  apply andb_true_iff in Hj as [Hi%Nat.leb_le Hn%Nat.leb_le]. destruct (flow_length _ l E Hc) as [Hlen Hle].
  destruct l; [|simpl in Hlen; lia]. rewrite app_nil_r in E. rewrite E. split; [f_equal; lia|done].
Qed.

Lemma throughput_returns q rs : contains q [] -> Forall round rs -> (2 * items_per_iter <= length rs)%nat ->
  is_Some (throughput (concat rs) q).
Proof.
  intros Hq Hrs Hlen. unfold throughput. pose proof (flow_init q Hq) as H0.
  pose proof (rounds_end _ _ _ _ flow_good flow_some rs Hrs _ H0 ltac:(unfold flow_left; simpl; lia)) as Hz.
  unfold flow_left, joined in *. rewrite !(proj2 (Nat.leb_le _ _)) by lia. by eexists.
Qed.

Lemma throughputs_exact its : forall q, contains q [] ->
  Forall (fun ls => exists rs, ls = concat rs /\ Forall round rs /\ (2 * items_per_iter <= length rs)%nat) its ->
  exists q', throughputs its q = Some (replicate (length its) (values items_per_iter), q') /\ contains q' [].
Proof.
  induction its as [|ls its IH]; intros q Hq Hall; [by exists q|]. apply Forall_cons_1 in Hall as [(rs & -> & Hrs & Hlen) Hall].
  cbn [throughputs]. destruct (throughput_returns q rs Hq Hrs Hlen) as [[r q1] E]. rewrite E. cbn [mbind option_bind].
  destruct (throughput_exact q _ r q1 Hq E) as [-> H1]. destruct (IH q1 H1 Hall) as (q2 & -> & H2). by exists q2.
Qed.
End one_way.

(** ** To and fro *)
Section ping_pong.
  Context (rounds : nat).

(** At [q1.try_push], at [q2.try_pop]; at [q1.try_pop], at [q2.try_push]. *)
Inductive ping := ASend (i : nat) | AWait (i : nat) | ADone.
Inductive pong := BWait (i : nat) | BSend (i : nat) | BDone.
(** The variables [val] of the two threads; the replies are kept for the statements. *)
Record rally := mkRally { q1 : ring; q2 : ring; ping_pc : ping; ping_val : Z; pong_pc : pong; pong_val : Z; replies : list Z }.

Definition ping_loop (i : nat) : ping := if (i <? rounds)%nat then ASend i else ADone.
Definition pong_loop (i : nat) : pong := if (i <? rounds)%nat then BWait i else BDone.

Definition ping_step (s : rally) : rally :=
  match ping_pc s with
  | ASend i =>
    let '(ok, q) := try_push (Z.of_nat i) (q1 s) in
    mkRally q (q2 s) (if (ok : bool) then AWait i else ASend i) (ping_val s) (pong_pc s) (pong_val s) (replies s)
  | AWait i =>
    match try_pop (q2 s) with
    | (Some v, q) => mkRally (q1 s) q (ping_loop (S i)) v (pong_pc s) (pong_val s) (replies s ++ [v])
    | (None, q) => mkRally (q1 s) q (AWait i) (ping_val s) (pong_pc s) (pong_val s) (replies s)
    end
  | ADone => s
  end.

Definition pong_step (s : rally) : rally :=
  match pong_pc s with
  | BWait i =>
    match try_pop (q1 s) with
    | (Some v, q) => mkRally q (q2 s) (ping_pc s) (ping_val s) (BSend i) v (replies s)
    | (None, q) => mkRally q (q2 s) (ping_pc s) (ping_val s) (BWait i) (pong_val s) (replies s)
    end
  | BSend i =>
    let '(ok, q) := try_push (pong_val s) (q2 s) in
    mkRally (q1 s) q (ping_pc s) (ping_val s) (if (ok : bool) then pong_loop (S i) else BSend i) (pong_val s) (replies s)
  | BDone => s
  end.

Definition rally_step (t : thread) (s : rally) : rally := match t with A => ping_step s | B => pong_step s end.

(** One iteration of the benchmark: the replies, and the two queues. *)
Definition rtt (ls : list thread) (r1 r2 : ring) : option (list Z * (ring * ring)) :=
  let s := exec rally_step ls (mkRally r1 r2 (ping_loop 0) 0 (pong_loop 0) 0 []) in
  match ping_pc s, pong_pc s with ADone, BDone => Some (replies s, (q1 s, q2 s)) | _, _ => None end.

(** [for (auto _ : state)] *)
Fixpoint rtts (its : list (list thread)) (r1 r2 : ring) : option (list (list Z) * (ring * ring)) :=
  match its with
  | [] => Some ([], (r1, r2))
  | ls :: its => '(r, (r1, r2)) ← rtt ls r1 r2; '(rs, r12) ← rtts its r1 r2; Some (r :: rs, r12)
  end.

(** The five phases of a rally: at most one value is on its way. *)
Definition phase (s : rally) (l1 l2 : list Z) : Prop :=
  match ping_pc s, pong_pc s with
  | ASend i, BWait j => j = i /\ (i < rounds)%nat /\ l1 = [] /\ l2 = [] /\ replies s = values i
  | AWait i, BWait j => (j < rounds)%nat /\ replies s = values i /\
      (j = i /\ l1 = [Z.of_nat i] /\ l2 = [] \/ j = S i /\ l1 = [] /\ l2 = [Z.of_nat i])
  | AWait i, BSend j => j = i /\ (i < rounds)%nat /\ l1 = [] /\ l2 = [] /\ pong_val s = Z.of_nat i /\ replies s = values i
  | AWait i, BDone => S i = rounds /\ l1 = [] /\ l2 = [Z.of_nat i] /\ replies s = values i
  | ADone, BDone => l1 = [] /\ l2 = [] /\ replies s = values rounds
  | _, _ => False
  end.

Definition rally_inv (s : rally) : Prop := exists l1 l2, Spsc.holds 10 (q1 s) l1 /\ Spsc.holds 10 (q2 s) l2 /\ phase s l1 l2.

Definition ping_left (p : ping) : nat := match p with ASend i => 2 * (rounds - i) | AWait i => 2 * (rounds - i) - 1 | ADone => 0 end.
Definition pong_left (p : pong) : nat := match p with BWait i => 2 * (rounds - i) | BSend i => 2 * (rounds - i) - 1 | BDone => 0 end.
Definition rally_left (s : rally) : nat := ping_left (ping_pc s) + pong_left (pong_pc s).

(** A thread can move unless the other owes it a value. *)
Definition rally_can (t : thread) (s : rally) : Prop :=
  match t, ping_pc s, pong_pc s with
  | A, ASend _, _ => True
  | A, AWait i, BWait j => j = S i
  | A, AWait i, BDone => True
  | B, AWait i, BWait j => j = i
  | B, AWait _, BSend _ => True
  | _, _, _ => False
  end.

Lemma ping_loop_left i : (i < rounds)%nat -> (ping_left (ping_loop (S i)) < 2 * (rounds - i) - 1)%nat.
Proof. intros. unfold ping_loop. destruct (Nat.ltb_spec (S i) rounds); simpl; lia. Qed.

Lemma pong_loop_left i : (i < rounds)%nat -> (pong_left (pong_loop (S i)) < 2 * (rounds - i) - 1)%nat.
Proof. intros. unfold pong_loop. destruct (Nat.ltb_spec (S i) rounds); simpl; lia. Qed.

Lemma ping_good s : rally_inv s -> good rally_step rally_inv rally_left rally_can A s.
Proof.
  intros (l1 & l2 & H1 & H2 & Hp). destruct s as [r1 r2 p v b w rep]. unfold good, rally_left. cbn [rally_step]. unfold ping_step, phase in *. simpl in *.
  destruct p as [i|i|].
  - destruct b as [j|j|]; try done. destruct Hp as (-> & Hi & -> & -> & ->).
    destruct (push_spec (ChannelSpec := ring_spec) r1 [] (Z.of_nat i) H1) as (q' & -> & Hq'). simpl.
    split; [|left; lia]. exists [Z.of_nat i], []. split_and!; [done..|]. split_and!; [done..|by left].
  - destruct (pop_spec (ChannelSpec := ring_spec) r2 l2 H2) as (q' & -> & Hq'). destruct l2 as [|y l2]; simpl in *.
    + split; [by exists l1, []|]. right. split; [|split; [done|by intros []]]. destruct b; simpl; try done; naive_solver lia.
    + assert (y = Z.of_nat i /\ l2 = [] /\ l1 = [] /\ rep = values i /\ (i < rounds)%nat /\ b = pong_loop (S i)) as (-> & -> & -> & -> & Hi & ->).
      { unfold pong_loop. destruct b as [j|j|]; [|naive_solver|].
        - destruct Hp as (Hj & -> & [(_ & _ & [=])|(-> & -> & [= -> ->])]). by rewrite (proj2 (Nat.ltb_lt _ _) Hj); split_and!; try lia.
        - destruct Hp as (<- & -> & [= -> ->] & ->). rewrite Nat.ltb_irrefl. split_and!; try done; lia. }
      split; [|left; pose proof (ping_loop_left i Hi); lia]. exists [], []. split_and!; [done..|]. unfold phase. simpl. unfold ping_loop, pong_loop.
      rewrite <- values_S. destruct (Nat.ltb_spec (S i) rounds); [done|]. by replace rounds with (S i) by lia.
  - split; [by exists l1, l2|]. right. split; [intros Hc; by destruct b|done].
Qed.

Lemma pong_good s : rally_inv s -> good rally_step rally_inv rally_left rally_can B s.
Proof.
  intros (l1 & l2 & H1 & H2 & Hp). destruct s as [r1 r2 p v b w rep]. unfold good, rally_left. cbn [rally_step]. unfold pong_step, phase in *. simpl in *.
  destruct b as [j|j|].
  - destruct (pop_spec (ChannelSpec := ring_spec) r1 l1 H1) as (q' & -> & Hq'). destruct l1 as [|y l1]; simpl in *.
    + split; [by exists [], l2|]. right. split; [|split; [done|by intros []]]. destruct p; simpl; try done; naive_solver lia.
    + destruct p as [i|i|]; [naive_solver| |done]. destruct Hp as (Hj & -> & [(-> & [= -> ->] & ->)|(_ & [=] & _)]).
      split; [|left; lia]. by exists [], [].
  - destruct p as [i|i|]; try done. destruct Hp as (-> & Hi & -> & -> & -> & ->).
    destruct (push_spec (ChannelSpec := ring_spec) r2 [] (Z.of_nat i) H2) as (q' & -> & Hq'). simpl.
    split; [|left; pose proof (pong_loop_left i Hi); lia]. exists [], [Z.of_nat i]. split_and!; [done..|]. unfold phase. simpl. unfold pong_loop.
    destruct (Nat.ltb_spec (S i) rounds); [|split_and!; try done; lia]. split_and!; [done..|by right].
  - split; [by exists l1, l2|]. right. split; [intros Hc; by destruct p|done].
Qed.

Lemma rally_good t s : rally_inv s -> good rally_step rally_inv rally_left rally_can t s.
Proof. destruct t; [apply ping_good|apply pong_good]. Qed.

Lemma rally_some s : rally_inv s -> (0 < rally_left s)%nat -> exists t, rally_can t s.
Proof.
  intros (l1 & l2 & _ & _ & Hp) Hl. destruct s as [r1 r2 p v b w rep]. unfold phase, rally_left, rally_can in *. simpl in *.
  destruct p as [i|i|], b as [j|j|]; try done; try (by exists A); try (by exists B); [|simpl in Hl; lia].
  destruct Hp as (_ & _ & [(-> & _)|(-> & _)]); [by exists B|by exists A].
Qed.

Lemma rally_init r1 r2 : Spsc.holds 10 r1 [] -> Spsc.holds 10 r2 [] -> rally_inv (mkRally r1 r2 (ping_loop 0) 0 (pong_loop 0) 0 []).
Proof.
  intros. exists [], []. split_and!; [done..|]. unfold phase, ping_loop, pong_loop. simpl.
  destruct (Nat.ltb_spec 0 rounds); [done|]. by replace rounds with 0%nat by lia.
Qed.

(** Every reachable state is in one of the phases, and enough rounds bring the end. *)
Lemma rally_reaches r1 r2 ls : Spsc.holds 10 r1 [] -> Spsc.holds 10 r2 [] ->
  rally_inv (exec rally_step ls (mkRally r1 r2 (ping_loop 0) 0 (pong_loop 0) 0 [])).
Proof. intros H1 H2. apply (fair_inv _ _ _ _ rally_good ls _ (rally_init r1 r2 H1 H2)). Qed.

Lemma rtt_exact r1 r2 ls rs r1' r2' : Spsc.holds 10 r1 [] -> Spsc.holds 10 r2 [] -> rtt ls r1 r2 = Some (rs, (r1', r2')) ->
  rs = values rounds /\ Spsc.holds 10 r1' [] /\ Spsc.holds 10 r2' [].
Proof.
  intros H1 H2. unfold rtt. destruct (rally_reaches r1 r2 ls H1 H2) as (l1 & l2 & E1 & E2 & Hp). unfold phase in Hp.
  destruct (ping_pc _), (pong_pc _); try done. intros [= <- <- <-]. by destruct Hp as (-> & -> & ->).
Qed.

Lemma rtt_returns r1 r2 rs : Spsc.holds 10 r1 [] -> Spsc.holds 10 r2 [] -> Forall round rs -> (4 * rounds <= length rs)%nat ->
  is_Some (rtt (concat rs) r1 r2).
Proof.
  intros H1 H2 Hrs Hlen. unfold rtt. destruct (rally_reaches r1 r2 (concat rs) H1 H2) as (l1 & l2 & _ & _ & Hp).
  assert (rally_left (mkRally r1 r2 (ping_loop 0) 0 (pong_loop 0) 0 []) <= length rs)%nat as Hleft.
  { unfold rally_left, ping_loop, pong_loop. simpl. destruct (Nat.ltb_spec 0 rounds); simpl; lia. }
  pose proof (rounds_end _ _ _ _ rally_good rally_some rs Hrs _ (rally_init r1 r2 H1 H2) Hleft) as Hz.
  unfold phase, rally_left in *. destruct (ping_pc _), (pong_pc _); simpl in *; try done; try lia.
Qed.

Lemma rtts_exact its : forall r1 r2, Spsc.holds 10 r1 [] -> Spsc.holds 10 r2 [] ->
  Forall (fun rs => Forall round rs /\ (4 * rounds <= length rs)%nat) its ->
  exists r1' r2', rtts (@concat thread <$> its) r1 r2 = Some (replicate (length its) (values rounds), (r1', r2')) /\
    Spsc.holds 10 r1' [] /\ Spsc.holds 10 r2' [].
Proof.
  induction its as [|rs its IH]; intros r1 r2 H1 H2 Hall; [by exists r1, r2|]. apply Forall_cons_1 in Hall as [[Hrs Hlen] Hall].
  cbn [rtts fmap list_fmap]. destruct (rtt_returns r1 r2 rs H1 H2 Hrs Hlen) as [[r [r1' r2']] E]. rewrite E. cbn [mbind option_bind].
  destruct (rtt_exact _ _ _ _ _ _ H1 H2 E) as (-> & H1' & H2'). destruct (IH r1' r2' H1' H2' Hall) as (r1'' & r2'' & -> & ? & ?).
  by exists r1'', r2''.
Qed.

(** At most one value is on its way, and the replies are those of the rounds before. *)
Lemma rally_in_flight s : rally_inv s -> exists l1 l2, Spsc.holds 10 (q1 s) l1 /\ Spsc.holds 10 (q2 s) l2 /\
  (length l1 + length l2 <= 1)%nat /\ replies s = values (length (replies s)).
Proof.
  intros (l1 & l2 & H1 & H2 & Hp). exists l1, l2.
  assert ((length l1 + length l2 <= 1)%nat /\ exists k, replies s = values k) as [? [k Hk]].
  { unfold phase in Hp. destruct (ping_pc s), (pong_pc s); destruct_and?; destruct_or?; destruct_and?; subst; simpl; eauto; done. }
  split_and!; [done..|]. by rewrite Hk, values_length.
Qed.
End ping_pong.

(** C29. The two-thread queue benchmarks lose, repeat and reorder nothing and come to an end:
    over any channel with a queue's laws (the lock-free ring, the locked [std::queue]),
    whatever the schedule of each iteration, as long as both threads run in each of its
    rounds and there are enough of them, every iteration of the throughput benchmark
    receives exactly the values sent, in order, and every iteration of the ping-pong gets
    each value back in its round; the queues are empty again.  Under every schedule
    at all, at most one value of the ping-pong is on its way. *)
Theorem cross_thread_exact {Q} `{!Channel Q} `{!ChannelSpec Q room} (n : nat) (its : list (list (list thread))) (q : Q) (r1 r2 : ring) :
  contains q [] -> Spsc.holds 10 r1 [] -> Spsc.holds 10 r2 [] ->
  Forall (fun rs => Forall round rs /\ (4 * n <= length rs)%nat) its ->
  (exists q', throughputs n (@concat thread <$> its) q = Some (replicate (length its) (values n), q') /\ contains q' []) /\
  (exists r1' r2', rtts n (@concat thread <$> its) r1 r2 = Some (replicate (length its) (values n), (r1', r2')) /\
    Spsc.holds 10 r1' [] /\ Spsc.holds 10 r2' []) /\
  (forall ls, let s := exec (rally_step n) ls (mkRally r1 r2 (ping_loop n 0) 0 (pong_loop n 0) 0 []) in
    exists l1 l2, Spsc.holds 10 (q1 s) l1 /\ Spsc.holds 10 (q2 s) l2 /\
      (length l1 + length l2 <= 1)%nat /\ replies s = values (length (replies s))).
Proof.
  intros Hq H1 H2 Hall. split_and!.
  - rewrite <- (length_fmap (@concat thread) its). apply throughputs_exact; [done|]. apply Forall_fmap. eapply Forall_impl; [|exact Hall].
    intros rs [? ?]. exists rs. split_and!; [done..|lia].
  - by apply rtts_exact.
  - intros ls s. apply (rally_in_flight n). by apply rally_reaches.
Qed.

Lemma cross_thread_exact_witness :
  (exists q' : ring, throughputs 2 (@concat thread <$> [replicate 8 [A; B]; replicate 8 [B; B; A]]) (Spsc.make 10) = Some ([[0; 1]; [0; 1]], q') /\
    contains q' []) /\
  (exists r1 r2, rtts 2 (@concat thread <$> [replicate 8 [A; B]; replicate 8 [B; B; A]]) (Spsc.make 10) (Spsc.make 10) = Some ([[0; 1]; [0; 1]], (r1, r2)) /\
    Spsc.holds 10 r1 [] /\ Spsc.holds 10 r2 []).
Proof.
  assert (Spsc.holds 10 (Spsc.make 10 : ring) []) as Hm by (apply Spsc.make_holds; lia).
  destruct (cross_thread_exact (Q := ring) 2 [replicate 8 [A; B]; replicate 8 [B; B; A]] (Spsc.make 10) (Spsc.make 10) (Spsc.make 10)) as (Hf & Hr & _).
  - exact Hm.
  - exact Hm.
  - exact Hm.
  - repeat constructor.
  - exact (conj Hf Hr).
Defined.

End CrossThread.
