(* ===== verification/Options.v ===== *)
(** * The command line of the paced benchmark

    [parse_args] of [bench/bench_hotpath_paced.cpp], with its globals as a record.  The
    rate is a [double]: its type, [std::atof] and the comparison with zero are
    parameters, instantiated in [PacedMain.v].  [std::atoi] of a number that is not
    an [int] is undefined. *)
From stdpp Require Import list numbers strings.
From S2P Require Import Prelude Bytes.
Open Scope Z_scope.

Module Options.
Import Bytes.

(** [std::atoi]: as [std::stoi], but no digits read as zero. *)
Definition atoi (s : bytes) : option Z :=
  match stoi s with
  | Done v => Some v
  | _ => let s := skip_space s in
         let s := match s with c :: s' => if (c =? 45) || (c =? 43) then s' else s | [] => s end in
         match digit_prefix s with [] => Some 0 | _ => None end
  end.

Inductive Mode := UNIFORM | POISSON | BURST.
#[export] Instance Mode_eq_dec : EqDecision Mode.
Proof. solve_decision. Defined.

Definition mode_name (m : Mode) : bytes :=
  match m with UNIFORM => lit "uniform" | POISSON => lit "poisson" | BURST => lit "burst" end.

(** The comparison of a mode's argument. *)
Definition read_mode (s : bytes) : option Mode :=
  if decide (s = lit "uniform") then Some UNIFORM
  else if decide (s = lit "poisson") then Some POISSON
  else if decide (s = lit "burst") then Some BURST
  else None.

(** The flags, in the order they are compared. *)
Inductive flag := Rate | N | Burst | Pcore | Ccore | Csv | ModeOf.
#[export] Instance flag_eq_dec : EqDecision flag.
Proof. solve_decision. Defined.
Definition read_flag (s : bytes) : option flag :=
  if decide (s = lit "--rate") then Some Rate
  else if decide (s = lit "--n") then Some N
  else if decide (s = lit "--burst") then Some Burst
  else if decide (s = lit "--pcore") then Some Pcore
  else if decide (s = lit "--ccore") then Some Ccore
  else if decide (s = lit "--csv") then Some Csv
  else if decide (s = lit "--mode") then Some ModeOf
  else None.

(** [std::exit(2)] after a message on the error stream, or the configuration to run. *)
Inductive outcome (C : Type) := Exit2 (stderr : bytes) | Run (c : C).
Arguments Exit2 {C} stderr.
Arguments Run {C} c.

Definition complain (text : string) (s : bytes) : bytes := codes text ++ s ++ [10].

Section options.
  Context {D : Type} (atof : bytes -> D) (le_zero : D -> bool).

Record config := mkConfig {
  g_n_measure : Z;
  g_rate_hz : D;
  g_burst_size : Z;
  g_core_prod : Z;
  g_core_cons : Z;
  g_csv : bool;
  g_mode : Mode;
}.

(** The initial values; the rate's is given. *)
Definition defaults (rate : D) : config := mkConfig 1000000 rate 64 16 18 false UNIFORM.

(** What a flag with its value does. *)
Definition assign (f : flag) (v : bytes) (c : config) : option (outcome config) :=
  let '(mkConfig n r b p k csv m) := c in
  match f with
  | Rate => Some (Run (mkConfig n (atof v) b p k csv m))
  | N => x ← atoi v; Some (Run (mkConfig x r b p k csv m))
  | Burst => x ← atoi v; Some (Run (mkConfig n r x p k csv m))
  | Pcore => x ← atoi v; Some (Run (mkConfig n r b (u32 x) k csv m))
  | Ccore => x ← atoi v; Some (Run (mkConfig n r b p (u32 x) csv m))
  | Csv => Some (Run (mkConfig n r b p k true m))
  | ModeOf => Some (match read_mode v with Some x => Run (mkConfig n r b p k csv x) | None => Exit2 (complain "unknown mode " v) end)
  end.

Definition set_csv (c : config) : config :=
  mkConfig (g_n_measure c) (g_rate_hz c) (g_burst_size c) (g_core_prod c) (g_core_cons c) true (g_mode c).

(** The loop over the arguments. *)
Fixpoint parse_loop (argv : list bytes) (c : config) : option (outcome config) :=
  match argv with
  | [] => Some (Run c)
  | a :: argv =>
    match read_flag a with
    | None => Some (Exit2 (complain "unknown arg " a))
    | Some Csv => parse_loop argv (set_csv c)
    | Some f =>
      match argv with
      | [] => Some (Exit2 (complain "missing value for " a))
      | v :: argv => o ← assign f v c; match o with Exit2 err => Some (Exit2 err) | Run c => parse_loop argv c end
      end
    end
  end.

Definition invalid (c : config) : bool := le_zero (g_rate_hz c) || (g_n_measure c <=? 0) || (g_burst_size c <=? 0).

Definition parse_args (argv : list bytes) (c : config) : option (outcome config) :=
  o ← parse_loop argv c;
  Some match o with Exit2 err => Exit2 err | Run c => if invalid c then Exit2 (complain "invalid config" []) else Run c end.

(** ** Arguments that say a configuration *)
Definition arguments (rate : bytes) (c : config) : list bytes :=
  [lit "--rate"; rate; lit "--n"; to_string (g_n_measure c); lit "--burst"; to_string (g_burst_size c);
   lit "--pcore"; to_string (g_core_prod c); lit "--ccore"; to_string (g_core_cons c); lit "--mode"; mode_name (g_mode c)] ++
  (if g_csv c then [lit "--csv"] else []).

(** Everything but the rate is the record's numbers within their C++ types. *)
Record in_range (c : config) : Prop := {
  range_n : fits_i 32 (g_n_measure c);
  range_burst : fits_i 32 (g_burst_size c);
  range_prod : fits 32 (g_core_prod c);
  range_cons : fits 32 (g_core_cons c);
}.

Lemma atoi_to_string v : 0 <= v < 2 ^ 31 -> atoi (to_string v) = Some v.
Proof. intros Hv. unfold atoi. rewrite (stoi_renders v); [done|apply to_string_ok; unfold fits; lia|lia..]. Qed.

Lemma stoi_range s v : stoi s = Done v -> fits_i 32 v.
Proof. unfold stoi. intros H. repeat (case_match; simplify_eq); done. Qed.

Lemma atoi_range s v : atoi s = Some v -> fits_i 32 v.
Proof.
  unfold atoi. destruct (stoi s) eqn:E; [intros [= <-]; by eapply stoi_range|..]; intros H; repeat (case_match; simplify_eq); unfold fits_i; lia.
Qed.

Lemma assign_range f v c c' : in_range c -> assign f v c = Some (Run c') -> in_range c'.
Proof.
  destruct c as [n r b p k csv m]. intros [Hn Hb Hp Hk] H. simpl in *.
  destruct f; simplify_option_eq; repeat case_match; simplify_eq; split; simpl; try done; try (by eapply atoi_range); apply wrap_fits; lia.
Qed.

Lemma set_csv_range c : in_range c -> in_range (set_csv c).
Proof. by intros []; split. Qed.

(** A loop that got through continues with the arguments that follow. *)
Lemma parse_loop_app l1 : forall c l2 c1, parse_loop l1 c = Some (Run c1) -> parse_loop (l1 ++ l2) c = parse_loop l2 c1.
Proof.
  induction l1 as [l1 IH] using (induction_ltof1 _ length). unfold ltof in IH. intros c l2 c1 H.
  destruct l1 as [|a [|v l1]]; cbn [parse_loop app] in *; [by simplify_eq|by destruct (read_flag a) as [[]|]; simplify_eq/=|].
  destruct (read_flag a) as [f|]; [|done].
  destruct f; try (destruct (assign _ _ _) as [[|c2]|]; [done|cbn [mbind option_bind] in *; apply (IH l1); [simpl; lia|done]|done]).
  apply (IH (v :: l1)); [simpl; lia|done].
Qed.

Lemma parse_loop_range argv : forall c c', in_range c -> parse_loop argv c = Some (Run c') -> in_range c'.
Proof.
  induction argv as [argv IH] using (induction_ltof1 _ length). unfold ltof in IH. intros c c' Hc H.
  destruct argv as [|a [|v argv]]; cbn [parse_loop] in *; [by simplify_eq|destruct (read_flag a) as [[]|]; simplify_eq/=; by apply set_csv_range|].
  destruct (read_flag a) as [f|]; [|done].
  destruct f; try (destruct (assign _ v c) as [[|c2]|] eqn:E; [done| |done]; cbn [mbind option_bind] in H; apply (IH argv) in H;
    [done|simpl; lia|by eapply assign_range]).
  apply (IH (v :: argv)) in H; [done|simpl; lia|by apply set_csv_range].
Qed.

Lemma read_mode_name m : read_mode (mode_name m) = Some m.
Proof. by destruct m. Qed.

Lemma parse_valued a f v argv c : read_flag a = Some f -> f ≠ Csv ->
  parse_loop (a :: v :: argv) c = (o ← assign f v c; match o with Exit2 err => Some (Exit2 err) | Run c => parse_loop argv c end).
Proof. intros Ha Hf. cbn [parse_loop]. rewrite Ha. by destruct f. Qed.

Lemma csv_alone n r b p k m : parse_loop [lit "--csv"] (mkConfig n r b p k false m) = Some (Run (mkConfig n r b p k true m)).
Proof. done. Qed.

(** What is run was checked: positive numbers within their types, and a rate that does
    not compare as at most zero (not a number does not). *)
Theorem parse_args_valid argv rate c : parse_args argv (defaults rate) = Some (Run c) ->
  0 < g_n_measure c < 2 ^ 31 /\ 0 < g_burst_size c < 2 ^ 31 /\ le_zero (g_rate_hz c) = false /\ fits 32 (g_core_prod c) /\ fits 32 (g_core_cons c).
Proof.
  unfold parse_args. destruct (parse_loop argv (defaults rate)) as [[|c']|] eqn:E; [done| |done]. cbn [mbind option_bind].
  destruct (invalid c') eqn:Hi; [done|]. intros [= <-]. apply parse_loop_range in E as [Hn Hb Hp Hk].
  2: { split; unfold fits_i, fits; simpl; lia. }
  unfold invalid in Hi. apply orb_false_iff in Hi as [[Hr Hn0%Z.leb_gt]%orb_false_iff Hb0%Z.leb_gt]. unfold fits_i in *.
  change (2 ^ (32 - 1)) with (2 ^ 31) in *. split_and!; (done || lia).
Qed.

(** One flag with a number. *)
Local Ltac read_number f :=
  rewrite (parse_valued _ f) by done; cbn [assign]; rewrite atoi_to_string by lia; cbn [mbind option_bind].

(** Every configuration that passes the check can be asked for, whatever was set before. *)
Theorem parse_args_roundtrip rate c c0 :
  atof rate = g_rate_hz c -> le_zero (g_rate_hz c) = false -> 0 < g_n_measure c < 2 ^ 31 -> 0 < g_burst_size c < 2 ^ 31 ->
  0 <= g_core_prod c < 2 ^ 31 -> 0 <= g_core_cons c < 2 ^ 31 -> g_csv c0 = false ->
  parse_args (arguments rate c) c0 = Some (Run c).
Proof.
  intros Ha Hr Hn Hb Hp Hk Hcsv. unfold parse_args, arguments. destruct c as [n r b p k csv m], c0 as [n0 r0 b0 p0 k0 csv0 m0].
  cbn [g_n_measure g_rate_hz g_burst_size g_core_prod g_core_cons g_csv g_mode] in *. subst.
  rewrite (parse_loop_app _ _ _ (mkConfig n (atof rate) b p k false m)).
  - assert (invalid (mkConfig n (atof rate) b p k csv m) = false) as Hv.
    { unfold invalid. simpl. rewrite Hr, !(proj2 (Z.leb_gt _ _)) by lia. done. }
    destruct csv; [rewrite csv_alone|cbn [parse_loop]]; cbn [mbind option_bind]; by rewrite Hv.
  - rewrite (parse_valued _ Rate) by done. cbn [assign mbind option_bind].
    read_number N. read_number Burst. read_number Pcore. read_number Ccore.
    rewrite (parse_valued _ ModeOf) by done. cbn [assign mbind option_bind]. rewrite read_mode_name.
    by rewrite !wrap_small by (unfold fits; lia).
Qed.

(** Which complaint: the first argument that is no flag, has no value or is no mode, by
    name, after a prefix of arguments that were read; or, when all were read, the numbers. *)
Theorem parse_args_refused argv c err : parse_args argv c = Some (Exit2 err) ->
  (exists pre c1 a, parse_loop pre c = Some (Run c1) /\
     ((exists rest, argv = pre ++ a :: rest /\ read_flag a = None /\ err = complain "unknown arg " a) \/
      (argv = pre ++ [a] /\ is_Some (read_flag a) /\ err = complain "missing value for " a) \/
      (exists v rest, argv = pre ++ a :: v :: rest /\ read_flag a = Some ModeOf /\ read_mode v = None /\ err = complain "unknown mode " v))) \/
  (exists c1, parse_loop argv c = Some (Run c1) /\ invalid c1 = true /\ err = complain "invalid config" []).
Proof.
  unfold parse_args. intros H. apply bind_Some in H as (o & Hl & H). destruct o as [err'|c1]; cycle 1.
  { right. exists c1. destruct (invalid c1); [|done]. by injection H as <-. }
  injection H as ->. left. revert c Hl.
  induction argv as [argv IH] using (induction_ltof1 _ length). unfold ltof in IH. intros c Hl.
  destruct argv as [|a argv]; [done|]. cbn [parse_loop] in Hl. destruct (read_flag a) as [f|] eqn:Ef; cycle 1.
  { injection Hl as <-. exists [], c, a. split; [done|]. left. by exists argv. }
  destruct (decide (f = Csv)) as [->|Hf].
  { destruct (IH argv ltac:(simpl; lia) _ Hl) as (pre & c1 & b & Hp & Hb). exists (a :: pre), c1, b.
    split; [cbn [parse_loop]; by rewrite Ef|]. destruct Hb as [(rest & -> & ?)|[(-> & ?)|(v & rest & -> & ?)]]; [left|right; left|right; right]; eauto. }
  assert (match argv with [] => Some (Exit2 (complain "missing value for " a)) | v :: argv =>
    o ← assign f v c; match o with Exit2 err => Some (Exit2 err) | Run c => parse_loop argv c end end = Some (Exit2 err)) as Hl' by (by destruct f).
  destruct argv as [|v argv].
  { injection Hl' as <-. exists [], c, a. split; [done|]. right; left. rewrite Ef. eauto. }
  destruct (assign f v c) as [[err1|c2]|] eqn:Ea; [| |done]; cbn [mbind option_bind] in Hl'.
  - injection Hl' as ->. exists [], c, a. split; [done|]. right; right. exists v, argv. destruct c, f; simplify_option_eq; try done.
    by destruct (read_mode v); simplify_eq.
  - destruct (IH argv ltac:(simpl; lia) _ Hl') as (pre & c1 & b & Hp & Hb). exists (a :: v :: pre), c1, b. split.
    + rewrite (parse_valued a f) by done. by rewrite Ea.
    + destruct Hb as [(rest & -> & ?)|[(-> & ?)|(w & rest & -> & ?)]]; [left|right; left|right; right]; eauto.
Qed.
End options.

End Options.
