(* ===== verification/Double.v ===== *)
(** * Binary64 arithmetic

    The [double]s of the clock, the schedule and the statistics, as the specification of
    IEEE 754 in the Standard Library computes them ([SpecFloat], 53 bits of precision,
    round to nearest even): executable, with infinities, not-a-number and gradual
    underflow.  A finite double is a multiple of [2 ^ -1074]; its value is counted in
    these units.  The theorems are that each operation rounds the exact result correctly
    ([rnd]) and that rounding is monotone and keeps what is representable. *)
From Stdlib Require Import ZArith SpecFloat.
From stdpp Require Import list numbers.
From S2P Require Import Prelude.
Open Scope Z_scope.

Module Double.

Abbreviation double := spec_float.
Definition zero : double := S754_zero false.
Definition dadd : double -> double -> double := SFadd 53 1024.
Definition dmul : double -> double -> double := SFmul 53 1024.
Definition ddiv : double -> double -> double := SFdiv 53 1024.
Definition dneg : double -> double := SFopp.
Definition dle : double -> double -> bool := SFleb.
Definition dlt : double -> double -> bool := SFltb.

(** [static_cast<double>] of an integer. *)
Definition of_Z (z : Z) : double := binary_normalize 53 1024 z 0 false.

(** [static_cast<uint64_t>] and [static_cast<size_t>]: towards zero, undefined when the
    result is not a 64-bit word. *)
Definition to_u64 (x : double) : option Z :=
  match x with
  | S754_zero _ => Some 0
  | S754_finite s m e =>
    let v := if 0 <=? e then Zpos m * 2 ^ e else Zpos m / 2 ^ (- e) in
    if (s : bool) then if v =? 0 then Some 0 else None
    else if v <? 2 ^ 64 then Some v else None
  | _ => None
  end.

(** ** The reference: rounding to nearest even *)
(** Number of binary digits. *)
Definition bits (x : Z) : Z := Z.log2 (2 * x).

(** [a / b] to the nearest integer, ties to even. *)
Definition rne (a b : Z) : Z :=
  let q := a / b in
  match 2 * (a mod b) ?= b with
  | Lt => q
  | Eq => if Z.even q then q else q + 1
  | Gt => q + 1
  end.

(** [n / d] units to 53 digits, no finer than one unit. *)
Definition place (n d : Z) : Z := Z.max 0 (bits (n / d) - 53).
Definition rnd (n d : Z) : Z := let k := place n d in rne n (d * 2 ^ k) * 2 ^ k.

(** The first power of two that is not finite. *)
Definition TOP : Z := 2 ^ 2098.

(** [x] has the sign [s] and [r] units; infinity is what is beyond the range. *)
Definition denotes (x : double) (s : bool) (r : Z) : Prop :=
  match x with
  | S754_zero s' => s' = s /\ r = 0
  | S754_finite s' m e => s' = s /\ bounded 53 1024 m e = true /\ r = Zpos m * 2 ^ (e + 1074)
  | S754_infinity s' => s' = s /\ TOP <= r
  | S754_nan => False
  end.

(** A finite double that is not negative. *)
Definition fin (x : double) (r : Z) : Prop := denotes x false r /\ 0 <= r < TOP.

(** ** Digits *)
Lemma bits_nonneg x : 0 <= bits x.
Proof. apply Z.log2_nonneg. Qed.

Lemma bits_le x k : 0 <= x -> 0 <= k -> bits x <= k <-> x < 2 ^ k.
Proof.
  intros Hx Hk. unfold bits. destruct (decide (x = 0)) as [->|Hne].
  { simpl. split; [intros _; apply Z.pow_pos_nonneg; lia|lia]. }
  rewrite Z.log2_double by lia. pose proof (Z.log2_lt_pow2 x k ltac:(lia)). lia.
Qed.

Lemma bits_gt x k : 0 <= x -> 0 <= k -> k < bits x <-> 2 ^ k <= x.
Proof. intros Hx Hk. pose proof (bits_le x k Hx Hk). lia. Qed.

Lemma bits_mono x y : 0 <= x <= y -> bits x <= bits y.
Proof. intros H. apply Z.log2_le_mono. lia. Qed.

Lemma bits_ext x c : 0 <= x -> 0 <= c -> (forall k, 0 <= k -> x < 2 ^ k <-> c <= k) -> bits x = c.
Proof.
  intros Hx Hc H. pose proof (bits_nonneg x). apply Z.le_antisymm; [apply bits_le; [done..|]; by apply H|].
  apply H; [done|]. by apply bits_le.
Qed.

Lemma pow_pos k : 0 <= k -> 0 < 2 ^ k.
Proof. intros. by apply Z.pow_pos_nonneg. Qed.

(** Large powers of two are only positive numbers to most arguments: the decision procedures
    are tried without their digits first. *)
Ltac hide_pow k :=
  let large := eval vm_compute in (Pos.ltb 200 k) in
  match large with
  | true =>
    let u := fresh "u" in let Hu := fresh "Hu" in
    assert (0 < 2 ^ Zpos k) as Hu by (apply pow_pos; discriminate); set (u := 2 ^ Zpos k) in *; clearbody u
  end.
Ltac hide_pows :=
  repeat match goal with
  | |- context [2 ^ Zpos ?k] => hide_pow k
  | H : context [2 ^ Zpos ?k] |- _ => hide_pow k
  end.
Ltac lia := first [solve [hide_pows; Lia.lia] | Lia.lia].
Ltac nia := first [solve [hide_pows; Lia.nia] | Lia.nia].

Lemma pow_add a b : 0 <= a -> 0 <= b -> 2 ^ (a + b) = 2 ^ a * 2 ^ b.
Proof. intros. by apply Z.pow_add_r. Qed.

Lemma bits_div x s : 0 <= x -> 0 <= s -> bits (x / 2 ^ s) = Z.max 0 (bits x - s).
Proof.
  intros Hx Hs. pose proof (pow_pos s Hs). apply bits_ext; [by apply Z.div_pos|lia|]. intros k Hk.
  assert (x / 2 ^ s < 2 ^ k <-> x < 2 ^ (k + s)) as ->.
  { rewrite pow_add by done. split; intros Hl; [|apply Z.div_lt_upper_bound; lia].
    pose proof (Z.div_mod x (2 ^ s) ltac:(lia)). pose proof (Z.mod_pos_bound x (2 ^ s) ltac:(lia)). nia. }
  rewrite <- bits_le by lia. lia.
Qed.

Lemma bits_mul_pow x s : 0 < x -> 0 <= s -> bits (x * 2 ^ s) = bits x + s.
Proof. intros Hx Hs. unfold bits. rewrite Z.mul_assoc, Z.log2_mul_pow2 by lia. lia. Qed.

Lemma digits2_pos_bits m : Zpos (digits2_pos m) = bits (Zpos m).
Proof.
  assert (forall x, 0 < x -> bits x = Z.succ (Z.log2 x)) as Hb by (intros; apply Z.log2_double; lia). rewrite Hb by lia.
  induction m as [m IH|m IH|]; cbn [digits2_pos]; [..|done]; rewrite Pos2Z.inj_succ, IH.
  - change (Zpos m~1) with (2 * Zpos m + 1). by rewrite Z.log2_succ_double by lia.
  - change (Zpos m~0) with (2 * Zpos m). by rewrite Z.log2_double by lia.
Qed.

Lemma Zdigits2_bits m : 0 <= m -> Zdigits2 m = bits m.
Proof. destruct m as [|p|p]; [done|intros _; apply digits2_pos_bits|lia]. Qed.

Lemma bits_one x : 0 < x -> 1 <= bits x.
Proof. intros. pose proof (proj1 (bits_le x 0 ltac:(lia) ltac:(lia))). lia. Qed.

Lemma bits_quot a b : 0 < a -> 0 < b -> bits a - bits b <= bits (a / b).
Proof.
  intros Ha Hb. pose proof (bits_nonneg (a / b)). pose proof (bits_one a Ha). pose proof (bits_one b Hb).
  destruct (Z.le_gt_cases (bits a - bits b) 0); [lia|]. apply Z.lt_pred_le. apply bits_gt; [apply Z.div_pos; lia|lia|]. apply Z.div_le_lower_bound; [lia|].
  assert (b < 2 ^ bits b) by (apply bits_le; lia). assert (2 ^ (bits b + Z.pred (bits a - bits b)) <= a) as Hl by (apply bits_gt; lia).
  rewrite pow_add in Hl by lia. pose proof (pow_pos (Z.pred (bits a - bits b)) ltac:(lia)). nia.
Qed.

(** ** Rounding to nearest *)
Lemma rne_spec a b : 0 < b ->
  (2 * rne a b - 1) * b <= 2 * a <= (2 * rne a b + 1) * b /\
  (2 * a = (2 * rne a b + 1) * b \/ 2 * a = (2 * rne a b - 1) * b -> Z.even (rne a b) = true).
Proof.
  intros Hb. unfold rne. pose proof (Z.div_mod a b ltac:(lia)) as E. pose proof (Z.mod_pos_bound a b Hb) as Hr.
  set (q := a / b) in *. set (r := a mod b) in *. destruct (Z.compare_spec (2 * r) b).
  - destruct (Z.even q) eqn:Hq; (split; [nia|]); intros _; [done|]. rewrite Z.add_1_r, Z.even_succ, <- Z.negb_even. by rewrite Hq.
  - split; [nia|]. intros [|]; nia.
  - split; [nia|]. intros [|]; nia.
Qed.

Lemma rne_mono a1 b1 a2 b2 : 0 < b1 -> 0 < b2 -> a1 * b2 <= a2 * b1 -> rne a1 b1 <= rne a2 b2.
Proof.
  intros H1 H2 Hle. destruct (rne_spec a1 b1 H1) as [[L1 U1] T1]. destruct (rne_spec a2 b2 H2) as [[L2 U2] T2].
  set (r1 := rne a1 b1) in *. set (r2 := rne a2 b2) in *. destruct (Z.le_gt_cases r1 r2) as [|Hgt]; [done|]. exfalso.
  assert (2 * a1 * b2 <= 2 * a2 * b1) by lia. assert ((2 * r1 - 1) * b1 * b2 <= 2 * a1 * b2) by nia.
  assert (2 * a2 * b1 <= (2 * r2 + 1) * b2 * b1) by nia. assert (0 < b1 * b2) by nia.
  assert (r1 = r2 + 1) as -> by nia.
  assert (2 * a1 = (2 * (r2 + 1) - 1) * b1) as E1 by nia. assert (2 * a2 = (2 * r2 + 1) * b2) as E2 by nia.
  specialize (T1 (or_intror E1)). specialize (T2 (or_introl E2)). rewrite Z.add_1_r, Z.even_succ, <- Z.negb_even, T2 in T1. done.
Qed.

Lemma rne_exact c b : 0 < b -> rne (c * b) b = c.
Proof. intros Hb. unfold rne. rewrite Z.div_mul, Z.mod_mul by lia. destruct (Z.compare_spec (2 * 0) b); lia. Qed.

Lemma rne_scale a b c : 0 < b -> 0 < c -> rne (a * c) (b * c) = rne a b.
Proof. intros Hb Hc. apply Z.le_antisymm; apply rne_mono; nia. Qed.

Lemma rne_between lo hi a b : 0 < b -> lo * b <= a <= hi * b -> lo <= rne a b <= hi.
Proof. intros Hb H. rewrite <- (rne_exact lo b), <- (rne_exact hi b) by done. split; apply rne_mono; nia. Qed.

Lemma place_nonneg n d : 0 <= place n d.
Proof. unfold place. lia. Qed.

(** The quotient fits 53 digits at its place, and fills them unless the place is the last. *)
Lemma place_spec n d : 0 <= n -> 0 < d ->
  n <= 2 ^ 53 * (d * 2 ^ place n d) /\ (0 < place n d -> 2 ^ 52 * (d * 2 ^ place n d) <= n).
Proof.
  intros Hn Hd. unfold place. assert (0 <= n / d) as Hq by (apply Z.div_pos; lia). pose proof (Z.div_mod n d ltac:(lia)) as E.
  pose proof (Z.mod_pos_bound n d Hd) as Hr. set (k := Z.max 0 (bits (n / d) - 53)). split.
  - assert (n / d < 2 ^ (53 + k)) as H by (apply bits_le; lia). rewrite pow_add in H by lia. nia.
  - intros Hk. assert (2 ^ (52 + k) <= n / d) as H by (apply bits_gt; lia). rewrite pow_add in H by lia. nia.
Qed.

Lemma place_mono n1 d1 n2 d2 : 0 <= n1 -> 0 < d1 -> 0 < d2 -> n1 * d2 <= n2 * d1 -> place n1 d1 <= place n2 d2.
Proof.
  intros H1 Hd1 Hd2 Hle. unfold place. assert (n1 / d1 <= n2 / d2) as Hq.
  { apply Z.div_le_lower_bound; [done|]. pose proof (Z.mul_div_le n1 d1 Hd1). nia. }
  pose proof (bits_mono (n1 / d1) (n2 / d2) (conj (Z.div_pos _ _ H1 Hd1) Hq)). lia.
Qed.

Lemma rnd_mono n1 d1 n2 d2 : 0 <= n1 -> 0 < d1 -> 0 < d2 -> n1 * d2 <= n2 * d1 -> rnd n1 d1 <= rnd n2 d2.
Proof.
  intros H1 Hd1 Hd2 Hle. assert (0 <= n2) as H2 by nia. pose proof (place_mono n1 d1 n2 d2 H1 Hd1 Hd2 Hle) as Hp. unfold rnd.
  destruct (place_spec n1 d1 H1 Hd1) as [U1 _]. destruct (place_spec n2 d2 H2 Hd2) as [_ L2].
  pose proof (place_nonneg n1 d1). set (k1 := place n1 d1) in *. set (k2 := place n2 d2) in *.
  pose proof (pow_pos k1 ltac:(lia)). pose proof (pow_pos k2 ltac:(lia)).
  destruct (decide (k1 = k2)) as [->|Hne]; [apply Z.mul_le_mono_nonneg_r; [lia|]; apply rne_mono; nia|].
  assert (rne n1 (d1 * 2 ^ k1) <= 2 ^ 53) by (apply (rne_between 0 (2 ^ 53)); nia).
  assert (2 ^ 52 <= rne n2 (d2 * 2 ^ k2)). { rewrite <- (rne_exact (2 ^ 52) (d2 * 2 ^ k2)) by nia. specialize (L2 ltac:(lia)). apply rne_mono; nia. }
  assert (2 ^ 53 * 2 ^ k1 <= 2 ^ 52 * 2 ^ k2).
  { replace k2 with (k1 + 1 + (k2 - k1 - 1)) by lia. rewrite !pow_add by lia. pose proof (pow_pos (k2 - k1 - 1) ltac:(lia)). nia. }
  nia.
Qed.

Lemma rnd_scale n d c : 0 <= n -> 0 < d -> 0 < c -> rnd (n * c) (d * c) = rnd n d.
Proof. intros. apply Z.le_antisymm; apply rnd_mono; nia. Qed.

Lemma rnd_nonneg n d : 0 <= n -> 0 < d -> 0 <= rnd n d.
Proof. intros Hn Hd. unfold rnd. pose proof (pow_pos _ (place_nonneg n d)). assert (0 <= rne n (d * 2 ^ place n d)); [|nia].
  rewrite <- (rne_exact 0 (d * 2 ^ place n d)) by nia. apply rne_mono; nia.
Qed.

(** What has at most 53 digits is kept. *)
Definition representable (r : Z) : Prop := rnd r 1 = r.

Lemma representable_dyadic m k : 0 <= m <= 2 ^ 53 -> 0 <= k -> representable (m * 2 ^ k).
Proof.
  intros Hm Hk. unfold representable, rnd. rewrite Z.mul_1_l. pose proof (pow_pos k Hk). set (p := place (m * 2 ^ k) 1).
  assert (exists c, m * 2 ^ k = c * 2 ^ p) as [c ->].
  2: { rewrite rne_exact; [done|]. apply pow_pos, place_nonneg. }
  destruct (decide (m = 2 ^ 53)) as [->|Hne].
  { exists (2 ^ 52). subst p. unfold place. rewrite Z.div_1_r, <- pow_add by lia.
    rewrite (bits_ext _ (54 + k)); [|lia..|]. { rewrite Z.max_r by lia. rewrite <- pow_add by lia. f_equal. lia. }
    intros j Hj. rewrite <- Z.pow_lt_mono_r_iff by lia. lia. }
  assert (p <= k) as Hp.
  { subst p. unfold place. rewrite Z.div_1_r. assert (bits (m * 2 ^ k) <= 53 + k); [|lia]. apply bits_le; [nia|lia|]. rewrite pow_add by lia. nia. }
  exists (m * 2 ^ (k - p)). rewrite <- Z.mul_assoc, <- pow_add; [f_equal; f_equal; lia|lia|apply place_nonneg].
Qed.

(** Rounding does not cross what is representable. *)
Lemma rnd_le n d r : 0 <= n -> 0 < d -> representable r -> n <= r * d -> rnd n d <= r.
Proof. intros Hn Hd Hr Hle. rewrite <- Hr. apply rnd_mono; lia. Qed.

Lemma rnd_ge n d r : 0 <= r -> 0 < d -> representable r -> r * d <= n -> r <= rnd n d.
Proof. intros Hn Hd Hr Hle. rewrite <- Hr. apply rnd_mono; lia. Qed.

(** ** The specification of the Standard Library rounds correctly *)
(** Where a remainder [r] lies between [0] and [b]. *)
Definition loc_of (r b : Z) : location := if r =? 0 then loc_Exact else loc_Inexact (2 * r ?= b).

(** The record stands for [a / b]: its quotient and where the remainder lies. *)
Definition stands (mrs : shr_record) (a b : Z) : Prop :=
  shr_m mrs = a / b /\ loc_of_shr_record mrs = loc_of (a mod b) b.

Lemma rne_loc a b : 0 < b -> round_nearest_even (a / b) (loc_of (a mod b) b) = rne a b.
Proof.
  intros Hb. unfold round_nearest_even, loc_of, rne. destruct (Z.eqb_spec (a mod b) 0) as [->|]; [|by destruct (_ ?= _)].
  destruct (Z.compare_spec (2 * 0) b); lia.
Qed.

Lemma loc_of_scale r b c : 0 < c -> loc_of (r * c) (b * c) = loc_of r b.
Proof.
  intros Hc. unfold loc_of. destruct (Z.eqb_spec r 0) as [->|Hne]; [done|]. rewrite (proj2 (Z.eqb_neq _ _)) by nia.
  f_equal. rewrite Z.mul_assoc. symmetry. by apply Zmult_compare_compat_r, Z.lt_gt.
Qed.

Lemma stands_loc m l a b : m = a / b -> l = loc_of (a mod b) b -> stands (shr_record_of_loc m l) a b.
Proof. intros -> ->. split; destruct (loc_of _ _) as [|[]]; done. Qed.

Lemma stands_exact m : stands (shr_record_of_loc m loc_Exact) m 1.
Proof. apply stands_loc; [by rewrite Z.div_1_r|by rewrite Z.mod_1_r]. Qed.

(** One shift to the right halves. *)
Lemma shr_1_stands mrs a b : 0 <= a -> 0 < b -> stands mrs a b -> stands (shr_1 mrs) a (b * 2).
Proof.
  intros Ha Hb [Hm Hl]. destruct mrs as [m r s]. cbn [shr_m] in Hm. pose proof (Z.div_mod a b ltac:(lia)) as E.
  pose proof (Z.mod_pos_bound a b Hb) as Hr. rewrite <- Hm in E. assert (0 <= m) as Hm0 by (rewrite Hm; by apply Z.div_pos). set (rho := a mod b) in *.
  assert (r || s = negb (rho =? 0)) as Hrs.
  { unfold loc_of in Hl. destruct (Z.eqb_spec rho 0); destruct r, s; (discriminate Hl || done). }
  assert (forall q t, a = q * (b * 2) + t -> 0 <= t < b * 2 -> a / (b * 2) = q /\ a mod (b * 2) = t) as Hdm.
  { intros q t Eq Ht. split; [symmetry; apply (Z.div_unique_pos _ _ _ t); lia|symmetry; apply (Z.mod_unique_pos _ _ q); lia]. }
  unfold stands, shr_1. rewrite Hrs. destruct m as [|[p|p|]|p]; [..|lia]; cbn [shr_m loc_of_shr_record].
  1: destruct (Hdm 0 rho) as [-> ->]; [lia|lia|]. 2: destruct (Hdm (Zpos p) (b + rho)) as [-> ->]; [lia|lia|].
  3: destruct (Hdm (Zpos p) rho) as [-> ->]; [lia|lia|]. 4: destruct (Hdm 0 (b + rho)) as [-> ->]; [lia|lia|].
  all: split; [done|]; unfold loc_of.
  all: destruct (Z.eqb_spec rho 0) as [->|Hne]; cbn [negb]; rewrite ?(proj2 (Z.eqb_neq _ _)) by lia; try done;
    f_equal; symmetry; rewrite ?Z.compare_lt_iff, ?Z.compare_gt_iff, ?Z.compare_eq_iff; lia.
Qed.

Lemma iter_stands p : forall mrs a b, 0 <= a -> 0 < b -> stands mrs a b -> stands (SpecFloat.iter_pos shr_1 p mrs) a (b * 2 ^ Zpos p).
Proof.
  induction p as [p IH|p IH|]; intros mrs a b Ha Hb H; cbn [SpecFloat.iter_pos].
  - pose proof (pow_pos (Zpos p) ltac:(lia)). apply shr_1_stands in H; [|done..]. apply IH in H; [|lia..]. apply IH in H; [|nia..].
    replace (b * 2 ^ Zpos p~1) with (b * 2 * 2 ^ Zpos p * 2 ^ Zpos p); [done|].
    replace (Zpos p~1) with (1 + Zpos p + Zpos p) by lia. rewrite !pow_add by lia. lia.
  - pose proof (pow_pos (Zpos p) ltac:(lia)). apply IH in H; [|lia..]. apply IH in H; [|nia..].
    replace (b * 2 ^ Zpos p~0) with (b * 2 ^ Zpos p * 2 ^ Zpos p); [done|].
    replace (Zpos p~0) with (Zpos p + Zpos p) by lia. rewrite !pow_add by lia. lia.
  - by apply shr_1_stands.
Qed.

Lemma shr_stands mrs e n a b : 0 <= a -> 0 < b -> 0 <= n -> stands mrs a b ->
  exists mrs', shr mrs e n = (mrs', e + n) /\ stands mrs' a (b * 2 ^ n).
Proof.
  intros Ha Hb Hn H. unfold shr. destruct n as [|p|p]; [..|lia].
  - exists mrs. by rewrite Z.add_0_r, Z.mul_1_r.
  - eexists. split; [done|]. by apply iter_stands.
Qed.

Lemma fexp_eq e : fexp 53 1024 e = Z.max (e - 53) (- 1074).
Proof. reflexivity. Qed.

(** Normalising the rounded mantissa. *)
Lemma normalize_denotes s r e : 0 <= r <= 2 ^ 53 -> - 1074 <= e -> (- 1074 < e -> 2 ^ 52 <= r) ->
  denotes (let '(mrs, e) := shr_fexp 53 1024 r e loc_Exact in
           match shr_m mrs with
           | Z0 => S754_zero s
           | Zpos m => if e <=? 1024 - 53 then S754_finite s m e else S754_infinity s
           | _ => S754_nan
           end) s (r * 2 ^ (e + 1074)).
Proof.
  intros Hr He Hfull. unfold shr_fexp. rewrite Zdigits2_bits, fexp_eq by lia.
  assert (exists m e', shr (shr_record_of_loc r loc_Exact) e (Z.max (bits r + e - 53) (-1074) - e) = (Build_shr_record m false false, e') /\
    0 <= m < 2 ^ 53 /\ e <= e' /\ (- 1074 < e' -> 2 ^ 52 <= m) /\ m * 2 ^ (e' + 1074) = r * 2 ^ (e + 1074)) as (m & e' & -> & Hm & He' & Hfull' & <-).
  { destruct (decide (r = 2 ^ 53)) as [->|Hne].
    - exists (2 ^ 52), (e + 1). change (bits (2 ^ 53)) with 54. replace (Z.max (54 + e - 53) (-1074) - e) with 1 by lia. split; [done|]. split_and!; try lia.
      replace (e + 1 + 1074) with (1 + (e + 1074)) by lia. rewrite pow_add by lia. lia.
    - exists r, e. assert (bits r <= 53) by (apply bits_le; lia). split; [|split_and!; auto; lia].
      unfold shr. destruct (Z.max (bits r + e - 53) (-1074) - e) eqn:E; [done|lia|done]. }
  cbn [shr_m]. destruct m as [|m|m]; [by split| |lia]. pose proof (pow_pos (e' + 1074) ltac:(lia)). destruct (Z.leb_spec e' (1024 - 53)).
  - split; [done|]. split; [|done]. unfold bounded, canonical_mantissa. rewrite digits2_pos_bits, fexp_eq.
    apply andb_true_iff. split; [|by apply Z.leb_le]. apply Z.eqb_eq. assert (bits (Zpos m) <= 53) by (apply bits_le; lia).
    destruct (decide (e' = - 1074)); [lia|]. assert (52 < bits (Zpos m)) by (apply bits_gt; lia). lia.
  - split; [done|]. unfold TOP. replace 2098 with (52 + 2046) by lia. rewrite pow_add by lia.
    assert (2 ^ 2046 <= 2 ^ (e' + 1074)) by (apply Z.pow_le_mono_r; lia). specialize (Hfull' ltac:(lia)). nia.
Qed.

(** The last step of every operation: a mantissa [mx] with exponent [ex] that is the quotient
    of the exact result by [2 ^ ex], and where the remainder lies, gives the rounded result. *)
Lemma round_aux_denotes s mx ex lx n d : 0 <= n -> 0 < d ->
  mx = n * 2 ^ Z.max 0 (- (ex + 1074)) / (d * 2 ^ Z.max 0 (ex + 1074)) ->
  lx = loc_of ((n * 2 ^ Z.max 0 (- (ex + 1074))) mod (d * 2 ^ Z.max 0 (ex + 1074))) (d * 2 ^ Z.max 0 (ex + 1074)) ->
  ex <= Z.max (bits mx + ex - 53) (- 1074) ->
  denotes (binary_round_aux 53 1024 s mx ex lx) s (rnd n d).
Proof.
  intros Hn Hd Hmx Hlx Hex. set (z := ex + 1074) in *. pose proof (pow_pos (Z.max 0 (- z)) ltac:(lia)) as Hp1. pose proof (pow_pos (Z.max 0 z) ltac:(lia)) as Hp2.
  set (a := n * 2 ^ Z.max 0 (- z)) in *. set (b := d * 2 ^ Z.max 0 z) in *. assert (0 <= a) as Ha by nia. assert (0 < b) as Hb by nia.
  assert (0 <= mx) as Hmx0 by (rewrite Hmx; by apply Z.div_pos).
  assert (place n d = Z.max (bits mx + ex - 53) (-1074) + 1074) as Hk.
  { unfold place. destruct (Z.le_gt_cases 0 z).
    - assert (mx = n / d / 2 ^ z) as E. { rewrite Hmx, Z.div_div by lia. unfold a, b. rewrite (Z.max_l 0 (- z)), (Z.max_r 0 z) by lia. by rewrite Z.mul_1_r. }
      assert (bits mx = Z.max 0 (bits (n / d) - z)) by (rewrite E; apply bits_div; [apply Z.div_pos|]; lia).
      destruct (decide (mx = 0)) as [Hz|Hz]; [subst mx; rewrite Hz in *; change (bits 0) with 0 in *; lia|]. pose proof (bits_one mx ltac:(lia)). lia.
    - assert (n / d = mx / 2 ^ (- z)) as E.
      { rewrite Hmx, Z.div_div by lia. unfold a, b. rewrite (Z.max_l 0 z), (Z.max_r 0 (- z)), Z.mul_1_r by lia. rewrite Z.div_mul_cancel_r; lia. }
      rewrite E, bits_div by lia. lia. }
  unfold binary_round_aux, shr_fexp at 1. rewrite Zdigits2_bits, fexp_eq by done.
  destruct (shr_stands (shr_record_of_loc mx lx) ex (Z.max (bits mx + ex - 53) (-1074) - ex) a b) as (mrs & -> & Hm & Hl); [done|done|lia|by apply stands_loc|].
  rewrite Hm, Hl, rne_loc by (pose proof (pow_pos (Z.max (bits mx + ex - 53) (-1074) - ex) ltac:(lia)); nia).
  assert (rne a (b * 2 ^ (Z.max (bits mx + ex - 53) (-1074) - ex)) = rne n (d * 2 ^ place n d)) as ->.
  { assert (b * 2 ^ (Z.max (bits mx + ex - 53) (-1074) - ex) = d * 2 ^ place n d * 2 ^ Z.max 0 (- z)) as ->.
    { unfold b. rewrite <- !Z.mul_assoc, <- !pow_add by (pose proof (place_nonneg n d); lia). f_equal. f_equal. lia. }
    apply rne_scale; [|done]. pose proof (pow_pos _ (place_nonneg n d)). nia. }
  destruct (place_spec n d Hn Hd) as [U L]. pose proof (place_nonneg n d) as Hk0. pose proof (pow_pos _ Hk0).
  replace (ex + (Z.max (bits mx + ex - 53) (-1074) - ex)) with (place n d - 1074) by lia.
  unfold rnd. replace (place n d) with (place n d - 1074 + 1074) at 4 by lia. apply normalize_denotes; [|lia|].
  - apply rne_between; nia.
  - intros Hpos. rewrite <- (rne_exact (2 ^ 52) (d * 2 ^ place n d)) by nia. specialize (L ltac:(lia)). apply rne_mono; nia.
Qed.

(** ** The operations *)
Lemma bounded_spec m e : bounded 53 1024 m e = true ->
  - 1074 <= e <= 971 /\ bits (Zpos m) <= 53 /\ (- 1074 < e -> bits (Zpos m) = 53).
Proof.
  unfold bounded, canonical_mantissa. rewrite digits2_pos_bits, fexp_eq. intros [Hc%Z.eqb_eq He%Z.leb_le]%andb_true_iff. lia.
Qed.

Lemma bits_53 m : bits (Zpos m) <= 53 -> Zpos m < 2 ^ 53.
Proof. apply bits_le; lia. Qed.

Lemma finite_fin m e : bounded 53 1024 m e = true -> fin (S754_finite false m e) (Zpos m * 2 ^ (e + 1074)).
Proof.
  intros H. destruct (bounded_spec m e H) as (He & Hb & _). split; [done|]. apply bits_53 in Hb. pose proof (pow_pos (e + 1074) ltac:(lia)).
  split; [nia|]. unfold TOP. replace 2098 with (53 + 2045) by lia. rewrite (pow_add 53 2045) by lia.
  assert (2 ^ (e + 1074) <= 2 ^ 2045) by (apply Z.pow_le_mono_r; lia). nia.
Qed.

(** The finite doubles that are not negative. *)
Lemma fin_cases x r : fin x r ->
  x = S754_zero false /\ r = 0 \/ exists m e, x = S754_finite false m e /\ bounded 53 1024 m e = true /\ r = Zpos m * 2 ^ (e + 1074).
Proof.
  intros [H Hr]. destruct x as [s|s| |s m e]; simpl in H.
  - destruct H as [-> ->]. by left.
  - lia.
  - done.
  - destruct H as (-> & Hb & ->). right. by exists m, e.
Qed.

Lemma fin_representable x r : fin x r -> representable r.
Proof.
  intros [[-> ->]|(m & e & -> & Hb & ->)]%fin_cases; [done|]. destruct (bounded_spec m e Hb) as (He & Hd & _).
  apply representable_dyadic; [|lia]. apply bits_53 in Hd. lia.
Qed.

Lemma fin_fun x r r' : fin x r -> fin x r' -> r = r'.
Proof. intros [[-> ->]|(m & e & -> & _ & ->)]%fin_cases [[? ->]|(? & ? & ? & _ & ->)]%fin_cases; by simplify_eq. Qed.

Lemma fin_zero : fin zero 0.
Proof. split; [done|]. split; [done|]. apply pow_pos. lia. Qed.

Lemma iter_xO m d : Zpos (Pos.iter xO m d) = Zpos m * 2 ^ Zpos d.
Proof. rewrite <- Z.shiftl_mul_pow2 by lia. unfold Z.shiftl. rewrite (Pos.iter_swap_gen _ _ Zpos xO (Z.mul 2)); done. Qed.

Lemma shl_align_spec m e e' : exists m', shl_align m e e' = (m', Z.min e e') /\ Zpos m' = Zpos m * 2 ^ (e - Z.min e e').
Proof.
  unfold shl_align. destruct (e' - e) as [|p|p] eqn:E.
  - exists m. rewrite Z.min_l, Z.sub_diag by lia. split; [done|lia].
  - exists m. rewrite Z.min_l, Z.sub_diag by lia. split; [done|lia].
  - eexists. rewrite Z.min_r by lia. split; [done|]. rewrite iter_xO. f_equal. f_equal. lia.
Qed.

Lemma binary_round_denotes s m e : - 1074 <= e -> denotes (binary_round 53 1024 s m e) s (rnd (Zpos m * 2 ^ (e + 1074)) 1).
Proof.
  intros He. unfold binary_round. rewrite digits2_pos_bits, fexp_eq. set (f := Z.max (bits (Zpos m) + e - 53) (-1074)).
  destruct (shl_align_spec m e f) as (m' & -> & Hm'). set (e' := Z.min e f) in *.
  assert (Zpos m * 2 ^ (e + 1074) = Zpos m' * 2 ^ (e' + 1074)) as E.
  { rewrite Hm', <- Z.mul_assoc, <- pow_add by lia. f_equal. f_equal. lia. }
  rewrite E. pose proof (pow_pos (e' + 1074) ltac:(lia)). apply round_aux_denotes; try lia.
  - rewrite (Z.max_l 0 (- _)), Z.max_r, Z.mul_1_r, Z.mul_1_l by lia. by rewrite Z.div_mul by lia.
  - rewrite (Z.max_l 0 (- _)), Z.max_r, Z.mul_1_r, Z.mul_1_l by lia. by rewrite Z.mod_mul by lia.
  - rewrite Hm', bits_mul_pow by lia. lia.
Qed.

Lemma of_Z_denotes z : 0 <= z -> denotes (of_Z z) false (rnd (z * 2 ^ 1074) 1).
Proof. intros Hz. unfold of_Z, binary_normalize. destruct z as [|p|p]; [done| |lia]. by apply (binary_round_denotes false p 0). Qed.

(** Integers of at most 53 digits are exact. *)
Lemma of_Z_fin z : 0 <= z <= 2 ^ 53 -> fin (of_Z z) (z * 2 ^ 1074).
Proof.
  intros Hz. pose proof (of_Z_denotes z ltac:(lia)) as H. rewrite (representable_dyadic z 1074) in H by lia. split; [done|].
  pose proof (pow_pos 1074 ltac:(lia)). split; [nia|]. unfold TOP. replace 2098 with (1024 + 1074) by lia. rewrite pow_add by lia.
  assert (2 ^ 53 < 2 ^ 1024) by (apply Z.pow_lt_mono_r; lia). nia.
Qed.

Lemma dmul_denotes x y a b : fin x a -> fin y b -> denotes (dmul x y) false (rnd (a * b) (2 ^ 1074)).
Proof.
  intros [[-> ->]|(mx & ex & -> & Hx & ->)]%fin_cases Hy.
  { destruct (fin_cases _ _ Hy) as [[-> ->]|(my & ey & -> & _ & ->)]; by split. }
  apply fin_cases in Hy as [[-> ->]|(my & ey & -> & Hy & ->)]; [by rewrite Z.mul_0_r|]. unfold dmul, SFmul. cbn [xorb].
  destruct (bounded_spec _ _ Hx) as (Ex & Bx & Fx). destruct (bounded_spec _ _ Hy) as (Ey & By & Fy).
  assert (bits (Zpos mx) <= bits (Zpos (mx * my)) /\ bits (Zpos my) <= bits (Zpos (mx * my))) as [B1 B2].
  { rewrite Pos2Z.inj_mul. split; apply bits_mono; nia. }
  assert (Zpos mx * 2 ^ (ex + 1074) * (Zpos my * 2 ^ (ey + 1074)) * 2 ^ Z.max 0 (- (ex + ey + 1074)) =
    Zpos (mx * my) * (2 ^ 1074 * 2 ^ Z.max 0 (ex + ey + 1074))) as E.
  { replace (2 ^ 1074 * 2 ^ Z.max 0 (ex + ey + 1074)) with (2 ^ (ex + 1074) * 2 ^ (ey + 1074) * 2 ^ Z.max 0 (- (ex + ey + 1074))).
    - rewrite Pos2Z.inj_mul. ring.
    - rewrite <- !pow_add by lia. f_equal. lia. }
  pose proof (pow_pos (ex + 1074) ltac:(lia)). pose proof (pow_pos (ey + 1074) ltac:(lia)). pose proof (pow_pos 1074 ltac:(lia)).
  pose proof (pow_pos (Z.max 0 (ex + ey + 1074)) ltac:(lia)). assert (0 < 2 ^ 1074 * 2 ^ Z.max 0 (ex + ey + 1074)) by (by apply Z.mul_pos_pos).
  apply round_aux_denotes; [apply Z.mul_nonneg_nonneg; lia|done|..].
  - rewrite E. by rewrite Z.div_mul by lia.
  - rewrite E. by rewrite Z.mod_mul by lia.
  - lia.
Qed.

Lemma dadd_denotes x y a b : fin x a -> fin y b -> denotes (dadd x y) false (rnd (a + b) 1).
Proof.
  intros Hx Hy. pose proof (fin_representable _ _ Hx) as Rx. pose proof (fin_representable _ _ Hy) as Ry.
  pose proof Hx as [[-> ->]|(mx & ex & -> & Bx & ->)]%fin_cases.
  { rewrite Z.add_0_l, Ry. pose proof Hy as [[-> ->]|(my & ey & -> & _ & _)]%fin_cases; [by split|apply Hy]. }
  pose proof Hy as [[-> ->]|(my & ey & -> & By & ->)]%fin_cases; [rewrite Z.add_0_r, Rx; apply Hx|].
  unfold dadd, SFadd. cbn [cond_Zopp]. destruct (bounded_spec _ _ Bx) as (Ex & _). destruct (bounded_spec _ _ By) as (Ey & _).
  destruct (shl_align_spec mx ex (Z.min ex ey)) as (m1 & -> & E1). destruct (shl_align_spec my ey (Z.min ex ey)) as (m2 & -> & E2). cbn [fst].
  replace (Z.min ex (Z.min ex ey)) with (Z.min ex ey) in E1 by lia. replace (Z.min ey (Z.min ex ey)) with (Z.min ex ey) in E2 by lia.
  change (Zpos m1 + Zpos m2) with (Zpos (m1 + m2)). cbn [binary_normalize].
  replace (Zpos mx * 2 ^ (ex + 1074) + Zpos my * 2 ^ (ey + 1074)) with (Zpos (m1 + m2) * 2 ^ (Z.min ex ey + 1074)); [apply binary_round_denotes; lia|].
  rewrite Pos2Z.inj_add, Z.mul_add_distr_r, E1, E2, <- !Z.mul_assoc, <- !pow_add by lia. f_equal; f_equal; f_equal; lia.
Qed.

Lemma new_location_loc b r : 0 < b -> 0 <= r < b -> new_location b r = loc_of r b.
Proof.
  intros Hb Hr. unfold new_location, new_location_even, new_location_odd, loc_of. destruct (Z.even b) eqn:Hev, (Z.eqb_spec r 0); try done.
  f_equal. assert (2 * r <> b) by (intros <-; by rewrite Z.even_mul in Hev).
  destruct (Z.compare_spec (2 * r + 1) b), (Z.compare_spec (2 * r) b); (done || lia).
Qed.

Lemma ddiv_denotes x y a b : fin x a -> fin y b -> 0 < b -> denotes (ddiv x y) false (rnd (a * 2 ^ 1074) b).
Proof.
  intros Hx Hy Hb. pose proof Hy as [[-> ->]|(m2 & e2 & -> & B2 & ->)]%fin_cases; [lia|].
  pose proof Hx as [[-> ->]|(m1 & e1 & -> & B1 & ->)]%fin_cases.
  { rewrite Z.mul_0_l. unfold rnd. by rewrite <- (Z.mul_0_l (Zpos m2 * 2 ^ (e2 + 1074) * 2 ^ place 0 (Zpos m2 * 2 ^ (e2 + 1074)))) at 1; rewrite rne_exact by
      (apply Z.mul_pos_pos; [done|apply pow_pos, place_nonneg]). }
  unfold ddiv, SFdiv, SFdiv_core_binary. cbn [xorb Zdigits2]. rewrite !digits2_pos_bits, fexp_eq.
  set (f := Z.max (bits (Zpos m1) + e1 - (bits (Zpos m2) + e2) - 53) (-1074)). set (e' := Z.min f (e1 - e2)). set (s := e1 - e2 - e').
  assert (0 <= s) as Hs by lia.
  assert (match s with Z0 => Zpos m1 | Zpos _ => Z.shiftl (Zpos m1) s | Zneg _ => 0 end = Zpos m1 * 2 ^ s) as ->.
  { destruct s; [lia|by rewrite Z.shiftl_mul_pow2 by lia|lia]. }
  destruct (bounded_spec _ _ B1) as (E1 & _). destruct (bounded_spec _ _ B2) as (E2 & _).
  set (m' := Zpos m1 * 2 ^ s). pose proof (pow_pos s Hs). assert (0 < m') as Hm' by (unfold m'; lia).
  destruct (Z.div_eucl m' (Zpos m2)) as [q r] eqn:Ediv.
  assert (q = m' / Zpos m2) as Hq by (unfold Z.div; by rewrite Ediv). assert (r = m' mod Zpos m2) as Hr by (unfold Z.modulo; by rewrite Ediv).
  rewrite new_location_loc, Hq, Hr by (subst r; (lia || apply Z.mod_pos_bound; lia)).
  set (c := 2 ^ (e2 + 1074 + Z.max 0 (e' + 1074))). pose proof (pow_pos (e2 + 1074 + Z.max 0 (e' + 1074)) ltac:(lia)) as Hc. fold c in Hc.
  assert (Zpos m1 * 2 ^ (e1 + 1074) * 2 ^ 1074 * 2 ^ Z.max 0 (- (e' + 1074)) = m' * c) as EA.
  { unfold m', c. rewrite <- !Z.mul_assoc, <- !pow_add by lia. f_equal. f_equal. lia. }
  assert (Zpos m2 * 2 ^ (e2 + 1074) * 2 ^ Z.max 0 (e' + 1074) = Zpos m2 * c) as EB.
  { unfold c. rewrite <- !Z.mul_assoc, <- !pow_add by lia. done. }
  apply round_aux_denotes; [apply Z.mul_nonneg_nonneg; [|apply Z.lt_le_incl, pow_pos]; lia|done|..].
  - rewrite EA, EB. by rewrite Z.div_mul_cancel_r by lia.
  - rewrite EA, EB. rewrite Z.mul_mod_distr_r by lia. by rewrite loc_of_scale.
  - pose proof (bits_quot m' (Zpos m2) Hm' ltac:(lia)) as Hbits.
    unfold m' in Hbits at 1. rewrite bits_mul_pow in Hbits by lia. lia.
Qed.

(** ** Conversion to an integer, and order *)
Lemma to_u64_fin x r : fin x r -> to_u64 x = if r / 2 ^ 1074 <? 2 ^ 64 then Some (r / 2 ^ 1074) else None.
Proof.
  intros [[-> ->]|(m & e & -> & Hb & ->)]%fin_cases; [done|]. destruct (bounded_spec _ _ Hb) as (He & _). unfold to_u64. cbn [andb].
  assert ((if 0 <=? e then Zpos m * 2 ^ e else Zpos m / 2 ^ (- e)) = Zpos m * 2 ^ (e + 1074) / 2 ^ 1074) as ->; [|done].
  pose proof (pow_pos 1074 ltac:(lia)). destruct (Z.leb_spec 0 e).
  - rewrite pow_add, Z.mul_assoc, Z.div_mul by lia. done.
  - replace (2 ^ 1074) with (2 ^ (- e) * 2 ^ (e + 1074)) by (rewrite <- pow_add by lia; f_equal; lia).
    pose proof (pow_pos (- e) ltac:(lia)). pose proof (pow_pos (e + 1074) ltac:(lia)). by rewrite Z.div_mul_cancel_r by lia.
Qed.

Lemma dle_zero_fin x r : fin x r -> dle x zero = (r =? 0).
Proof.
  intros [[-> ->]|(m & e & -> & Hb & ->)]%fin_cases; [done|]. destruct (bounded_spec _ _ Hb) as (He & _). pose proof (pow_pos (e + 1074) ltac:(lia)).
  symmetry. apply Z.eqb_neq. lia.
Qed.

(** The order of doubles is that of their values. *)
Lemma finite_lt m1 e1 m2 e2 : bounded 53 1024 m1 e1 = true -> bounded 53 1024 m2 e2 = true -> e1 < e2 ->
  Zpos m1 * 2 ^ (e1 + 1074) < Zpos m2 * 2 ^ (e2 + 1074).
Proof.
  intros (E1 & B1 & _)%bounded_spec (E2 & B2 & F2)%bounded_spec Hlt. apply bits_53 in B1. specialize (F2 ltac:(lia)).
  assert (2 ^ 52 <= Zpos m2) by (apply bits_gt; lia). replace (e2 + 1074) with (1 + (e2 - e1 - 1) + (e1 + 1074)) by lia.
  rewrite (pow_add (1 + (e2 - e1 - 1)) (e1 + 1074)), (pow_add 1 (e2 - e1 - 1)) by lia. pose proof (pow_pos (e1 + 1074) ltac:(lia)). pose proof (pow_pos (e2 - e1 - 1) ltac:(lia)).
  rewrite Z.mul_assoc. apply Z.mul_lt_mono_pos_r; [done|]. change (2 ^ 1) with 2. nia.
Qed.

Lemma compare_fin x y a b : fin x a -> fin y b -> SFcompare x y = Some (a ?= b).
Proof.
  intros [[-> ->]|(m1 & e1 & -> & B1 & ->)]%fin_cases [[-> ->]|(m2 & e2 & -> & B2 & ->)]%fin_cases; cbn [SFcompare].
  - done.
  - destruct (bounded_spec _ _ B2) as (E2 & _). pose proof (pow_pos (e2 + 1074) ltac:(lia)). f_equal. symmetry. apply Z.compare_lt_iff. lia.
  - destruct (bounded_spec _ _ B1) as (E1 & _). pose proof (pow_pos (e1 + 1074) ltac:(lia)). f_equal. symmetry. apply Z.compare_gt_iff. lia.
  - f_equal. destruct (Z.compare_spec e1 e2) as [->|Hlt|Hgt]; symmetry.
    + destruct (bounded_spec _ _ B2) as (E2 & _). pose proof (pow_pos (e2 + 1074) ltac:(lia)).
      change (Pos.compare_cont Eq m1 m2) with (Zpos m1 ?= Zpos m2). symmetry. by apply Zmult_compare_compat_r, Z.lt_gt.
    + apply Z.compare_lt_iff. by apply finite_lt.
    + apply Z.compare_gt_iff. by apply finite_lt.
Qed.

Lemma dlt_fin x y a b : fin x a -> fin y b -> dlt x y = (a <? b).
Proof. intros Hx Hy. unfold dlt, SFltb. rewrite (compare_fin x y a b Hx Hy). unfold Z.ltb. by destruct (a ?= b). Qed.

Lemma dle_fin x y a b : fin x a -> fin y b -> dle x y = (a <=? b).
Proof. intros Hx Hy. unfold dle, SFleb. rewrite (compare_fin x y a b Hx Hy). unfold Z.leb. by destruct (a ?= b). Qed.

(** ** The error of rounding: half a unit, or a relative [2 ^ -53] *)
Lemma rnd_error n d : 0 <= n -> 0 < d -> 2 ^ 53 * Z.abs (rnd n d * d - n) <= Z.max n (2 ^ 52 * d).
Proof.
  intros Hn Hd. destruct (place_spec n d Hn Hd) as [_ L]. pose proof (place_nonneg n d) as Hk. unfold rnd. set (k := place n d) in *.
  pose proof (pow_pos k Hk). destruct (rne_spec n (d * 2 ^ k) ltac:(nia)) as [[H1 H2] _]. set (r := rne n (d * 2 ^ k)) in *.
  assert (2 * Z.abs (r * 2 ^ k * d - n) <= d * 2 ^ k) by (destruct (Z.abs_spec (r * 2 ^ k * d - n)) as [[_ ->]|[_ ->]]; nia).
  destruct (decide (k = 0)) as [E|E]; [rewrite E in *; lia|]. specialize (L ltac:(lia)). nia.
Qed.

(** ** Common cases *)
Lemma representable_pow k : 0 <= k -> representable (2 ^ k).
Proof. intros Hk. rewrite <- (Z.mul_1_l (2 ^ k)). by apply representable_dyadic. Qed.

Lemma rnd_le_pow n d k : 0 <= n -> 0 < d -> 0 <= k -> n <= 2 ^ k * d -> rnd n d <= 2 ^ k.
Proof. intros. apply rnd_le; [done..|by apply representable_pow|done]. Qed.

Lemma denotes_fin x r k : denotes x false r -> 0 <= r <= 2 ^ k -> k < 2098 -> fin x r.
Proof.
  intros Hx [H0 H1] Hk. split; [done|]. split; [done|]. destruct (Z.le_gt_cases 0 k); [|rewrite Z.pow_neg_r in H1 by done; pose proof (pow_pos 2098); unfold TOP; lia].
  assert (2 ^ k < TOP) by (apply Z.pow_lt_mono_r; lia). lia.
Qed.

Lemma of_Z_u64 z : fits 64 z -> fin (of_Z z) (rnd (z * 2 ^ 1074) 1) /\ rnd (z * 2 ^ 1074) 1 <= 2 ^ 1138.
Proof.
  intros [Hz1 Hz2]. pose proof (pow_pos 1074 ltac:(lia)). assert (rnd (z * 2 ^ 1074) 1 <= 2 ^ 1138) as Hle.
  { apply rnd_le_pow; lia. }
  split; [|done]. apply (denotes_fin _ _ 1138); [apply of_Z_denotes; lia|split; [apply rnd_nonneg; nia|done]|lia].
Qed.

(** The product with an integer. *)
Lemma dmul_int x a z : fin x a -> 0 <= z <= 2 ^ 53 -> denotes (dmul x (of_Z z)) false (rnd (a * z) 1).
Proof.
  intros Hx Hz. pose proof (pow_pos 1074 ltac:(lia)). destruct Hx as [Hx Hr]. rewrite <- (rnd_scale (a * z) 1 (2 ^ 1074)) by nia.
  rewrite Z.mul_1_l, <- Z.mul_assoc. apply dmul_denotes; [by split|by apply of_Z_fin].
Qed.

(** The quotient of two integers; this is also the value of a decimal literal [a / b]. *)
Definition quotient (a b : Z) : double := ddiv (of_Z a) (of_Z b).

Lemma quotient_fin a b : 0 <= a <= 2 ^ 53 -> 0 < b <= 2 ^ 53 ->
  fin (quotient a b) (rnd (a * 2 ^ 1074) b) /\ rnd (a * 2 ^ 1074) b <= 2 ^ 1127 /\ (0 < a -> 2 ^ 1021 <= rnd (a * 2 ^ 1074) b).
Proof.
  intros Ha Hb. pose proof (pow_pos 1074 ltac:(lia)). pose proof (ddiv_denotes _ _ _ _ (of_Z_fin a Ha) (of_Z_fin b ltac:(lia)) ltac:(nia)) as Hq.
  rewrite rnd_scale in Hq by nia. assert (rnd (a * 2 ^ 1074) b <= 2 ^ 1127) as Hle.
  { apply rnd_le_pow; nia. }
  split; [|split; [done|]].
  - apply (denotes_fin _ _ 1127); [done|split; [apply rnd_nonneg; nia|done]|lia].
  - intros Ha0. apply rnd_ge; [apply Z.lt_le_incl, pow_pos; lia|lia|apply representable_pow; lia|].
    replace 1074 with (1021 + 53) by lia. rewrite pow_add by lia. pose proof (pow_pos 1021 ltac:(lia)). nia.
Qed.
End Double.
