(* ===== verification/Baselines.v ===== *)
(** * The baselines of the microbenchmarks

    What [bench_pool.cpp] and [bench_spsc.cpp] compare the pool and the ring with:
    [malloc] and [free], [new] and [delete], [std::list], [std::queue] with and without a
    mutex; and the two queue benchmarks with larger elements.  The allocator is a
    parameter: a function from the live blocks to the next address, null if it fails. *)
From stdpp Require Import gmap list numbers sorting.
From S2P Require Import Prelude Double Spsc Workloads.
Open Scope Z_scope.
Open Scope cpp_scope.

Module Baselines.
Import Workloads.

(** ** The heap *)
(** The live blocks; [None] is undefined behaviour: giving back a block that is not live,
    or writing through a pointer that is not. *)
Abbreviation heap := (gset Z).
Definition claim (p : Z) (h : heap) : heap := if p =? 0 then h else {[p]} ∪ h.
Definition free (p : Z) (h : heap) : option heap :=
  if p =? 0 then Some h else if decide (p ∈ h) then Some (h ∖ {[p]}) else None.

Section heap.
  Context (malloc : heap -> Z).

(** [BM_Malloc_AllocFree] *)
Fixpoint malloc_free (n : nat) (h : heap) : option heap :=
  match n with
  | O => Some h
  | S n => let o := malloc h in h ← free o (claim o h); malloc_free n h
  end.

(** [BM_New_Delete]; [inl] is [std::bad_alloc]. *)
Fixpoint new_delete (n : nat) (h : heap) : option (unit + heap) :=
  match n with
  | O => Some (inr h)
  | S n => let o := malloc h in if o =? 0 then Some (inl ()) else h ← free o (claim o h); new_delete n h
  end.

(** [BM_Malloc_FillDrain], one iteration *)
Fixpoint malloc_many (n : nat) (h : heap) : list Z * heap :=
  match n with
  | O => ([], h)
  | S n => let o := malloc h in let '(os, h) := malloc_many n (claim o h) in (o :: os, h)
  end.
Fixpoint free_all (ptrs : list Z) (h : heap) : option heap :=
  match ptrs with [] => Some h | p :: ptrs => h ← free p h; free_all ptrs h end.
Definition malloc_fill_drain (N : nat) (h : heap) : option heap := let '(ptrs, h) := malloc_many N h in free_all ptrs h.

(** [BM_Malloc_RealisticUsage]: the fields are written without looking at the pointer. *)
Fixpoint malloc_realistic (n : nat) (next_id : Z) (mem : gmap Z Order) (h : heap) : option (gmap Z Order * heap) :=
  match n with
  | O => Some (mem, h)
  | S n =>
    let o := malloc h in
    let h := claim o h in
    let id := next_id +64 1 in
    mem ← (if decide (o ∈ h) then Some (<[o := use_order id (default (mkOrder 0 0 0 0 0 0 []) (mem !! o))]> mem) else None);
    h ← free o h;
    malloc_realistic n id mem h
  end.

(** [BM_Malloc_Churning] *)
Fixpoint malloc_churn (n idx : nat) (live : list Z) (h : heap) : option (list Z * heap) :=
  match n with
  | O => Some (live, h)
  | S n =>
    p ← live !! idx;
    h ← free p h;
    let o := malloc h in
    malloc_churn n (Z.to_nat (Z.land (Z.of_nat idx + 1) (Z.of_nat (length live) - 1))) (<[idx := o]> live) (claim o h)
  end.
Definition malloc_churning (LIVE n : nat) (h : heap) : option heap :=
  let '(live, h) := malloc_many LIVE h in '(live, h) ← malloc_churn n 0 live h; free_all live h.
End heap.

(** ** The standard containers *)
Section containers.
  Context {T : Type}.

Definition pop_front (l : list T) : option (list T) := match l with [] => None | _ :: l => Some l end.
Definition pop_back (l : list T) : option (list T) := match reverse l with [] => None | _ :: l => Some (reverse l) end.

(** [BM_StdList_PushPop] *)
Fixpoint list_push_pop (n : nat) (o : T) (l : list T) : option (list T) :=
  match n with O => Some l | S n => l ← pop_back (l ++ [o]); list_push_pop n o l end.

(** [BM_StdList_Churning] *)
Fixpoint push_many (n : nat) (o : T) (l : list T) : list T := match n with O => l | S n => push_many n o (l ++ [o]) end.
Fixpoint list_churn (n : nat) (o : T) (l : list T) : option (list T) :=
  match n with O => Some l | S n => l ← pop_front l; list_churn n o (l ++ [o]) end.
Definition list_churning (LIVE n : nat) (o : T) : option (list T) := list_churn n o (push_many LIVE o []).

(** [BM_StdQueue_PushPop] *)
Fixpoint queue_push_pop (n : nat) (x : T) (q : list T) : option (list T) :=
  match n with O => Some q | S n => q ← pop_front (q ++ [x]); queue_push_pop n x q end.

(** [BM_StdQueueMutex_PushPop]: locking a mutex that is held by the same thread, and
    unlocking one that is not held, are undefined. *)
Definition lock (m : bool) : option bool := if m then None else Some true.
Definition unlock (m : bool) : option bool := if m then Some false else None.
Fixpoint mutex_push_pop (n : nat) (x : T) (q : list T) (m : bool) : option (list T * bool) :=
  match n with
  | O => Some (q, m)
  | S n =>
    m ← lock m;
    let q := q ++ [x] in
    m ← unlock m;
    m ← lock m;
    q ← pop_front q;
    m ← unlock m;
    mutex_push_pop n x q m
  end.
End containers.

(** ** Larger elements of the ring *)
Record MarketTick := mkTick { tick_price : Z; tick_qty : Z; tick_side : Z }.
(** The default constructor fills the slots. *)
#[export] Instance tick_inhabited : Inhabited MarketTick := populate (mkTick 0 0 66).
Definition emplace_bench (n : nat) : list (bool * option MarketTick) * Spsc.SPSCQueue MarketTick :=
  push_pop n (mkTick 42 100 66) (Spsc.make QCAP_LOG).

Record FatMessage := mkFat { fat_ticker : list Z; prices : list Double.double; fat_timestamp : Z; fat_qty : Z }.
Definition fat0 : FatMessage := mkFat (replicate 32 0) (replicate 8 Double.zero) 0 0.
#[export] Instance fat_inhabited : Inhabited FatMessage := populate fat0.
Definition fat_bench (n : nat) : list (bool * option FatMessage) * Spsc.SPSCQueue FatMessage :=
  push_pop n (mkFat (fat_ticker fat0) (prices fat0) 1234567890 100) (Spsc.make QCAP_LOG).

(** ** Nothing is lost and nothing is given back twice *)
(** The heap is [h0] and the blocks [ptrs], null pointers aside. *)
Definition held (ptrs : list Z) : list Z := filter (fun p => p ≠ 0) ptrs.
Definition owns (h0 : heap) (ptrs : list Z) (h : heap) : Prop :=
  h = h0 ∪ list_to_set (held ptrs) /\ NoDup (held ptrs) /\ (forall p, p ∈ held ptrs -> p ∉ h0).

Lemma owns_nil h : owns h [] h.
Proof. split; [unfold held; simpl; set_solver|]. split; [constructor|]. intros p Hp. by apply elem_of_nil in Hp. Qed.

#[export] Instance held_proper : Proper ((≡ₚ) ==> (≡ₚ)) held.
Proof. intros l l' Hl. unfold held. by rewrite Hl. Qed.

Lemma owns_perm h0 l l' h : l ≡ₚ l' -> owns h0 l h -> owns h0 l' h.
Proof.
  intros Hl (-> & Hnd & Hd). split; [|split].
  - apply set_eq. intros x. by rewrite !elem_of_union, !elem_of_list_to_set, Hl.
  - by rewrite <- Hl.
  - intros p. rewrite <- Hl. apply Hd.
Qed.

Lemma owns_free h0 p ptrs h : owns h0 (p :: ptrs) h -> exists h', free p h = Some h' /\ owns h0 ptrs h'.
Proof.
  intros (-> & Hnd & Hd). unfold free. destruct (Z.eqb_spec p 0) as [->|Hp]; [eexists; split; [done|]; by split_and!|].
  assert (held (p :: ptrs) = p :: held ptrs) as E by (unfold held; by rewrite filter_cons_True). unfold owns. rewrite E in *.
  pose proof (Hd p (list_elem_of_here _ _)) as Hp0. apply NoDup_cons in Hnd as [Hnin Hnd]. rewrite decide_True by (apply elem_of_union; right; apply elem_of_list_to_set, list_elem_of_here).
  eexists. split; [done|]. split_and!; [|done|intros q Hq; apply Hd; by apply list_elem_of_further].
  cbn [list_to_set]. assert (p ∉ (list_to_set (held ptrs) : gset Z)) by (by rewrite elem_of_list_to_set). set_solver.
Qed.

Section honest.
  (** The allocator never returns a block that is live. *)
  Context (malloc : heap -> Z) (Hmalloc : forall h, malloc h ∉ h).

Lemma owns_claim h0 ptrs h : owns h0 ptrs h -> owns h0 (malloc h :: ptrs) (claim (malloc h) h).
Proof.
  intros (-> & Hnd & Hd). set (h := h0 ∪ _). pose proof (Hmalloc h) as Hm. set (p := malloc h) in *. unfold claim, owns, held. destruct (Z.eqb_spec p 0) as [E|Hp].
  - rewrite filter_cons_False by (intros H; exact (H E)). by split_and!.
  - rewrite filter_cons_True by done. unfold h in Hm. apply not_elem_of_union in Hm as [Hm0 Hm1]. rewrite elem_of_list_to_set in Hm1. split_and!.
    + cbn [list_to_set]. unfold h, held. set_solver.
    + by constructor.
    + intros q [->|Hq]%elem_of_cons; [done|by apply Hd].
Qed.

Lemma malloc_many_owns n : forall h0 ptrs h, owns h0 ptrs h ->
  exists os h', malloc_many malloc n h = (os, h') /\ length os = n /\ owns h0 (os ++ ptrs) h'.
Proof.
  induction n as [|n IH]; intros h0 ptrs h Ho; cbn [malloc_many]; [by exists [], h|]. apply owns_claim in Ho.
  destruct (IH _ _ _ Ho) as (os & h' & -> & Hl & Ho'). exists (malloc h :: os), h'. split_and!; [done|simpl; by rewrite Hl|]. eapply owns_perm; [|exact Ho'].
  cbn [app]. by rewrite Permutation_middle.
Qed.

Lemma free_all_owns ptrs : forall h0 h, owns h0 ptrs h -> free_all ptrs h = Some h0.
Proof.
  induction ptrs as [|p ptrs IH]; intros h0 h Ho; cbn [free_all].
  - destruct Ho as [-> _]. f_equal. unfold held. simpl. set_solver.
  - destruct (owns_free _ _ _ _ Ho) as (h' & -> & Ho'). by apply IH.
Qed.

Lemma malloc_churn_owns n : forall idx live h0 h, owns h0 live h -> (idx < length live)%nat -> (exists k, length live = Nat.pow 2 k) ->
  exists live' h', malloc_churn malloc n idx live h = Some (live', h') /\ owns h0 live' h'.
Proof.
  induction n as [|n IH]; intros idx live h0 h Ho Hi Hk; cbn [malloc_churn]; [by exists live, h|]. destruct (lookup_lt_is_Some_2 live idx Hi) as [p Hp]. rewrite Hp. cbn [mbind option_bind].
  destruct (owns_free h0 p (delete idx live) h) as (h' & -> & Ho'); [by apply (owns_perm _ live); [apply delete_Permutation|]|]. cbn [mbind option_bind].
  apply owns_claim in Ho'. apply IH; [|rewrite length_insert|by rewrite length_insert].
  - eapply owns_perm; [|exact Ho']. rewrite (delete_Permutation (<[idx:=malloc h']> live) idx (malloc h')) by (by apply list_lookup_insert_eq).
    constructor. rewrite !delete_take_drop, take_insert_ge, drop_insert_lt by lia. done.
  - destruct Hk as [k Hk]. assert (Z.of_nat (length live) = 2 ^ Z.of_nat k) as E by (rewrite Hk, Nat2Z.inj_pow; done).
    rewrite E, land_mask by lia. pose proof (Z.mod_pos_bound (Z.of_nat idx + 1) (2 ^ Z.of_nat k) ltac:(lia)). lia.
Qed.

(** The heap benchmarks, from any heap and with any allocator that does not hand out a live
    block twice: each gives back exactly what it took, failed allocations included, except
    that [new] ends the benchmark with an exception and the realistic usage writes through
    a null pointer when the allocation fails. *)
Theorem heap_baselines (n LIVE k : nat) (h : heap) (mem : gmap Z Order) (id : Z) : LIVE = Nat.pow 2 k ->
  malloc_free malloc n h = Some h /\ malloc_fill_drain malloc n h = Some h /\ malloc_churning malloc LIVE n h = Some h /\
  (malloc h = 0 -> (0 < n)%nat -> new_delete malloc n h = Some (inl ()) /\ (0 ∉ h -> malloc_realistic malloc n id mem h = None)) /\
  (malloc h ≠ 0 -> new_delete malloc n h = Some (inr h) /\ exists mem', malloc_realistic malloc n id mem h = Some (mem', h)).
Proof.
  intros Hk. assert (forall h, free (malloc h) (claim (malloc h) h) = Some h) as Hpair.
  { intros h1. destruct (owns_free h1 (malloc h1) [] (claim (malloc h1) h1)) as (h' & -> & [-> _]); [apply owns_claim, owns_nil|]. f_equal. unfold held. simpl. set_solver. }
  split_and!.
  - induction n as [|n IH]; cbn [malloc_free]; [done|]. by rewrite Hpair.
  - unfold malloc_fill_drain. destruct (malloc_many_owns n h [] h (owns_nil h)) as (os & h' & -> & _ & Ho). rewrite app_nil_r in Ho. by apply free_all_owns.
  - unfold malloc_churning. destruct (malloc_many_owns LIVE h [] h (owns_nil h)) as (os & h' & -> & Hl & Ho). rewrite app_nil_r in Ho.
    destruct (malloc_churn_owns n 0 os h h' Ho) as (live' & h2 & -> & Ho2); [rewrite Hl, Hk; pose proof (Nat.pow_nonzero 2 k); lia|exists k; by rewrite Hl|]. by apply free_all_owns.
  - intros H0 Hn. destruct n as [|n]; [lia|]. cbn [new_delete malloc_realistic]. rewrite H0. split; [done|]. intros Hh. unfold claim. cbn [Z.eqb]. by rewrite decide_False.
  - intros Hne. split.
    + induction n as [|n IH]; cbn [new_delete]; [done|]. rewrite (proj2 (Z.eqb_neq _ _)) by done. by rewrite Hpair.
    + revert id mem. induction n as [|n IH]; intros id mem; cbn [malloc_realistic]; [by eexists|]. rewrite decide_True.
      * cbn [mbind option_bind]. rewrite Hpair. apply IH.
      * unfold claim. rewrite (proj2 (Z.eqb_neq _ _)) by done. set_solver.
Qed.
End honest.

(** The containers: nothing is popped from an empty one, sizes do not change, the mutex is
    free at the end; and through the ring every larger element arrives as it was sent. *)
Theorem container_baselines {T} (x : T) (n LIVE : nat) (l : list T) :
  list_push_pop n x l = Some l /\ (l ≠ [] -> Forall (eq x) l -> queue_push_pop n x l = Some l /\ mutex_push_pop n x l false = Some (l, false)) /\
  ((0 < LIVE)%nat -> list_churning LIVE n x = Some (replicate LIVE x)) /\
  queue_push_pop n x [] = Some [] /\ mutex_push_pop n x [] false = Some ([], false) /\
  fst (emplace_bench n) = replicate n (true, Some (mkTick 42 100 66)) /\
  fst (fat_bench n) = replicate n (true, Some (mkFat (replicate 32 0) (replicate 8 Double.zero) 1234567890 100)).
Proof.
  assert (forall k, pop_front (replicate k x ++ [x]) = Some (replicate k x)) as Hpop.
  { intros [|k]; [done|]. cbn [replicate app pop_front]. by rewrite <- replicate_S_end. }
  assert (forall k, queue_push_pop n x (replicate k x) = Some (replicate k x) /\ mutex_push_pop n x (replicate k x) false = Some (replicate k x, false)) as Hq.
  { intros k. split; (induction n as [|m IH]; [done|]); cbn [queue_push_pop mutex_push_pop lock unlock mbind option_bind]; rewrite Hpop; exact IH. }
  split_and!.
  - clear Hq. induction n as [|m IH]; [done|]. cbn [list_push_pop]. unfold pop_back. rewrite reverse_snoc. cbn [mbind option_bind]. by rewrite reverse_involutive.
  - intros _ Hl. assert (l = replicate (length l) x) as ->; [|apply Hq]. clear -Hl. induction Hl as [|y l <- _ IH]; [done|]. simpl. by f_equal.
  - intros HL. unfold list_churning. assert (forall k j, push_many k x (replicate j x) = replicate (k + j) x) as Hp.
    { induction k as [|k IH]; intros j; [done|]. cbn [push_many]. rewrite <- replicate_S_end, IH. f_equal. lia. }
    change [] with (replicate 0 x). rewrite Hp, Nat.add_0_r. destruct LIVE as [|k]; [lia|]. clear -Hpop. induction n as [|m IH]; [done|].
    cbn [list_churn replicate pop_front mbind option_bind]. rewrite <- replicate_S_end. exact IH.
  - apply (Hq 0%nat).
  - apply (Hq 0%nat).
  - unfold emplace_bench. by destruct (push_pop_holds n (mkTick 42 100 66) (Spsc.make QCAP_LOG) (Spsc.make_holds QCAP_LOG qcap_ok)) as (q' & -> & _).
  - unfold fat_bench. by destruct (push_pop_holds n (mkFat (fat_ticker fat0) (prices fat0) 1234567890 100) (Spsc.make QCAP_LOG) (Spsc.make_holds QCAP_LOG qcap_ok)) as (q' & -> & _).
Qed.

(** The smallest address that is not live. *)
Lemma heap_demo : malloc_churning (fun h => fresh (∅ ∪ h)) 4 3 {[7]} = Some {[7]}.
Proof.
  apply (heap_baselines (fun h => fresh (∅ ∪ h))) with (k := 2%nat) (mem := ∅) (id := 0); [|done]. intros h H. apply (is_fresh (∅ ∪ h)). set_solver.
Qed.
End Baselines.
