(* ===== verification/Clock.v ===== *)
(** * The cycle clock

    [src/core/clock.h]: the constructor compares 50 ms on the steady clock with the
    cycles counted meanwhile, and [to_ns] multiplies by the quotient.  The four readings
    are arguments; the counter wraps at 64 bits. *)
From Stdlib Require Import ZArith SpecFloat.
From stdpp Require Import list numbers.
From S2P Require Import Prelude Double.
Open Scope Z_scope.
Open Scope cpp_scope.

Module Clock.
Import Double.

Record CycleClock := mkClock { ns_per_cycle_ : double }.

(** The constructor: the steady clock counts nanoseconds. *)
Definition make (start_time : Z) (start_clock : Z) (end_time : Z) (end_clock : Z) : CycleClock :=
  let ns := end_time - start_time in
  mkClock (ddiv (of_Z ns) (of_Z (end_clock -64 start_clock))).

Definition to_ns (c : CycleClock) (cycles : Z) : double := dmul (ns_per_cycle_ c) (of_Z cycles).

(** A clock with [q] units of nanoseconds per cycle. *)
Definition runs (c : CycleClock) (q : Z) : Prop := fin (ns_per_cycle_ c) q /\ 0 < q <= 2 ^ 1127.
(** The value of [to_ns]. *)
Definition ns_of (q cycles : Z) : Z := rnd (q * rnd (cycles * 2 ^ 1074) 1) (2 ^ 1074).

Lemma make_runs t0 c0 t1 c1 : 0 < t1 - t0 <= 2 ^ 53 -> 0 < c1 -64 c0 <= 2 ^ 53 -> runs (make t0 c0 t1 c1) (rnd ((t1 - t0) * 2 ^ 1074) (c1 -64 c0)).
Proof.
  intros Ht Hc. destruct (quotient_fin (t1 - t0) (c1 -64 c0)) as (Hf & Hle & Hge); [lia..|]. split; [done|]. specialize (Hge ltac:(lia)).
  pose proof (pow_pos 1021 ltac:(lia)). lia.
Qed.

Lemma to_ns_fin c q cycles : runs c q -> fits 64 cycles -> fin (to_ns c cycles) (ns_of q cycles) /\ ns_of q cycles <= 2 ^ 1191.
Proof.
  intros [Hq Hr] Hc. destruct (of_Z_u64 cycles Hc) as [Hf Hle]. pose proof (dmul_denotes _ _ _ _ Hq Hf) as Hd. destruct Hf as [_ [H0 _]].
  assert (ns_of q cycles <= 2 ^ 1191) as Hn.
  { apply rnd_le_pow; [nia|apply pow_pos; lia|lia|]. transitivity (2 ^ 1127 * 2 ^ 1138); [apply Z.mul_le_mono_nonneg; lia|]. rewrite <- !pow_add by lia. done. }
  split; [|done]. apply (denotes_fin _ _ 1191); [done|split; [|done]|lia]. apply rnd_nonneg; [nia|apply pow_pos; lia].
Qed.

Lemma ns_of_mono q a b : 0 <= q -> 0 <= a <= b -> ns_of q a <= ns_of q b.
Proof.
  intros Hq Hab. pose proof (pow_pos 1074 ltac:(lia)) as Hp. assert (rnd (a * 2 ^ 1074) 1 <= rnd (b * 2 ^ 1074) 1) by (apply rnd_mono; nia).
  assert (0 <= rnd (a * 2 ^ 1074) 1) by (apply rnd_nonneg; nia). apply rnd_mono; nia.
Qed.

(** Few enough cycles are converted to a double without error. *)
Lemma ns_of_small q z : 0 <= q -> 0 <= z <= 2 ^ 53 -> ns_of q z = rnd (q * z) 1.
Proof.
  intros Hq Hz. unfold ns_of. rewrite (representable_dyadic z 1074) by lia. rewrite Z.mul_assoc. rewrite <- (Z.mul_1_l (2 ^ 1074)) at 2.
  apply rnd_scale; [nia|lia|apply pow_pos; lia].
Qed.

(** The calibration can be read back: the cycles counted during the calibration convert to
    the nanoseconds it took, up to [2 ^ -51] of them; more cycles never convert to fewer
    nanoseconds, for all 64-bit counts; and no conversion is infinite or not a number. *)
Theorem clock_calibrated (t0 c0 t1 c1 : Z) : 0 < t1 - t0 <= 2 ^ 53 -> 0 < c1 -64 c0 <= 2 ^ 53 ->
  let clock := make t0 c0 t1 c1 in
  (forall a b, fits 64 a -> fits 64 b -> a <= b -> exists x y, fin (to_ns clock a) x /\ fin (to_ns clock b) y /\ x <= y) /\
  exists r, fin (to_ns clock (c1 -64 c0)) r /\ 2 ^ 51 * Z.abs (r - (t1 - t0) * 2 ^ 1074) <= (t1 - t0) * 2 ^ 1074.
Proof.
  intros Ht Hc clock. pose proof (make_runs t0 c0 t1 c1 Ht Hc) as Hr. fold clock in Hr.
  destruct (quotient_fin (t1 - t0) (c1 -64 c0)) as (_ & _ & Hge); [lia..|]. specialize (Hge ltac:(lia)).
  set (ns := t1 - t0) in *. set (cyc := c1 -64 c0) in *. set (q := rnd (ns * 2 ^ 1074) cyc) in *. destruct Hr as [Hq Hr]. split.
  - intros a b Ha Hb Hab. exists (ns_of q a), (ns_of q b). split_and!; [by apply to_ns_fin..|]. unfold fits in *. apply ns_of_mono; lia.
  - exists (ns_of q cyc). split; [apply to_ns_fin; [done|]; unfold fits; lia|]. rewrite ns_of_small by lia.
    pose proof (rnd_error (ns * 2 ^ 1074) cyc ltac:(lia) ltac:(lia)) as E1. fold q in E1. pose proof (rnd_error (q * cyc) 1 ltac:(nia) ltac:(lia)) as E2.
    assert (2 ^ 105 <= 2 ^ 1074 /\ 2 ^ 52 <= 2 ^ 1021) as [Hp1 Hp2] by (split; apply Z.pow_le_mono_r; done).
    rewrite Z.mul_1_r in E2. rewrite Z.max_l in E1 by (transitivity (2 ^ 105); nia). rewrite Z.max_l in E2 by (transitivity (2 ^ 1021); nia). lia.
Qed.

Lemma clock_demo : let clock := make 0 (2 ^ 64 - 10) 50000000 149999990 in
  exists r, fin (to_ns clock 150000000) r /\ 2 ^ 51 * Z.abs (r - 50000000 * 2 ^ 1074) <= 50000000 * 2 ^ 1074.
Proof. apply (clock_calibrated 0 (2 ^ 64 - 10) 50000000 149999990); [lia|vm_compute; split; congruence]. Qed.
End Clock.
