(* ===== verification/Stats.v ===== *)
(** * The statistics of the hot-path benchmarks

    What the four programs print: [std::sort] of the latencies, [percentile], minimum and
    maximum, the rows of [print_histogram], the throughput of the measured window.  The
    text around the numbers is in [Mains.v] and [PacedMain.v]. *)
From Stdlib Require Import ZArith SpecFloat.
From stdpp Require Import gmap list numbers sorting.
From S2P Require Import Prelude Double Clock HotPath.
Open Scope Z_scope.
Open Scope cpp_scope.

Module Stats.
Import Double Clock HotPath.

(** ** Definitions *)
(** [std::sort] of integers: the order determines the result. *)
Definition sort (l : list Z) : list Z := merge_sort Z.le l.

(** [None] is an index or a conversion out of range. *)
Definition percentile (sorted : list Z) (pct : double) : option Z :=
  match sorted with
  | [] => Some 0
  | _ => idx ← to_u64 (dmul pct (of_Z (Z.of_nat (length sorted) - 1))); sorted !! Z.to_nat idx
  end.

Record Report := mkReport { c_min : Z; c_p50 : Z; c_p90 : Z; c_p99 : Z; c_p999 : Z; c_max : Z }.

(** From the measurements to the numbers; [front] and [back] of an empty vector are
    undefined. *)
Definition report (latencies : list Z) : option Report :=
  let sorted := sort latencies in
  mn ← head sorted;
  p50 ← percentile sorted (quotient 50 100);
  p90 ← percentile sorted (quotient 90 100);
  p99 ← percentile sorted (quotient 99 100);
  p999 ← percentile sorted (quotient 999 1000);
  mx ← last sorted;
  Some (mkReport mn p50 p90 p99 p999 mx).

(** The window in seconds, and messages per second. *)
Definition throughput (clock : CycleClock) (start_tsc end_tsc : Z) (n : Z) : double * double :=
  let seconds := ddiv (to_ns clock (end_tsc -64 start_tsc)) (of_Z 1000000000) in
  (seconds, ddiv (of_Z n) seconds).

(** [max_late_ns < 1e6] *)
Definition sustainable (clock : CycleClock) (max_lateness_cycles : Z) : bool := dlt (to_ns clock max_lateness_cycles) (of_Z 1000000).

(** [for (j = 0; j < bar && j < 50; ++j) bar_buf[j] = '#'] *)
Fixpoint bar_loop (fuel j : nat) (bar : Z) (buf : list Z) : option (list Z) :=
  match fuel with
  | O => None
  | S fuel =>
    if (Z.of_nat j <? bar) && (j <? 50)%nat
    then if (j <? length buf)%nat then bar_loop fuel (S j) bar (<[j := 35]> buf) else None
    else Some buf
  end.

Record Row := mkRow { lo : Z; hi : Z; count : Z; bar_buf : list Z }.

(** The second loop of [print_histogram]; the quotient by [cycles.size()] is undefined for an
    empty vector, and the conversion to [int] wraps. *)
Definition to_int (x : Z) : Z := let y := u32 x in if y <? 2 ^ 31 then y else y - 2 ^ 32.
Fixpoint rows (i : Z) (buckets : list Z) (size : Z) : option (list Row) :=
  match buckets with
  | [] => Some []
  | n :: buckets =>
    if n =? 0 then rows (i + 1) buckets size
    else
      let low := u64 (Z.shiftl 128 i) in
      let high := u64 (Z.shiftl low 1) in
      bar ← (if size =? 0 then None else Some (to_int ((n *64 50) / size)));
      buf ← bar_loop 51 0 bar (replicate 64 0);
      rs ← rows (i + 1) buckets size;
      Some (mkRow low high n buf :: rs)
  end.

Definition print_histogram (cycles : list Z) : option (list Row) :=
  buckets ← histogram cycles (replicate N_BUCKETS 0); rows 0 buckets (Z.of_nat (length cycles)).

(** ** Sorted lists *)
Lemma sort_perm l : sort l ≡ₚ l.
Proof. apply merge_sort_Permutation. Qed.

Lemma sort_sorted l : StronglySorted Z.le (sort l).
Proof. apply StronglySorted_merge_sort; [intros x y z; lia|intros x y; lia]. Qed.

Lemma sorted_lookup l : StronglySorted Z.le l -> forall i j x y, l !! i = Some x -> l !! j = Some y -> (i <= j)%nat -> x <= y.
Proof.
  induction 1 as [|z l _ IH Hz]; intros i j x y Hi Hj Hij; [done|]. destruct i as [|i], j as [|j]; simplify_eq/=; [lia| |lia|].
  - rewrite Forall_forall in Hz. apply Hz. by eapply list_elem_of_lookup_2.
  - eapply IH; [done..|lia].
Qed.

(** How many samples are at most the [i]-th of the sorted ones, and at least. *)
Lemma filter_take_length (P : Z -> Prop) `{!forall x, Decision (P x)} (l : list Z) k :
  (forall i x, l !! i = Some x -> (i < k)%nat -> P x) -> (Nat.min k (length l) <= length (filter P l))%nat.
Proof.
  revert k. induction l as [|x l IH]; intros k HP; [simpl; lia|]. destruct k as [|k]; [lia|]. rewrite filter_cons, decide_True.
  - simpl. specialize (IH k). assert (Nat.min k (length l) <= length (filter P l))%nat; [|lia]. apply IH. intros i y Hi Hk. apply (HP (S i)); [done|lia].
  - apply (HP 0%nat); [done|lia].
Qed.

Lemma rank_below l i (x : Z) : StronglySorted Z.le l -> l !! i = Some x -> (i + 1 <= length (filter (fun y => (y <= x)%Z) l))%nat.
Proof.
  intros Hs Hi. pose proof (lookup_lt_Some _ _ _ Hi). replace (i + 1)%nat with (Nat.min (i + 1) (length l)) by lia. apply filter_take_length. intros j y Hj Hle. eapply sorted_lookup; [done|exact Hj|exact Hi|lia].
Qed.

(** ** The index of a percentile *)
Definition index (p n : Z) : Z := rnd (p * n) 1 / 2 ^ 1074.

Lemma index_ok pct p n : fin pct p -> p <= 2 ^ 1074 -> 0 <= n <= 2 ^ 53 ->
  to_u64 (dmul pct (of_Z n)) = Some (index p n) /\ 0 <= index p n <= n.
Proof.
  intros Hp Hp1 Hn. pose proof (pow_pos 1074 ltac:(lia)). destruct Hp as [Hd [Hp0 Ht]]. assert (rnd (p * n) 1 <= n * 2 ^ 1074) as Hle.
  { apply rnd_le; [nia|lia|apply representable_dyadic; lia|nia]. }
  assert (0 <= rnd (p * n) 1) by (apply rnd_nonneg; nia).
  assert (fin (dmul pct (of_Z n)) (rnd (p * n) 1)) as Hf.
  { apply (denotes_fin _ _ (53 + 1074)); [apply dmul_int; [by split|done]|split; [done|]|lia]. rewrite pow_add by lia. nia. }
  assert (0 <= index p n <= n) as Hi. { split; [apply Z.div_pos; lia|]. apply Z.div_le_upper_bound; lia. }
  split; [|done]. rewrite (to_u64_fin _ _ Hf). fold (index p n). rewrite (proj2 (Z.ltb_lt _ _)); [done|]. lia.
Qed.

Lemma index_mono p p' n : 0 <= p <= p' -> 0 <= n -> index p n <= index p' n.
Proof. intros. apply Z.div_le_mono; [apply pow_pos; lia|]. apply rnd_mono; nia. Qed.

(** Two relative errors of [2 ^ -53] move a rank by less than one half. *)
Lemma rank_arith a b n p P U : 0 < a <= b -> 0 <= n <= 2 ^ 50 -> 0 < U ->
  2 ^ 53 * Z.abs (p * b - a * U) <= a * U -> 2 ^ 53 * Z.abs (P - p * n) <= p * n -> Z.abs (P / U - n * a / b) <= 1.
Proof.
  intros Ha Hn HU E1 E2. set (X := p * n * b). set (Y := n * a * U).
  assert (2 ^ 53 * Z.abs (X - Y) <= Y) as F1 by (unfold X, Y; replace (p * n * b - n * a * U) with (n * (p * b - a * U)) by ring; rewrite Z.abs_mul, (Z.abs_eq n); nia).
  assert (2 ^ 53 * Z.abs (P * b - X) <= X) as F2 by (unfold X; replace (P * b - p * n * b) with ((P - p * n) * b) by ring; rewrite Z.abs_mul, (Z.abs_eq b); nia).
  assert (Y <= 2 ^ 50 * (b * U)) as F3 by (unfold Y; nia). clearbody X. assert (8 * Z.abs (P * b - Y) <= 3 * (b * U)) as F by lia.
  pose proof (Z.div_mod P U ltac:(lia)) as D1. pose proof (Z.mod_pos_bound P U HU) as R1. pose proof (Z.div_mod (n * a) b ltac:(lia)) as D2. pose proof (Z.mod_pos_bound (n * a) b ltac:(lia)) as R2.
  set (i := P / U) in *. set (j := n * a / b) in *. set (r1 := P mod U) in *. set (r2 := (n * a) mod b) in *. clearbody i j r1 r2.
  assert (P * b - Y = (i - j) * (b * U) + r1 * b - r2 * U) as E by (unfold Y; rewrite D1, D2; ring).
  assert (0 <= r1 * b < b * U) by nia. assert (0 <= r2 * U < b * U) by nia. assert (0 < b * U) as Hw by nia.
  set (w := b * U) in *. clearbody w Y. apply Z.abs_le. assert (i - j < 2) by (apply (Z.mul_lt_mono_pos_r w); lia). assert (- 2 < i - j) by (apply (Z.mul_lt_mono_pos_r w); lia). lia.
Qed.

(** The index is the rank [n * a / b], or off by one. *)
Lemma index_rank a b n : 0 < a <= b -> b <= 2 ^ 53 -> 0 <= n <= 2 ^ 50 -> Z.abs (index (rnd (a * 2 ^ 1074) b) n - n * a / b) <= 1.
Proof.
  intros Ha Hb Hn. pose proof (pow_pos 1074 ltac:(lia)) as HU. destruct (quotient_fin a b) as (_ & _ & Hge); [lia..|]. specialize (Hge ltac:(lia)).
  pose proof (rnd_error (a * 2 ^ 1074) b ltac:(nia) ltac:(lia)) as E1. rewrite Z.max_l in E1 by lia. set (p := rnd (a * 2 ^ 1074) b) in *.
  unfold index. destruct (decide (n = 0)) as [->|Hn0]; [rewrite Z.mul_0_r, Z.mul_0_l; change (rnd 0 1) with 0; rewrite !Z.div_0_l by lia; lia|].
  assert (2 ^ 52 <= p * n) by nia. pose proof (rnd_error (p * n) 1 ltac:(lia) ltac:(lia)) as E2. rewrite Z.mul_1_r, Z.max_l in E2 by lia. set (P := rnd (p * n) 1) in *.
  apply (rank_arith a b n p P (2 ^ 1074)); (done || lia).
Qed.

Lemma percentile_ok l pct p : l ≠ [] -> Z.of_nat (length l) <= 2 ^ 53 -> fin pct p -> p <= 2 ^ 1074 ->
  exists v, percentile l pct = Some v /\ l !! Z.to_nat (index p (Z.of_nat (length l) - 1)) = Some v.
Proof.
  intros Hl Hlen Hp Hp1. unfold percentile. destruct l as [|x l]; [done|]. set (l' := x :: l) in *. assert (0 < length l')%nat by (simpl; lia).
  destruct (index_ok pct p (Z.of_nat (length l') - 1) Hp Hp1 ltac:(lia)) as [-> Hi]. cbn [mbind option_bind].
  destruct (lookup_lt_is_Some_2 l' (Z.to_nat (index p (Z.of_nat (length l') - 1)))) as [v Hv]; [lia|]. by exists v.
Qed.

(** ** The report *)
Lemma rank_above l i (x : Z) : StronglySorted Z.le l -> l !! i = Some x -> (length l - i <= length (filter (fun y => (x <= y)%Z) l))%nat.
Proof.
  intros Hs Hi. rewrite <- (take_drop i l) at 2. rewrite filter_app, length_app, <- length_drop.
  assert (filter (fun y => x <= y) (drop i l) = drop i l) as ->; [|lia]. apply filter_Forall_id, Forall_lookup. intros j y Hj.
  rewrite lookup_drop in Hj. eapply sorted_lookup; [done|exact Hi|exact Hj|lia].
Qed.

(** [v] is the percentile [a / b] of the samples. *)
Definition quantile (l : list Z) (a b v : Z) : Prop := exists i : nat,
  Z.abs (Z.of_nat i - (Z.of_nat (length l) - 1) * a / b) <= 1 /\ v ∈ l /\
  (i + 1 <= length (filter (fun y => (y <= v)%Z) l))%nat /\ (length l - i <= length (filter (fun y => (v <= y)%Z) l))%nat.

Lemma percentile_quantile l a b : l ≠ [] -> Z.of_nat (length l) <= 2 ^ 50 -> 0 < a <= b -> b <= 2 ^ 53 ->
  exists v, percentile (sort l) (quotient a b) = Some v /\ quantile l a b v /\
    sort l !! Z.to_nat (index (rnd (a * 2 ^ 1074) b) (Z.of_nat (length l) - 1)) = Some v.
Proof.
  intros Hl Hlen Ha Hb. pose proof (sort_perm l) as Hperm. pose proof (Permutation_length Hperm) as Hn. pose proof (sort_sorted l) as Hs.
  assert (0 < length l)%nat by (destruct l; simpl; [done|lia]). pose proof (pow_pos 1074 ltac:(lia)) as HU.
  destruct (quotient_fin a b) as (Hf & _); [lia..|]. assert (rnd (a * 2 ^ 1074) b <= 2 ^ 1074) as Hle by (apply rnd_le_pow; nia).
  destruct (percentile_ok (sort l) _ _ ltac:(intros E; rewrite E in Hn; simpl in Hn; lia) ltac:(lia) Hf Hle) as (v & Hv & Hi). rewrite Hn in Hi.
  exists v. split_and!; [done| |done]. exists (Z.to_nat (index (rnd (a * 2 ^ 1074) b) (Z.of_nat (length l) - 1))).
  destruct (index_ok _ _ (Z.of_nat (length l) - 1) Hf Hle ltac:(lia)) as [_ Hidx]. pose proof (index_rank a b (Z.of_nat (length l) - 1) Ha Hb ltac:(lia)) as Hrank.
  split_and!.
  - rewrite Z2Nat.id by lia. done.
  - rewrite <- Hperm. by eapply list_elem_of_lookup_2.
  - rewrite <- (Permutation_length (filter_Permutation (fun y => y <= v) _ _ Hperm)). by apply rank_below.
  - rewrite <- (Permutation_length (filter_Permutation (fun y => v <= y) _ _ Hperm)), <- Hn. apply rank_above; [done|by rewrite Hn].
Qed.

(** What the report says. *)
Lemma report_spec (l : list Z) : l ≠ [] -> Z.of_nat (length l) <= 2 ^ 50 ->
  exists r, report l = Some r /\ c_min r <= c_p50 r <= c_p90 r /\ c_p90 r <= c_p99 r <= c_p999 r /\ c_p999 r <= c_max r /\
    c_min r ∈ l /\ c_max r ∈ l /\ Forall (fun x => c_min r <= x <= c_max r) l /\
    quantile l 50 100 (c_p50 r) /\ quantile l 90 100 (c_p90 r) /\ quantile l 99 100 (c_p99 r) /\ quantile l 999 1000 (c_p999 r).
Proof.
  intros Hl Hlen. pose proof (sort_perm l) as Hperm. pose proof (Permutation_length Hperm) as Hn. pose proof (sort_sorted l) as Hs.
  destruct (percentile_quantile l 50 100 Hl Hlen) as (v1 & H1 & Q1 & L1); [lia..|]. destruct (percentile_quantile l 90 100 Hl Hlen) as (v2 & H2 & Q2 & L2); [lia..|].
  destruct (percentile_quantile l 99 100 Hl Hlen) as (v3 & H3 & Q3 & L3); [lia..|]. destruct (percentile_quantile l 999 1000 Hl Hlen) as (v4 & H4 & Q4 & L4); [lia..|].
  assert (0 < length l)%nat by (destruct l; simpl; [done|lia]).
  destruct (lookup_lt_is_Some_2 (sort l) 0) as [mn Hmn]; [lia|]. destruct (lookup_lt_is_Some_2 (sort l) (length (sort l) - 1)) as [mx Hmx]; [lia|].
  unfold report. rewrite head_lookup, Hmn, H1, H2, H3, H4, last_lookup, <- Nat.sub_1_r, Hmx. cbn [mbind option_bind]. eexists. split; [done|]. cbn [c_min c_p50 c_p90 c_p99 c_p999 c_max].
  assert (forall a b a' b', 0 < a <= b -> b <= 2 ^ 53 -> 0 < b' -> a * b' <= a' * b ->
    (Z.to_nat (index (rnd (a * 2 ^ 1074) b) (Z.of_nat (length l) - 1)) <= Z.to_nat (index (rnd (a' * 2 ^ 1074) b') (Z.of_nat (length l) - 1)))%nat) as Hmono.
  { intros a b a' b' Ha Hb Hb' Hle. pose proof (pow_pos 1074 ltac:(lia)). apply Z2Nat.inj_le; [..|apply index_mono; [|lia]].
    - apply Z.div_pos; [|done]. apply rnd_nonneg; [|lia]. apply Z.mul_nonneg_nonneg; [apply rnd_nonneg; nia|lia].
    - apply Z.div_pos; [|done]. apply rnd_nonneg; [|lia]. apply Z.mul_nonneg_nonneg; [apply rnd_nonneg; nia|lia].
    - split; [apply rnd_nonneg; nia|]. apply rnd_mono; nia. }
  pose proof (sorted_lookup _ Hs) as Hso. pose proof (lookup_lt_Some _ _ _ L4).
  split_and!.
  - by apply (Hso _ _ _ _ Hmn L1); lia.
  - apply (Hso _ _ _ _ L1 L2). apply Hmono; lia.
  - apply (Hso _ _ _ _ L2 L3). apply Hmono; lia.
  - apply (Hso _ _ _ _ L3 L4). apply Hmono; lia.
  - apply (Hso _ _ _ _ L4 Hmx). lia.
  - rewrite <- Hperm. by eapply list_elem_of_lookup_2.
  - rewrite <- Hperm. by eapply list_elem_of_lookup_2.
  - apply Forall_forall. intros x Hx. rewrite <- Hperm in Hx. apply list_elem_of_lookup_1 in Hx as [i Hi]. pose proof (lookup_lt_Some _ _ _ Hi).
    split; [apply (Hso _ _ _ _ Hmn Hi); lia|apply (Hso _ _ _ _ Hi Hmx); lia].
  - done.
  - done.
  - done.
  - done.
Qed.

(** C37. The statistics are defined and mean what they are called: of any samples (at least one, up to [2 ^ 50]) the
    report has the smallest and the largest, the percentiles are samples in the order
    [min <= p50 <= p90 <= p99 <= p999 <= max], and each is at an index that is the exact rank
    or next to it, whatever the rounding of the index in binary64: that many samples are
    at most, and the rest at least, the value printed. *)
Theorem report_ordered (l : list Z) : l ≠ [] -> Z.of_nat (length l) <= 2 ^ 50 ->
  exists r, report l = Some r /\ c_min r <= c_p50 r <= c_p90 r /\ c_p90 r <= c_p99 r <= c_p999 r /\ c_p999 r <= c_max r /\
    c_min r ∈ l /\ c_max r ∈ l /\ Forall (fun x => c_min r <= x <= c_max r) l /\
    quantile l 50 100 (c_p50 r) /\ quantile l 90 100 (c_p90 r) /\ quantile l 99 100 (c_p99 r) /\ quantile l 999 1000 (c_p999 r).
Proof. apply report_spec. Qed.

Definition demo_latencies : list Z := [700; 100; 900; 300; 500; 200; 1000; 600; 400; 800].
Lemma report_ordered_witness :
  report demo_latencies = Some (mkReport 100 500 900 900 900 1000) /\ quantile demo_latencies 50 100 500.
Proof.
  destruct (report_ordered demo_latencies) as (r & Hr & _ & _ & _ & _ & _ & _ & Hq & _); [discriminate|vm_compute; discriminate|].
  assert (report demo_latencies = Some (mkReport 100 500 900 900 900 1000)) as E by (vm_compute; reflexivity).
  split; [exact E|]. rewrite E in Hr. injection Hr as <-. exact Hq.
Defined.

(** ** The rows of the histogram *)
Definition bars (k : nat) : list Z := replicate k 35 ++ replicate (64 - k) 0.

Lemma bars_next k : (k < 64)%nat -> <[k := 35]> (bars k) = bars (S k).
Proof.
  intros Hk. unfold bars. rewrite insert_app_r_alt, length_replicate by (rewrite length_replicate; lia). rewrite Nat.sub_diag.
  rewrite (replicate_S_end k 35), <- app_assoc.
  by replace (64 - k)%nat with (S (64 - S k)) by lia.
Qed.

Lemma bar_loop_ok fuel : forall j bar, (j <= Z.to_nat (Z.min 50 bar))%nat -> (50 < j + fuel)%nat ->
  bar_loop fuel j bar (bars j) = Some (bars (Z.to_nat (Z.min 50 bar))).
Proof.
  induction fuel as [|fuel IH]; intros j bar Hj Hf; [lia|]. cbn [bar_loop].
  destruct ((Z.of_nat j <? bar) && (j <? 50)%nat) eqn:E.
  - apply andb_true_iff in E as [E1%Z.ltb_lt E2%Nat.ltb_lt]. rewrite (proj2 (Nat.ltb_lt _ _)).
    + rewrite bars_next by lia. apply IH; lia.
    + unfold bars. rewrite length_app, !length_replicate. lia.
  - f_equal. f_equal. apply andb_false_iff in E as [E%Z.ltb_ge|E%Nat.ltb_ge]; lia.
Qed.

(** What a row says of a histogram of [size] values. *)
Definition row_ok (size : Z) (r : Row) : Prop :=
  0 < count r <= size /\ hi r = 2 * lo r /\ (exists i, 0 <= i < 24 /\ lo r = 128 * 2 ^ i) /\
  0 <= count r * 50 / size <= 50 /\ bar_buf r = bars (Z.to_nat (count r * 50 / size)).

Lemma rows_ok size : 0 < size < 2 ^ 58 -> forall buckets i, Forall (fun n => 0 <= n <= size) buckets -> 0 <= i -> i + Z.of_nat (length buckets) <= 24 ->
  exists rs, rows i buckets size = Some rs /\ Forall (row_ok size) rs /\ foldr Z.add 0 (count <$> rs) = foldr Z.add 0 buckets.
Proof.
  intros Hsize buckets. induction buckets as [|n buckets IH]; intros i Hall Hi Hlen; [by exists []|]. apply Forall_cons_1 in Hall as [Hn Hall].
  cbn [rows length] in *. destruct (IH (i + 1) Hall ltac:(lia) ltac:(lia)) as (rs & -> & Hrs & Hsum). destruct (Z.eqb_spec n 0) as [->|Hne].
  { exists rs. split_and!; [done..|]. simpl. lia. }
  rewrite (proj2 (Z.eqb_neq size 0)) by lia. cbn [mbind option_bind].
  rewrite (wrap_small 64 (n * 50)) by (unfold fits; lia). assert (0 <= n * 50 / size <= 50) as Hb.
  { split; [apply Z.div_pos; lia|]. apply Z.div_le_upper_bound; lia. }
  assert (to_int (n * 50 / size) = n * 50 / size) as ->.
  { unfold to_int. rewrite wrap_small by (unfold fits; lia). by rewrite (proj2 (Z.ltb_lt _ _)) by lia. }
  change (replicate 64 0) with (bars 0). rewrite bar_loop_ok by lia. cbn [mbind option_bind]. rewrite (Z.min_r 50) by lia.
  assert (0 < 2 ^ i <= 2 ^ 23) as Hp by (split; [apply pow_pos; lia|apply Z.pow_le_mono_r; lia]).
  assert (u64 (Z.shiftl 128 i) = 128 * 2 ^ i) as -> by (rewrite Z.shiftl_mul_pow2 by lia; apply wrap_small; unfold fits; lia).
  assert (u64 (Z.shiftl (128 * 2 ^ i) 1) = 2 * (128 * 2 ^ i)) as -> by (rewrite Z.shiftl_mul_pow2 by lia; rewrite wrap_small; [lia|unfold fits; lia]).
  eexists. split; [done|]. split; [|rewrite fmap_cons; cbn [foldr count]; by rewrite Hsum]. constructor; [|done]. split_and!; simpl; try done; try lia. exists i. split; [lia|done].
Qed.

Lemma histogram_nonneg cycles : forall bs bs', Forall (Z.le 0) bs -> histogram cycles bs = Some bs' -> Forall (Z.le 0) bs'.
Proof.
  induction cycles as [|c cycles IH]; intros bs bs' Hb H; cbn [histogram] in H; [by simplify_eq|].
  destruct (bucket c); [|done]. cbn [mbind option_bind] in H. destruct (bs !! _) as [n|]; [|done]. cbn [mbind option_bind] in H.
  apply IH in H; [done|]. apply Forall_insert; [done|]. apply wrap_nonneg. lia.
Qed.

(** The values counted in the [i]-th row: from [128 * 2 ^ i] up to twice that, the first row with
    everything below and the last with everything above. *)
Definition of_row (i c : Z) : Prop := (0 < i -> 128 * 2 ^ i <= c) /\ (i < 23 -> c < 256 * 2 ^ i).
#[export] Instance of_row_dec i c : Decision (of_row i c).
Proof. unfold of_row. apply _. Defined.

Definition in_row (l : list Z) (i : Z) : Z := Z.of_nat (length (filter (of_row i) l)).

(** What the histogram of [l] is: the rows that are not empty, in order. *)
Definition histogram_of (l : list Z) : list (Z * Z * Z) :=
  (fun i => (128 * 2 ^ i, 256 * 2 ^ i, in_row l i)) <$> filter (fun i => in_row l i ≠ 0) (seqZ 0 24).

Lemma of_row_unique i j c : 0 <= i < 24 -> 0 <= j < 24 -> of_row i c -> of_row j c -> i = j.
Proof.
  assert (forall i j, 0 <= i < 24 -> i < j < 24 -> of_row i c -> of_row j c -> False) as H.
  { intros a b Ha Hb [_ H1] [H2 _]. specialize (H1 ltac:(lia)). specialize (H2 ltac:(lia)).
    pose proof (Z.pow_le_mono_r 2 (a + 1) b ltac:(lia) ltac:(lia)) as Hp. rewrite Z.pow_add_r in Hp by lia. lia. }
  intros Hi Hj H1 H2. destruct (Z.lt_trichotomy i j) as [?|[?|?]]; [|done|]; exfalso; [apply (H i j)|apply (H j i)]; (done || lia).
Qed.

Lemma bucket_of_row c : fits 64 c -> exists b, bucket c = Some b /\ 0 <= b < 24 /\ of_row b c.
Proof.
  intros Hc. destruct (bucket_bounds c Hc) as (b & Hb & Hr & H1 & H2). exists b. split_and!; [done|lia|lia|]. split; [|done]. intros Hpos. apply H1.
  rewrite bucket_ok in Hb by done. destruct (Z.lt_ge_cases c 128) as [Hs|]; [|done]. rewrite Z.shiftr_div_pow2, Z.div_small in Hb by (unfold fits in Hc; simpl; lia).
  change (Z.min 23 (Z.log2 0)) with 0 in Hb. simplify_eq. lia.
Qed.

Lemma histogram_counts cycles : forall bs bs', Forall (fits 64) cycles -> (length bs <= N_BUCKETS)%nat ->
  Forall (fun n => 0 <= n /\ n + Z.of_nat (length cycles) < 2 ^ 64) bs -> histogram cycles bs = Some bs' ->
  length bs' = length bs /\ forall i n, bs !! i = Some n -> bs' !! i = Some (n + in_row cycles (Z.of_nat i)).
Proof.
  induction cycles as [|c cycles IH]; intros bs bs' Hc Hl Hb H; cbn [histogram] in H; [simplify_eq; split; [done|]; intros i n Hi; rewrite Hi; f_equal; unfold in_row; simpl; lia|].
  apply Forall_cons in Hc as [Hc1 Hc]. destruct (bucket_of_row c Hc1) as (b & Eb & Hb24 & Hrow). rewrite Eb in H. cbn [mbind option_bind] in H.
  destruct (bs !! Z.to_nat b) as [m|] eqn:Em; [|done]. cbn [mbind option_bind length] in *. pose proof (proj1 (Forall_lookup _ _) Hb _ _ Em) as Hm. simpl in Hm.
  rewrite wrap_small in H by (unfold fits; lia). apply IH in H as [Hlen Hall]; [|done|by rewrite length_insert|apply Forall_insert; [eapply Forall_impl; [exact Hb|]; simpl; lia|lia]].
  rewrite length_insert in Hlen. split; [done|]. intros i n Hi. pose proof (lookup_lt_Some _ _ _ Hi) as Hil. unfold N_BUCKETS in Hl. unfold in_row. rewrite filter_cons.
  destruct (decide (Z.to_nat b = i)) as [<-|Hne].
  - rewrite Z2Nat.id, decide_True by (done || lia). rewrite (Hall (Z.to_nat b) (m + 1)) by (by rewrite list_lookup_insert_eq). simplify_eq. cbn [length]. unfold in_row. rewrite Z2Nat.id by lia. f_equal. lia.
  - rewrite decide_False; [|intros Hir; apply Hne; rewrite (of_row_unique b (Z.of_nat i) c); [lia|lia|lia|done|done]].
    apply Hall. by rewrite list_lookup_insert_ne.
Qed.

Lemma rows_list size f : forall buckets i rs, 0 <= i -> i + Z.of_nat (length buckets) <= 24 -> (forall k n, buckets !! k = Some n -> n = f (i + Z.of_nat k)) ->
  rows i buckets size = Some rs ->
  (fun r => (lo r, hi r, count r)) <$> rs = (fun i => (128 * 2 ^ i, 256 * 2 ^ i, f i)) <$> filter (fun i => f i ≠ 0) (seqZ i (Z.of_nat (length buckets))).
Proof.
  induction buckets as [|n buckets IH]; intros i rs Hi Hlen Hf H; cbn [rows] in H; [by simplify_eq|]. cbn [length] in *. rewrite seqZ_cons by lia.
  replace (Z.pred (Z.of_nat (S (length buckets)))) with (Z.of_nat (length buckets)) by lia. change (Z.succ i) with (i + 1).
  pose proof (Hf 0%nat n eq_refl) as Hn. rewrite Z.add_0_r in Hn.
  assert (forall rs, rows (i + 1) buckets size = Some rs -> (fun r => (lo r, hi r, count r)) <$> rs =
    (fun i => (128 * 2 ^ i, 256 * 2 ^ i, f i)) <$> filter (fun i => f i ≠ 0) (seqZ (i + 1) (Z.of_nat (length buckets)))) as Hrest.
  { intros rs' Hrs. apply IH; [lia|lia| |done]. intros k x Hk. rewrite (Hf (S k) x Hk). f_equal. lia. }
  rewrite filter_cons. destruct (Z.eqb_spec n 0) as [Ez|Ez].
  - rewrite decide_False by (subst n; rewrite <- Ez; tauto). by apply Hrest.
  - rewrite decide_True by (subst n; done). destruct (if size =? 0 then None else _); [|done]. cbn [mbind option_bind] in H.
    destruct (bar_loop _ _ _ _); [|done]. cbn [mbind option_bind] in H. destruct (rows (i + 1) buckets size) as [rs'|] eqn:Er; [|done]. cbn [mbind option_bind] in H. simplify_eq.
    rewrite !fmap_cons, (Hrest rs' eq_refl). cbn [lo hi count]. do 2 f_equal. assert (0 < 2 ^ i <= 2 ^ 23) as Hp by (split; [apply pow_pos; lia|apply Z.pow_le_mono_r; lia]).
    assert (u64 (Z.shiftl 128 i) = 128 * 2 ^ i) as -> by (rewrite Z.shiftl_mul_pow2 by lia; apply wrap_small; unfold fits; lia).
    f_equal. rewrite Z.shiftl_mul_pow2, wrap_small by (unfold fits; lia). lia.
Qed.

(** The rows are those of the histogram, whatever the order of the values. *)
Lemma histogram_rows cycles l rs : Forall (fits 64) cycles -> Z.of_nat (length cycles) < 2 ^ 64 -> cycles ≡ₚ l -> print_histogram cycles = Some rs ->
  (fun r => (lo r, hi r, count r)) <$> rs = histogram_of l.
Proof.
  intros Hc Hn Hperm H. unfold print_histogram in H. destruct (histogram cycles (replicate N_BUCKETS 0)) as [bs|] eqn:Eh; [|done]. cbn [mbind option_bind] in H.
  assert (Forall (fun n => 0 <= n /\ n + Z.of_nat (length cycles) < 2 ^ 64) (replicate N_BUCKETS 0)) as H0 by (apply Forall_replicate; lia).
  destruct (histogram_counts cycles _ bs Hc ltac:(by rewrite length_replicate) H0 Eh) as [Hlen Hcount]. rewrite length_replicate in Hlen.
  apply (rows_list _ (in_row l)) in H; [rewrite H, Hlen; done|lia|rewrite Hlen; unfold N_BUCKETS; lia|].
  intros k n Hk. pose proof (lookup_lt_Some _ _ _ Hk) as Hkl. rewrite Hlen in Hkl. rewrite (Hcount k 0) in Hk by (by apply lookup_replicate_2). injection Hk as <-.
  unfold in_row. rewrite !Z.add_0_l. f_equal. by apply Permutation_length, filter_Permutation.
Qed.

(** The printed histogram: no bar leaves its buffer, every bar has as many marks as its
    share of fifty, the bounds of every row are those of its bucket, and the counts of
    the rows add up to the number of values. *)
Theorem histogram_printed (cycles : list Z) : Forall (fits 64) cycles -> 0 < Z.of_nat (length cycles) < 2 ^ 58 ->
  exists rs, print_histogram cycles = Some rs /\ Forall (row_ok (Z.of_nat (length cycles))) rs /\
    foldr Z.add 0 (count <$> rs) = Z.of_nat (length cycles).
Proof.
  intros Hc Hn. destruct (histogram_sum cycles (replicate N_BUCKETS 0)) as (bs & Hh & Hlen & Hsum); [done|done|by repeat constructor|simpl; lia|].
  unfold print_histogram. rewrite Hh. cbn [mbind option_bind]. apply histogram_nonneg in Hh; [|by repeat constructor].
  change (foldr Z.add 0 (replicate N_BUCKETS 0)) with 0 in Hsum. rewrite Z.add_0_l in Hsum. rewrite <- Hsum in *. apply rows_ok; [done| |lia|rewrite Hlen; done].
  apply Forall_lookup. intros i n Hi. by eapply sum_bound.
Qed.

(** ** Throughput *)
(** A window that is not empty has a finite length and a finite, positive rate. *)
Theorem throughput_finite (clock : CycleClock) (q start_tsc end_tsc n : Z) :
  runs clock q -> 2 ^ 1021 <= q -> 0 < end_tsc -64 start_tsc -> 0 < n <= 2 ^ 53 ->
  exists s r, fin (fst (throughput clock start_tsc end_tsc n)) s /\ 0 < s /\ fin (snd (throughput clock start_tsc end_tsc n)) r /\ 0 < r.
Proof.
  intros Hq Hge Hw Hn. set (w := end_tsc -64 start_tsc) in *. assert (fits 64 w) as Hfw by (apply wrap_fits; lia).
  destruct (to_ns_fin clock q w Hq Hfw) as [Hf Hle]. pose proof (pow_pos 1074 ltac:(lia)) as HU.
  assert (2 ^ 1021 <= ns_of q w) as Hns.
  { etrans; [|apply (ns_of_mono q 1 w); lia]. rewrite ns_of_small by lia. rewrite Z.mul_1_r.
    destruct Hq as [Hq _]. by rewrite (fin_representable _ _ Hq). }
  pose proof (of_Z_fin 1000000000 ltac:(lia)) as Hg. pose proof (ddiv_denotes _ _ _ _ Hf Hg ltac:(lia)) as Hs.
  unfold throughput. fold w. cbn [fst snd]. set (s := rnd (ns_of q w * 2 ^ 1074) (1000000000 * 2 ^ 1074)) in *.
  assert (s = rnd (ns_of q w) 1000000000) as Es by (apply rnd_scale; lia).
  assert (s <= 2 ^ 1191) as Hs1. { rewrite Es. apply rnd_le_pow; lia. }
  assert (2 ^ 990 <= s) as Hs0.
  { rewrite Es. apply rnd_ge; [apply Z.lt_le_incl, pow_pos; lia|lia|apply representable_pow; lia|]. etrans; [|exact Hns].
    replace 1021 with (990 + 31) by lia. rewrite pow_add by lia. pose proof (pow_pos 990 ltac:(lia)). nia. }
  pose proof (pow_pos 990 ltac:(lia)) as H990. assert (fin (ddiv (to_ns clock w) (of_Z 1000000000)) s) as Hsf by (apply (denotes_fin _ _ 1191); [done|lia|lia]).
  pose proof (ddiv_denotes _ _ _ _ (of_Z_fin n ltac:(lia)) Hsf ltac:(lia)) as Hr. set (r := rnd (n * 2 ^ 1074 * 2 ^ 1074) s) in *.
  assert (r <= 2 ^ 1211) as Hr1.
  { apply rnd_le_pow; [nia|lia|lia|]. etrans; [|apply Z.mul_le_mono_nonneg_l; [apply Z.lt_le_incl, pow_pos; lia|exact Hs0]].
    rewrite <- (pow_add 1211 990) by lia. replace (1211 + 990) with (53 + 1074 + 1074) by lia. rewrite !pow_add by lia. nia. }
  assert (2 ^ 957 <= r) as Hr0.
  { apply rnd_ge; [apply Z.lt_le_incl, pow_pos; lia|lia|apply representable_pow; lia|]. etrans; [apply Z.mul_le_mono_nonneg_l; [apply Z.lt_le_incl, pow_pos; lia|exact Hs1]|].
    rewrite <- (pow_add 957 1191) by lia. replace (957 + 1191) with (1074 + 1074) by lia. rewrite !pow_add by lia. nia. }
  exists s, r. pose proof (pow_pos 957 ltac:(lia)). split_and!; [done|lia| |lia]. apply (denotes_fin _ _ 1211); [done|lia|lia].
Qed.
End Stats.
