(* ===== verification/Schedule.v ===== *)
(** * The arrival schedule of the paced benchmark

    [build_schedule] and [Xorshift64::unit] of [bench/bench_hotpath_paced.cpp], in binary64.
    [std::log] is a parameter: what is used of it is that on [2 ^ -53 .. 1] it is finite,
    not positive and at least [-64]. *)
From Stdlib Require Import ZArith SpecFloat.
From stdpp Require Import list numbers sorting.
From S2P Require Import Prelude Double Bytes Payload Options.
Open Scope Z_scope.
Open Scope cpp_scope.

Module Schedule.
Import Double Options.

(** Uniform in (0, 1]; the literal of the source is rounded to [2 ^ 53]. *)
Definition unit (s : Z) : double * Z :=
  let s := Payload.next s in
  (ddiv (dadd (of_Z (Z.shiftr s 11)) (of_Z 1)) (of_Z 9007199254740993), s).

Definition SEED : Z := 0x0123456789ABCDEF.

Section schedule.
  Context (log : double -> double).

(** [static_cast<uint64_t>(t_ns * cycles_per_ns)] *)
Definition offset (t_ns cycles_per_ns : double) : option Z := to_u64 (dmul t_ns cycles_per_ns).

Fixpoint uniform (n : nat) (t_ns mean_gap_ns cycles_per_ns : double) : option (list Z) :=
  match n with
  | O => Some []
  | S n =>
    o ← offset t_ns cycles_per_ns;
    off ← uniform n (dadd t_ns mean_gap_ns) mean_gap_ns cycles_per_ns;
    Some (o :: off)
  end.

Fixpoint poisson (n : nat) (s : Z) (t_ns mean_gap_ns cycles_per_ns : double) : option (list Z) :=
  match n with
  | O => Some []
  | S n =>
    o ← offset t_ns cycles_per_ns;
    let '(u, s) := unit s in
    off ← poisson n s (dadd t_ns (dmul (dneg (log u)) mean_gap_ns)) mean_gap_ns cycles_per_ns;
    Some (o :: off)
  end.

(** [i % burst] for a positive [burst]. *)
Fixpoint bursts (n : nat) (i burst : Z) (t_ns burst_gap_ns cycles_per_ns : double) : option (list Z) :=
  match n with
  | O => Some []
  | S n =>
    let t_ns := if negb (i =? 0) && (Z.rem i burst =? 0) then dadd t_ns burst_gap_ns else t_ns in
    o ← offset t_ns cycles_per_ns;
    off ← bursts n (i + 1) burst t_ns burst_gap_ns cycles_per_ns;
    Some (o :: off)
  end.

Definition build_schedule (n : nat) (rate_hz : double) (mode : Mode) (burst : Z) (cycles_per_ns : double) : option (list Z) :=
  let mean_gap_ns := ddiv (of_Z 1000000000) rate_hz in
  match mode with
  | UNIFORM => uniform n zero mean_gap_ns cycles_per_ns
  | POISSON => poisson n SEED zero mean_gap_ns cycles_per_ns
  | BURST => bursts n 0 burst zero (dmul mean_gap_ns (of_Z burst)) cycles_per_ns
  end.
End schedule.

(** ** The uniform variate *)
(** The comment of the source holds: it is never zero and never more than one, for the
    literal [9007199254740993.0] is [2 ^ 53]. *)
Lemma unit_range s : fits 64 s -> exists k, 0 <= k < 2 ^ 53 /\ fin (unit s).1 ((k + 1) * 2 ^ 1021).
Proof.
  intros Hs. unfold unit. cbn [fst]. assert (fits 64 (Payload.next s)) as Hn.
  { unfold Payload.next. repeat (apply lxor_fits || apply shiftr_fits || apply wrap_fits || done || lia). }
  set (k := Z.shiftr (Payload.next s) 11). assert (0 <= k < 2 ^ 53) as Hk.
  { unfold k. rewrite Z.shiftr_div_pow2 by lia. unfold fits in Hn. split; [apply Z.div_pos; lia|]. apply Z.div_lt_upper_bound; lia. }
  exists k. split; [done|]. change (of_Z 9007199254740993) with (of_Z (2 ^ 53)).
  pose proof (dadd_denotes _ _ _ _ (of_Z_fin k ltac:(lia)) (of_Z_fin 1 ltac:(lia))) as Ha. rewrite <- Z.mul_add_distr_r, (representable_dyadic (k + 1) 1074) in Ha by lia.
  assert (fin (dadd (of_Z k) (of_Z 1)) ((k + 1) * 2 ^ 1074)) as Hf by (apply (denotes_fin _ _ 1127); [done|lia|lia]).
  pose proof (ddiv_denotes _ _ _ _ Hf (of_Z_fin (2 ^ 53) ltac:(lia)) ltac:(lia)) as Hd.
  assert (rnd ((k + 1) * 2 ^ 1074 * 2 ^ 1074) (2 ^ 53 * 2 ^ 1074) = (k + 1) * 2 ^ 1021) as E.
  { rewrite rnd_scale by lia. rewrite <- (representable_dyadic (k + 1) 1021) by lia. rewrite <- (rnd_scale ((k + 1) * 2 ^ 1021) 1 (2 ^ 53)) by lia.
    f_equal. rewrite <- Z.mul_assoc, <- pow_add by lia. done. }
  rewrite E in Hd. apply (denotes_fin _ _ 1074); [done|lia|lia].
Qed.

(** ** A running time *)
(** Finite, not negative, or the negative zero that [-log(1)] is. *)
Definition gap_is (x : double) (r : Z) : Prop := fin x r \/ x = S754_zero true /\ r = 0.

Lemma gap_mul x y a b : gap_is x a -> fin y b -> rnd (a * b) (2 ^ 1074) < TOP -> gap_is (dmul x y) (rnd (a * b) (2 ^ 1074)).
Proof.
  intros [Hx|[-> ->]] Hy Hlt.
  - left. split; [by apply dmul_denotes|]. split; [|done]. destruct Hx as [_ ?], Hy as [_ ?]. apply rnd_nonneg; [nia|apply pow_pos; lia].
  - right. split; [|done]. destruct (fin_cases _ _ Hy) as [[-> _]|(m & e & -> & _)]; done.
Qed.

Lemma gap_add t g a b : fin t a -> gap_is g b -> denotes (dadd t g) false (rnd (a + b) 1).
Proof.
  intros Ht [Hg|[-> ->]]; [by apply dadd_denotes|]. rewrite Z.add_0_r, (fin_representable _ _ Ht).
  pose proof Ht as [[-> ->]|(m & e & -> & _)]%fin_cases; [by split|apply Ht].
Qed.

(** The three loops are one: emit the offset of the time, then advance it. *)
Fixpoint run (gs : list double) (t c : double) : option (list Z) :=
  match gs with [] => Some [] | g :: gs => o ← offset t c; off ← run gs (dadd t g) c; Some (o :: off) end.

(** The offset of a time of [a] units at [b] units of cycles per nanosecond. *)
Definition cycles_at (a b : Z) : Z := rnd (a * b) (2 ^ 1074) / 2 ^ 1074.

Lemma cycles_at_mono a a' b : 0 <= a <= a' -> 0 <= b -> cycles_at a b <= cycles_at a' b.
Proof. intros Ha Hb. apply Z.div_le_mono; [apply pow_pos; lia|]. apply rnd_mono; [nia|apply pow_pos; lia|apply pow_pos; lia|]. pose proof (pow_pos 1074). nia. Qed.

Section bounded_gaps.
  (** Gaps of at most [2 ^ alpha] ns and at most [2 ^ beta] cycles per ns. *)
  Context (c : double) (b alpha beta : Z) (Hc : fin c b) (Hb : b <= 2 ^ (1074 + beta)) (Hal : 0 <= alpha) (Hbe : 0 <= beta).

(** After [k] steps the time is at most [k] times the bound: no error accumulates above it. *)
Definition on_time (t : double) (a k : Z) : Prop := fin t a /\ 0 <= k <= 2 ^ 53 /\ a <= k * 2 ^ (1074 + alpha).

Lemma offset_ok t a k : on_time t a k -> k * 2 ^ (alpha + beta) < 2 ^ 64 ->
  offset t c = Some (cycles_at a b) /\ 0 <= cycles_at a b <= k * 2 ^ (alpha + beta).
Proof.
  intros (Ht & Hk & Ha) Hlim. pose proof (pow_pos 1074 ltac:(lia)) as HU. pose proof Ht as [_ [Ha0 _]]. pose proof Hc as [_ [Hb0 _]].
  set (r := rnd (a * b) (2 ^ 1074)).
  assert (r <= k * 2 ^ (1074 + alpha + beta)) as Hr.
  { apply rnd_le; [nia|done|apply representable_dyadic; lia|]. etrans; [apply Z.mul_le_mono_nonneg; [done|exact Ha|done|exact Hb]|].
    rewrite <- !Z.mul_assoc, <- !pow_add by lia. apply Z.eq_le_incl. f_equal. f_equal. lia. }
  assert (0 <= r) as Hr0 by (apply rnd_nonneg; nia). replace (1074 + alpha + beta) with (alpha + beta + 1074) in Hr by lia. rewrite pow_add, Z.mul_assoc in Hr by lia.
  assert (r < 2 ^ 64 * 2 ^ 1074) as Hr1 by nia.
  assert (fin (dmul t c) r) as Hf. { apply (denotes_fin _ _ 1138); [by apply dmul_denotes|lia|lia]. }
  unfold offset. rewrite (to_u64_fin _ _ Hf). fold (cycles_at a b). change (r / 2 ^ 1074) with (cycles_at a b).
  assert (0 <= cycles_at a b <= k * 2 ^ (alpha + beta)) as Hin. { split; [by apply Z.div_pos|]. apply Z.div_le_upper_bound; lia. }
  split; [|done]. by rewrite (proj2 (Z.ltb_lt _ _)) by lia.
Qed.

Lemma advance t a k g x : on_time t a k -> gap_is g x -> 0 <= x <= 2 ^ (1074 + alpha) -> k + 1 <= 2 ^ 53 -> alpha <= 64 ->
  on_time (dadd t g) (rnd (a + x) 1) (k + 1) /\ a <= rnd (a + x) 1.
Proof.
  intros (Ht & Hk & Ha) Hg Hx Hk1 Hal64. pose proof Ht as [_ [Ha0 _]]. pose proof (pow_pos (1074 + alpha) ltac:(lia)) as Hp.
  assert (rnd (a + x) 1 <= (k + 1) * 2 ^ (1074 + alpha)) as Hle by (apply rnd_le; [lia|lia|apply representable_dyadic; lia|lia]).
  split; [|apply rnd_ge; [done|lia|by eapply fin_representable|lia]]. split_and!; [|lia|lia|done].
  apply (denotes_fin _ _ (53 + (1074 + alpha))); [by apply gap_add| |lia]. split; [apply rnd_nonneg; lia|]. rewrite (pow_add 53) by lia. nia.
Qed.

Lemma run_ok gs : forall t a k, on_time t a k -> Forall (fun g => exists x, gap_is g x /\ 0 <= x <= 2 ^ (1074 + alpha)) gs ->
  (k + Z.of_nat (length gs)) * 2 ^ (alpha + beta) <= 2 ^ 64 -> k + Z.of_nat (length gs) <= 2 ^ 53 ->
  exists l, run gs t c = Some l /\ length l = length gs /\ Forall (fun o => cycles_at a b <= o <= (k + Z.of_nat (length gs)) * 2 ^ (alpha + beta)) l /\ StronglySorted Z.le l /\
    (gs ≠ [] -> head l = Some (cycles_at a b)).
Proof.
  induction gs as [|g gs IH]; intros t a k Ht Hgs Hlim Hk; cbn [run length] in *; [exists []; split_and!; (done || constructor)|].
  apply Forall_cons_1 in Hgs as [(x & Hg & Hx) Hgs]. pose proof (pow_pos (alpha + beta) ltac:(lia)) as Hp. assert (0 <= k) as Hk0 by apply Ht.
  destruct (offset_ok t a k Ht ltac:(nia)) as [-> Ho]. cbn [mbind option_bind].
  assert (alpha <= 64) as Hal64. { assert (2 ^ (alpha + beta) <= 2 ^ 64) as Hpow by nia. apply Z.pow_le_mono_r_iff in Hpow; lia. }
  destruct (advance t a k g x Ht Hg Hx ltac:(lia) Hal64) as [Ht' Hle].
  destruct (IH _ _ (k + 1) Ht' Hgs) as (l & -> & Hlen & Hall & Hsort & _); [|lia|].
  { replace (k + 1 + Z.of_nat (length gs)) with (k + Z.of_nat (S (length gs))) by lia. done. }
  cbn [mbind option_bind]. pose proof Hc as [_ [Hb0 _]]. pose proof Ht as [[_ [Ha0 _]] _]. pose proof (cycles_at_mono a _ b (conj Ha0 Hle) Hb0) as Hm.
  eexists. split; [done|]. split_and!.
  - simpl. by rewrite Hlen.
  - constructor; [split; [lia|nia]|]. eapply Forall_impl; [exact Hall|]. simpl. intros o. replace (k + 1 + Z.of_nat (length gs)) with (k + Z.of_nat (S (length gs))) by lia. lia.
  - constructor; [done|]. eapply Forall_impl; [exact Hall|]. simpl. lia.
  - done.
Qed.
End bounded_gaps.

(** ** The loops as runs *)
Lemma uniform_run n gap c : forall t, uniform n t gap c = run (replicate n gap) t c.
Proof. induction n as [|n IH]; intros t; cbn [uniform run replicate]; [done|]. destruct (offset t c); [|done]. cbn [mbind option_bind]. by rewrite IH. Qed.

Fixpoint poisson_gaps (log : double -> double) (n : nat) (s : Z) (gap : double) : list double :=
  match n with O => [] | S n => let '(u, s) := unit s in dmul (dneg (log u)) gap :: poisson_gaps log n s gap end.

Lemma poisson_run log n gap c : forall s t, poisson log n s t gap c = run (poisson_gaps log n s gap) t c.
Proof.
  induction n as [|n IH]; intros s t; cbn [poisson poisson_gaps]; [done|]. destruct (unit s) as [u s']. cbn [run].
  destruct (offset t c); [|done]. cbn [mbind option_bind]. by rewrite IH.
Qed.

(** Between bursts the time stands still. *)
Definition burst_gap (i burst : Z) (gap : double) : double := if Z.rem i burst =? 0 then gap else zero.

(** Any double that is not negative, infinity included. *)
Definition positive (t : double) : Prop := exists r, denotes t false r.

Lemma dadd_zero t : positive t -> dadd t zero = t.
Proof. intros [r Hr]. destruct t as [s|s| |s m e]; simpl in Hr; destruct_and?; subst; done. Qed.

Lemma dadd_positive t g x : positive t -> fin g x -> positive (dadd t g).
Proof.
  intros [r Hr] Hg. destruct (decide (0 <= r < TOP)) as [Hin|Hout]; [eexists; apply dadd_denotes; [by split|done]|].
  exists TOP. assert (0 <= x) as Hx by apply Hg. destruct t as [s|s| |s m e]; simpl in Hr; destruct_and?; subst; try done.
  - unfold TOP in Hout. lia.
  - destruct (fin_cases _ _ Hg) as [[-> _]|(m & e & -> & _)]; done.
  - exfalso. apply Hout. by apply finite_fin.
Qed.

Lemma bursts_run n burst gap x c : fin gap x -> forall i t, positive t -> 0 <= i ->
  bursts n i burst t gap c =
    run ((fun j => burst_gap (i + 1 + Z.of_nat j) burst gap) <$> List.seq 0 n) (if negb (i =? 0) && (Z.rem i burst =? 0) then dadd t gap else t) c.
Proof.
  intros Hg. induction n as [|n IH]; intros i t Ht Hi; cbn [bursts List.seq fmap list_fmap run]; [done|].
  set (t' := if negb (i =? 0) && (Z.rem i burst =? 0) then dadd t gap else t).
  assert (positive t') as Ht' by (unfold t'; destruct (_ && _); [by eapply dadd_positive|done]).
  destruct (offset t' c); [|done]. cbn [mbind option_bind]. rewrite (IH (i + 1) t' Ht' ltac:(lia)). rewrite Z.add_0_r.
  assert ((if negb (i + 1 =? 0) && (Z.rem (i + 1) burst =? 0) then dadd t' gap else t') = dadd t' (burst_gap (i + 1) burst gap)) as ->.
  { unfold burst_gap. rewrite (proj2 (Z.eqb_neq (i + 1) 0)) by lia. cbn [negb andb]. destruct (Z.rem (i + 1) burst =? 0); [done|]. by rewrite dadd_zero. }
  rewrite <- seq_shift, <- list_fmap_compose. erewrite list_fmap_ext; [done|]. intros j y _. simpl. f_equal. lia.
Qed.

(** ** The schedule *)
(** What is used of [std::log]. *)
Definition log_ok (log : double -> double) : Prop := forall u k, 0 <= k < 2 ^ 53 -> fin u ((k + 1) * 2 ^ 1021) ->
  exists x, gap_is (dneg (log u)) x /\ 0 <= x <= 2 ^ 1080.

Lemma poisson_gaps_ok log n gap g alpha : log_ok log -> fin gap g -> 0 <= alpha <= 64 -> 64 * g <= 2 ^ (1074 + alpha) -> forall s, fits 64 s ->
  length (poisson_gaps log n s gap) = n /\ Forall (fun y => exists x, gap_is y x /\ 0 <= x <= 2 ^ (1074 + alpha)) (poisson_gaps log n s gap).
Proof.
  intros Hlog Hg Hal Hlt. assert (0 <= g) as Hg0 by apply Hg. pose proof (pow_pos 1074 ltac:(lia)) as HU. induction n as [|n IH]; intros s Hs; cbn [poisson_gaps]; [by split|].
  destruct (unit_range s Hs) as (k & Hk & Hu). assert (fits 64 (unit s).2) as Hs'.
  { unfold unit, Payload.next. cbn [snd]. repeat (apply lxor_fits || apply shiftr_fits || apply wrap_fits || done || lia). }
  destruct (unit s) as [u s']. cbn [fst snd] in *. destruct (IH s' Hs') as [IH1 IH2]. split; [simpl; by rewrite IH1|]. constructor; [|done].
  destruct (Hlog u k Hk Hu) as (x & Hx & Hxb). replace (2 ^ 1080) with (64 * 2 ^ 1074) in Hxb by (change 64 with (2 ^ 6); by rewrite <- pow_add by lia).
  assert (rnd (x * g) (2 ^ 1074) <= 2 ^ (1074 + alpha)) as Hle by (apply rnd_le_pow; nia).
  exists (rnd (x * g) (2 ^ 1074)). split; [|split; [apply rnd_nonneg; nia|done]]. apply gap_mul; [done..|]. eapply Z.le_lt_trans; [exact Hle|]. apply Z.pow_lt_mono_r; lia.
Qed.

(** Exact times: integral gaps whose sum has at most 53 digits. *)
Fixpoint arrivals (t : Z) (gs : list Z) : list Z := match gs with [] => [] | g :: gs => t :: arrivals (t + g) gs end.

Lemma run_exact c b beta : fin c b -> b <= 2 ^ (1074 + beta) -> 0 <= beta -> forall gs xs t v,
  Forall2 (fun g x => fin g (x * 2 ^ 1074) /\ 0 <= x) gs xs -> fin t (v * 2 ^ 1074) -> 0 <= v -> v + foldr Z.add 0 xs <= 2 ^ 53 -> 2 ^ 53 * 2 ^ beta < 2 ^ 64 ->
  run gs t c = Some ((fun v => rnd (v * b) 1 / 2 ^ 1074) <$> arrivals v xs).
Proof.
  intros Hc Hb Hbe gs xs t v Hgs. revert t v. induction Hgs as [|g x gs xs [Hg Hx] Hgs IH]; intros t v Ht Hv Hsum Hlim; cbn [run arrivals fmap list_fmap foldr] in *; [done|].
  assert (0 <= foldr Z.add 0 xs) as Hs0. { clear -Hgs. induction Hgs as [|? ? ? ? [_ ?] ? IH]; simpl; lia. }
  pose proof (pow_pos 1074 ltac:(lia)) as HU. pose proof Hc as [_ [Hb0 _]].
  destruct (offset_ok c b 0 beta Hc Hb ltac:(lia) Hbe t (v * 2 ^ 1074) v) as [-> _].
  { split; [done|]. rewrite Z.add_0_r. lia. }
  { rewrite Z.add_0_l. pose proof (pow_pos beta Hbe). nia. }
  cbn [mbind option_bind]. rewrite (IH (dadd t g) (v + x)).
  - cbn [mbind option_bind]. do 2 f_equal. unfold cycles_at. f_equal.
    replace (v * 2 ^ 1074 * b) with (v * b * 2 ^ 1074) by ring. rewrite <- (Z.mul_1_l (2 ^ 1074)) at 2. apply rnd_scale; nia.
  - pose proof (dadd_denotes _ _ _ _ Ht Hg) as Hd. rewrite <- Z.mul_add_distr_r, (representable_dyadic (v + x) 1074) in Hd by lia.
    apply (denotes_fin _ _ 1127); [done| |lia]. split; [nia|]. replace 1127 with (53 + 1074) by lia. rewrite (pow_add 53) by lia. nia.
  - lia.
  - lia.
  - done.
Qed.

Lemma arrivals_uniform n g : forall t, arrivals t (replicate n g) = (fun i => t + Z.of_nat i * g) <$> List.seq 0 n.
Proof.
  induction n as [|n IH]; intros t; cbn [replicate arrivals List.seq fmap list_fmap]; [done|]. rewrite IH, Z.mul_0_l, Z.add_0_r. f_equal.
  rewrite <- seq_shift, <- list_fmap_compose. apply list_fmap_ext. intros i x _. simpl. lia.
Qed.

Lemma sum_replicate n g : foldr Z.add 0 (replicate n g) = Z.of_nat n * g.
Proof. induction n as [|n IH]; cbn [replicate foldr]; [done|]. rewrite IH. lia. Qed.

Definition burst_step (burst g i : Z) : Z := if Z.rem i burst =? 0 then g else 0.

Lemma burst_step_div burst g i : 0 < burst -> 0 <= i -> i / burst * g + burst_step burst g (i + 1) = (i + 1) / burst * g.
Proof.
  intros Hb Hi. unfold burst_step. rewrite Z.rem_mod_nonneg by lia. pose proof (Z.div_mod i burst ltac:(lia)). pose proof (Z.mod_pos_bound i burst Hb).
  destruct (Z.eqb_spec ((i + 1) mod burst) 0) as [E|E].
  - assert ((i + 1) / burst = i / burst + 1) as ->; [|lia]. pose proof (Z.div_mod (i + 1) burst ltac:(lia)). nia.
  - assert ((i + 1) / burst = i / burst) as ->; [|lia]. pose proof (Z.div_mod (i + 1) burst ltac:(lia)). pose proof (Z.mod_pos_bound (i + 1) burst Hb). nia.
Qed.

Lemma arrivals_bursts burst g n : 0 < burst -> forall i, 0 <= i ->
  arrivals (i / burst * g) ((fun j => burst_step burst g (i + 1 + Z.of_nat j)) <$> List.seq 0 n) = (fun j => (i + Z.of_nat j) / burst * g) <$> List.seq 0 n /\
  i / burst * g + foldr Z.add 0 ((fun j => burst_step burst g (i + 1 + Z.of_nat j)) <$> List.seq 0 n) = (i + Z.of_nat n) / burst * g.
Proof.
  intros Hb. induction n as [|n IH]; intros i Hi; cbn [List.seq fmap list_fmap arrivals foldr]; [by rewrite Z.add_0_r, Z.add_0_r|].
  change (Z.of_nat 0) with 0. rewrite !Z.add_0_r, burst_step_div by done. destruct (IH (i + 1) ltac:(lia)) as [IH1 IH2].
  assert ((fun j => burst_step burst g (i + 1 + Z.of_nat j)) <$> List.seq 1 n = (fun j => burst_step burst g (i + 1 + 1 + Z.of_nat j)) <$> List.seq 0 n) as ->.
  { rewrite <- seq_shift, <- list_fmap_compose. apply list_fmap_ext. intros j x _. simpl. f_equal. lia. }
  split.
  - rewrite IH1. f_equal. rewrite <- seq_shift, <- list_fmap_compose. apply list_fmap_ext. intros j x _. simpl. f_equal. f_equal. lia.
  - rewrite Z.add_assoc, burst_step_div, IH2 by done. f_equal. f_equal. lia.
Qed.

(** The mean gap of a rate. *)
Definition mean_gap (r : Z) : Z := rnd (1000000000 * 2 ^ 1074 * 2 ^ 1074) r.

Section of_rate.
  (** A mean gap of at most [2 ^ gamma] ns, bursts of at most [2 ^ delta] messages, at most
      [2 ^ beta] cycles per ns. *)
  Context (log : double -> double) (Hlog : log_ok log) (n : nat) (rate c : double) (r b burst gamma delta beta : Z).
  Context (Hr : fin rate r) (Hr0 : 0 < r) (Hc : fin c b) (Hb : b <= 2 ^ (1074 + beta)).
  Context (Hga : 0 <= gamma) (Hde : 6 <= delta) (Hbe : 0 <= beta) (Hburst : 0 < burst <= 2 ^ delta) (Hburst' : burst < 2 ^ 31).
  Context (Hgap : 1000000000 * 2 ^ 1074 <= 2 ^ gamma * r).
  Context (Hn : (Z.of_nat n + 1) * 2 ^ (gamma + delta + beta) <= 2 ^ 64) (Hn' : Z.of_nat n <= 2 ^ 53).

Lemma gamma_delta : gamma + delta + beta <= 64.
Proof.
  assert (2 ^ (gamma + delta + beta) <= 2 ^ 64) as H by (pose proof (pow_pos (gamma + delta + beta) ltac:(lia)); nia). apply Z.pow_le_mono_r_iff in H; lia.
Qed.

Lemma gap_fin : fin (ddiv (of_Z 1000000000) rate) (mean_gap r) /\ mean_gap r <= 2 ^ (1074 + gamma).
Proof.
  pose proof gamma_delta. pose proof (pow_pos 1074 ltac:(lia)) as HU. assert (mean_gap r <= 2 ^ (1074 + gamma)) as Hle.
  { apply rnd_le_pow; [lia|done|lia|]. rewrite pow_add by lia. nia. }
  split; [|done]. apply (denotes_fin _ _ (1074 + gamma)); [|split; [apply rnd_nonneg; lia|done]|lia]. apply ddiv_denotes; [apply of_Z_fin; lia|done|done].
Qed.

Lemma burst_gap_fin : fin (dmul (ddiv (of_Z 1000000000) rate) (of_Z burst)) (rnd (mean_gap r * burst) 1) /\ rnd (mean_gap r * burst) 1 <= 2 ^ (1074 + (gamma + delta)).
Proof.
  pose proof gamma_delta. destruct gap_fin as [Hg Hle]. pose proof Hg as [_ [Hg0 _]]. assert (rnd (mean_gap r * burst) 1 <= 2 ^ (1074 + (gamma + delta))) as Hle'.
  { apply rnd_le_pow; [nia|lia|lia|]. replace (1074 + (gamma + delta)) with (1074 + gamma + delta) by lia. rewrite (pow_add (1074 + gamma)) by lia.
    pose proof (pow_pos delta ltac:(lia)). nia. }
  split; [|done]. apply (denotes_fin _ _ (1074 + (gamma + delta))); [apply dmul_int; [done|lia]|split; [apply rnd_nonneg; nia|done]|lia].
Qed.

Lemma start_on_time : on_time (gamma + delta) zero 0 0.
Proof. split; [apply fin_zero|]. split; [lia|]. lia. Qed.

Lemma cycles_at_zero : cycles_at 0 b = 0.
Proof. unfold cycles_at. rewrite Z.mul_0_l, <- (Z.mul_0_l (2 ^ 1074)). rewrite <- (Z.mul_1_l (2 ^ 1074)) at 2. rewrite rnd_scale; [done|lia|lia|apply pow_pos; lia]. Qed.

Lemma schedule_gaps mode : exists gs, build_schedule log n rate mode burst c = run gs zero c /\ length gs = n /\
  Forall (fun g => exists x, gap_is g x /\ 0 <= x <= 2 ^ (1074 + (gamma + delta))) gs.
Proof.
  pose proof gamma_delta. destruct gap_fin as [Hg Hle]. destruct burst_gap_fin as [Hbg Hble]. pose proof Hg as [_ [Hg0 _]]. pose proof Hbg as [_ [Hbg0 _]].
  assert (mean_gap r * 64 <= 2 ^ (1074 + (gamma + delta))) as H64.
  { replace (1074 + (gamma + delta)) with (1074 + gamma + delta) by lia. rewrite (pow_add (1074 + gamma)) by lia.
    assert (2 ^ 6 <= 2 ^ delta) by (apply Z.pow_le_mono_r; lia). pose proof (pow_pos (1074 + gamma) ltac:(lia)). nia. }
  unfold build_schedule. destruct mode.
  - eexists. split; [apply uniform_run|]. split; [apply length_replicate|]. apply Forall_replicate. exists (mean_gap r). split; [by left|lia].
  - eexists. split; [apply poisson_run|]. apply (poisson_gaps_ok log n _ (mean_gap r)); [done|done|lia|lia|by vm_compute].
  - eexists. split; [apply (bursts_run n burst _ _ c Hbg); [eexists; apply fin_zero|lia]|]. split; [by rewrite length_fmap, length_seq|].
    apply Forall_fmap, Forall_forall. intros j _. unfold compose, burst_gap. destruct (_ =? 0).
    + eexists. split; [left; exact Hbg|lia].
    + exists 0. split; [left; apply fin_zero|]. split; [done|]. apply Z.lt_le_incl, pow_pos. lia.
Qed.

Lemma schedule_defined mode : exists l, build_schedule log n rate mode burst c = Some l /\ length l = n /\
  Forall (fun o => 0 <= o <= Z.of_nat n * 2 ^ (gamma + delta + beta)) l /\
  StronglySorted Z.le l /\ ((0 < n)%nat -> head l = Some 0).
Proof.
  destruct (schedule_gaps mode) as (gs & -> & Hlen & Hgs). pose proof gamma_delta. pose proof (pow_pos (gamma + delta + beta) ltac:(lia)).
  destruct (run_ok c b (gamma + delta) beta Hc Hb ltac:(lia) Hbe gs zero 0 0 start_on_time Hgs) as (l & -> & Hl & Hall & Hs & Hh); [nia|lia|].
  exists l. rewrite cycles_at_zero in *. split_and!; [done|lia| |done|].
  - eapply Forall_impl; [exact Hall|]. rewrite Hlen, Z.add_0_l. done.
  - intros Hpos. apply Hh. intros ->. simpl in Hlen. lia.
Qed.

(** A rate that divides [10 ^ 9] has an integral gap. *)
Lemma mean_gap_integral R G : r = R * 2 ^ 1074 -> R * G = 1000000000 -> 0 < G <= 2 ^ 53 -> mean_gap r = G * 2 ^ 1074.
Proof.
  intros -> HRG HG. pose proof (pow_pos 1074 ltac:(lia)). unfold mean_gap. rewrite <- HRG. transitivity (rnd (G * 2 ^ 1074) 1); [|apply representable_dyadic; lia].
  replace (R * G * 2 ^ 1074 * 2 ^ 1074) with (G * 2 ^ 1074 * (R * 2 ^ 1074)) by ring. rewrite <- (Z.mul_1_l (R * 2 ^ 1074)) at 2. apply rnd_scale; nia.
Qed.

Lemma uniform_exact R G : r = R * 2 ^ 1074 -> R * G = 1000000000 -> 0 < G -> Z.of_nat n * G <= 2 ^ 53 -> beta <= 10 -> (0 < n)%nat ->
  build_schedule log n rate UNIFORM burst c = Some ((fun i => rnd (Z.of_nat i * G * b) 1 / 2 ^ 1074) <$> List.seq 0 n).
Proof.
  intros HR HRG HG HnG Hbeta Hpos. destruct gap_fin as [Hg _]. rewrite (mean_gap_integral R G HR HRG) in Hg by nia. unfold build_schedule. rewrite uniform_run.
  rewrite (run_exact c b beta Hc Hb Hbe (replicate n _) (replicate n G) zero 0).
  - rewrite arrivals_uniform, <- list_fmap_compose. done.
  - apply Forall2_replicate. split; [done|lia].
  - apply fin_zero.
  - done.
  - rewrite sum_replicate. lia.
  - assert (2 ^ beta <= 2 ^ 10) by (apply Z.pow_le_mono_r; lia). nia.
Qed.

Lemma burst_exact R G : r = R * 2 ^ 1074 -> R * G = 1000000000 -> 0 < G -> (Z.of_nat n + burst) * G <= 2 ^ 53 -> beta <= 10 ->
  build_schedule log n rate BURST burst c = Some ((fun i => rnd (Z.of_nat i / burst * burst * G * b) 1 / 2 ^ 1074) <$> List.seq 0 n).
Proof.
  intros HR HRG HG HnG Hbeta. destruct gap_fin as [Hg _]. rewrite (mean_gap_integral R G HR HRG) in Hg by nia. destruct burst_gap_fin as [Hbg _].
  rewrite (mean_gap_integral R G HR HRG) in Hbg by nia. replace (G * 2 ^ 1074 * burst) with (G * burst * 2 ^ 1074) in Hbg by ring.
  rewrite (representable_dyadic (G * burst) 1074) in Hbg by nia. unfold build_schedule. rewrite (bursts_run n burst _ _ c Hbg) by ((eexists; apply fin_zero) || lia). cbn [Z.eqb negb andb].
  destruct (arrivals_bursts burst (G * burst) n ltac:(lia) 0 ltac:(lia)) as [Harr Hsum].
  rewrite (run_exact c b beta Hc Hb Hbe _ ((fun j => burst_step burst (G * burst) (0 + 1 + Z.of_nat j)) <$> List.seq 0 n) zero 0).
  - rewrite Z.div_0_l, Z.mul_0_l in Harr by lia. rewrite Harr, <- list_fmap_compose. f_equal. apply list_fmap_ext. intros i x _. unfold compose. rewrite Z.add_0_l. f_equal. f_equal. ring.
  - apply Forall2_fmap, Forall_Forall2_diag, Forall_forall. intros j _. unfold burst_gap, burst_step. destruct (_ =? 0); [split; [done|nia]|]. split; [apply fin_zero|lia].
  - apply fin_zero.
  - done.
  - rewrite Z.div_0_l, Z.mul_0_l in Hsum by lia. rewrite Hsum. pose proof (Z.mul_div_le (0 + Z.of_nat n) burst ltac:(lia)). nia.
  - assert (2 ^ beta <= 2 ^ 10) by (apply Z.pow_le_mono_r; lia). nia.
Qed.
End of_rate.

(** C36. The arrival schedule, computed in binary64.  The conditions: the rate is a finite
    positive number with a mean gap of at most [2 ^ gamma] nanoseconds, a burst has at most
    [2 ^ delta] messages, the clock makes at most [2 ^ beta] cycles per nanosecond, the
    product of these with the number of messages plus one is at most [2 ^ 64], and
    [- std::log] is between 0 and 64 on the numbers it is given ([log_ok]).  Then for every
    mode [build_schedule] is defined (no conversion out of range), has one offset per
    message, starts at zero and never goes back; and for a rate that divides [10 ^ 9],
    arrivals up to [2 ^ 53] nanoseconds and at most 1024 cycles per nanosecond no rounding
    error accumulates: the [i]-th uniform arrival is [i] times the gap exactly, and in bursts
    all [burst] messages of a group are due at the same time, at the rate's average.  The
    program does not check the conditions: it accepts a rate that is not a number, for which
    the schedule is undefined ([schedule_nan]). *)
Theorem schedule_arrivals (log : double -> double) (n : nat) (rate c : double) (r b burst gamma delta beta : Z) (mode : Mode)
    (Hlog : log_ok log) (Hr : fin rate r) (Hr0 : 0 < r) (Hc : fin c b) (Hb : b <= 2 ^ (1074 + beta))
    (Hga : 0 <= gamma) (Hde : 6 <= delta) (Hbe : 0 <= beta) (Hburst : 0 < burst <= 2 ^ delta) (Hburst' : burst < 2 ^ 31)
    (Hgap : 1000000000 * 2 ^ 1074 <= 2 ^ gamma * r) (Hn : (Z.of_nat n + 1) * 2 ^ (gamma + delta + beta) <= 2 ^ 64) (Hn' : Z.of_nat n <= 2 ^ 53) :
  exists l, build_schedule log n rate mode burst c = Some l /\ length l = n /\ Forall (fits 64) l /\ StronglySorted Z.le l /\
    ((0 < n)%nat -> head l = Some 0) /\
    forall R G, r = R * 2 ^ 1074 -> R * G = 1000000000 -> 0 < G -> (Z.of_nat n + burst) * G <= 2 ^ 53 -> beta <= 10 -> (0 < n)%nat ->
      match mode with
      | UNIFORM => l = (fun i => rnd (Z.of_nat i * G * b) 1 / 2 ^ 1074) <$> List.seq 0 n
      | BURST => l = (fun i => rnd (Z.of_nat i / burst * burst * G * b) 1 / 2 ^ 1074) <$> List.seq 0 n
      | POISSON => True
      end.
Proof.
  destruct (schedule_defined log Hlog n rate c r b burst gamma delta beta Hr Hr0 Hc Hb Hga Hde Hbe Hburst Hburst' Hgap Hn Hn' mode) as (l & El & Hlen & Hf & Hs & Hh).
  exists l. split_and!; [done|done| |done|done|].
  { eapply Forall_impl; [exact Hf|]. intros o Ho. pose proof (pow_pos (gamma + delta + beta) ltac:(lia)). unfold fits. simpl in Ho. nia. }
  intros R G HR HRG HG HnG Hbeta Hpos. destruct mode; [|done|].
  - rewrite (uniform_exact log n rate c r b burst gamma delta beta Hr Hr0 Hc Hb Hga Hde Hbe Hgap Hn R G HR HRG HG ltac:(nia) Hbeta Hpos) in El. by injection El.
  - rewrite (burst_exact log n rate c r b burst gamma delta beta Hr Hr0 Hc Hb Hga Hde Hbe Hburst Hburst' Hgap Hn Hn' R G HR HRG HG HnG Hbeta) in El. by injection El.
Qed.

(** Minus the number of leading zeros: a logarithm to base two, rounded to an integer. *)
Definition coarse_log (u : double) : double :=
  match u with S754_finite _ m e => dneg (of_Z (Z.max 0 (- (bits (Zpos m) + e)))) | _ => zero end.

Lemma coarse_log_ok : log_ok coarse_log.
Proof.
  intros u k Hk Hu. destruct (fin_cases _ _ Hu) as [[-> E]|(m & e & -> & Hb & E)]; [lia|]. destruct (bounded_spec _ _ Hb) as (He & _).
  assert (1021 < bits (Zpos m * 2 ^ (e + 1074))) as Hbits by (apply bits_gt; lia). rewrite bits_mul_pow in Hbits by lia.
  set (z := Z.max 0 (- (bits (Zpos m) + e))). assert (0 <= z <= 53) as Hz by lia. exists (z * 2 ^ 1074). split; [|lia]. left.
  unfold coarse_log. fold z. replace (dneg (dneg (of_Z z))) with (of_Z z); [apply of_Z_fin; lia|]. by destruct (of_Z z) as [[]|[]| |[] ? ?].
Qed.

(** A million messages per second in groups of 64, at three cycles per nanosecond. *)
Lemma schedule_arrivals_witness :
  build_schedule coarse_log 200 (of_Z 1000000) BURST 64 (of_Z 3) = Some ((fun i => Z.of_nat i / 64 * 192000) <$> List.seq 0 200) /\
  exists l, build_schedule coarse_log 200 (of_Z 1000000) POISSON 64 (of_Z 3) = Some l /\ StronglySorted Z.le l /\ head l = Some 0.
Proof.
  assert (forall mode, exists l, build_schedule coarse_log 200 (of_Z 1000000) mode 64 (of_Z 3) = Some l /\ StronglySorted Z.le l /\ head l = Some 0 /\
    match mode with BURST => l = (fun i => Z.of_nat i / 64 * 192000) <$> List.seq 0 200 | _ => True end) as H.
  { intros mode. destruct (schedule_arrivals coarse_log 200 (of_Z 1000000) (of_Z 3) (1000000 * 2 ^ 1074) (3 * 2 ^ 1074) 64 10 6 2 mode) as (l & E & _ & _ & Hs & Hh & Hex);
      [exact coarse_log_ok|apply of_Z_fin; lia|lia|apply of_Z_fin; lia|lia|lia|lia|lia|lia|lia|lia|lia|lia|].
    exists l. split; [exact E|]. split; [exact Hs|]. split; [apply Hh; lia|]. specialize (Hex 1000000 1000 eq_refl eq_refl ltac:(lia) ltac:(lia) ltac:(lia) ltac:(lia)).
    destruct mode; [exact Logic.I|exact Logic.I|]. rewrite Hex. apply list_fmap_ext. intros j x Hx. apply lookup_seq in Hx as [-> Hx].
    replace (Z.of_nat (0 + j) / 64 * 64 * 1000 * (3 * 2 ^ 1074)) with (Z.of_nat (0 + j) / 64 * 192000 * 2 ^ 1074) by ring.
    pose proof (Z.div_pos (Z.of_nat (0 + j)) 64 ltac:(lia) ltac:(lia)). pose proof (Z.div_lt_upper_bound (Z.of_nat (0 + j)) 64 4 ltac:(lia) ltac:(lia)).
    rewrite (representable_dyadic (Z.of_nat (0 + j) / 64 * 192000) 1074) by lia. by rewrite Z.div_mul by lia. }
  split.
  - destruct (H BURST) as (l & E & _ & _ & ->). exact E.
  - destruct (H POISSON) as (l & E & Hs & Hh & _). exists l. exact (conj E (conj Hs Hh)).
Defined.

(** The conditions are needed: a rate that is not a number is not refused by
    [g_rate_hz <= 0], and the second message has no offset. *)
Lemma schedule_nan log : dle S754_nan zero = false /\ build_schedule log 2 S754_nan UNIFORM 64 (of_Z 3) = None.
Proof. by split; vm_compute. Qed.
End Schedule.
