(* ===== verification/Text.v ===== *)
(** * Formatted output

    The part of [printf] that the benchmarks use ([%s], [%d], [%u], [%zu], [%llu] and [%.kf]
    with a width, left justified or not), and [fwrite] of 64-bit words.  A format is read
    into pieces, and the pieces are rendered with the arguments; [None] is a format or an
    argument for which the behaviour is undefined.  A double is rendered from its exact
    value, rounded to even in the last digit. *)
From Stdlib Require Import ZArith SpecFloat.
From stdpp Require Import list numbers strings.
From S2P Require Import Prelude Bytes Double.
Open Scope Z_scope.
Open Scope cpp_scope.

Module Text.
Import Bytes Double.

(** ** Definitions *)
Inductive arg := UInt (v : Z) | Int (v : Z) | Str (s : bytes) | Dbl (x : double).
Inductive conv := CU | CD | CS | CF (precision : nat).
Inductive piece := Lit (s : bytes) | Dir (minus : bool) (width : nat) (c : conv).

(** The escape [\n] of a string literal. *)
Fixpoint unescape (l : bytes) : bytes :=
  match l with
  | 92 :: 110 :: l => 10 :: unescape l
  | c :: l => c :: unescape l
  | [] => []
  end.
Definition nl : bytes := [10].
Definition fmt (s : string) : bytes := unescape (lit s).
(** A string as it is stored, and what is printed of it: up to the first NUL. *)
Definition c_string (s : bytes) : bytes := s ++ [0].
Fixpoint c_str (s : bytes) : option bytes :=
  match s with [] => None | c :: s => if c =? 0 then Some [] else t ← c_str s; Some (c :: t) end.

(** *** Reading a format *)
Fixpoint number (acc : nat) (l : bytes) : nat * bytes :=
  match l with
  | c :: l' => if is_digit c then number (10 * acc + Z.to_nat (c - 48)) l' else (acc, l)
  | [] => (acc, [])
  end.

(** After the width and the precision. *)
Definition read_conv (precision : option nat) (l : bytes) : option (conv * bytes) :=
  match precision, l with
  | Some k, 102 :: l => Some (CF k, l)
  | None, 115 :: l => Some (CS, l)
  | None, 100 :: l => Some (CD, l)
  | None, 117 :: l => Some (CU, l)
  | None, 122 :: 117 :: l => Some (CU, l)
  | None, 108 :: 108 :: 117 :: l => Some (CU, l)
  | _, _ => None
  end.

Definition read_directive (l : bytes) : option (piece * bytes) :=
  let '(minus, l) := match l with 45 :: l => (true, l) | _ => (false, l) end in
  let '(width, l) := number 0 l in
  let '(precision, l) := match l with 46 :: l => let '(k, l) := number 0 l in (Some k, l) | _ => (None, l) end in
  '(c, l) ← read_conv precision l;
  Some (Dir minus width c, l).

Fixpoint read_format (fuel : nat) (l : bytes) : option (list piece) :=
  match fuel, l with
  | _, [] => Some []
  | O, _ => None
  | S fuel, c :: l =>
    if c =? 37 then '(d, l) ← read_directive l; ps ← read_format fuel l; Some (d :: ps)
    else ps ← read_format fuel l; Some (match ps with Lit s :: ps => Lit (c :: s) :: ps | _ => Lit [c] :: ps end)
  end.

(** *** Rendering *)
(** The last [k] decimal digits. *)
Fixpoint low_digits (k : nat) (v : Z) : bytes :=
  match k with O => [] | S k => low_digits k (v / 10) ++ [48 + v mod 10] end.

Definition natural (v : Z) : bytes := if v =? 0 then [48] else reverse (default [] (digits 400 v)).
Definition sign (s : bool) : bytes := if s then [45] else [].
(** [v] units of the [k]-th decimal place. *)
Definition decimal (k : nat) (v : Z) : bytes :=
  natural (v / 10 ^ Z.of_nat k) ++ (if decide (k = O) then [] else 46 :: low_digits k v).

Definition fixed (k : nat) (x : double) : bytes :=
  match x with
  | S754_nan => lit "nan"
  | S754_infinity s => sign s ++ lit "inf"
  | S754_zero s => sign s ++ decimal k 0
  | S754_finite s m e => sign s ++ decimal k (rne (Zpos m * 2 ^ (e + 1074) * 10 ^ Z.of_nat k) (2 ^ 1074))
  end.

Definition integer (v : Z) : bytes := sign (v <? 0) ++ natural (Z.abs v).

Definition convert (c : conv) (a : arg) : option bytes :=
  match c, a with
  | CU, UInt v => Some (natural v)
  | CD, Int v => Some (integer v)
  | CS, Str s => c_str s
  | CF k, Dbl x => Some (fixed k x)
  | _, _ => None
  end.

Definition pad (minus : bool) (width : nat) (s : bytes) : bytes :=
  if minus then s ++ replicate (width - length s) 32 else replicate (width - length s) 32 ++ s.

Fixpoint render (ps : list piece) (args : list arg) : option bytes :=
  match ps with
  | [] => Some []
  | Lit s :: ps => t ← render ps args; Some (s ++ t)
  | Dir minus width c :: ps =>
    match args with
    | [] => None
    | a :: args => s ← convert c a; t ← render ps args; Some (pad minus width s ++ t)
    end
  end.

Definition printf (format : bytes) (args : list arg) : option bytes :=
  ps ← read_format (S (length format)) format; render ps args.

(** Several calls, one after the other. *)
Fixpoint print_all (calls : list (bytes * list arg)) : option bytes :=
  match calls with
  | [] => Some []
  | (format, args) :: calls => s ← printf format args; t ← print_all calls; Some (s ++ t)
  end.

(** *** Binary output of 64-bit words, lowest byte first *)
Fixpoint word (n : nat) (v : Z) : bytes := match n with O => [] | S n => v mod 256 :: word n (v / 256) end.
Definition fwrite (vs : list Z) : bytes := vs ≫= word 8.

Fixpoint of_word (l : bytes) : Z := match l with [] => 0 | b :: l => b + 256 * of_word l end.
Fixpoint fread (n : nat) (l : bytes) : list Z :=
  match n with O => [] | S n => of_word (take 8 l) :: fread n (drop 8 l) end.

(** ** Reading back *)
Lemma word_length n v : length (word n v) = n.
Proof. revert v. induction n as [|n IH]; intros v; simpl; [done|]. by rewrite IH. Qed.

Lemma of_word_word n : forall v, 0 <= v < 256 ^ Z.of_nat n -> of_word (word n v) = v.
Proof.
  induction n as [|n IH]; intros v Hv; cbn [word of_word]; [simpl in Hv; lia|]. rewrite Nat2Z.inj_succ, Z.pow_succ_r in Hv by lia.
  rewrite IH; [pose proof (Z.div_mod v 256); lia|]. split; [apply Z.div_pos; lia|apply Z.div_lt_upper_bound; lia].
Qed.

(** What is dumped for offline plotting can be loaded again. *)
Lemma fread_fwrite vs : Forall (fits 64) vs -> length (fwrite vs) = (8 * length vs)%nat /\ fread (length vs) (fwrite vs) = vs.
Proof.
  unfold fwrite. induction 1 as [|v vs Hv _ [IH1 IH2]]; [done|]. cbn [length mbind list_bind fread]. rewrite length_app, word_length.
  split; [lia|]. rewrite take_app_length', drop_app_length' by (by rewrite word_length). rewrite IH2, of_word_word; [done|].
  change (256 ^ Z.of_nat 8) with (2 ^ 64). apply Hv.
Qed.

(** *** Decimals *)
Abbreviation digit := (fun c => is_digit c = true).

Lemma value_app a l1 l2 : value a (l1 ++ l2) = value (value a l1) l2.
Proof. unfold value. by rewrite foldl_app. Qed.

Lemma value_acc l : forall a, value a l = a * 10 ^ Z.of_nat (length l) + value 0 l.
Proof.
  induction l as [|c l IH]; intros a; [simpl; lia|]. change (value a (c :: l)) with (value (a * 10 + (c - 48)) l). change (value 0 (c :: l)) with (value (c - 48) l).
  rewrite (IH (a * 10 + (c - 48))), (IH (c - 48)). simpl length. rewrite Nat2Z.inj_succ, Z.pow_succ_r by lia. ring.
Qed.

Lemma natural_ok v : 0 <= v < 10 ^ 400 -> natural v ≠ [] /\ Forall digit (natural v) /\ value 0 (natural v) = v.
Proof.
  intros Hv. unfold natural. destruct (Z.eqb_spec v 0) as [->|Hne]; [split_and!; [done|by repeat constructor|done]|].
  destruct (digits_ok 400 v Hv) as (l & Hl & _ & Hd & Hval). pose proof (digits_nonempty _ _ _ Hl Hne ltac:(lia)) as Hnil. rewrite Hl. simpl.
  split_and!; [|by apply Forall_reverse|done]. intros E. apply Hnil. by rewrite <- (reverse_involutive l), E.
Qed.

Lemma low_digits_ok k : forall v, 0 <= v -> length (low_digits k v) = k /\ Forall digit (low_digits k v) /\ value 0 (low_digits k v) = v mod 10 ^ Z.of_nat k.
Proof.
  induction k as [|k IH]; intros v Hv; cbn [low_digits]; [split_and!; [done|constructor|by rewrite Z.mod_1_r]|].
  destruct (IH (v / 10) ltac:(apply Z.div_pos; lia)) as (Hl & Hd & Hval). pose proof (Z.mod_pos_bound v 10 ltac:(lia)). split_and!.
  - rewrite length_app, Hl. simpl. lia.
  - apply Forall_app. split; [done|]. constructor; [apply is_digit_range; lia|constructor].
  - rewrite value_app, Hval. simpl. rewrite Nat2Z.inj_succ, Z.pow_succ_r by lia. rewrite Z.rem_mul_r by (try apply Z.pow_pos_nonneg; lia). lia.
Qed.

(** For 64-bit numbers it is [std::to_string]. *)
Lemma digits_room n : forall m v l, digits n v = Some l -> (n <= m)%nat -> digits m v = Some l.
Proof.
  induction n as [|n IH]; intros [|m] v l H Hm; cbn [digits] in *; try done; try lia; destruct (0 <? v); try done.
  destruct (digits n (v / 10)) as [l'|] eqn:E; [|done]. by rewrite (IH m _ l' E ltac:(lia)).
Qed.

Lemma natural_to_string v : fits 64 v -> natural v = to_string v.
Proof.
  intros Hv. unfold natural, to_string. destruct (v =? 0); [done|]. unfold fits in Hv. destruct (digits_ok 20 v) as (l & Hl & _); [simpl; lia|].
  by rewrite Hl, (digits_room 20 400 v l Hl) by lia.
Qed.

(** The integer before the point and the one after it. *)
Definition read_fixed (l : bytes) : Z * Z :=
  let a := digit_prefix l in (value 0 a, value 0 (drop (S (length a)) l)).

Lemma decimal_read k v : 0 <= v < 10 ^ 400 -> read_fixed (decimal k v) = (v / 10 ^ Z.of_nat k, v mod 10 ^ Z.of_nat k).
Proof.
  intros Hv. pose proof (Z.pow_pos_nonneg 10 (Z.of_nat k) ltac:(lia) ltac:(lia)) as Hp. unfold read_fixed, decimal.
  assert (0 <= v / 10 ^ Z.of_nat k < 10 ^ 400) as Hq. { split; [apply Z.div_pos; lia|]. apply Z.div_lt_upper_bound; [done|]. nia. }
  destruct (natural_ok _ Hq) as (_ & Hd & Hval). destruct (low_digits_ok k v ltac:(lia)) as (_ & Hd' & Hval').
  rewrite digit_prefix_app by (done || by destruct (decide _)). rewrite Hval. f_equal. rewrite drop_app_ge by lia.
  replace (S (length (natural (v / 10 ^ Z.of_nat k))) - length (natural (v / 10 ^ Z.of_nat k)))%nat with 1%nat by lia.
  destruct (decide (k = O)) as [->|Hk]; [simpl; by rewrite Z.mod_1_r|]. simpl. by rewrite drop_0.
Qed.

(** A rendered double is its value to half a unit of the last place. *)
Lemma fixed_decimal k x r : fin x r -> Z.of_nat k <= 20 -> exists v, fixed k x = decimal k v /\ 0 <= v < 10 ^ 400 /\
  2 * Z.abs (v * 2 ^ 1074 - r * 10 ^ Z.of_nat k) <= 2 ^ 1074.
Proof.
  intros Hx Hk. set (v := rne (r * 10 ^ Z.of_nat k) (2 ^ 1074)). pose proof (pow_pos 1074 ltac:(lia)) as HU. pose proof (Z.pow_pos_nonneg 10 (Z.of_nat k) ltac:(lia) ltac:(lia)) as Hp.
  assert (0 <= r < TOP) as Hr by apply Hx. assert (10 ^ Z.of_nat k <= 10 ^ 20) as Hk20 by (apply Z.pow_le_mono_r; lia).
  assert (0 <= v <= 2 ^ 1024 * 10 ^ 20) as Hv.
  { apply rne_between; [done|]. unfold TOP in Hr. change 2098 with (1024 + 1074) in Hr. rewrite pow_add in Hr by lia. nia. }
  assert (2 ^ 1024 * 10 ^ 20 < 10 ^ 400) as Hbig by (apply Z.ltb_lt; vm_compute; done).
  exists v. split_and!; [|lia|lia|].
  - destruct (fin_cases _ _ Hx) as [[-> E]|(m & e & -> & _ & E)]; simpl; subst r; [by f_equal|done].
  - pose proof (rne_spec (r * 10 ^ Z.of_nat k) (2 ^ 1074) HU) as Hs. fold v in Hs. lia.
Qed.

Lemma fixed_read k x r : fin x r -> Z.of_nat k <= 20 -> exists v, read_fixed (fixed k x) = (v / 10 ^ Z.of_nat k, v mod 10 ^ Z.of_nat k) /\ 0 <= v /\
  2 * Z.abs (v * 2 ^ 1074 - r * 10 ^ Z.of_nat k) <= 2 ^ 1074.
Proof. intros Hx Hk. destruct (fixed_decimal k x r Hx Hk) as (v & -> & Hv & He). exists v. split; [by apply decimal_read|]. split; [lia|done]. Qed.

(** *** Calls that are defined *)
Definition suits (c : conv) (a : arg) : Prop :=
  match c, a with
  | CU, UInt _ | CD, Int _ | CF _, Dbl _ => True
  | CS, Str s => 0 ∈ s
  | _, _ => False
  end.
Fixpoint typed (ps : list piece) (args : list arg) : Prop :=
  match ps, args with
  | [], _ => True
  | Lit _ :: ps, _ => typed ps args
  | Dir _ _ c :: ps, a :: args => suits c a /\ typed ps args
  | _, _ => False
  end.
Definition call_ok (call : bytes * list arg) : Prop := exists ps, read_format (S (length call.1)) call.1 = Some ps /\ typed ps call.2.

Lemma c_str_app s l : 0 ∉ s -> c_str (s ++ 0 :: l) = Some s.
Proof. induction s as [|c s IH]; intros Hs; [done|]. apply not_elem_of_cons in Hs as [Hc Hs]. cbn [app c_str]. rewrite (proj2 (Z.eqb_neq c 0)) by done. by rewrite IH. Qed.

Lemma c_str_some s : 0 ∈ s -> is_Some (c_str s).
Proof.
  induction s as [|c s IH]; intros Hs; [by apply elem_of_nil in Hs|]. cbn [c_str]. destruct (Z.eqb_spec c 0); [by eexists|].
  apply elem_of_cons in Hs as [?|Hs]; [done|]. destruct (IH Hs) as [t ->]. by eexists.
Qed.

Lemma c_string_suits s : suits CS (Str (c_string s)).
Proof. unfold suits, c_string. apply elem_of_app. right. by apply list_elem_of_singleton. Qed.

Lemma render_typed ps : forall args, typed ps args -> is_Some (render ps args).
Proof.
  induction ps as [|[s|m w c] ps IH]; intros args Ht; cbn [render typed] in *; [by eexists|destruct (IH args Ht) as [t ->]; by eexists|].
  destruct args as [|a args]; [done|]. destruct Ht as [Ha Ht]. destruct (IH args Ht) as [t Et].
  assert (is_Some (convert c a)) as [s ->]. { destruct c, a; try done; try by eexists. by apply c_str_some. }
  cbn [mbind option_bind]. rewrite Et. by eexists.
Qed.

Lemma print_all_ok calls : Forall call_ok calls -> is_Some (print_all calls).
Proof.
  induction 1 as [|[f args] calls (ps & Hps & Ht) _ [t IH]]; [by eexists|]. cbn [print_all]. cbn [fst snd] in Hps, Ht. unfold printf. rewrite Hps. cbn [mbind option_bind].
  destruct (render_typed ps args Ht) as [s ->]. cbn [mbind option_bind]. rewrite IH. by eexists.
Qed.

Lemma print_all_app c1 : forall c2, print_all (c1 ++ c2) = (s ← print_all c1; t ← print_all c2; Some (s ++ t)).
Proof.
  induction c1 as [|[f args] c1 IH]; intros c2; cbn [app print_all]; [by destruct (print_all c2)|]. destruct (printf f args); [|done]. cbn [mbind option_bind].
  rewrite IH. destruct (print_all c1); [|done]. cbn [mbind option_bind]. destruct (print_all c2); [|done]. cbn [mbind option_bind]. by rewrite app_assoc.
Qed.

(** *** Separated fields *)
Fixpoint join (c : Z) (fs : list bytes) : bytes := match fs with [] => [] | [f] => f | f :: fs => f ++ c :: join c fs end.
Fixpoint split (c : Z) (l : bytes) : list bytes :=
  match l with
  | [] => [[]]
  | x :: l => if x =? c then [] :: split c l else match split c l with f :: fs => (x :: f) :: fs | [] => [[x]] end
  end.

Lemma split_free c f : c ∉ f -> split c f = [f].
Proof. induction f as [|x f IH]; intros Hf; [done|]. cbn [split]. apply not_elem_of_cons in Hf as [Hx Hf]. rewrite (proj2 (Z.eqb_neq x c)) by done. by rewrite IH. Qed.

Lemma split_app c f l : c ∉ f -> split c (f ++ c :: l) = f :: split c l.
Proof.
  induction f as [|x f IH]; intros Hf; cbn [app split]; [by rewrite Z.eqb_refl|]. apply not_elem_of_cons in Hf as [Hx Hf].
  rewrite (proj2 (Z.eqb_neq x c)) by done. by rewrite IH.
Qed.

Lemma split_join c fs : fs ≠ [] -> Forall (fun f => c ∉ f) fs -> split c (join c fs) = fs.
Proof.
  induction fs as [|f [|g fs] IH]; intros Hne Hall; [done|inv Hall; by apply split_free|]. apply Forall_cons in Hall as [Hf Hall].
  change (join c (f :: g :: fs)) with (f ++ c :: join c (g :: fs)). rewrite split_app by done. f_equal. by apply IH.
Qed.

Lemma join_free d c fs : d ≠ c -> Forall (fun f => d ∉ f) fs -> d ∉ join c fs.
Proof.
  induction fs as [|f [|g fs] IH]; intros Hd Hall; [by apply not_elem_of_nil|by inv Hall|]. apply Forall_cons in Hall as [Hf Hall].
  change (join c (f :: g :: fs)) with (f ++ c :: join c (g :: fs)). rewrite elem_of_app, elem_of_cons. specialize (IH Hd Hall). tauto.
Qed.

Lemma split_lines c ls : Forall (fun f => c ∉ f) ls -> split c (concat ((fun f => f ++ [c]) <$> ls)) = ls ++ [[]].
Proof.
  induction 1 as [|f ls Hf _ IH]; [done|]. cbn [fmap list_fmap concat app]. rewrite <- app_assoc. cbn [app]. rewrite split_app by done. by f_equal.
Qed.

(** Numbers are made of digits, a point, a minus and letters. *)
Definition plain (l : bytes) : Prop := Forall (fun c => c = 45 \/ c = 46 \/ 48 <= c <= 57 \/ 97 <= c <= 122) l.

Lemma digits_plain l : Forall digit l -> plain l.
Proof. intros Hl. eapply Forall_impl; [exact Hl|]. intros c Hc%is_digit_range. lia. Qed.

Lemma natural_plain v : plain (natural v).
Proof.
  unfold natural. destruct (v =? 0); [repeat constructor; lia|]. apply Forall_reverse. generalize 400%nat. intros n. revert v. induction n as [|n IH]; intros v; cbn [digits]; destruct (0 <? v); try constructor.
  specialize (IH (v / 10)). destruct (digits n (v / 10)) as [l|]; simpl in *; [|constructor]. constructor; [|done]. pose proof (Z.mod_pos_bound v 10). lia.
Qed.

Lemma low_digits_plain k : forall v, plain (low_digits k v).
Proof.
  induction k as [|k IH]; intros v; [constructor|]. apply Forall_app. split; [apply IH|]. constructor; [|constructor]. pose proof (Z.mod_pos_bound v 10). lia.
Qed.

Lemma sign_plain s : plain (sign s).
Proof. destruct s; repeat constructor. Qed.

Lemma decimal_plain k v : plain (decimal k v).
Proof.
  apply Forall_app. split; [apply natural_plain|]. destruct (decide _); [constructor|]. constructor; [lia|apply low_digits_plain].
Qed.

Lemma fixed_plain k x : plain (fixed k x).
Proof.
  destruct x as [s|s| |s m e]; cbn [fixed].
  - apply Forall_app. exact (conj (sign_plain s) (decimal_plain k 0)).
  - apply Forall_app. split; [apply sign_plain|]. apply (bool_decide_unpack _). vm_compute. exact Logic.I.
  - apply (bool_decide_unpack _). vm_compute. exact Logic.I.
  - apply Forall_app. split; [apply sign_plain|apply decimal_plain].
Qed.

Lemma integer_plain v : plain (integer v).
Proof. apply Forall_app. split; [apply sign_plain|apply natural_plain]. Qed.

(** *** Padding *)
Lemma pad_free c minus w l : c ∉ l -> c ≠ 32 -> c ∉ pad minus w l.
Proof. intros Hl Hc. unfold pad. destruct minus; rewrite elem_of_app, elem_of_replicate; tauto. Qed.

Lemma skip_spaces n l : skip_space (replicate n 32 ++ l) = skip_space l.
Proof. induction n as [|n IH]; [done|]. exact IH. Qed.

Lemma skip_digits c l : is_digit c = true -> skip_space (c :: l) = c :: l.
Proof. intros Hc. simpl. by destruct (digit_not_space c Hc) as (-> & _). Qed.

(** A padded number is read back, whatever follows it. *)
Lemma pad_number w v l : 0 <= v < 10 ^ 400 -> match l with [] => True | c :: _ => is_digit c = false end ->
  let s := skip_space (pad false w (natural v) ++ l) in value 0 (digit_prefix s) = v /\ drop (length (digit_prefix s)) s = l.
Proof.
  intros Hv Hl. destruct (natural_ok v Hv) as (Hne & Hd & Hval). unfold pad. rewrite <- app_assoc, skip_spaces.
  assert (skip_space (natural v ++ l) = natural v ++ l) as ->.
  { destruct (natural v) as [|c n]; [done|]. apply Forall_cons in Hd as [Hc _]. by apply skip_digits. }
  rewrite digit_prefix_app by done. split; [done|]. by rewrite drop_app_length.
Qed.

Lemma pad_fixed w k x r : fin x r -> Z.of_nat k <= 20 -> skip_space (pad false w (fixed k x)) = fixed k x.
Proof.
  intros Hx Hk. destruct (fixed_decimal k x r Hx Hk) as (v & -> & Hv & _). unfold pad. rewrite skip_spaces. unfold decimal.
  pose proof (Z.pow_pos_nonneg 10 (Z.of_nat k) ltac:(lia) ltac:(lia)) as Hp. assert (0 <= v / 10 ^ Z.of_nat k < 10 ^ 400) as Hq.
  { split; [apply Z.div_pos; lia|]. apply Z.div_lt_upper_bound; [done|]. nia. }
  destruct (natural_ok _ Hq) as (Hne & Hd & _). destruct (natural _) as [|c n]; [done|]. apply Forall_cons in Hd as [Hc _]. by apply skip_digits.
Qed.

Lemma plain_free c l : plain l -> c < 45 -> c ∉ l.
Proof. intros Hl Hc Hin. pose proof (proj1 (Forall_forall _ _) Hl c Hin) as H. simpl in H. lia. Qed.

(** *** Words *)
(** What is left from the next space on. *)
Fixpoint skip_word (l : bytes) : bytes := match l with c :: l' => if c =? 32 then l else skip_word l' | [] => [] end.

Lemma plain_start w l : plain w -> w ≠ [] -> skip_space (w ++ l) = w ++ l.
Proof.
  intros Hw Hne. destruct w as [|c w]; [done|]. apply Forall_cons in Hw as [Hc _]. cbn [app skip_space].
  assert (is_space c = false) as ->; [|done]. unfold is_space. rewrite (proj2 (Z.eqb_neq c 32)), (proj2 (Z.leb_gt c 13)), andb_false_r by lia. done.
Qed.

Lemma plain_word w l : plain w -> skip_word (w ++ 32 :: l) = 32 :: l.
Proof. induction 1 as [|c w Hc _ IH]; [done|]. cbn [app skip_word]. by rewrite (proj2 (Z.eqb_neq c 32)) by lia. Qed.

(** A number and what follows it. *)
Lemma number_read v l : 0 <= v < 10 ^ 400 -> match l with [] => True | c :: _ => is_digit c = false end ->
  let s := natural v ++ l in value 0 (digit_prefix s) = v /\ drop (length (digit_prefix s)) s = l.
Proof.
  intros Hv Hl. destruct (natural_ok v Hv) as (Hne & Hd & Hval). cbv zeta. rewrite digit_prefix_app by done. split; [done|]. by rewrite drop_app_length.
Qed.
End Text.
