(* ===== verification/Tuning.v ===== *)
(** * Thread tuning and the counting allocator

    [src/system/tuning.cpp] (the affinity mask and the real-time priority), the warnings
    with which the threads of the benchmarks begin when these are refused, and the
    [operator new] that counts while it is armed.  The two calls of the thread library and
    [malloc] are parameters. *)
From stdpp Require Import gmap list numbers strings.
From S2P Require Import Prelude Bytes Text.
Open Scope Z_scope.
Open Scope cpp_scope.

Module Tuning.
Import Bytes Text.

(** ** [cpu_set_t]: 1024 bits; a larger number is ignored *)
Definition CPU_SETSIZE : Z := 1024.
Definition CPU_ZERO : Z := 0.
Definition CPU_SET (cpu set : Z) : Z := if cpu <? CPU_SETSIZE then Z.setbit set cpu else set.
Definition SCHED_FIFO : Z := 1.

(** The thread library, for the calling thread: an error number and, for the first, the
    processors on which the thread may run from then on. *)
Class Pthread := {
  allowed : gset Z;
  setaffinity : Z -> Z;
  affinity : Z -> gset Z;
  setschedparam : Z -> Z -> Z;
}.
(** Linux: a mask without a usable processor is refused, any other restricts the thread to
    its usable processors; FIFO scheduling has the priorities 1 to 99. *)
Class PthreadLaws (P : Pthread) : Prop := {
  affinity_refused mask : (forall cpu, cpu ∈ allowed -> Z.testbit mask cpu = false) <-> setaffinity mask ≠ 0;
  affinity_granted mask cpu : setaffinity mask = 0 -> cpu ∈ affinity mask <-> cpu ∈ allowed /\ Z.testbit mask cpu = true;
  priority_range prio : setschedparam SCHED_FIFO prio = 0 -> 1 <= prio <= 99;
  allowed_range cpu : cpu ∈ allowed -> 0 <= cpu;
}.

Section tuning.
  Context {P : Pthread}.

Definition pin_this_thread_to_core (core_id : Z) : bool := setaffinity (CPU_SET core_id CPU_ZERO) =? 0.
Definition set_realtime_priority (prio : Z) : bool := setschedparam SCHED_FIFO prio =? 0.

(** The beginning of a thread: what goes to the standard error. *)
Definition tune_thread (who : string) (advice : bytes) (core prio errno : Z) : option bytes :=
  w1 ← (if pin_this_thread_to_core core then Some [] else printf (fmt "warn: failed to pin " ++ lit who ++ fmt " to core %u\n") [UInt core]);
  w2 ← (if set_realtime_priority prio then Some []
        else printf (fmt "warn: " ++ lit who ++ fmt " SCHED_FIFO@%d failed (errno=%d)" ++ advice ++ nl) [Int prio; Int errno]);
  Some (w1 ++ w2).

(** Pinning asks for one processor: it succeeds exactly if the processor is usable and has a
    bit in the mask, and then the thread runs there and nowhere else; a number beyond the
    mask is refused, not wrapped. *)
Theorem pin_exact {L : PthreadLaws P} (core : Z) : 0 <= core ->
  (pin_this_thread_to_core core = true <-> core < CPU_SETSIZE /\ core ∈ allowed) /\
  (pin_this_thread_to_core core = true -> affinity (CPU_SET core CPU_ZERO) = {[core]}).
Proof.
  intros Hc. unfold pin_this_thread_to_core.
  assert (forall cpu, 0 <= cpu -> Z.testbit (CPU_SET core CPU_ZERO) cpu = (core <? CPU_SETSIZE) && (core =? cpu)) as Hbit.
  { intros cpu Hcpu. unfold CPU_SET, CPU_ZERO. destruct (core <? CPU_SETSIZE); [|apply Z.bits_0]. rewrite Z.setbit_eqb by done. rewrite Z.bits_0. by rewrite orb_false_r. }
  assert (setaffinity (CPU_SET core CPU_ZERO) = 0 <-> core < CPU_SETSIZE /\ core ∈ allowed) as Hiff.
  { split.
    - intros H0. destruct (decide (core < CPU_SETSIZE /\ core ∈ allowed)) as [|Hn]; [done|]. exfalso.
      apply (affinity_refused (CPU_SET core CPU_ZERO)); [|done]. intros cpu Hin. rewrite Hbit by (by apply allowed_range in Hin).
      destruct (Z.ltb_spec core CPU_SETSIZE); [|done]. destruct (Z.eqb_spec core cpu) as [->|]; [|done]. exfalso. by apply Hn.
    - intros [Hlt Hin]. destruct (decide (setaffinity (CPU_SET core CPU_ZERO) = 0)) as [|Hne]; [done|]. pose proof (proj2 (affinity_refused _) Hne core Hin) as Hb.
      by rewrite Hbit, (proj2 (Z.ltb_lt _ _) Hlt), Z.eqb_refl in Hb by done. }
  split; [by rewrite Z.eqb_eq|]. intros H0%Z.eqb_eq. pose proof (proj1 Hiff H0) as [Hlt Hin]. apply set_eq. intros cpu.
  rewrite (affinity_granted _ cpu H0), elem_of_singleton. split.
  - intros [Ha Hb]. rewrite Hbit in Hb by (by apply allowed_range in Ha). apply andb_true_iff in Hb as [_ E%Z.eqb_eq]. done.
  - intros ->. split; [done|]. rewrite Hbit by done. by rewrite (proj2 (Z.ltb_lt _ _) Hlt), Z.eqb_refl.
Qed.
End tuning.

(** A machine with 20 processors. *)
Definition twenty : list Z := seqZ 0 20.
Definition usable (mask : Z) : list Z := filter (fun cpu => Z.testbit mask cpu = true) twenty.
#[local] Instance twenty_cores : Pthread := {
  allowed := list_to_set twenty;
  setaffinity mask := if decide (usable mask = []) then 22 else 0;
  affinity mask := list_to_set (usable mask);
  setschedparam policy prio := if (1 <=? prio) && (prio <=? 99) then 0 else 22;
}.
#[local] Instance twenty_cores_laws : PthreadLaws twenty_cores.
Proof.
  split; unfold allowed, setaffinity, affinity, setschedparam, twenty_cores.
  - intros mask. destruct (decide (usable mask = [])) as [E|E]; (split; [|try done]).
    + done.
    + intros _ cpu Hin%elem_of_list_to_set. apply not_true_iff_false. intros Hb. assert (cpu ∈ usable mask) as Hu by (by apply list_elem_of_filter). by rewrite E in Hu; apply elem_of_nil in Hu.
    + intros H. exfalso. apply E. destruct (usable mask) as [|cpu l] eqn:El; [done|]. assert (cpu ∈ usable mask) as [Hb Hin]%list_elem_of_filter by (rewrite El; apply elem_of_cons; by left).
      rewrite H in Hb; [done|]. by apply elem_of_list_to_set.
  - intros mask cpu _. rewrite !elem_of_list_to_set. unfold usable. rewrite list_elem_of_filter. tauto.
  - intros prio. destruct ((1 <=? prio) && (prio <=? 99)) eqn:E; [|done]. lia.
  - intros cpu Hin%elem_of_list_to_set%elem_of_seqZ. lia.
Qed.

Lemma pin_demo : affinity (CPU_SET 16 CPU_ZERO) = {[16]} /\ pin_this_thread_to_core 1040 = false /\
  tune_thread "producer" [] 21 50 1 = Some (fmt "warn: failed to pin producer to core 21\n").
Proof. split; [by apply (pin_exact 16)|]. by split; vm_compute. Qed.

(** ** [operator new] *)
Record counter := mkCounter { g_alloc_armed : bool; g_alloc_count : Z }.
Definition counter0 : counter := mkCounter false 0.
Definition arm (b : bool) (c : counter) : counter := mkCounter b (g_alloc_count c).

(** [p] is what [malloc] returned; [None] is [abort]. *)
Definition operator_new (p : Z) (c : counter) : option (Z * counter) :=
  let c := if g_alloc_armed c then mkCounter true (g_alloc_count c +64 1) else c in
  if p =? 0 then None else Some (p, c).

Fixpoint news (ps : list Z) (c : counter) : option counter :=
  match ps with [] => Some c | p :: ps => '(_, c) ← operator_new p c; news ps c end.

(** The snapshot that is printed: the calls before the flag is set, and those that read it
    as set. *)
Definition count_allocs (before during : list Z) : option Z :=
  c ← news before counter0; c ← news during (arm true c); Some (g_alloc_count (arm false c)).

Lemma news_ok ps : Forall (fun p => p ≠ 0) ps -> forall b n, fits 64 n -> fits 64 (n + Z.of_nat (length ps)) ->
  news ps (mkCounter b n) = Some (mkCounter b (if b then n + Z.of_nat (length ps) else n)).
Proof.
  induction 1 as [|p ps Hp _ IH]; intros b n Hn Hl; [simpl; by destruct b; rewrite ?Z.add_0_r|]. cbn [news operator_new length] in *.
  unfold operator_new. rewrite (proj2 (Z.eqb_neq p 0)) by done. cbn [mbind option_bind g_alloc_armed g_alloc_count].
  destruct b; cbn [mbind option_bind]; [|apply IH; unfold fits in *; lia]. rewrite wrap_small by (unfold fits in *; lia).
  rewrite IH by (unfold fits in *; lia). do 2 f_equal. lia.
Qed.

(** The count is the number of calls while armed: zero means that none was made. *)
Theorem alloc_count_exact (before during : list Z) : Forall (fun p => p ≠ 0) before -> Forall (fun p => p ≠ 0) during ->
  Z.of_nat (length during) < 2 ^ 64 -> Z.of_nat (length before) < 2 ^ 64 ->
  count_allocs before during = Some (Z.of_nat (length during)) /\ (Z.of_nat (length during) = 0 <-> during = []).
Proof.
  intros Hb Hd Hld Hlb. unfold count_allocs, counter0. rewrite (news_ok before Hb false 0) by (unfold fits; lia). cbn [mbind option_bind].
  unfold arm. cbn [g_alloc_count]. rewrite (news_ok during Hd true 0) by (unfold fits; lia). split; [done|]. destruct during; simpl; split; (done || lia).
Qed.
End Tuning.
