(* ===== verification/Mains.v ===== *)
(** * The hot-path benchmarks from [main] to their output

    [main] of [bench/bench_hotpath.cpp], [bench_hotpath_pipe.cpp] and
    [bench_hotpath_multi.cpp]: what is built before the threads start, the threads under a
    schedule, and the bytes that are printed and written to files after they are joined.
    The formats are those of the sources. *)
From Stdlib Require Import ZArith SpecFloat.
From stdpp Require Import gmap list numbers strings sorting.
From S2P Require Import Prelude Feed Strategy Bytes Spsc Parser Payload HotPath Pipeline Benches Double Clock Stats Text Tuning.
Open Scope Z_scope.
Open Scope cpp_scope.

Module Mains.
Import Feed Bytes HotPath Pipeline Benches Double Clock Stats Text Tuning.

(** ** Constants *)
Definition HOT_WARMUP : nat := Z.to_nat 5000.
Definition HOT_MEASURE : nat := Z.to_nat 100000.
Definition N_WARMUP : nat := Z.to_nat 10000.
Definition N_MEASURE : nat := Z.to_nat 1000000.
Definition N_TOTAL : nat := N_WARMUP + N_MEASURE.
Definition QUEUE_CAP : Z := 2 ^ QUEUE_LOG.
Definition MAP_CAP : Z := 1024.
Definition POOL_CAP : Z := Z.of_nat N_TICKERS.
Definition CORE_PRODUCER : Z := 16.
Definition CORE_CONSUMER : Z := 18.
Definition RT_PRIORITY : Z := 50.
Lemma hot_warmup_eq : Z.of_nat HOT_WARMUP = 5000. Proof. apply Z2Nat.id. lia. Qed.
Lemma hot_measure_eq : Z.of_nat HOT_MEASURE = 100000. Proof. apply Z2Nat.id. lia. Qed.
Lemma warmup_eq : Z.of_nat N_WARMUP = 10000. Proof. apply Z2Nat.id. lia. Qed.
Lemma measure_eq : Z.of_nat N_MEASURE = 1000000. Proof. apply Z2Nat.id. lia. Qed.
#[global] Opaque HOT_WARMUP HOT_MEASURE N_WARMUP N_MEASURE.

(** ** What is printed *)
Section printing.
  Context (clock : CycleClock).
  Abbreviation call := (bytes * list arg)%type.

Definition table (r : Report) : list call := [
  (fmt "\n            cycles        ns\n", []);
  (fmt "   min:   %8llu   %8.1f\n", [UInt (c_min r); Dbl (to_ns clock (c_min r))]);
  (fmt "   p50:   %8llu   %8.1f\n", [UInt (c_p50 r); Dbl (to_ns clock (c_p50 r))]);
  (fmt "   p90:   %8llu   %8.1f\n", [UInt (c_p90 r); Dbl (to_ns clock (c_p90 r))]);
  (fmt "   p99:   %8llu   %8.1f\n", [UInt (c_p99 r); Dbl (to_ns clock (c_p99 r))]);
  (fmt "  p999:   %8llu   %8.1f\n", [UInt (c_p999 r); Dbl (to_ns clock (c_p999 r))]);
  (fmt "   max:   %8llu   %8.1f\n", [UInt (c_max r); Dbl (to_ns clock (c_max r))])].

Definition row_call (row : Row) : call :=
  (fmt "  %7llu..%-7llu   %7.0f..%-7.0f   %7llu   %s\n",
   [UInt (lo row); UInt (hi row); Dbl (to_ns clock (lo row)); Dbl (to_ns clock (hi row)); UInt (count row); Str (bar_buf row)]).
Definition histogram_calls (rows : list Row) : list call :=
  [(fmt "\nlatency histogram (log2 cycle buckets):\n", []); (fmt "  cycles               ns                 count   bar\n", [])] ++ (row_call <$> rows).

Definition verdict (b : bool) : arg := Str (c_string (if b then lit "PASS" else lit "FAIL")).

(** The vector is sorted in place: the histogram is made of the sorted samples. *)
Definition hot_print (allocs : Z) (cycles : list Z) : option bytes :=
  r ← report cycles;
  rows ← print_histogram (sort cycles);
  print_all ([
    (fmt "\n=== bench_hotpath (multi-payload, zero-alloc-enforced) ===\n", []);
    (fmt "N        = %d iterations\n", [Int (Z.of_nat HOT_MEASURE)]);
    (fmt "payloads = %d distinct deltas (xorshift64, seed=0xDEADBEEFCAFEBABE)\n", [Int (Z.of_nat Payload.N_PAYLOADS)])] ++
    table r ++ [
    (fmt "\nzero-alloc check: %llu allocations during measurement -- %s\n", [UInt allocs; verdict (allocs =? 0)]);
    (fmt "p50 < 3000 ns claim: %s\n", [verdict (dlt (to_ns clock (c_p50 r)) (of_Z 3000))])] ++
    histogram_calls rows).

Definition throughput_calls (allocs : Z) (window : double * double) : list call := [
  (fmt "\nsustained throughput: %.2f M msgs/sec  (over %.3f sec)\n", [Dbl (ddiv window.2 (of_Z 1000000)); Dbl window.1]);
  (fmt "zero-alloc check: %llu allocations during measurement -- %s\n", [UInt allocs; verdict (allocs =? 0)])].

Definition pipe_print (allocs : Z) (latencies : list Z) (start_tsc end_tsc : Z) : option bytes :=
  r ← report latencies;
  rows ← print_histogram (sort latencies);
  print_all ([
    (fmt "\n=== bench_hotpath_pipe (2-thread SPSC pipeline) ===\n", []);
    (fmt "producer core = %u, consumer core = %u\n", [UInt CORE_PRODUCER; UInt CORE_CONSUMER]);
    (fmt "N        = %d measured msgs (after %d warmup)\n", [Int (Z.of_nat N_MEASURE); Int (Z.of_nat N_WARMUP)]);
    (fmt "queue    = SPSC, capacity %zu, %zu-byte messages\n", [UInt QUEUE_CAP; UInt 72])] ++
    table r ++ throughput_calls allocs (throughput clock start_tsc end_tsc (Z.of_nat N_MEASURE)) ++ histogram_calls rows).

Definition multi_print (allocs : Z) (latencies : list Z) (start_tsc end_tsc : Z) : option bytes :=
  r ← report latencies;
  rows ← print_histogram (sort latencies);
  print_all ([
    (fmt "\n=== bench_hotpath_multi (2-thread SPSC pipeline, %d tickers) ===\n", [Int (Z.of_nat N_TICKERS)]);
    (fmt "producer core = %u, consumer core = %u\n", [UInt CORE_PRODUCER; UInt CORE_CONSUMER]);
    (fmt "dispatch     = FlatHashMap<TickerKey,MarketState*,%zu>, %d distinct tickers\n", [UInt MAP_CAP; Int (Z.of_nat N_TICKERS)]);
    (fmt "market pool  = Pool<MarketState,%zu>\n", [UInt POOL_CAP]);
    (fmt "N            = %d measured msgs (after %d warmup)\n", [Int (Z.of_nat N_MEASURE); Int (Z.of_nat N_WARMUP)])] ++
    table r ++ throughput_calls allocs (throughput clock start_tsc end_tsc (Z.of_nat N_MEASURE)) ++ histogram_calls rows).
End printing.

(** ** The programs *)
(** What comes from the system: the outcome of [mlockall], the error numbers, whether the
    files can be opened, and what [malloc] returns to [operator new]. *)
Record Env := mkEnv {
  e_mlockall : Z;
  e_errno : Z;
  e_fopen_cycles : bool;
  e_fopen_meta : bool;
  e_before : list Z;
  e_during : list Z;
}.

Record Output := mkOutput {
  out_stdout : bytes;
  out_stderr : bytes;
  out_cycles : option bytes;
  out_meta : option bytes;
}.
(** The threads have not been joined yet; or all output. *)
Inductive status := Running | Ended (o : Output).

Definition advice : bytes := lit " — run with sudo for tighter tail".
Definition warn_mlockall (env : Env) : option bytes :=
  if e_mlockall env =? 0 then Some []
  else printf (fmt "warn: mlockall failed (errno=%d) — run with sudo to lock pages and avoid page-fault outliers\n") [Int (e_errno env)].

Definition meta (clock : CycleClock) (n : nat) : list (bytes * list arg) := [
  (fmt "ns_per_cycle %.12f\n", [Dbl (to_ns clock 1)]);
  (fmt "n_samples %zu\n", [UInt (Z.of_nat n)]);
  (fmt "producer_core %u\n", [UInt CORE_PRODUCER]);
  (fmt "consumer_core %u\n", [UInt CORE_CONSUMER])].

Section mains.
  Context {JS : Parser.DeltaJson} {P : Pthread} (lhs_first : bool) (msg0 : HotMsg) (env : Env) (clock : CycleClock).

Definition hotpath_main (junk junk' : nat -> OrderbookDelta) (now : nat -> Z * Z) : option bytes :=
  pool ← Payload.build_payload_pool lhs_first;
  '(_, _, cycles) ← hot_main pool junk junk' now HOT_WARMUP HOT_MEASURE;
  allocs ← count_allocs (e_before env) (e_during env);
  hot_print clock allocs cycles.

(** The warnings of the main thread, the producer and the consumer. *)
Definition warnings : option bytes :=
  w ← warn_mlockall env;
  p ← tune_thread "producer" advice CORE_PRODUCER RT_PRIORITY (e_errno env);
  c ← tune_thread "consumer" advice CORE_CONSUMER RT_PRIORITY (e_errno env);
  Some (w ++ p ++ c).

(** After the threads are joined. *)
Definition conclude {St Clk} (print : Z -> list Z -> Z -> Z -> option bytes) (extra : list (bytes * list arg)) (st : @pipe St Clk) : option Output :=
  let lats := g_latencies (cons st) in
  allocs ← count_allocs (e_before env) (e_during env);
  m ← print_all (meta clock (length lats) ++ extra);
  text ← print allocs lats (g_throughput_start_tsc (cons st)) (g_throughput_end_tsc (cons st));
  w ← warnings;
  Some (mkOutput text w (if e_fopen_cycles env then Some (fwrite lats) else None) (if e_fopen_meta env then Some m else None)).

Definition pipe_main (ls : list label) : option status :=
  g_pool ← Payload.build_payload_pool lhs_first;
  st ← run_pipe g_pool N_WARMUP N_TOTAL msg0 ls;
  if decide (main_pc st = MDone) then Ended <$> conclude (pipe_print clock) [] st else Some Running.

Definition multi_main (base : Z) (ls : list label) : option status :=
  tables ← make_tables base;
  g_pool ← Payload.build_payload_pool_multi lhs_first;
  tables ← register_markets tables;
  st ← run_multi g_pool N_WARMUP N_TOTAL msg0 tables ls;
  if decide (main_pc st = MDone)
  then Ended <$> conclude (multi_print clock) [(fmt "n_tickers %d\n", [Int (Z.of_nat N_TICKERS)])] st
  else Some Running.
End mains.

(** *** What there is to measure *)
(** The differences between the times at which the run under [ls] finishes and makes ready
    the messages after the warm-up. *)
Section measured.
  Context {JS : Parser.DeltaJson} (lhs_first : bool) (msg0 : HotMsg).

Definition pipe_measured (ls : list label) : option (list Z) :=
  g_pool ← Payload.build_payload_pool lhs_first;
  Some (measured pipe_program g_pool N_WARMUP N_TOTAL new_market tt msg0 ls).

Definition multi_measured (base : Z) (ls : list label) : option (list Z) :=
  tables ← make_tables base;
  g_pool ← Payload.build_payload_pool_multi lhs_first;
  tables ← register_markets tables;
  Some (measured multi_program g_pool N_WARMUP N_TOTAL tables tt msg0 ls).
End measured.

(** ** The calls are defined *)
Lemma verdict_suits b : suits CS (verdict b).
Proof. apply c_string_suits. Qed.

(** Reading a format is a computation. *)
Ltac printable := solve [unfold call_ok; cbn [fst snd]; eexists; split; [vm_compute; reflexivity|]; cbn [typed]; split_and?; first [exact Logic.I|assumption|apply verdict_suits|apply c_string_suits]].


Lemma table_ok clock r : Forall call_ok (table clock r).
Proof. unfold table. repeat (apply Forall_cons; split; [printable|]). constructor. Qed.

Lemma throughput_calls_ok allocs w : Forall call_ok (throughput_calls allocs w).
Proof. unfold throughput_calls. repeat (apply Forall_cons; split; [printable|]). constructor. Qed.

Lemma meta_ok clock n extra : Forall call_ok extra -> Forall call_ok (meta clock n ++ extra).
Proof. intros He. apply Forall_app. split; [|done]. unfold meta. repeat (apply Forall_cons; split; [printable|]). constructor. Qed.

(** ** Reading the table back *)
Definition sp3 : bytes := lit "   ".
Definition table_line (label : bytes) (c : Z) (x : double) : bytes := label ++ sp3 ++ pad false 8 (natural c) ++ sp3 ++ pad false 8 (fixed 1 x).

(** The two numbers of a line. *)
Definition read_line (l : bytes) : Z * (Z * Z) :=
  let l := skip_space (drop 7 l) in
  let d := digit_prefix l in
  (Bytes.value 0 d, read_fixed (skip_space (drop (length d) l))).
Definition read_table (text : bytes) : list (Z * (Z * Z)) := read_line <$> take 6 (drop 2 (split 10 text)).

Definition labels : list bytes := [lit "   min:"; lit "   p50:"; lit "   p90:"; lit "   p99:"; lit "  p999:"; lit "   max:"].
Definition cells (r : Report) : list Z := [c_min r; c_p50 r; c_p90 r; c_p99 r; c_p999 r; c_max r].

(** The output of a call whose format has been read. *)
Lemma printf_pieces f ps args : read_format (S (length f)) f = Some ps -> printf f args = render ps args.
Proof. intros E. unfold printf. by rewrite E. Qed.

Ltac read_formats :=
  repeat match goal with |- context [printf ?f ?args] =>
    let ps := eval vm_compute in (read_format (S (length f)) f) in
    match ps with Some ?p => rewrite (printf_pieces f p args) by (vm_compute; reflexivity) end end.

Lemma table_text clock r : print_all (table clock r) =
  Some (nl ++ lit "            cycles        ns" ++ nl ++ concat (zip_with (fun l c => table_line l c (to_ns clock c) ++ nl) labels (cells r))).
Proof.
  unfold table. cbn [print_all].
  read_formats.
  cbn [render convert mbind option_bind]. unfold table_line, labels, cells. cbn [zip_with concat]. rewrite !app_nil_r, <- !app_assoc. done.
Qed.

Lemma line_read label c x r : length label = 7%nat -> fits 64 c -> fin x r ->
  exists v, read_line (table_line label c x) = (c, (v / 10, v mod 10)) /\ 0 <= v /\ 2 * Z.abs (v * 2 ^ 1074 - r * 10) <= 2 ^ 1074.
Proof.
  intros Hl Hc Hx. destruct (fixed_read 1 x r Hx ltac:(done)) as (v & Hv & Hv0 & Herr). exists v. split; [|done]. unfold read_line, table_line.
  rewrite drop_app_length' by done. change sp3 with (replicate 3 32). rewrite skip_spaces.
  destruct (pad_number 8 c (replicate 3 32 ++ pad false 8 (fixed 1 x))) as [-> ->].
  - unfold fits in Hc. assert (2 ^ 64 < 10 ^ 400) by (apply Z.ltb_lt; vm_compute; done). lia.
  - done.
  - rewrite skip_spaces, (pad_fixed 8 1 x r) by done. by rewrite Hv.
Qed.

Lemma line_free label c x : 10 ∉ label -> 10 ∉ table_line label c x.
Proof.
  intros Hl. unfold table_line. rewrite !elem_of_app. assert (10 ∉ sp3) as Hs by (apply (bool_decide_unpack _); vm_compute; exact Logic.I).
  assert (forall f, plain f -> 10 ∉ pad false 8 f) as Hp by (intros f Hf; apply pad_free; [by apply plain_free|done]).
  pose proof (Hp _ (natural_plain c)). pose proof (Hp _ (fixed_plain 1 x)). tauto.
Qed.

(** What the table says: the counts of cycles exactly, and nanoseconds to a twentieth. *)
Definition near (q : Z) (c : Z) (ns : Z * Z) : Prop :=
  exists v, ns = (v / 10, v mod 10) /\ 0 <= v /\ 2 * Z.abs (v * 2 ^ 1074 - ns_of q c * 10) <= 2 ^ 1074.
Definition states (q : Z) (c : Z) (row : Z * (Z * Z)) : Prop := row.1 = c /\ near q c row.2.

Lemma table_read clock q r : runs clock q -> Forall (fits 64) (cells r) ->
  exists t, print_all (table clock r) = Some t /\ Forall2 (states q) (cells r) (read_table t).
Proof.
  intros Hq Hr. eexists. split; [apply table_text|]. set (lines := zip_with (fun l c => table_line l c (to_ns clock c)) labels (cells r)).
  assert (nl ++ lit "            cycles        ns" ++ nl ++ concat (zip_with (fun l c => table_line l c (to_ns clock c) ++ nl) labels (cells r)) =
    concat ((fun f => f ++ [10]) <$> [] :: lit "            cycles        ns" :: lines)) as -> by done.
  unfold read_table. rewrite split_lines.
  2: { do 2 (apply Forall_cons; split; [apply (bool_decide_unpack _); vm_compute; exact Logic.I|]). unfold lines, labels, cells. cbn [zip_with].
       repeat (apply Forall_cons; split; [apply line_free; apply (bool_decide_unpack _); vm_compute; exact Logic.I|]). constructor. }
  change (take 6 (drop 2 (([] :: lit "            cycles        ns" :: lines) ++ [[]]))) with lines. unfold lines, labels, cells in *. cbn [zip_with fmap list_fmap].
  repeat (apply Forall_cons in Hr as [? Hr]). repeat (apply Forall2_cons; split); [..|constructor].
  all: match goal with |- context [read_line (table_line ?l ?c ?x)] => destruct (line_read l c x (ns_of q c)) as (v & -> & ? & ?); [done|done|by apply to_ns_fin|] end; (split; [done|]; by exists v).
Qed.

(** ** Reading the histogram back *)
(** The bounds and the count of a row; the nanoseconds are one word. *)
Definition read_row (l : bytes) : Z * Z * Z :=
  let l := skip_space l in
  let a := digit_prefix l in
  let l := drop 2 (drop (length a) l) in
  let b := digit_prefix l in
  let l := skip_space (skip_word (skip_space (drop (length b) l))) in
  (Bytes.value 0 a, Bytes.value 0 b, Bytes.value 0 (digit_prefix l)).
Definition read_histogram (text : bytes) : list (Z * Z * Z) :=
  let lines := drop 3 (split 10 text) in read_row <$> take (length lines - 1) lines.

Definition dots : bytes := lit "..".
Definition row_line (clock : CycleClock) (k : nat) (row : Row) : bytes :=
  lit "  " ++ pad false 7 (natural (lo row)) ++ dots ++ pad true 7 (natural (hi row)) ++ sp3 ++
  pad false 7 (fixed 0 (to_ns clock (lo row))) ++ dots ++ pad true 7 (fixed 0 (to_ns clock (hi row))) ++ sp3 ++
  pad false 7 (natural (count row)) ++ sp3 ++ replicate k 35.

Lemma row_text clock size row : row_ok size row ->
  exists k, printf (row_call clock row).1 (row_call clock row).2 = Some (row_line clock k row ++ nl).
Proof.
  intros (_ & _ & _ & Hb & Hbuf). exists (Z.to_nat (count row * 50 / size)). unfold row_call. cbn [fst snd]. read_formats.
  cbn [render convert mbind option_bind]. rewrite Hbuf. unfold bars. destruct (64 - Z.to_nat (count row * 50 / size))%nat eqn:E; [lia|]. cbn [replicate].
  rewrite c_str_app by (rewrite elem_of_replicate; lia). cbn [mbind option_bind]. unfold row_line, dots. f_equal.
  rewrite <- !app_assoc. done.
Qed.

Lemma spaces_before n l : replicate n 32 ++ sp3 ++ l = 32 :: replicate (n + 2) 32 ++ l.
Proof. change sp3 with (replicate 3 32). rewrite app_assoc, <- replicate_add. by replace (n + 3)%nat with (S (n + 2)) by lia. Qed.

Lemma row_read clock k row : fits 64 (lo row) -> fits 64 (hi row) -> fits 64 (count row) -> read_row (row_line clock k row) = (lo row, hi row, count row).
Proof.
  intros Hl Hh Hc. assert (forall v, fits 64 v -> 0 <= v < 10 ^ 400) as Hbig by (intros v Hv; unfold fits in Hv; assert (2 ^ 64 < 10 ^ 400) by (apply Z.ltb_lt; vm_compute; done); lia).
  unfold read_row, row_line. change (lit "  ") with (replicate 2 32). rewrite skip_spaces.
  match goal with |- context [pad false 7 (natural (lo row)) ++ dots ++ ?r] => destruct (pad_number 7 (lo row) (dots ++ r) (Hbig _ Hl) eq_refl) as [-> ->] end.
  change (drop 2 (dots ++ ?l)) with l. change (pad true 7 (natural (hi row))) with (natural (hi row) ++ replicate (7 - length (natural (hi row))) 32). rewrite <- (app_assoc (natural (hi row))).
  assert (forall n l, match replicate n 32 ++ sp3 ++ l with [] => True | c :: _ => is_digit c = false end) as Hsp by (by intros []).
  match goal with |- context [natural (hi row) ++ replicate ?n 32 ++ sp3 ++ ?r] => destruct (number_read (hi row) (replicate n 32 ++ sp3 ++ r) (Hbig _ Hh) (Hsp n r)) as [-> ->] end.
  rewrite skip_spaces. change sp3 with (replicate 3 32) at 1. rewrite skip_spaces. unfold pad at 1. rewrite <- (app_assoc (replicate _ 32)), skip_spaces.
  unfold pad at 1. rewrite <- (app_assoc (fixed 0 (to_ns clock (hi row)))).
  set (w := fixed 0 (to_ns clock (lo row)) ++ dots ++ fixed 0 (to_ns clock (hi row))).
  assert (plain w) as Hw.
  { apply Forall_app. split; [apply fixed_plain|]. apply Forall_app. split; [repeat constructor; lia|apply fixed_plain]. }
  assert (w ≠ []) as Hne by (unfold w; by destruct (fixed 0 (to_ns clock (lo row)))).
  rewrite spaces_before. rewrite (app_assoc dots), (app_assoc (fixed 0 (to_ns clock (lo row)))). fold w.
  rewrite plain_start, plain_word by done. change (32 :: replicate ?n 32 ++ ?l) with (replicate (S n) 32 ++ l). rewrite skip_spaces.
  match goal with |- context [pad false 7 (natural (count row)) ++ sp3 ++ ?r] => destruct (pad_number 7 (count row) (sp3 ++ r) (Hbig _ Hc) eq_refl) as [-> _] end. done.
Qed.

Lemma row_free clock k row : 10 ∉ row_line clock k row.
Proof.
  assert (forall m f, plain f -> 10 ∉ pad m 7 f) as Hp by (intros m f Hf; apply pad_free; [by apply plain_free|done]).
  assert (10 ∉ sp3) by (apply (bool_decide_unpack _); vm_compute; exact Logic.I). assert (10 ∉ dots) by (apply (bool_decide_unpack _); vm_compute; exact Logic.I).
  assert (10 ∉ lit "  ") by (apply (bool_decide_unpack _); vm_compute; exact Logic.I). assert (10 ∉ replicate k 35) by (rewrite elem_of_replicate; lia).
  assert (forall a b : bytes, 10 ∉ a -> 10 ∉ b -> 10 ∉ a ++ b) as Happ by (intros a b Ha Hb Hab; apply elem_of_app in Hab as [Hab|Hab]; [exact (Ha Hab)|exact (Hb Hab)]).
  unfold row_line. repeat (apply Happ; [first [assumption|apply Hp; first [apply natural_plain|apply fixed_plain]]|]). assumption.
Qed.

Lemma rows_text clock size rows : size < 2 ^ 64 -> Forall (row_ok size) rows ->
  exists lines, print_all (row_call clock <$> rows) = Some (concat ((fun f => f ++ [10]) <$> lines)) /\ Forall (fun f => 10 ∉ f) lines /\
    read_row <$> lines = (fun r => (lo r, hi r, count r)) <$> rows.
Proof.
  intros Hsize. induction 1 as [|row rows Hrow _ (lines & Hp & Hf & Hr)]; [by exists []|]. destruct (row_text clock size row Hrow) as [k Hk].
  destruct Hrow as (Hc & Hh & (i & Hi & Hlo) & _). assert (0 < 2 ^ i <= 2 ^ 23) by (split; [apply pow_pos; lia|apply Z.pow_le_mono_r; lia]).
  exists (row_line clock k row :: lines). split_and!.
  - cbn [fmap list_fmap print_all concat]. destruct (row_call clock row) as [f args]. cbn [fst snd] in Hk. rewrite Hk. cbn [mbind option_bind]. by rewrite Hp.
  - constructor; [apply row_free|done].
  - rewrite !fmap_cons, Hr, row_read by (unfold fits; lia). done.
Qed.

Lemma histogram_read clock size rows : size < 2 ^ 64 -> Forall (row_ok size) rows ->
  exists h, print_all (histogram_calls clock rows) = Some h /\ read_histogram h = (fun r => (lo r, hi r, count r)) <$> rows.
Proof.
  intros Hsize Hrows. destruct (rows_text clock size rows Hsize Hrows) as (lines & Hp & Hf & Hr). unfold histogram_calls. rewrite print_all_app, Hp.
  cbn [print_all]. read_formats. cbn [render mbind option_bind]. eexists. split; [done|]. unfold read_histogram.
  match goal with |- context [split 10 ?t] => assert (t = concat ((fun f => f ++ [10]) <$> [] :: lit "latency histogram (log2 cycle buckets):" :: lit "  cycles               ns                 count   bar" :: lines)) as -> by done end.
  rewrite split_lines; [|do 3 (apply Forall_cons; split; [apply (bool_decide_unpack _); vm_compute; exact Logic.I|]); done].
  match goal with |- context [drop 3 ?t] => change (drop 3 t) with (lines ++ [[]]) end. cbv zeta. rewrite length_app. cbn [length]. replace (length lines + 1 - 1)%nat with (length lines) by lia. by rewrite take_app_length.
Qed.

(** ** What the output says of the latencies *)
Definition ordered (r : Report) : Prop :=
  c_min r <= c_p50 r <= c_p90 r /\ c_p90 r <= c_p99 r <= c_p999 r /\ c_p999 r <= c_max r.

(** A table with the percentiles, in order, and at the end the histogram: a row for every
    bucket that is not empty, with its bounds and how many latencies are in it. *)
Definition shows (q : Z) (lats : list Z) (text : bytes) : Prop :=
  exists r pre t mid h, text = pre ++ t ++ mid ++ h /\
    report lats = Some r /\ ordered r /\ Forall2 (states q) (cells r) (read_table t) /\
    read_histogram h = histogram_of lats.

Lemma report_fits l r : Forall (fits 64) l -> l ≠ [] -> Z.of_nat (length l) <= 2 ^ 50 -> report l = Some r -> ordered r /\ Forall (fits 64) (cells r).
Proof.
  intros Hf Hl Hn Hr. destruct (report_spec l Hl Hn) as (r' & Hr' & H1 & H2 & H3 & H4 & H5 & _). rewrite Hr in Hr'. injection Hr' as <-. split; [exact (conj H1 (conj H2 H3))|].
  rewrite Forall_forall in Hf. pose proof (Hf _ H4) as [Hlo _]. pose proof (Hf _ H5) as [_ Hhi]. unfold cells, fits. repeat constructor; lia.
Qed.

Section shown.
  Context (clock : CycleClock) (q : Z) (Hq : runs clock q) (lats : list Z) (Hf : Forall (fits 64) lats) (Hn : 0 < Z.of_nat (length lats) <= 2 ^ 50).

Lemma lats_ne : lats ≠ [].
Proof. intros E. rewrite E in Hn. simpl in Hn. lia. Qed.

Lemma samples : exists r rows, report lats = Some r /\ print_histogram (sort lats) = Some rows /\
  forall c1 c2, Forall call_ok c1 -> Forall call_ok c2 ->
    exists text, print_all (c1 ++ table clock r ++ c2 ++ histogram_calls clock rows) = Some text /\ shows q lats text.
Proof.
  destruct (report_spec lats lats_ne ltac:(lia)) as (r & Hr & _). destruct (report_fits lats r Hf lats_ne ltac:(lia) Hr) as [Ho Hc].
  pose proof (sort_perm lats) as Hperm. pose proof (Permutation_length Hperm) as Hlen.
  destruct (histogram_printed (sort lats)) as (rows & Hrows & Hok & _); [by rewrite Hperm|lia|].
  exists r, rows. split; [done|]. split; [done|]. intros c1 c2 H1 H2. destruct (print_all_ok c1 H1) as [pre E1], (print_all_ok c2 H2) as [mid E2].
  destruct (table_read clock q r Hq Hc) as (t & Et & Hread). destruct (histogram_read clock (Z.of_nat (length (sort lats))) rows ltac:(lia) Hok) as (h & Eh & Hh).
  exists (pre ++ t ++ mid ++ h). split; [by rewrite !print_all_app, E1, Et, E2, Eh|]. exists r, pre, t, mid, h. refine (conj eq_refl (conj Hr (conj Ho (conj Hread _)))). rewrite Hh.
  apply (histogram_rows (sort lats) lats rows); [by rewrite Hperm|lia|done|done].
Qed.

Lemma hot_print_ok allocs : exists text, hot_print clock allocs lats = Some text /\ shows q lats text.
Proof.
  destruct samples as (r & rows & Hr & Hrows & H). unfold hot_print. rewrite Hr, Hrows. cbn [mbind option_bind].
  apply H; repeat (apply Forall_cons; split; [printable|]); constructor.
Qed.

Lemma pipe_print_ok allocs s e : exists text, pipe_print clock allocs lats s e = Some text /\ shows q lats text.
Proof.
  destruct samples as (r & rows & Hr & Hrows & H). unfold pipe_print. rewrite Hr, Hrows. cbn [mbind option_bind]. apply H; [|apply throughput_calls_ok].
  repeat (apply Forall_cons; split; [printable|]). constructor.
Qed.

Lemma multi_print_ok allocs s e : exists text, multi_print clock allocs lats s e = Some text /\ shows q lats text.
Proof.
  destruct samples as (r & rows & Hr & Hrows & H). unfold multi_print. rewrite Hr, Hrows. cbn [mbind option_bind]. apply H; [|apply throughput_calls_ok].
  repeat (apply Forall_cons; split; [printable|]). constructor.
Qed.
End shown.

(** ** The programs end and their output says what they measured *)
(** [malloc] never fails, and is called fewer than [2 ^ 64] times. *)
Definition mallocs_ok (env : Env) : Prop :=
  Forall (fun p => p ≠ 0) (e_before env) /\ Forall (fun p => p ≠ 0) (e_during env) /\
  Z.of_nat (length (e_before env)) < 2 ^ 64 /\ Z.of_nat (length (e_during env)) < 2 ^ 64.

Definition says (env : Env) (q : Z) (lats : list Z) (o : Output) : Prop :=
  shows q lats (out_stdout o) /\
  (if e_fopen_cycles env then exists b, out_cycles o = Some b /\ fread (length lats) b = lats else out_cycles o = None) /\
  (e_fopen_meta env = true -> is_Some (out_meta o)).

Lemma warnings_ok {P : Pthread} env : is_Some (warnings env).
Proof.
  unfold warnings, warn_mlockall, tune_thread.
  read_formats.
  cbn [render convert mbind option_bind]. repeat (case_match; cbn [mbind option_bind]); by eexists.
Qed.

Lemma conclude_ok {P : Pthread} {St Clk} env clock q print extra (st : @pipe St Clk) :
  mallocs_ok env -> Forall call_ok extra -> Forall (fits 64) (g_latencies (cons st)) ->
  (forall allocs s e, exists text, print allocs (g_latencies (cons st)) s e = Some text /\ shows q (g_latencies (cons st)) text) ->
  exists o, conclude env clock print extra st = Some o /\ says env q (g_latencies (cons st)) o.
Proof.
  intros (Hb & Hd & Hlb & Hld) He Hl Hp. unfold conclude. destruct (alloc_count_exact _ _ Hb Hd Hld Hlb) as [-> _].
  destruct (print_all_ok _ (meta_ok clock (length (g_latencies (cons st))) extra He)) as [m ->]. cbn [mbind option_bind].
  destruct (Hp (Z.of_nat (length (e_during env))) (g_throughput_start_tsc (cons st)) (g_throughput_end_tsc (cons st))) as (text & -> & Hs). cbn [mbind option_bind].
  destruct (warnings_ok env) as [w ->]. cbn [mbind option_bind]. eexists. split; [done|]. split; [exact Hs|]. cbn [out_cycles out_meta]. split.
  - destruct (e_fopen_cycles env); [|done]. eexists. split; [done|]. by apply fread_fwrite.
  - intros ->. by eexists.
Qed.

Section mains_end.
  Context {JS : Parser.DeltaJson} (HJ : Payload.reads_payloads JS) {P : Pthread} (lhs_first : bool) (msg0 : HotMsg) (env : Env) (clock : CycleClock) (q : Z).
  Context (Hq : runs clock q) (Hm : mallocs_ok env).

Lemma hotpath_main_ends junk junk' now :
  exists text, hotpath_main lhs_first env clock junk junk' now = Some text /\ shows q (elapsed now <$> List.seq 0 HOT_MEASURE) text.
Proof.
  pose proof hot_warmup_eq. pose proof hot_measure_eq. destruct Hm as (Hb & Hd & Hlb & Hld). destruct (Payload.single_pool lhs_first) as (g_pool & Hpool & _).
  unfold hotpath_main. rewrite Hpool. cbn [mbind option_bind].
  destruct (hot_main_sequential HJ lhs_first g_pool Hpool HOT_WARMUP HOT_MEASURE [] msg0 ltac:(lia) junk junk' now) as (outs & ms & -> & _). cbn [mbind option_bind].
  destruct (alloc_count_exact _ _ Hb Hd Hld Hlb) as [-> _]. cbn [mbind option_bind]. apply hot_print_ok; [done| |].
  - apply Forall_fmap, Forall_forall. intros i _. apply wrap_fits. lia.
  - rewrite length_fmap, length_seq. lia.
Qed.

Context (rs : list (list label)) (Hrs : Forall round rs) (Hlen : 7 * 1010000 + 4 <= Z.of_nat (length rs)) (Ht : timed 0 (concat rs)).

Lemma pipe_main_ends : exists o lats, pipe_main lhs_first msg0 env clock (concat rs) = Some (Ended o) /\
  pipe_measured lhs_first msg0 (concat rs) = Some lats /\ length lats = N_MEASURE /\ Forall (fits 64) lats /\ says env q lats o.
Proof.
  pose proof warmup_eq. pose proof measure_eq. destruct (Payload.single_pool lhs_first) as (g_pool & Hpool & _). unfold pipe_main, pipe_measured. rewrite Hpool. cbn [mbind option_bind].
  pose proof (sequential_some HJ lhs_first g_pool Hpool pipe_program msg0 (fun d ms => eq_refl) N_TOTAL ltac:(unfold N_TOTAL; lia)) as Hs.
  destruct (closed_finishes pipe_program g_pool N_WARMUP N_TOTAL new_market tt msg0 rs (bench_pool_length lhs_first g_pool Hpool) ltac:(unfold N_TOTAL; lia) Hs
    (fun i now c => eq_refl) Hrs ltac:(unfold N_TOTAL; lia) Ht) as (st & Hst & Hd & Hll & Hel & Hmeas & _).
  unfold run_pipe. rewrite Hst. cbn [mbind option_bind]. rewrite decide_True by done. replace (N_TOTAL - N_WARMUP)%nat with N_MEASURE in Hll by (unfold N_TOTAL; lia).
  destruct (conclude_ok env clock q (pipe_print clock) [] st Hm ltac:(constructor) Hel) as (o & -> & Ho).
  { intros allocs s e. apply pipe_print_ok; [done|done|lia]. }
  exists o, (g_latencies (cons st)). rewrite <- Hmeas. exact (conj eq_refl (conj eq_refl (conj Hll (conj Hel Ho)))).
Qed.

Lemma multi_main_ends base : 0 < base -> exists o lats, multi_main lhs_first msg0 env clock base (concat rs) = Some (Ended o) /\
  multi_measured lhs_first msg0 base (concat rs) = Some lats /\ length lats = N_MEASURE /\ Forall (fits 64) lats /\ says env q lats o.
Proof.
  intros Hb. pose proof warmup_eq. pose proof measure_eq. destruct (Payload.multi_pool lhs_first) as (g_pool & Hpool & _).
  destruct (registration base Hb) as (t & t' & _ & E1 & E2 & _). unfold multi_main, multi_measured. rewrite E1. cbn [mbind option_bind]. rewrite Hpool. cbn [mbind option_bind]. rewrite E2. cbn [mbind option_bind].
  destruct (tables_ready base t t' Hb E1 E2) as [R HR]. destruct (multi_ok HJ lhs_first g_pool Hpool msg0 R t' N_TOTAL HR ltac:(unfold N_TOTAL; lia)) as (outs & t2 & Hs & _).
  destruct (closed_finishes multi_program g_pool N_WARMUP N_TOTAL t' tt msg0 rs (multi_pool_length lhs_first g_pool Hpool) ltac:(unfold N_TOTAL; lia) (ex_intro _ _ Hs)
    (fun i now c => eq_refl) Hrs ltac:(unfold N_TOTAL; lia) Ht) as (st & Hst & Hd & Hll & Hel & Hmeas & _).
  unfold run_multi. rewrite Hst. cbn [mbind option_bind]. rewrite decide_True by done. replace (N_TOTAL - N_WARMUP)%nat with N_MEASURE in Hll by (unfold N_TOTAL; lia).
  destruct (conclude_ok env clock q (multi_print clock) [(fmt "n_tickers %d\n", [Int (Z.of_nat N_TICKERS)])] st Hm) as (o & -> & Ho).
  { apply Forall_cons. split; [printable|constructor]. }
  { done. }
  { intros allocs s e. apply multi_print_ok; [done|done|lia]. }
  exists o, (g_latencies (cons st)). rewrite <- Hmeas. exact (conj eq_refl (conj eq_refl (conj Hll (conj Hel Ho)))).
Qed.
End mains_end.

(** C35. The other three benchmarks from [main] to their output, on a cycle counter that runs at a
    finite positive rate and with every [malloc] answered: [bench_hotpath], on one thread,
    always ends; the two-thread programs, with one market and with 256, end under every
    schedule of enough rounds (7,070,004, in each of which every thread runs) whose times do
    not go back; nothing on the way is undefined.  The latencies of the two-thread programs
    are, message by message, the time at which the run finished the message minus the time
    at which it made it ready, as the schedule gives them, without wrap-around; those of the
    one-thread program are the differences of its two readings.  The text on the standard
    output contains a table that reads back as the minimum, the percentiles and the maximum of
    these latencies, in order, with the nanoseconds to a twentieth, and ends with a histogram
    that reads back as one row for every bucket that is not empty, with its bounds and the
    number of latencies in it; the binary file, if it can be opened, reads back as the
    latencies. *)
Theorem mains_report {JS : Parser.DeltaJson} (HJ : Payload.reads_payloads JS) {P : Pthread} (lhs_first : bool) (msg0 : HotMsg) (env : Env)
    (clock : CycleClock) (q : Z) (Hq : runs clock q) (Hm : mallocs_ok env) :
  (forall junk junk' now, exists text,
     hotpath_main lhs_first env clock junk junk' now = Some text /\ shows q (elapsed now <$> List.seq 0 HOT_MEASURE) text) /\
  forall rs, Forall round rs -> 7 * 1010000 + 4 <= Z.of_nat (length rs) -> timed 0 (concat rs) ->
    (exists o lats, pipe_main lhs_first msg0 env clock (concat rs) = Some (Ended o) /\
       pipe_measured lhs_first msg0 (concat rs) = Some lats /\ length lats = N_MEASURE /\ Forall (fits 64) lats /\ says env q lats o) /\
    forall base, 0 < base ->
      exists o lats, multi_main lhs_first msg0 env clock base (concat rs) = Some (Ended o) /\
        multi_measured lhs_first msg0 base (concat rs) = Some lats /\ length lats = N_MEASURE /\ Forall (fits 64) lats /\ says env q lats o.
Proof.
  split; [intros junk junk' now; by apply hotpath_main_ends|]. intros rs Hrs Hlen Ht. split; [by apply pipe_main_ends|]. intros base Hb. by apply multi_main_ends.
Qed.

Lemma beats_timed k t : forall T ls, T <= t < 2 ^ 64 -> timed t ls -> timed T (concat (replicate k (all_at t)) ++ ls).
Proof.
  induction k as [|k IH]; intros T ls HT Hls; cbn [replicate concat app all_at].
  - induction ls as [|[now|now|] ls IHl] in T, t, HT, Hls |- *; simpl in *; [done|split; [lia|tauto]..|by apply (IHl t)].
  - simpl. split; [done|]. split; [lia|]. apply (IH t ls); [lia|done].
Qed.

Definition demo_clock : CycleClock := make 0 0 50000000 150000000.
Definition demo_ns : Z := rnd (50000000 * 2 ^ 1074) 150000000.
Lemma demo_runs : runs demo_clock demo_ns.
Proof. apply (make_runs 0 0 50000000 150000000); [lia|vm_compute; split; congruence]. Qed.

(** Every file can be opened, one allocation before the measurement and none in it. *)
Definition demo_env : Env := mkEnv 0 0 true true [4096] [].
Lemma demo_mallocs : mallocs_ok demo_env.
Proof. unfold mallocs_ok, demo_env. cbn [e_before e_during length]. split; [constructor; [discriminate|constructor]|]. split; [constructor|]. lia. Qed.
Definition demo_beats : list (list label) := replicate (Z.to_nat 7070004) (all_at 5).

Lemma mains_report_witness :
  (exists text, hotpath_main (JS := Payload.reference_json) true demo_env demo_clock (fun _ => msg_delta blank_msg) (fun _ => msg_delta blank_msg) (fun i => (Z.of_nat i, Z.of_nat i + 3)) = Some text) /\
  (exists o lats, pipe_main (JS := Payload.reference_json) (P := twenty_cores) true blank_msg demo_env demo_clock (concat demo_beats) = Some (Ended o) /\ pipe_measured (JS := Payload.reference_json) true blank_msg (concat demo_beats) = Some lats /\ says demo_env demo_ns lats o) /\
  (exists o lats, multi_main (JS := Payload.reference_json) (P := twenty_cores) true blank_msg demo_env demo_clock 65536 (concat demo_beats) = Some (Ended o) /\ multi_measured (JS := Payload.reference_json) true blank_msg 65536 (concat demo_beats) = Some lats /\ says demo_env demo_ns lats o).
Proof.
  destruct (mains_report (JS := Payload.reference_json) Payload.reference_reads (P := twenty_cores) true blank_msg demo_env demo_clock demo_ns demo_runs demo_mallocs) as [H1 H2].
  split; [destruct (H1 (fun _ => msg_delta blank_msg) (fun _ => msg_delta blank_msg) (fun i => (Z.of_nat i, Z.of_nat i + 3))) as (text & Ht & _); exists text; exact Ht|].
  destruct (H2 demo_beats) as [Hp Hmu].
  - apply (Forall_impl _ _ _ (all_at_round 5 (fun _ => True) _ Logic.I Logic.I Logic.I)). intros ls [Hls _]. exact Hls.
  - unfold demo_beats. rewrite length_replicate. lia.
  - unfold demo_beats. rewrite <- (app_nil_r (concat _)). apply beats_timed; [lia|exact Logic.I].
  - split.
    + destruct Hp as (o & lats & Ho & Hmeas & _ & _ & Hs). exists o, lats. exact (conj Ho (conj Hmeas Hs)).
    + destruct (Hmu 65536 ltac:(lia)) as (o & lats & Ho & Hmeas & _ & _ & Hs). exists o, lats. exact (conj Ho (conj Hmeas Hs)).
Defined.
End Mains.
