(* ===== verification/PacedMain.v ===== *)
(** * The paced benchmark from its command line to its report

    [main] of [bench/bench_hotpath_paced.cpp]: [Options.v] reads the arguments, [Clock.v]
    calibrates, [Payload.v] and [Schedule.v] build the payloads and the arrival times,
    [Benches.v] runs the threads, [Stats.v] makes the numbers and [Text.v] the text that is
    printed.  The schedule of the threads, the readings of the clocks, [std::atof] and [std::log] are
    arguments. *)
From Stdlib Require Import ZArith SpecFloat.
From stdpp Require Import gmap list numbers strings sorting.
From S2P Require Import Prelude Feed Strategy Bytes Spsc Parser Payload HotPath Pipeline Benches Options Double Clock Stats Schedule Text Tuning Mains.
Open Scope Z_scope.
Open Scope cpp_scope.

Module PacedMain.
Import Bytes HotPath Pipeline Benches Options Double Clock Stats Schedule Text Tuning.

(** [N_WARMUP = 10'000] *)
Definition N_WARMUP : nat := Z.to_nat 10000.
Lemma N_WARMUP_eq : Z.of_nat N_WARMUP = 10000.
Proof. unfold N_WARMUP. by rewrite Z2Nat.id. Qed.
#[local] Opaque N_WARMUP.
Definition g_rt_priority : Z := 50.

(** ** What is printed *)
(** The results of a run: the percentiles in cycles, the window in seconds and the rate,
    the lateness in nanoseconds and what it says, the allocations. *)
Record Results := mkResults {
  res_report : Report;
  res_window : double * double;
  res_max_late_ns : double;
  res_sustainable : bool;
  res_allocs : Z;
}.

Section printing.
  Context (cfg : @config double) (clock : CycleClock) (res : Results).
  Abbreviation call := (bytes * list arg)%type.
  Abbreviation ns := (fun c => Dbl (to_ns clock c)).
  Abbreviation r := (res_report res).

Definition csv_call : call :=
  (fmt "%s,%.0f,%d,%d,%.1f,%.1f,%.1f,%.1f,%.1f,%.0f,%.0f,%llu,%d\n",
   [Str (c_string (mode_name (g_mode cfg))); Dbl (g_rate_hz cfg); Int (g_n_measure cfg); Int (if decide (g_mode cfg = BURST) then g_burst_size cfg else 1);
    ns (c_p50 r); ns (c_p90 r); ns (c_p99 r); ns (c_p999 r); ns (c_max r); Dbl (res_window res).2; Dbl (res_max_late_ns res);
    UInt (res_allocs res); Int (if res_sustainable res then 1 else 0)]).

Definition text_calls : list call :=
  [(fmt "\n=== bench_hotpath_paced (open-loop, schedule-stamped) ===\n", []);
   (fmt "mode = %s, offered rate = %.0f msg/s", [Str (c_string (mode_name (g_mode cfg))); Dbl (g_rate_hz cfg)])] ++
  (if decide (g_mode cfg = BURST) then [(fmt ", burst = %d", [Int (g_burst_size cfg)])] else []) ++
  [(fmt "\ncores = %u -> %u, N = %d measured (after %d warmup)\n", [UInt (g_core_prod cfg); UInt (g_core_cons cfg); Int (g_n_measure cfg); Int (Z.of_nat N_WARMUP)]);
   (fmt "\n   latency from SCHEDULED arrival to serialized action:\n", []);
   (fmt "   min:  %10.1f ns\n", [ns (c_min r)]);
   (fmt "   p50:  %10.1f ns\n", [ns (c_p50 r)]);
   (fmt "   p90:  %10.1f ns\n", [ns (c_p90 r)]);
   (fmt "   p99:  %10.1f ns\n", [ns (c_p99 r)]);
   (fmt "  p999:  %10.1f ns\n", [ns (c_p999 r)]);
   (fmt "   max:  %10.1f ns\n", [ns (c_max r)]);
   (fmt "\nachieved throughput : %.3f M msg/s (window %.3f s)\n", [Dbl (ddiv (res_window res).2 (of_Z 1000000)); Dbl (res_window res).1]);
   (fmt "producer max lateness: %.1f ns %s\n", [Dbl (res_max_late_ns res); Str (c_string (if res_sustainable res then [] else lit " (UNSUSTAINABLE: offered rate > capacity)"))]);
   (fmt "zero-alloc check     : %llu allocations -- %s\n", [UInt (res_allocs res); Mains.verdict (res_allocs res =? 0)])].

Definition print : option bytes := print_all (if g_csv cfg then [csv_call] else text_calls).
End printing.

(** ** The program *)
(** What is left when [main] returns. *)
Record Output := mkOutput {
  out_latencies : list Z;
  out_t0 : Z;
  out_results : Results;
  out_stdout : bytes;
  out_stderr : bytes;
}.

(** Exit with status 2; threads that have not been joined yet; the end. *)
Inductive status := Exited2 (stderr : bytes) | Running | Printed (o : Output).

Section main.
  Context {JS : Parser.DeltaJson} {P : Pthread} (atof : bytes -> double) (log : double -> double) (lhs_first : bool) (msg0 : HotMsg) (env : Mains.Env).

(** [cycles_per_ns = 1.0 / clock.to_ns(1)] *)
Definition cycles_per_ns (clock : CycleClock) : double := ddiv (of_Z 1) (to_ns clock 1).

Definition results (clock : CycleClock) (n allocs : Z) (st : @pipe MarketState paced_clock) : option Results :=
  let ck := p_clock (prod st) in
  let max_late_ns := to_ns clock (g_max_lateness_cycles ck) in
  r ← report (g_latencies (cons st));
  Some (mkResults r (throughput clock (g_t0 ck) (g_throughput_end_tsc (cons st)) n) max_late_ns (sustainable clock (g_max_lateness_cycles ck)) allocs).

Definition warnings (cfg : @config double) : option bytes :=
  w ← (if Mains.e_mlockall env =? 0 then Some [] else printf (fmt "warn: mlockall failed (errno=%d)\n") [Int (Mains.e_errno env)]);
  p ← tune_thread "producer" [] (g_core_prod cfg) g_rt_priority (Mains.e_errno env);
  c ← tune_thread "consumer" [] (g_core_cons cfg) g_rt_priority (Mains.e_errno env);
  Some (w ++ p ++ c).

Definition main (argv : list bytes) (clock : CycleClock) (ls : list label) : option status :=
  o ← parse_args atof (fun x => dle x zero) argv (defaults (of_Z 1000000));
  match o with
  | Exit2 err => Some (Exited2 err)
  | Run cfg =>
    g_pool ← Payload.build_payload_pool lhs_first;
    let n := Z.to_nat (g_n_measure cfg) in
    g_offsets ← build_schedule log n (g_rate_hz cfg) (g_mode cfg) (g_burst_size cfg) (cycles_per_ns clock);
    st ← run_paced g_pool N_WARMUP (N_WARMUP + n) msg0 g_offsets ls;
    if decide (main_pc st = MDone) then
      allocs ← count_allocs (Mains.e_before env) (Mains.e_during env);
      res ← results clock (g_n_measure cfg) allocs st;
      text ← print cfg clock res;
      w ← warnings cfg;
      Some (Printed (mkOutput (g_latencies (cons st)) (g_t0 (p_clock (prod st))) res text w))
    else Some Running
  end.

(** A clock of at most [2 ^ beta] cycles per nanosecond. *)
Lemma cycles_per_ns_fin clock q beta : runs clock q -> 0 <= beta <= 64 -> 2 ^ (1074 - beta) <= q ->
  exists b, fin (cycles_per_ns clock) b /\ b <= 2 ^ (1074 + beta).
Proof.
  intros Hq Hbe Hge. destruct (to_ns_fin clock q 1 Hq) as [Hf _]; [unfold fits; lia|]. pose proof Hq as [Hqf [Hq0 _]].
  rewrite ns_of_small, Z.mul_1_r, (fin_representable _ _ Hqf) in Hf by lia. pose proof (pow_pos 1074 ltac:(lia)) as HU.
  pose proof (ddiv_denotes _ _ _ _ (of_Z_fin 1 ltac:(lia)) Hf Hq0) as Hd. exists (rnd (1 * 2 ^ 1074 * 2 ^ 1074) q).
  assert (rnd (1 * 2 ^ 1074 * 2 ^ 1074) q <= 2 ^ (1074 + beta)) as Hle.
  { apply rnd_le_pow; [lia|done|lia|]. pose proof (pow_pos (1074 + beta) ltac:(lia)). transitivity (2 ^ (1074 + beta) * 2 ^ (1074 - beta)); [|nia].
    rewrite Z.mul_1_l, <- !pow_add by lia. apply Z.pow_le_mono_r; lia. }
  split; [|done]. apply (denotes_fin _ _ (1074 + beta)); [done| |lia]. split; [apply rnd_nonneg; lia|done].
Qed.


(** The configuration, the clock and the threads' schedule under which the program ends. *)
Record plays (cfg : @config double) (clock : CycleClock) (rs1 rs2 : list (list label)) (r q gamma delta beta T : Z) : Prop := {
  play_n : g_n_measure cfg <= 41990000;
  play_rate : fin (g_rate_hz cfg) r;
  play_gamma : 0 <= gamma;
  play_gap : 1000000000 * 2 ^ 1074 <= 2 ^ gamma * r;
  play_burst : 6 <= delta /\ g_burst_size cfg <= 2 ^ delta;
  play_clock : runs clock q /\ 0 <= beta <= 64 /\ 2 ^ (1074 - beta) <= q;
  play_size : (g_n_measure cfg + 1) * 2 ^ (gamma + delta + beta) <= 2 ^ 63;
  play_time : 0 <= T < 2 ^ 62;
  play_early : Forall (fun ls => round ls /\ Forall (early T) ls) rs1;
  play_late : Forall (fun ls => round ls /\ Forall (late (T + 10000 + g_n_measure cfg * 2 ^ (gamma + delta + beta))) ls) rs2;
  play_rounds : Z.of_nat (length rs1) >= 7 * (10000 + g_n_measure cfg) + 4 /\ Z.of_nat (length rs2) >= 7 * (10000 + g_n_measure cfg) + 4;
  play_timed : timed 0 (concat rs1 ++ concat rs2);
}.

Lemma print_ok cfg clock res : is_Some (print cfg clock res).
Proof.
  apply print_all_ok. destruct (g_csv cfg); [apply Forall_cons; split; [unfold csv_call; Mains.printable|constructor]|]. unfold text_calls.
  apply Forall_app. split; [repeat (apply Forall_cons; split; [Mains.printable|]); constructor|]. apply Forall_app. split.
  - destruct (decide _); repeat (apply Forall_cons; split; [Mains.printable|]); constructor.
  - repeat (apply Forall_cons; split; [Mains.printable|]). constructor.
Qed.

Lemma paced_warnings_ok cfg : is_Some (warnings cfg).
Proof.
  unfold warnings, tune_thread.
  Mains.read_formats.
  cbn [render convert mbind option_bind]. repeat (case_match; cbn [mbind option_bind]); by eexists.
Qed.

Lemma results_ok clock n allocs st : (0 < length (g_latencies (cons st)))%nat -> Z.of_nat (length (g_latencies (cons st))) <= 2 ^ 50 ->
  exists res, results clock n allocs st = Some res /\ report (g_latencies (cons st)) = Some (res_report res) /\ Mains.ordered (res_report res).
Proof.
  intros Hpos Hlen. unfold results. destruct (report_spec (g_latencies (cons st))) as (r & Hr & H1 & H2 & H3 & _); [by intros E; rewrite E in Hpos; simpl in Hpos; lia|done|].
  rewrite Hr. cbn [mbind option_bind]. eexists. split; [done|]. split; [done|]. exact (conj H1 (conj H2 H3)).
Qed.
End main.

(** ** The line for scripts *)
(** What a reader of the comma-separated values gets. *)
Record Csv := mkCsv { csv_mode : Mode; csv_n : Z; csv_burst : Z; csv_ns : list (Z * Z); csv_allocs : Z; csv_sustainable : bool }.
Definition read_csv (line : bytes) : option Csv :=
  match split 44 line with
  | [m; rate; n; b; p50; p90; p99; p999; mx; achieved; late; allocs; s] =>
    m ← read_mode m; n ← atoi n; b ← atoi b; s ← atoi s;
    Some (mkCsv m n b (read_fixed <$> [p50; p90; p99; p999; mx]) (Bytes.value 0 (digit_prefix allocs)) (negb (s =? 0)))
  | _ => None
  end.

Definition csv_burst_of (cfg : @config double) : Z := if decide (g_mode cfg = BURST) then g_burst_size cfg else 1.
Definition csv_cells (r : Report) : list Z := [c_p50 r; c_p90 r; c_p99 r; c_p999 r; c_max r].
Definition csv_fields (cfg : @config double) (clock : CycleClock) (res : Results) : list bytes :=
  [mode_name (g_mode cfg); fixed 0 (g_rate_hz cfg); integer (g_n_measure cfg); integer (csv_burst_of cfg)] ++
  ((fun c => fixed 1 (to_ns clock c)) <$> csv_cells (res_report res)) ++
  [fixed 0 (res_window res).2; fixed 0 (res_max_late_ns res); natural (res_allocs res); integer (if res_sustainable res then 1 else 0)].

Lemma mode_name_free m c : c ∈ mode_name m -> 97 <= c <= 122.
Proof. destruct m; vm_compute; intros H; repeat (apply elem_of_cons in H as [->|H]; [split; congruence|]); by apply elem_of_nil in H. Qed.

Lemma csv_text cfg clock res : print_all [csv_call cfg clock res] = Some (join 44 (csv_fields cfg clock res) ++ nl).
Proof.
  unfold csv_call. cbn [print_all]. Mains.read_formats. cbn [render convert mbind option_bind]. unfold c_string. rewrite c_str_app by (intros H%mode_name_free; lia).
  cbn [mbind option_bind]. unfold csv_fields, csv_burst_of. cbn [csv_cells fmap list_fmap app join]. rewrite !app_nil_r. repeat (rewrite <- app_assoc; cbn [app]). reflexivity.
Qed.

Lemma csv_free cfg clock res c : c < 45 -> Forall (fun f => c ∉ f) (csv_fields cfg clock res).
Proof.
  intros Hc. unfold csv_fields, csv_cells. cbn [fmap list_fmap app]. apply Forall_cons. split; [intros H%mode_name_free; lia|].
  repeat (apply Forall_cons; split; [apply plain_free; [apply fixed_plain || apply natural_plain || apply integer_plain|done]|]). constructor.
Qed.

Lemma integer_atoi v : 0 <= v < 2 ^ 31 -> atoi (integer v) = Some v.
Proof.
  intros Hv. unfold integer. rewrite (proj2 (Z.ltb_ge v 0)), Z.abs_eq, natural_to_string by (unfold fits; lia). by apply atoi_to_string.
Qed.

(** The line for scripts round trips: with [--csv] the program prints one line of thirteen
    fields, and splitting it at the commas gives back the mode, the number of messages, the
    burst (1 unless in bursts), the percentiles and the maximum in nanoseconds to a
    twentieth, the exact number of allocations and whether the rate was sustainable; no
    value, infinite or not a number included, puts a comma or a line break into a field. *)
Theorem csv_roundtrip (cfg : @config double) (clock : CycleClock) (res : Results) (q : Z) :
  g_csv cfg = true -> 0 <= g_n_measure cfg < 2 ^ 31 -> 0 <= g_burst_size cfg < 2 ^ 31 -> runs clock q -> Forall (fits 64) (csv_cells (res_report res)) -> fits 64 (res_allocs res) ->
  exists line nss, print cfg clock res = Some (line ++ nl) /\ (10 ∉ line) /\
    read_csv line = Some (mkCsv (g_mode cfg) (g_n_measure cfg) (csv_burst_of cfg) nss (res_allocs res) (res_sustainable res)) /\
    Forall2 (Mains.near q) (csv_cells (res_report res)) nss.
Proof.
  intros Hcsv Hn Hb Hq Hc Ha. exists (join 44 (csv_fields cfg clock res)), ((fun c => read_fixed (fixed 1 (to_ns clock c))) <$> csv_cells (res_report res)).
  split; [unfold print; rewrite Hcsv; apply csv_text|]. split.
  { pose proof (csv_free cfg clock res 10 ltac:(lia)) as Hf. apply join_free; [lia|done]. }
  split.
  - unfold read_csv. rewrite split_join by (done || by apply csv_free). unfold csv_fields, csv_cells. cbn [fmap list_fmap app]. rewrite read_mode_name. cbn [mbind option_bind].
    rewrite !integer_atoi by (unfold csv_burst_of; repeat case_match; lia). cbn [mbind option_bind]. do 2 f_equal; [|by destruct (res_sustainable res)].
    destruct (natural_ok (res_allocs res)) as (_ & Hd & Hv). { unfold fits in Ha. assert (2 ^ 64 < 10 ^ 400) by (apply Z.ltb_lt; vm_compute; done). lia. }
    rewrite <- (app_nil_r (natural _)), digit_prefix_app by done. done.
  - apply Forall2_fmap_r. apply Forall_Forall2_diag. eapply Forall_impl; [exact Hc|]. intros c Hc'. destruct (fixed_read 1 (to_ns clock c) (ns_of q c)) as (v & Hv & Hpos & Herr); [by apply to_ns_fin|done|].
    exact (ex_intro _ v (conj Hv (conj Hpos Herr))).
Qed.

Definition demo_results : Results := mkResults (mkReport 300 600 900 1200 1500 3000) (of_Z 1, S754_infinity false) (of_Z 250) true 7.
Definition demo_config : @config double := mkConfig 1000 (of_Z 1000000) 64 16 18 true BURST.

Lemma csv_roundtrip_witness : exists line nss, print demo_config Mains.demo_clock demo_results = Some (line ++ nl) /\
  read_csv line = Some (mkCsv BURST 1000 64 nss 7 true) /\ length nss = 5%nat.
Proof.
  destruct (csv_roundtrip demo_config Mains.demo_clock demo_results Mains.demo_ns) as (line & nss & H1 & _ & H2 & H3).
  - reflexivity.
  - cbn [g_n_measure demo_config]. lia.
  - cbn [g_burst_size demo_config]. lia.
  - exact Mains.demo_runs.
  - unfold csv_cells, demo_results. cbn [res_report c_p50 c_p90 c_p99 c_p999 c_max]. repeat (constructor; [unfold fits; lia|]). constructor.
  - cbn [res_allocs demo_results]. unfold fits. lia.
  - exists line, nss. split; [exact H1|]. split; [exact H2|]. symmetry. exact (Forall2_length _ _ _ H3).
Defined.

(** The time at which the producer of the run under [ls] leaves the barrier, and the times at
    which the consumer finishes the messages after the warm-up. *)
Definition run_times {JS : Parser.DeltaJson} (lhs_first : bool) (msg0 : HotMsg) (n : nat) (g_offsets : list Z) (ls : list label) : option (list Z * list Z) :=
  g_pool ← Payload.build_payload_pool lhs_first;
  let prog := paced_program N_WARMUP g_offsets in
  Some (release_times prog g_pool N_WARMUP (N_WARMUP + n) new_market paced_clock0 msg0 ls,
        drop N_WARMUP (finish_times prog g_pool N_WARMUP (N_WARMUP + n) new_market paced_clock0 msg0 ls)).

(** The latencies of messages that arrive at [t0] plus their offsets and are finished at the
    times given. *)
Definition latencies_from (t0 : Z) (finished offs : list Z) : list Z := zip_with (fun e off => e - (t0 + off)) finished offs.

Section measured.
  Context {JS : Parser.DeltaJson} (HJ : Payload.reads_payloads JS) (lhs_first : bool) (msg0 : HotMsg) (n : nat) (Hn : 0 < Z.of_nat n <= 41990000).
  Context (offs : list Z) (Hlen : length offs = n) (T m : Z) (Hm : Forall (fun o => 0 <= o <= m) offs) (HT : 0 <= T /\ 0 <= m /\ T + 10000 + m < 2 ^ 64).
  Context (rs1 rs2 : list (list label)) (H1 : Forall (fun ls => round ls /\ Forall (early T) ls) rs1) (H2 : Forall (fun ls => round ls /\ Forall (late (T + 10000 + m)) ls) rs2).
  Context (Hl1 : Z.of_nat (length rs1) >= 7 * (10000 + Z.of_nat n) + 4) (Hl2 : Z.of_nat (length rs2) >= 7 * (10000 + Z.of_nat n) + 4) (Htimed : timed 0 (concat rs1 ++ concat rs2)).

(** The threads end, and what they leave in the array is what the schedule and the clock say. *)
Lemma paced_measured g_pool : Payload.build_payload_pool lhs_first = Some g_pool ->
  exists st a finished, run_paced g_pool N_WARMUP (N_WARMUP + n) msg0 offs (concat rs1 ++ concat rs2) = Some st /\ main_pc st = MDone /\
    run_times lhs_first msg0 n offs (concat rs1 ++ concat rs2) = Some ([a], finished) /\ length finished = n /\ length (g_latencies (cons st)) = n /\
    g_t0 (p_clock (prod st)) = a + 10000 /\ g_latencies (cons st) = latencies_from (a + 10000) finished offs /\ Forall (Z.le 0) (g_latencies (cons st)).
Proof.
  intros Hpool. pose proof N_WARMUP_eq as HW.
  destruct (paced_finishes HJ lhs_first g_pool N_WARMUP (N_WARMUP + n) ltac:(lia) ltac:(lia) msg0 Hpool offs ltac:(lia) T m rs1 rs2 Hm HT H1 H2 ltac:(lia) ltac:(lia))
    as (st & Hst & Hd & Htk & Hpast & Ht0 & _).
  destruct (paced_timed HJ lhs_first g_pool N_WARMUP (N_WARMUP + n) ltac:(lia) ltac:(lia) msg0 Hpool offs ltac:(lia) _ Htimed) as (st' & Hst' & Hll & _ & Hrel & HF & Hlat).
  rewrite Hst in Hst'. injection Hst' as <-. replace (N_WARMUP + n - N_WARMUP)%nat with n in Hll by lia. rewrite Htk in HF. destruct (Hrel Hpast) as (a & Ha & Et0). clear Hrel.
  assert (fits 64 a) as Hfa.
  { pose proof (readings_fit (paced_program N_WARMUP offs) g_pool N_WARMUP (N_WARMUP + n) (released N_WARMUP) _ 0 (init N_WARMUP (N_WARMUP + n) new_market paced_clock0 msg0) ltac:(lia) Htimed) as Hf.
    unfold release_times in Ha. rewrite Ha in Hf. by apply Forall_cons in Hf as [? _]. }
  assert (t0 (p_clock (prod st)) = a + 10000) as E0.
  { rewrite Et0. apply wrap_small. unfold fits in *. destruct (Z.lt_ge_cases (a + 10000) (2 ^ 64)); [lia|]. rewrite Et0 in Ht0. unfold wrap in Ht0.
    rewrite <- (Z.mod_add _ (-1)), Z.mod_small in Ht0 by lia. lia. }
  assert (t0_published st) as Hpub by (eapply (published_run g_pool N_WARMUP (N_WARMUP + n) offs); [|exact Hst]; done).
  set (F := finish_times (paced_program N_WARMUP offs) g_pool N_WARMUP (N_WARMUP + n) new_market paced_clock0 msg0 (concat rs1 ++ concat rs2)) in *.
  assert (forall k e off, drop N_WARMUP F !! k = Some e -> offs !! k = Some off -> a + 10000 + off <= e /\ g_latencies (cons st) !! k = Some (e - (a + 10000 + off))) as Hk.
  { intros k e off He Hoff. rewrite lookup_drop in He. destruct (Hlat (N_WARMUP + k)%nat e ltac:(lia) He) as (off' & Hoff' & Hle & Hl). replace (N_WARMUP + k - N_WARMUP)%nat with k in * by lia.
    rewrite Hoff in Hoff'. injection Hoff' as <-. pose proof (proj1 (Forall_lookup _ _) Hm k off Hoff) as Hb. simpl in Hb. rewrite E0, wrap_small in Hle, Hl by (unfold fits in *; lia). split; [lia|done]. }
  assert (length (drop N_WARMUP F) = n) as HFn by (rewrite length_drop; lia).
  exists st, a, (drop N_WARMUP F). split_and!; [done|done| |done|done|by rewrite Hpub| |].
  - unfold run_times. rewrite Hpool. cbn [mbind option_bind]. unfold F. by rewrite Ha.
  - apply (list_eq_same_length _ _ n); [unfold latencies_from; rewrite length_zip_with; lia|done|]. intros k x y _ Hx Hy. apply lookup_zip_with_Some in Hy as (e & off & -> & He & Hoff).
    destruct (Hk k e off He Hoff) as [_ E]. rewrite Hx in E. by injection E.
  - apply Forall_lookup. intros k x Hx. pose proof (lookup_lt_Some _ _ _ Hx) as Hlt. destruct (lookup_lt_is_Some_2 (drop N_WARMUP F) k ltac:(lia)) as [e He], (lookup_lt_is_Some_2 offs k ltac:(lia)) as [off Hoff].
    destruct (Hk k e off He Hoff) as [Hle E]. rewrite Hx in E. injection E as ->. lia.
Qed.
End measured.

(** C34. From the command line to the report: when the arguments parse, the rate is a finite
    positive number and with the burst and the clock within powers of two that keep every
    offset below [2 ^ 63] cycles, there are at most 41,990,000 messages, every [malloc] is
    answered and the threads run in enough rounds at times that do not go back, [main] is
    defined throughout, ends and prints a report (the option [--rate nan] is accepted too, but
    then the schedule is undefined, [Schedule.schedule_nan]).  The arrivals of its schedule
    never go back; they count from ten thousand cycles after the time at which the producer
    left the barrier; and the latencies are, message by message, the time at which the
    consumer finished the message in this run minus its scheduled arrival, no matter when it
    was sent, none of them negative.  The minimum, percentiles and maximum that are printed
    are those of these latencies, in order.  Arguments that do not parse, or whose values
    are refused, exit with status 2 and start nothing. *)
Theorem paced_main_reports {JS : Parser.DeltaJson} (HJ : Payload.reads_payloads JS) {P : Pthread} (env : Mains.Env) (Henv : Mains.mallocs_ok env) (atof : bytes -> double) (log : double -> double) (Hlog : log_ok log)
    (lhs_first : bool) (msg0 : HotMsg) (argv : list bytes) (clock : CycleClock) :
  (forall err, parse_args atof (fun x => dle x zero) argv (defaults (of_Z 1000000)) = Some (Exit2 err) ->
     forall ls, main atof log lhs_first msg0 env argv clock ls = Some (Exited2 err)) /\
  forall cfg rs1 rs2 r q gamma delta beta T,
    parse_args atof (fun x => dle x zero) argv (defaults (of_Z 1000000)) = Some (Run cfg) -> plays cfg clock rs1 rs2 r q gamma delta beta T ->
    exists offs out released finished,
      build_schedule log (Z.to_nat (g_n_measure cfg)) (g_rate_hz cfg) (g_mode cfg) (g_burst_size cfg) (cycles_per_ns clock) = Some offs /\
      StronglySorted Z.le offs /\ Z.of_nat (length offs) = g_n_measure cfg /\
      main atof log lhs_first msg0 env argv clock (concat rs1 ++ concat rs2) = Some (Printed out) /\
      run_times lhs_first msg0 (Z.to_nat (g_n_measure cfg)) offs (concat rs1 ++ concat rs2) = Some ([released], finished) /\ length finished = length offs /\
      out_t0 out = released + 10000 /\ out_latencies out = latencies_from (released + 10000) finished offs /\ Forall (Z.le 0) (out_latencies out) /\
      report (out_latencies out) = Some (res_report (out_results out)) /\ Mains.ordered (res_report (out_results out)) /\
      print cfg clock (out_results out) = Some (out_stdout out).
Proof.
  split; [intros err Hargs ls; unfold main; by rewrite Hargs|]. intros cfg rs1 rs2 r q gamma delta beta T Hargs [Hn Hrate Hga Hgap [Hde Hbu] (Hq & Hbe & Hqb) Hsize HT H1 H2 [Hl1 Hl2] Htimed].
  destruct (parse_args_valid atof (fun x => dle x zero) argv _ cfg Hargs) as ([Hn0 _] & [Hb0 Hb1] & Hr0 & _). rewrite (dle_zero_fin _ _ Hrate) in Hr0. apply Z.eqb_neq in Hr0.
  pose proof Hrate as [_ [Hr1 _]]. destruct (cycles_per_ns_fin clock q beta Hq Hbe Hqb) as (b & Hc & Hb). pose proof (pow_pos (gamma + delta + beta) ltac:(lia)) as Hp.
  destruct (schedule_defined log Hlog (Z.to_nat (g_n_measure cfg)) (g_rate_hz cfg) (cycles_per_ns clock) r b (g_burst_size cfg) gamma delta beta) with (mode := g_mode cfg)
    as (offs & Hoffs & Hlen & Hall & Hsort & _); try done; try lia.
  rewrite Z2Nat.id in Hall by lia. destruct (Payload.single_pool lhs_first) as (g_pool & Hpool & _).
  set (n := Z.to_nat (g_n_measure cfg)) in *. set (m := g_n_measure cfg * 2 ^ (gamma + delta + beta)) in *. assert (Z.of_nat n = g_n_measure cfg) as En by lia.
  destruct (paced_measured HJ lhs_first msg0 n ltac:(lia) offs Hlen T m Hall ltac:(lia) rs1 rs2 H1 H2 ltac:(lia) ltac:(lia) Htimed g_pool Hpool)
    as (st & a & finished & Hst & Hd & Htimes & Hfl & Hll & Et0 & Elat & Hpos).
  destruct Henv as (Hb' & Hd' & Hlb & Hld). destruct (results_ok clock (g_n_measure cfg) (Z.of_nat (length (Mains.e_during env))) st) as (res & Hres & Hrep & Hord); [lia|lia|].
  destruct (print_ok cfg clock res) as [text Htext], (paced_warnings_ok env cfg) as [w Hwarn].
  eexists offs, (mkOutput (g_latencies (cons st)) (g_t0 (p_clock (prod st))) res text w), a, finished. cbn [out_latencies out_t0 out_results out_stdout].
  split_and!; [done|done|lia| |done|lia|done|done|done|done|apply Hord..|done].
  unfold main. rewrite Hargs. cbn [mbind option_bind]. rewrite Hpool. cbn [mbind option_bind]. fold n. rewrite Hoffs. cbn [mbind option_bind]. rewrite Hst. cbn [mbind option_bind].
  rewrite decide_True by done. destruct (alloc_count_exact _ _ Hb' Hd' Hld Hlb) as [-> _]. cbn [mbind option_bind].
  rewrite Hres. cbn [mbind option_bind]. rewrite Htext. cbn [mbind option_bind]. rewrite Hwarn. done.
Qed.

Definition demo_argv : list bytes := [lit "--n"; lit "2"].
Definition demo_rounds (t : Z) : list (list label) := replicate (Z.to_nat 70018) (all_at t).

(** Two messages at the default rate on a counter of three cycles per nanosecond; and an
    argument that is not known. *)
Lemma paced_main_reports_witness :
  (exists out, main (JS := Payload.reference_json) (P := twenty_cores) (fun _ => zero) coarse_log true blank_msg Mains.demo_env demo_argv Mains.demo_clock
      (concat (demo_rounds 0) ++ concat (demo_rounds 534288)) = Some (Printed out) /\
    (exists offs released finished, run_times (JS := Payload.reference_json) true blank_msg 2 offs (concat (demo_rounds 0) ++ concat (demo_rounds 534288)) = Some ([released], finished) /\
       out_latencies out = latencies_from (released + 10000) finished offs) /\ Mains.ordered (res_report (out_results out))) /\
  main (JS := Payload.reference_json) (P := twenty_cores) (fun _ => zero) coarse_log true blank_msg Mains.demo_env [lit "--fast"] Mains.demo_clock [] = Some (Exited2 (codes "unknown arg --fast" ++ [10])).
Proof.
  assert (Mains.mallocs_ok Mains.demo_env) as Henv by exact Mains.demo_mallocs.
  split.
  - destruct (paced_main_reports (JS := Payload.reference_json) Payload.reference_reads (P := twenty_cores) Mains.demo_env Henv (fun _ => zero) coarse_log coarse_log_ok true blank_msg demo_argv Mains.demo_clock) as [_ H].
    destruct (H (mkConfig 2 (of_Z 1000000) 64 16 18 false UNIFORM) (demo_rounds 0) (demo_rounds 534288) (1000000 * 2 ^ 1074) Mains.demo_ns 10 6 2 0)
      as (offs & out & a & fs & _ & _ & _ & Hm & Hrt & _ & _ & Hlat & _ & _ & Hord & _); [reflexivity| |].
    2: { exists out. split; [exact Hm|]. split; [|exact Hord]. exists offs, a, fs. exact (conj Hrt Hlat). }
    split; cbn [g_n_measure g_rate_hz g_burst_size].
    + lia.
    + apply of_Z_fin. lia.
    + lia.
    + lia.
    + lia.
    + split; [exact Mains.demo_runs|]. split; [lia|]. apply rnd_ge; [lia|lia|apply (representable_dyadic 1 1072); lia|lia].
    + lia.
    + lia.
    + apply all_at_round; simpl; lia.
    + apply all_at_round; simpl; lia.
    + unfold demo_rounds. rewrite !length_replicate. lia.
    + unfold demo_rounds. apply Mains.beats_timed; [lia|]. rewrite <- (app_nil_r (concat _)). apply Mains.beats_timed; [lia|exact Logic.I].
  - apply (paced_main_reports (JS := Payload.reference_json) Payload.reference_reads (P := twenty_cores) Mains.demo_env Henv (fun _ => zero) coarse_log coarse_log_ok true blank_msg [lit "--fast"] Mains.demo_clock). reflexivity.
Defined.
End PacedMain.
